(* ===== verification/_CoqProject ===== *)
-Q . S2P
Prelude.v
Memory.v
Json.v
PgTree.v
PgPrint.v
PgQuery.v
Parser.v
LibPQ.v
Pool.v
ShardMap.v
Resources.v
Router.v
Keys.v
Sql.v
Rows.v
Store.v
Log.v
Config.v
ConfigText.v
Message.v
Event.v
Session.v
Wp.v
SessionSpec.v
Backend.v
Wire.v
BackendSpec.v
ScatterSpec.v
Frontend.v
Handlers.v
FrontendSpec.v
QuerySpec.v
Talk.v
Input.v
ProcessSpec.v
EndToEnd.v
System.v
Lifetime.v
Timer.v
Loop.v
Main.v
