(* ===== verification/Prelude.v ===== *)
(** * Sharegres: a verification development

    Sharegres is a proxy between PostgreSQL clients and several PostgreSQL servers
    (shards).  It is one process with an epoll loop.  A client speaks the PostgreSQL
    protocol to it; the proxy parses each statement with libpg_query, looks for the table
    and the shard key in the JSON text of the parse tree, decides which shard or shards
    hold the rows, sends the statement there over libpq and passes the results back.

    ** Parts of the program and where they are modelled

    Paths are below [src/src].  Definitions have the names of the C functions; a loop is a
    [Fixpoint] of its own, named in the file.

    - [Prelude], [Memory]: outcomes of C code ([res]: a value, undefined behaviour, or out
      of fuel), machine integers, bytes and C strings, [strtoll] and [printf] numbers;
      heap blocks with uninitialised bytes.
    - [Json] ([parser/json_util.c]): the navigator on NUL-terminated text; JSON trees and
      their text; every function against its reference on trees.
    - [PgTree], [PgPrint] ([src/third_party/libpg_query/src/pg_query_outfuncs_json.c] and
      its included files): parse trees, the JSON tree of each, and the printer that appends
      its text to a buffer.
    - [PgQuery] ([pg_query.c] and [pg_query_parse.c] of the same directory): a call of
      libpg_query with its memory contexts, settings, errors and the blocks of its result.
    - [Parser] ([parser/query_parser.c]): [parse_query] and the second pass over an INSERT,
      against reference extractions on trees.
    - [LibPQ]: the interface to libpq and to sockets over an abstract world, its documented
      laws, and a simulated world that satisfies them.
    - [Pool] ([pool/conn_pool.c]), [ShardMap] ([router/shard_map.c], [pool/health_check.c]):
      the pools on their arrays, key lookup, health checks.
    - [Resources]: who owns which connection; how the operations change it.
    - [Router] ([router/router.c]), [Keys], [Sql], [Rows], [Store]: the routing decision;
      keys as values; the path from syntax trees to the decision; what conditions mean for
      rows; the shards as one table.
    - [Log] ([log.c]), [Config], [ConfigText] ([config.c]): messages; the INI loader, and a
      printer of configuration files.
    - [Message] ([protocol/message.c]): message buffers, readers and writers.
    - [Event], [Timer], [Loop] ([event/event_loop.c], [event/timer.c], callbacks of
      [main.c]): registration, timers, the loop over batches of events.
    - [Session], [Backend] ([session/session.c]): the state of a session, its operations
      and its four callbacks, in a state monad over world, shard map and session.
    - [Frontend] ([protocol/fe_protocol.c], [executor/copy_handler.c]): messages of clients.
    - [Wp], [SessionSpec], [Wire], [BackendSpec], [ScatterSpec], [FrontendSpec],
      [QuerySpec], [Input], [ProcessSpec], [Handlers]: a calculus of weakest preconditions
      for session code, the messages a result stands for, the messages in a stream of
      bytes, and the rules for every operation and callback.
    - [Talk]: an automaton of what the proxy says to a client and when.
    - [EndToEnd]: a query from the bytes on the socket to its answer.
    - [System]: all sessions together as a step relation; [Lifetime]: one client's view of
      it.
    - [Main] ([main.c]): the command line, the start, the run and the end of the program.

    ** How state and effects are represented

    A pointer into a text is the rest of the text; a [Shard *] is an index into the map, so
    that rules, sessions and the map share the pools; a handler is reached through the
    session that contains it, and the sessions are on a heap, so that a freed session or
    connection can be touched only with the outcome [Ub].  Integers keep their width:
    [u32], [i32], [u64] and [i64] wrap where the code relies on it.  libpq, sockets, epoll,
    the clock, files and signals are operations of the classes [LibPQ], [OS], [Kernel] and
    [Host] over a world [W]; the theorems hold for every world that satisfies the laws, and
    the witnesses run the program in [SimWorld].  PostgreSQL's grammar is a parameter
    [raw_parser] that gives a list of statements or an error; the theorems on the routing of
    statements and on the program assume of it that the strings of its trees hold no NUL
    ([well_built]).  The theorems on sessions take the text of the tree as a function [pg]
    that gives the text of a well-formed tree or fails ([prints_trees]), which [Sql] proves
    of libpg_query over any such grammar ([query_tree_prints]).  The databases are not part
    of the program: the truth of a condition on a row is a parameter [holds], what a shard
    does with a statement a relation [run_on], and the theorems that speak of rows assume of
    them what PostgreSQL documents ([Rows.pg_conditions], [Store.sql_contract]).

    ** What the theorems show

    - Routing: a sequence of simple statements on a sharded table gives what it gives on one
      database ([Store]); a statement with a conjunctive WHERE clause, whose constants have
      the type of their column, is sent to the shards of all rows it accepts ([Rows]);
      statements with any clauses are routed by their key ([Sql]); a call of libpg_query is a function of the query and
      leaves nothing behind ([PgQuery]), and its text is that of a well-formed tree
      ([PgPrint]); the parser and the navigator implement extractions on trees ([Json],
      [Parser]); the decision table ([Router]); placement of keys ([ShardMap]).
    - Connections: pools neither lose nor share a connection ([Pool]); at any time every
      open connection is idle in one pool or belongs to one session, and when the sessions
      are gone all are idle ([System]).
    - Sessions: client messages that are not malformed are followed as the protocol asks
      ([ProcessSpec]); a query is sent to the decided shards that can be asked and to no
      others ([QuerySpec]); results reach the client completely
      and in order ([BackendSpec], [ScatterSpec], [SessionSpec]).
    - The whole path: a query that arrives in any pieces is sent to the shard that holds
      every row it asks for, or to all the shards it needs, and the client gets the answer
      and ReadyForQuery, with other sessions running in between ([EndToEnd]); as long as
      the events are [orderly], a client sees a conversation by the protocol and nothing
      else ([Main.clients_hear_the_protocol], by [Talk] and [Lifetime]).
    - Refinement: a round of the event loop is a sequence of steps of the abstract system
      ([Loop.loop_refines_system]).
    - The program: from any command line and configuration [main] exits or serves safely,
      and a signal ends it with the pools closed ([Main]).
    - Texts: configuration files and protocol messages round trip ([ConfigText],
      [Message]); timers fire once and in time ([Timer]).
    - The theorems of kind error state where the code goes wrong: the hypotheses of the
      theorems above exclude just these inputs.

    ** Assumptions of the safety theorems

    The kernel gives a new client a descriptor that no session has, and nobody but the
    proxy writes to its clients ([System.step], [KernelLaws]).  The steps of [System] and
    the rounds of [Loop] carry a condition on their events, because the code does not check
    it.  [System.allowed], for safety:
    - [input_ok]: the client's strings end inside their message, no length is 0xFFFFFFFF;
    - [no_copy]: a shard does not answer a scatter query with a COPY;
    - [no_unsolicited]: no result arrives on the session's own connection while it waits for
      a scatter query;
    - [fits_memory]: buffers stay far below the size of the address space.
    [System.orderly], for the conversation with the client, in addition:
    - [backend_fair]: complete results arrive only when they have been asked for, not in the
      middle of a COPY OUT, and at most one of them has rows;
    - [has_columns]: rows have columns.
    [Loop.round_ok] asks moreover that a session with an event in a batch has not been
    freed by an earlier event of the batch, and [columns_set] that a table that is not
    broadcast has a shard column.  [ProcessSpec.length_wrap_never_returns],
    [ScatterSpec.scatter_copy_never_returns], [System.unasked_result_ends_scatter],
    [Loop.batch_uses_freed_session] and [Router.router_decision_table] show what happens
    without them; [ProcessSpec.pipelined_query_lost] what happens to a query that is not the
    last input, and [Rows.quoted_key_misses_rows] to a constant that is not written in the
    type of its column.

    ** Fuel

    Loops that are not structural take fuel and return [Hang] without it; the callers give
    an amount that is proved to be enough: the length of the text for the navigator, 65 for
    doubling a 64-bit capacity ([grow_fuel]), the bytes in the receive buffer for the
    message loop, the bytes libpq still holds for the loops over results, the accept queue
    for [on_accept], the seconds in [tv_nsec] for the carry of a timespec.
    [event_loop_run] takes the number of rounds, which is not bounded; theorems on it
    speak of all numbers.  [Hang] in an error theorem means that no fuel is enough.

    ** Not modelled

    - PostgreSQL's grammar ([raw_parser]): the tables of a generated LALR parser and their
      actions, and the scanner.
    - The generated printing functions of the node types that have no constructor in
      [PgTree.Node]: such a node is a tag with a list of fields, one for each macro that the
      function uses.  The values of floats are their text, bitmap sets the list of their
      members.
    - The entry points of libpg_query that sharegres does not call (Protobuf, fingerprints,
      normalisation, deparsing, PL/pgSQL), and the redirection of stderr, which is not
      compiled.
    - In [src/src]: wrappers that only call another function ([my_strdup], [skip_ws]), and
      constants that no function uses.
    - Log output of functions other than [main] and [create_listener], the message of the
      signal handler included.  A signal is seen at the head of the loop ([take_signal]);
      the handler only clears the flag that is tested there, so that this is when it takes
      effect.
    - The range of the seconds of the monotonic clock: the milliseconds between two of its
      readings are far from the limits of [int64_t], and [Timer] has them in [Z].
    - Failing allocations, except that of a session; the memory that is only freed at the
      end of the program.
    - Connection procedures inside libpq: [PQconnectdb] is one step. *)
From stdpp Require Export base list gmap strings.
From Stdlib Require Export ZArith Lia Strings.Byte.

(** ** Outcomes of C code

    A piece of C code either returns a value, runs into undefined behaviour
    (an out-of-bounds read, a NULL dereference, a use after free), or has not
    finished within the number of loop iterations it was given.  [Hang] is only
    produced by definitions that take fuel. *)
Inductive res (A : Type) : Type :=
| Ret (a : A)
| Ub
| Hang.
Arguments Ret {A} a.
Arguments Ub {A}.
Arguments Hang {A}.

#[export] Instance res_ret : MRet res := fun A a => Ret a.
#[export] Instance res_bind : MBind res := fun A B k m =>
  match m with Ret a => k a | Ub => Ub | Hang => Hang end.
#[export] Instance res_fmap : FMap res := fun A B f m =>
  match m with Ret a => Ret (f a) | Ub => Ub | Hang => Hang end.

#[export] Instance res_eq_dec `{EqDecision A} : EqDecision (res A).
Proof. solve_decision. Defined.

Lemma bind_ret {A B} (k : A → res B) (a : A) : (Ret a ≫= k) = k a.
Proof. done. Qed.

Lemma bind_assoc {A B C} (m : res A) (f : A → res B) (g : B → res C) :
  (m ≫= λ a, f a ≫= g) = ((m ≫= f) ≫= g).
Proof. by destruct m. Qed.

Lemma bind_Ret_inv {A B} (k : A → res B) (m : res A) (b : B) :
  (m ≫= k) = Ret b → ∃ a, m = Ret a ∧ k a = Ret b.
Proof. destruct m; naive_solver. Qed.

(** A dereference: reading an absent cell is undefined behaviour. *)
Definition deref_opt {A} (o : option A) : res A :=
  match o with Some a => Ret a | None => Ub end.

(** ** Machine integers

    Values of C integer types are [Z]; a conversion to a [w]-bit type is written
    out.  [u64], [u32] are the unsigned conversions, [i64], [i32], [i16] the
    two's-complement ones of the platforms the program is built for. *)
Definition uwrap (w z : Z) : Z := z `mod` 2 ^ w.
Definition swrap (w z : Z) : Z := (z + 2 ^ (w - 1)) `mod` 2 ^ w - 2 ^ (w - 1).
Abbreviation u64 := (uwrap 64).
Abbreviation u32 := (uwrap 32).
Abbreviation i64 := (swrap 64).
Abbreviation i32 := (swrap 32).
Abbreviation i16 := (swrap 16).

Lemma uwrap_range w z : (0 ≤ w → 0 ≤ uwrap w z < 2 ^ w)%Z.
Proof. intros. apply Z.mod_pos_bound. lia. Qed.

Lemma uwrap_small w z : (0 ≤ z < 2 ^ w → uwrap w z = z)%Z.
Proof. intros. by apply Z.mod_small. Qed.

Lemma swrap_range w z : (0 < w → - 2 ^ (w - 1) ≤ swrap w z < 2 ^ (w - 1))%Z.
Proof.
  intros. unfold swrap.
  pose proof (Z.mod_pos_bound (z + 2 ^ (w - 1)) (2 ^ w) ltac:(lia)).
  assert (2 ^ w = 2 * 2 ^ (w - 1))%Z by (rewrite <- Z.pow_succ_r by lia; f_equal; lia).
  lia.
Qed.

Lemma swrap_small w z :
  (0 < w → - 2 ^ (w - 1) ≤ z < 2 ^ (w - 1) → swrap w z = z)%Z.
Proof.
  intros. unfold swrap.
  assert (2 ^ w = 2 * 2 ^ (w - 1))%Z by (rewrite <- Z.pow_succ_r by lia; f_equal; lia).
  rewrite Z.mod_small by lia. lia.
Qed.

Lemma swrap_uwrap w z : (0 < w → swrap w (uwrap w z) = swrap w z)%Z.
Proof.
  intros. unfold swrap, uwrap.
  rewrite Zplus_mod_idemp_l. done.
Qed.

(** ** Bytes and C strings *)
#[export] Instance byte_eq_dec : EqDecision byte := Byte.byte_eq_dec.
Abbreviation bytes := (list byte).

(** A string literal of the source, as the bytes before its NUL. *)
Definition bs (s : string) : bytes := String.list_byte_of_string s.
#[global] Arguments bs s%_string : simpl never.

Definition byte_Z (b : byte) : Z := Z.of_N (Byte.to_N b).
Definition Z_byte (z : Z) : byte :=
  match Byte.of_N (Z.to_N (z `mod` 256)) with Some b => b | None => "000"%byte end.

(** The value of a [char]: the program is built for x86-64, where it is signed. *)
Definition char_Z (b : byte) : Z := swrap 8 (byte_Z b).

Lemma byte_Z_range b : (0 ≤ byte_Z b < 256)%Z.
Proof. unfold byte_Z. pose proof (Byte.to_N_bounded b). lia. Qed.

Lemma byte_Z_of_Z z : byte_Z (Z_byte z) = (z `mod` 256)%Z.
Proof.
  unfold byte_Z, Z_byte.
  pose proof (Z.mod_pos_bound z 256 ltac:(lia)).
  destruct (Byte.of_N (Z.to_N (z `mod` 256))) eqn:E.
  - apply Byte.to_of_N in E. lia.
  - apply Byte.of_N_None_iff in E. lia.
Qed.

Lemma Z_byte_of_byte b : Z_byte (byte_Z b) = b.
Proof.
  unfold Z_byte. rewrite Z.mod_small by apply byte_Z_range.
  unfold byte_Z. by rewrite N2Z.id, Byte.of_to_N.
Qed.

Lemma byte_Z_inj b c : byte_Z b = byte_Z c → b = c.
Proof. intros H. by rewrite <- (Z_byte_of_byte b), H, Z_byte_of_byte. Qed.

(** [isspace] in the C locale: tab, newline, VT, FF, CR, space. *)
Definition isspace (b : byte) : bool :=
  match b with
  | "009" | "010" | "011" | "012" | "013" | " " => true
  | _ => false
  end%byte.

#[global] Arguments isspace : simpl never.

Definition isdigit (b : byte) : bool := bool_decide (48 ≤ byte_Z b ≤ 57)%Z.

(** A C string holds no NUL before its terminator. *)
Definition cstring (s : bytes) : Prop := "000"%byte ∉ s.
#[export] Instance cstring_dec s : Decision (cstring s).
Proof. unfold cstring. apply _. Defined.

(** ** Pointers into NUL-terminated strings

    A [const char *] into a NUL-terminated string is the suffix it points to,
    without the NUL.  [deref] reads [*p]; the terminator is read as NUL.
    [advance] is [p++]: moving past the terminator is undefined behaviour, since
    every place that does it goes on to read through the pointer. *)
Abbreviation cursor := (list byte).
Abbreviation NUL := ("000"%byte).
Abbreviation QUOTE := ("034"%byte).
Abbreviation BSLASH := ("092"%byte).
Definition deref (p : cursor) : byte := match p with [] => NUL | c :: _ => c end.
Definition advance (p : cursor) : res cursor :=
  match p with [] => Ub | _ :: q => Ret q end.

(** [if ( *p == c) p++;] *)
Definition skip_char (c : byte) (p : cursor) : cursor :=
  match p with
  | d :: q => if decide (d = c) then q else p
  | [] => []
  end.

(** The bytes of the C string that starts at offset 0 of a memory area whose
    known contents are [m]: running off its end is undefined behaviour. *)
Fixpoint read_cstr (m : bytes) : res bytes :=
  match m with
  | [] => Ub
  | c :: m' => if decide (c = NUL) then Ret [] else s ← read_cstr m'; Ret (c :: s)
  end.

Lemma read_cstr_app s m : cstring s → read_cstr (s ++ NUL :: m) = Ret s.
Proof.
  unfold cstring. induction s as [|c s IH]; intros Hs; simpl.
  - done.
  - rewrite decide_False by set_solver. rewrite IH by set_solver. done.
Qed.

(** ** [strtoll], [strtoull], [atoi] of the C library, base 10

    White space, an optional sign, digits; out-of-range values saturate
    ([strtoll], [strtoull]); [atoi] is [(int) strtol], as in glibc. *)
Fixpoint skip_space (p : cursor) : cursor :=
  match p with
  | c :: q => if isspace c then skip_space q else p
  | [] => []
  end.
Fixpoint digits_val (acc : Z) (p : cursor) : Z :=
  match p with
  | c :: q => if isdigit c then digits_val (10 * acc + (byte_Z c - 48)) q else acc
  | [] => acc
  end.
Definition strto_parse (p : cursor) : bool * Z :=
  match skip_space p with
  | c :: q =>
    if decide (c = "-"%byte) then (true, digits_val 0 q)
    else if decide (c = "+"%byte) then (false, digits_val 0 q)
    else (false, digits_val 0 (c :: q))
  | [] => (false, 0%Z)
  end.
Definition strtoll (p : cursor) : Z :=
  let '(neg, v) := strto_parse p in
  Z.max (- 2 ^ 63) (Z.min (if (neg : bool) then - v else v) (2 ^ 63 - 1)).
Definition strtoull (p : cursor) : Z :=
  let '(neg, v) := strto_parse p in
  if decide (2 ^ 64 ≤ v)%Z then 2 ^ 64 - 1
  else if (neg : bool) then u64 (- v) else v.
Definition atoi (p : cursor) : Z := i32 (strtoll p).

Lemma strtoll_range p : (- 2 ^ 63 ≤ strtoll p < 2 ^ 63)%Z.
Proof. unfold strtoll. destruct (strto_parse p). lia. Qed.

(** ** Big-endian integers ([htons], [htonl] and their inverses) *)
Fixpoint be_encode (n : nat) (z : Z) : bytes :=
  match n with
  | O => []
  | S k => Z_byte (Z.shiftr z (8 * Z.of_nat k)) :: be_encode k z
  end.
Definition be_decode (l : bytes) : Z :=
  foldl (fun a b => 256 * a + byte_Z b)%Z 0%Z l.

Lemma length_be_encode n z : length (be_encode n z) = n.
Proof. induction n; simpl; auto. Qed.

Lemma foldl_be_encode n z a :
  foldl (fun a b => 256 * a + byte_Z b)%Z a (be_encode n z)
  = (a * 2 ^ (8 * Z.of_nat n) + z `mod` 2 ^ (8 * Z.of_nat n))%Z.
Proof.
  revert a. induction n as [|n IH]; intros a.
  - simpl. rewrite Z.mod_1_r. lia.
  - cbn [be_encode foldl]. rewrite IH, byte_Z_of_Z, Z.shiftr_div_pow2 by lia.
    replace (8 * Z.of_nat (S n))%Z with (8 * Z.of_nat n + 8)%Z by lia.
    rewrite Z.pow_add_r by lia. change (2 ^ 8)%Z with 256%Z.
    rewrite (Z.rem_mul_r z (2 ^ (8 * Z.of_nat n)) 256) by lia. lia.
Qed.

(** Only the low bytes count. *)
Lemma be_encode_mod (n : nat) z : (be_encode n (z `mod` 2 ^ (8 * Z.of_nat n)) = be_encode n z)%Z.
Proof.
  assert (∀ k m : nat, (k ≤ m)%nat →
    be_encode k (z `mod` 2 ^ (8 * Z.of_nat m))%Z = be_encode k z) as H; [|by apply H].
  intros k m. induction k as [|k IH]; intros Hk; [done|]. cbn [be_encode].
  rewrite IH by lia. f_equal. unfold Z_byte. f_equal.
  assert (((z `mod` 2 ^ (8 * Z.of_nat m)) ≫ (8 * Z.of_nat k)) `mod` 256 =
    (z ≫ (8 * Z.of_nat k)) `mod` 256)%Z as E; [|by rewrite ?E].
  change 256%Z with (2 ^ 8)%Z. apply Z.bits_inj'. intros b Hb.
  destruct (decide (b < 8)%Z).
  - rewrite !Z.mod_pow2_bits_low, !Z.shiftr_spec, Z.mod_pow2_bits_low by lia. done.
  - by rewrite !Z.mod_pow2_bits_high by lia.
Qed.
Lemma be_decode_encode n z :
  be_decode (be_encode n z) = (z `mod` 2 ^ (8 * Z.of_nat n))%Z.
Proof. unfold be_decode. rewrite foldl_be_encode. lia. Qed.

Lemma be_decode_range l : (0 ≤ be_decode l < 2 ^ (8 * Z.of_nat (length l)))%Z.
Proof.
  unfold be_decode. induction l as [|b l IH] using rev_ind; [done|].
  rewrite foldl_app, length_app. simpl. pose proof (byte_Z_range b).
  replace (8 * Z.of_nat (length l + 1))%Z with (8 * Z.of_nat (length l) + 8)%Z by lia.
  rewrite Z.pow_add_r by lia. lia.
Qed.

(** ** Decimal numbers ([printf]) *)
#[local] Open Scope Z_scope.
Definition digit (d : Z) : byte := Z_byte (48 + d).
Fixpoint dec_digits (fuel : nat) (z : Z) : bytes :=
  match fuel with
  | O => []
  | S fuel => (if decide (z < 10) then [] else dec_digits fuel (z / 10)) ++ [digit (z `mod` 10)]
  end.
(** [%d], [%ld], [%lu] *)
Definition dec (z : Z) : bytes :=
  if decide (z < 0) then "-"%byte :: dec_digits (S (Z.to_nat (Z.log2 (- z)))) (- z)
  else dec_digits (S (Z.to_nat (Z.log2 z))) z.

Lemma byte_Z_digit d : 0 ≤ d < 10 → byte_Z (digit d) = 48 + d.
Proof. intros. unfold digit. rewrite byte_Z_of_Z. apply Z.mod_small. lia. Qed.
Lemma isdigit_digit d : 0 ≤ d < 10 → isdigit (digit d) = true.
Proof. intros. unfold isdigit. rewrite byte_Z_digit by done. apply bool_decide_true. lia. Qed.

Lemma digits_val_app acc l d t :
  Forall (λ c, isdigit c = true) l → 0 ≤ d < 10 →
  digits_val acc (l ++ digit d :: t) = digits_val (10 * digits_val acc l + d) t.
Proof.
  intros Hl Hd. revert acc. induction Hl as [|c l Hc Hl IH]; intros acc; simpl.
  - rewrite isdigit_digit, byte_Z_digit by done. f_equal. lia.
  - rewrite Hc. apply IH.
Qed.
Lemma dec_digits_isdigit fuel z : 0 ≤ z → Forall (λ c, isdigit c = true) (dec_digits fuel z).
Proof.
  revert z. induction fuel as [|fuel IH]; intros z Hz; simpl; [constructor|].
  apply Forall_app. split.
  - case_decide; [constructor|]. apply IH. apply Z.div_pos; lia.
  - repeat constructor. apply isdigit_digit. apply Z.mod_pos_bound. lia.
Qed.
Lemma dec_digits_val fuel z :
  0 ≤ z < 2 ^ Z.of_nat fuel → digits_val 0 (dec_digits fuel z) = z.
Proof.
  revert z. induction fuel as [|fuel IH]; intros z Hz; [simpl in *; lia|]. cbn [dec_digits].
  pose proof (Z.mod_pos_bound z 10). pose proof (Z.div_mod z 10).
  rewrite digits_val_app; [|case_decide; [constructor|apply dec_digits_isdigit; apply Z.div_pos; lia]|lia].
  simpl. case_decide.
  - simpl. rewrite Z.mod_small by lia. lia.
  - rewrite IH; [lia|]. rewrite Nat2Z.inj_succ, Z.pow_succ_r in Hz by lia.
    split; [apply Z.div_pos; lia|]. apply Z.div_lt_upper_bound; lia.
Qed.
Lemma dec_fuel z : 0 ≤ z → 0 ≤ z < 2 ^ Z.of_nat (S (Z.to_nat (Z.log2 z))).
Proof.
  intros Hz. split; [done|]. rewrite Nat2Z.inj_succ, Z2Nat.id by apply Z.log2_nonneg.
  destruct (decide (z = 0)) as [->|]; [done|]. apply Z.log2_spec. lia.
Qed.
Lemma digits_val_stop acc l t :
  Forall (λ c, isdigit c = true) l → isdigit (deref t) = false →
  digits_val acc (l ++ t) = digits_val acc l.
Proof.
  intros Hl Ht. revert acc. induction Hl as [|c l Hc Hl IH]; intros acc; simpl.
  - destruct t as [|c t]; [done|]. simpl in *. by rewrite Ht.
  - by rewrite Hc.
Qed.
Lemma isdigit_facts c : isdigit c = true → isspace c = false ∧ c ≠ "-"%byte ∧ c ≠ "+"%byte.
Proof. intros H. split_and!; [|by intros ->..]. revert H. by destruct c. Qed.

Lemma dec_digits_cons fuel z :
  0 ≤ z → ∃ c l, dec_digits (S fuel) z = c :: l ∧ isdigit c = true.
Proof.
  intros Hz. pose proof (dec_digits_isdigit (S fuel) z Hz) as Hf. revert Hf. simpl.
  destruct ((if decide (z < 10) then [] else _) ++ _) as [|c l] eqn:E.
  - by apply app_nil in E as [_ ?].
  - intros [? _]%Forall_cons. eauto.
Qed.

(** Reading a printed number, up to a character that is not a digit. *)
Lemma strto_parse_dec z t :
  isdigit (deref t) = false → strto_parse (dec z ++ t) = (bool_decide (z < 0), Z.abs z).
Proof.
  intros Ht. unfold dec, strto_parse. case_decide as Hz.
  - rewrite bool_decide_true, <- app_comm_cons by done. cbn [skip_space].
    change (isspace "-"%byte) with false. cbv iota. rewrite decide_True by done.
    rewrite digits_val_stop, dec_digits_val; [f_equal; lia|apply dec_fuel; lia| |done].
    apply dec_digits_isdigit. lia.
  - rewrite bool_decide_false by done.
    destruct (dec_digits_cons (Z.to_nat (Z.log2 z)) z) as (c & l & E & Hc); [lia|].
    pose proof (isdigit_facts c Hc) as (Hs & Hm & Hp).
    rewrite E. simpl app. cbn [skip_space]. rewrite Hs, !decide_False by done.
    rewrite (app_comm_cons l t c), <- E.
    rewrite digits_val_stop, dec_digits_val; [f_equal; lia|apply dec_fuel; lia| |done].
    apply dec_digits_isdigit. lia.
Qed.
Lemma strtoll_dec z t :
  - 2 ^ 63 ≤ z < 2 ^ 63 → isdigit (deref t) = false → strtoll (dec z ++ t) = z.
Proof.
  intros Hz Ht. unfold strtoll. rewrite strto_parse_dec by done. case_bool_decide; lia.
Qed.
Lemma strtoull_dec z t :
  0 ≤ z < 2 ^ 64 → isdigit (deref t) = false → strtoull (dec z ++ t) = z.
Proof.
  intros Hz Ht. unfold strtoull. rewrite strto_parse_dec by done.
  rewrite Z.abs_eq, decide_False, bool_decide_false by lia. done.
Qed.
Lemma atoi_dec z t :
  - 2 ^ 31 ≤ z < 2 ^ 31 → isdigit (deref t) = false → atoi (dec z ++ t) = z.
Proof. intros. unfold atoi. rewrite strtoll_dec by (done || lia). apply swrap_small; lia. Qed.
#[local] Close Scope Z_scope.

(** ** Automation *)
Create HintDb sharegres.
Create Rewrite HintDb sharegres.
#[export] Hint Resolve byte_Z_range length_be_encode : sharegres.
#[export] Hint Rewrite @bind_ret length_be_encode byte_Z_of_Z Z_byte_of_byte
  : sharegres.

(** Opens a successful run of monadic code into its steps. *)
Ltac res_inv :=
  repeat match goal with
  | H : (_ ≫= _) = Ret _ |- _ => apply bind_Ret_inv in H as (? & ? & ?)
  | H : Ret _ = Ret _ |- _ => injection H as H; subst
  | H : mret _ = Ret _ |- _ => injection H as H; subst
  | H : Ub = Ret _ |- _ => discriminate H
  | H : Hang = Ret _ |- _ => discriminate H
  end; simplify_eq/=.

(** Case analysis on every [match]/[if] of the hypotheses or the goal. *)
Ltac case_all :=
  repeat (case_match || case_decide || case_bool_decide); simplify_eq/=.
