(* ===== verification/Memory.v ===== *)
(** * Heap blocks

    The buffers of the program are blocks obtained from [malloc] and grown by
    [realloc].  A block is the list of its bytes; a byte that has never been
    written is [None], and reading it, like any access outside the block, is
    undefined behaviour.  Allocation does not fail in the model. *)
From S2P Require Import Prelude.
#[local] Set Warnings "-clear-no-such-hyp".
#[local] Open Scope Z_scope.

Abbreviation mem := (list (option byte)).

Definition malloc (n : Z) : mem := replicate (Z.to_nat n) None.
(** [realloc] keeps the common prefix. *)
Definition realloc (m : mem) (n : Z) : mem := resize (Z.to_nat n) None m.

(** [memcpy(m + off, l, |l|)] *)
Definition write_at (m : mem) (off : Z) (l : bytes) : res mem :=
  if decide (0 ≤ off ∧ off + Z.of_nat (length l) ≤ Z.of_nat (length m)) then
    Ret (take (Z.to_nat off) m ++ (Some <$> l) ++ drop (Z.to_nat off + length l) m)
  else Ub.

(** [n] bytes from [off] on. *)
Definition read_at (m : mem) (off : Z) (n : nat) : res bytes :=
  if decide (0 ≤ off ∧ off + Z.of_nat n ≤ Z.of_nat (length m)) then
    deref_opt (mapM id (take n (drop (Z.to_nat off) m)))
  else Ub.

(** The C string at the start of a block, without its NUL ([strlen] and the bytes). *)
Fixpoint cstr_in (m : mem) : res bytes :=
  match m with
  | [] => Ub
  | None :: _ => Ub
  | Some c :: m => if decide (c = NUL) then Ret [] else s ← cstr_in m; Ret (c :: s)
  end.
Definition cstr_at (m : mem) (off : Z) : res bytes :=
  if decide (0 ≤ off) then cstr_in (drop (Z.to_nat off) m) else Ub.

(** The growth loop [while (cap < need) cap *= 2;] on [size_t].  65 rounds are
    enough: after 64 doublings the capacity is 0 and stays 0 ([grow_stuck]). *)
Fixpoint grow (fuel : nat) (cap need : Z) : res Z :=
  match fuel with
  | O => Hang
  | S fuel => if decide (cap < need) then grow fuel (u64 (cap * 2)) need else Ret cap
  end.
Abbreviation grow_fuel := 65%nat.

(** ** Facts *)

Lemma mapM_id_Some (l : bytes) : mapM id (Some <$> l) = Some l.
Proof.
  induction l as [|c l IH]; [done|]. rewrite fmap_cons. cbn [mapM]. by rewrite IH.
Qed.

(** A block that starts with [l]. *)
Definition starts_with (m : mem) (l : bytes) : Prop := take (length l) m = Some <$> l.

Lemma starts_with_length m l : starts_with m l → (length l ≤ length m)%nat.
Proof.
  unfold starts_with. intros H. apply (f_equal length) in H.
  rewrite length_take, length_fmap in H. lia.
Qed.
Lemma starts_with_split m l : starts_with m l ↔ ∃ r, m = (Some <$> l) ++ r.
Proof.
  unfold starts_with. split.
  - intros H. exists (drop (length l) m). rewrite <- H. by rewrite take_drop.
  - intros [r ->]. rewrite take_app_length'; [done|by rewrite length_fmap].
Qed.
Lemma starts_with_app m l1 l2 : starts_with m (l1 ++ l2) → starts_with m l1.
Proof.
  rewrite !starts_with_split. intros [r ->]. rewrite fmap_app, <- app_assoc. by eexists.
Qed.

Lemma write_at_spec m l x :
  starts_with m l → (length l + length x ≤ length m)%nat →
  ∃ m', write_at m (Z.of_nat (length l)) x = Ret m' ∧ length m' = length m ∧
    starts_with m' (l ++ x).
Proof.
  intros [r ->]%starts_with_split Hle. rewrite length_app, length_fmap in Hle.
  unfold write_at. rewrite decide_True by (rewrite length_app, length_fmap; lia).
  eexists. split; [done|]. rewrite Nat2Z.id.
  rewrite take_app_length' by (by rewrite length_fmap).
  rewrite drop_app_ge by (rewrite length_fmap; lia).
  split.
  - rewrite !length_app, !length_fmap, length_drop. lia.
  - apply starts_with_split. exists (drop (length l + length x - length (Some <$> l)) r).
    by rewrite fmap_app, <- app_assoc.
Qed.

(** Overwriting inside the contents. *)
Lemma write_at_inside m l1 o l2 x :
  starts_with m (l1 ++ o ++ l2) → length x = length o →
  ∃ m', write_at m (Z.of_nat (length l1)) x = Ret m' ∧ length m' = length m ∧
    starts_with m' (l1 ++ x ++ l2).
Proof.
  intros [r ->]%starts_with_split Hx. unfold write_at.
  rewrite decide_True by (rewrite !length_app, !length_fmap, !length_app; lia).
  eexists. split; [done|]. rewrite Nat2Z.id, !fmap_app, <- !app_assoc.
  rewrite take_app_length' by (by rewrite length_fmap).
  rewrite drop_app_add', drop_app_length' by (by rewrite length_fmap).
  split; [rewrite !length_app, !length_fmap; lia|].
  apply starts_with_split. exists r. by rewrite !fmap_app, <- !app_assoc.
Qed.

Lemma read_at_spec m l1 x l2 :
  starts_with m (l1 ++ x ++ l2) → read_at m (Z.of_nat (length l1)) (length x) = Ret x.
Proof.
  intros [r ->]%starts_with_split. unfold read_at.
  rewrite decide_True by (rewrite !length_app, !length_fmap, !length_app; lia).
  rewrite Nat2Z.id, !fmap_app, <- !app_assoc.
  rewrite drop_app_length' by (by rewrite length_fmap).
  rewrite take_app_length' by (by rewrite length_fmap). by rewrite mapM_id_Some.
Qed.

Lemma cstr_in_spec s m : cstring s → cstr_in ((Some <$> s) ++ Some NUL :: m) = Ret s.
Proof.
  unfold cstring. induction s as [|c s IH]; intros Hs; [done|].
  rewrite fmap_cons, <- app_comm_cons. cbn [cstr_in].
  rewrite decide_False by set_solver. rewrite IH by set_solver. done.
Qed.
Lemma cstr_at_spec m l1 s l2 :
  starts_with m (l1 ++ s ++ NUL :: l2) → cstring s → cstr_at m (Z.of_nat (length l1)) = Ret s.
Proof.
  intros [r ->]%starts_with_split Hs. unfold cstr_at. rewrite decide_True by lia.
  rewrite Nat2Z.id, !fmap_app, <- !app_assoc.
  rewrite drop_app_length' by (by rewrite length_fmap). by apply cstr_in_spec.
Qed.

Lemma realloc_starts m l n :
  starts_with m l → Z.of_nat (length l) ≤ n → starts_with (realloc m n) l.
Proof.
  intros H Hn. pose proof (starts_with_length _ _ H) as Hl. unfold starts_with, realloc in *.
  rewrite take_resize_le by lia. 
  by rewrite resize_le.
Qed.
Lemma length_realloc m n : 0 ≤ n → Z.of_nat (length (realloc m n)) = n.
Proof. intros. unfold realloc. rewrite length_resize. lia. Qed.

(** Growth: the result is enough, and never more than twice the need. *)
Lemma grow_spec k cap need :
  0 < cap → need ≤ 2 ^ 63 → cap < 2 ^ 64 → need ≤ cap * 2 ^ Z.of_nat k →
  ∃ c, grow (S k) cap need = Ret c ∧ need ≤ c ∧ (c = cap ∨ c < 2 * need) ∧ cap ≤ c < 2 ^ 64.
Proof.
  revert cap. induction k as [|k IH]; intros cap Hc Hn Hc2 Hk.
  - simpl. rewrite decide_False by lia. exists cap. split; [done|lia].
  - change (grow (S (S k)) cap need)
      with (if decide (cap < need) then grow (S k) (u64 (cap * 2)) need else Ret cap).
    case_decide as Hlt; [|exists cap; split; [done|lia]].
    rewrite Nat2Z.inj_succ, Z.pow_succ_r in Hk by lia.
    assert (0 < cap * 2 < 2 ^ 64) by lia. rewrite uwrap_small by lia.
    destruct (IH (cap * 2)) as (c & -> & ?); [lia..|]. exists c. split; [done|]. lia.
Qed.
Lemma grow_enough cap need :
  0 < cap < 2 ^ 64 → need ≤ 2 ^ 63 →
  ∃ c, grow grow_fuel cap need = Ret c ∧ need ≤ c ∧ (c = cap ∨ c < 2 * need) ∧ cap ≤ c < 2 ^ 64.
Proof.
  intros. apply (grow_spec 64); [lia..|]. assert (2 ^ 64 ≤ cap * 2 ^ Z.of_nat 64) by nia. lia.
Qed.
(** A zero capacity is never enough: the loop does not end. *)
Lemma grow_stuck fuel need : 0 < need → grow fuel 0 need = Hang.
Proof. intros. induction fuel as [|fuel IH]; [done|]. simpl. rewrite decide_True by lia. done. Qed.
