(* ===== verification/Json.v ===== *)
(** * The JSON navigator ([src/src/parser/json_util.c])

    The navigator walks the text of a libpg_query parse tree with [const char *]
    cursors.  The definitions of the first part follow the C functions line by
    line, including the reads past the terminator and the loops that do not end
    on malformed text.  The second part defines JSON trees and their compact text
    (what libpg_query prints), and shows that on such text every navigator
    function implements the corresponding operation on trees. *)
From S2P Require Import Prelude.

(** ** The C functions *)

(** [json_skip_whitespace] *)
Fixpoint json_skip_whitespace (p : cursor) : cursor :=
  match p with
  | c :: q => if isspace c then json_skip_whitespace q else p
  | [] => []
  end.

(** The loop of [skip_string] and of [json_get_string]: up to the closing quote
    or the terminator.  A backslash right before the terminator moves the cursor
    past it. *)
Fixpoint string_end (p : cursor) : res cursor :=
  match p with
  | [] => Ret []
  | c :: q =>
    if decide (c = NUL) then Ret p
    else if decide (c = QUOTE) then Ret p
    else if decide (c = BSLASH)
    then match q with [] => Ub | _ :: q' => string_end q' end
    else string_end q
  end.

(** [skip_string] *)
Definition skip_string (p : cursor) : res cursor :=
  if decide (deref p = QUOTE) then
    p ← advance p;
    p ← string_end p;
    Ret (skip_char QUOTE p)
  else Ret p.

(** The loops of [json_skip_value] over an object ([opn] is the opening brace,
    [cls] the closing one) and over an array (square brackets): braces of the
    other kind are not counted. *)
Fixpoint skip_nested (fuel : nat) (opn cls : byte) (depth : nat) (p : cursor)
    : res cursor :=
  match fuel with
  | O => Hang
  | S fuel =>
    if decide (deref p = NUL) then Ret p
    else if decide (depth = 0) then Ret p
    else if decide (deref p = opn) then
      p ← advance p; skip_nested fuel opn cls (S depth) p
    else if decide (deref p = cls) then
      p ← advance p; skip_nested fuel opn cls (pred depth) p
    else if decide (deref p = QUOTE) then
      p ← skip_string p; skip_nested fuel opn cls depth p
    else
      p ← advance p; skip_nested fuel opn cls depth p
  end.

(** The default branch of [json_skip_value]: a number or a keyword. *)
Definition scalar_stop (c : byte) : bool :=
  bool_decide (c = NUL) || bool_decide (c = ","%byte) || bool_decide (c = "}"%byte)
  || bool_decide (c = "]"%byte) || isspace c.
#[global] Arguments scalar_stop : simpl never.
Fixpoint skip_scalar (p : cursor) : cursor :=
  match p with
  | c :: q => if scalar_stop c then p else skip_scalar q
  | [] => []
  end.

(** [json_skip_value]; each iteration of a loop consumes a character, so the
    length of the text bounds the number of iterations. *)
Definition json_skip_value (p : cursor) : res cursor :=
  let p := json_skip_whitespace p in
  if decide (deref p = QUOTE) then skip_string p
  else if decide (deref p = "{"%byte) then
    p ← advance p; skip_nested (S (length p)) "{"%byte "}"%byte 1 p
  else if decide (deref p = "["%byte) then
    p ← advance p; skip_nested (S (length p)) "["%byte "]"%byte 1 p
  else Ret (skip_scalar p).

(** [strncmp(p + 1, key, keylen) == 0 && p[1 + keylen] == ] a double quote, at a
    cursor [p] on the opening quote. *)
Definition key_at (p : cursor) (key : bytes) : bool :=
  let q := tail p in
  bool_decide (take (length key) q = key)
  && bool_decide (deref (drop (length key) q) = QUOTE).

(** The [while] loop of [json_find_key]. *)
Fixpoint find_key_loop (fuel : nat) (json : cursor) (key : bytes)
    : res (option cursor) :=
  match fuel with
  | O => Hang
  | S fuel =>
    if decide (deref json = NUL ∨ deref json = "}"%byte) then Ret None
    else
      let json := json_skip_whitespace json in
      if decide (deref json = QUOTE) then
        if key_at json key then
          let json := drop (2 + length key) json in
          let json := skip_char ":"%byte (json_skip_whitespace json) in
          Ret (Some (json_skip_whitespace json))
        else
          json ← skip_string json;
          let json := skip_char ":"%byte (json_skip_whitespace json) in
          json ← json_skip_value (json_skip_whitespace json);
          find_key_loop fuel (skip_char ","%byte (json_skip_whitespace json)) key
      else Ret None
  end.

(** [json_find_key].  No caller passes a NULL [json] or [key], so the guard that
    returns NULL on one is not part of the model, here and below. *)
Definition json_find_key (json : cursor) (key : bytes) : res (option cursor) :=
  let json := json_skip_whitespace json in
  if decide (deref json = "{"%byte) then
    json ← advance json;
    find_key_loop (S (length json)) json key
  else Ret None.

(** [json_get_string]: the characters up to the closing quote, not unescaped. *)
Definition json_get_string (json : cursor) : res (option bytes) :=
  let json := json_skip_whitespace json in
  if decide (deref json = QUOTE) then
    start ← advance json;
    stop ← string_end start;
    Ret (Some (take (length start - length stop) start))
  else Ret None.

(** [json_get_int] *)
Definition json_get_int (json : cursor) : Z := strtoll (json_skip_whitespace json).

(** [json_starts_with_key] *)
Definition json_starts_with_key (json : cursor) (key : bytes) : res bool :=
  let json := json_skip_whitespace json in
  if decide (deref json = "{"%byte) then
    json ← advance json;
    let json := json_skip_whitespace json in
    if decide (deref json = QUOTE) then Ret (key_at json key) else Ret false
  else Ret false.

(** [json_find_key_recursive] and its two loops.  The array loop does not advance
    on a closing brace, so it need not end on malformed text: the fuel is an
    argument. *)
Fixpoint find_key_rec (fuel : nat) (json : cursor) (key : bytes)
    : res (option cursor) :=
  match fuel with
  | O => Hang
  | S fuel =>
    let json := json_skip_whitespace json in
    if decide (deref json = "{"%byte) then
      val ← json_find_key json key;
      match val with
      | Some v => Ret (Some v)
      | None => p ← advance json; find_key_rec_obj fuel p key
      end
    else if decide (deref json = "["%byte) then
      p ← advance json; find_key_rec_arr fuel p key
    else Ret None
  end
with find_key_rec_obj (fuel : nat) (p : cursor) (key : bytes)
    : res (option cursor) :=
  match fuel with
  | O => Hang
  | S fuel =>
    if decide (deref p = NUL ∨ deref p = "}"%byte) then Ret None
    else
      let p := json_skip_whitespace p in
      if decide (deref p = QUOTE) then
        p ← skip_string p;
        let p := json_skip_whitespace (skip_char ":"%byte (json_skip_whitespace p)) in
        found ← find_key_rec fuel p key;
        match found with
        | Some q => Ret (Some q)
        | None =>
          p ← json_skip_value p;
          find_key_rec_obj fuel (skip_char ","%byte (json_skip_whitespace p)) key
        end
      else p ← advance p; find_key_rec_obj fuel p key
  end
with find_key_rec_arr (fuel : nat) (p : cursor) (key : bytes)
    : res (option cursor) :=
  match fuel with
  | O => Hang
  | S fuel =>
    if decide (deref p = NUL ∨ deref p = "]"%byte) then Ret None
    else
      let p := json_skip_whitespace p in
      if decide (deref p = "]"%byte) then Ret None
      else
        found ← find_key_rec fuel p key;
        match found with
        | Some q => Ret (Some q)
        | None =>
          p ← json_skip_value p;
          find_key_rec_arr fuel (skip_char ","%byte (json_skip_whitespace p)) key
        end
  end.

(** [json_find_key_recursive] with the fuel that suffices for the text of a JSON
    tree: two calls per character. *)
Definition json_find_key_recursive (json : cursor) (key : bytes)
    : res (option cursor) :=
  find_key_rec (2 * length json + 2) json key.

(** The scan of [json_find_all_values]; [results] and its capacity are the list
    it returns (allocation is assumed to succeed). *)
Fixpoint find_all_loop (fuel : nat) (p : cursor) (key : bytes)
    : res (list cursor) :=
  match fuel with
  | O => Hang
  | S fuel =>
    if decide (deref p = NUL) then Ret []
    else if decide (deref p = QUOTE) then
      let after := json_skip_whitespace (drop (2 + length key) p) in
      if key_at p key && bool_decide (deref after = ":"%byte) then
        let val := json_skip_whitespace (tail after) in
        q ← json_skip_value val;
        rest ← find_all_loop fuel q key;
        Ret (val :: rest)
      else
        p ← skip_string p; find_all_loop fuel p key
    else p ← advance p; find_all_loop fuel p key
  end.
Definition json_find_all_values (json : cursor) (key : bytes) : res (list cursor) :=
  find_all_loop (S (length json)) json key.

(** ** JSON trees and their text *)
Unset Elimination Schemes.
Inductive json : Type :=
| JTok (s : bytes)                    (* a number, [true], [false] or [null] *)
| JStr (s : bytes)                    (* the characters between the quotes, escaped *)
| JArr (l : list json)
| JObj (l : list (bytes * json)).     (* the keys are escaped as well *)
Set Elimination Schemes.

Section json_ind.
Context (P : json → Prop).
Hypothesis HTok : ∀ s, P (JTok s).
Hypothesis HStr : ∀ s, P (JStr s).
Hypothesis HArr : ∀ l, Forall P l → P (JArr l).
Hypothesis HObj : ∀ l, Forall (λ kv, P kv.2) l → P (JObj l).
Fixpoint json_nested_ind (j : json) : P j :=
  match j with
  | JTok s => HTok s
  | JStr s => HStr s
  | JArr l => HArr l ((fix go l : Forall P l :=
      match l with
      | [] => List.Forall_nil _
      | x :: r => List.Forall_cons _ x r (json_nested_ind x) (go r)
      end) l)
  | JObj l => HObj l ((fix go l : Forall (λ kv, P kv.2) l :=
      match l with
      | [] => List.Forall_nil _
      | x :: r => List.Forall_cons _ x r (json_nested_ind x.2) (go r)
      end) l)
  end.
End json_ind.

Fixpoint join (l : list bytes) : bytes :=
  match l with
  | [] => []
  | [x] => x
  | x :: r => x ++ ","%byte :: join r
  end.
Definition quoted (s : bytes) : bytes := QUOTE :: s ++ [QUOTE].
Definition member_text (k v : bytes) : bytes := quoted k ++ ":"%byte :: v.

(** The compact text of a tree, as [pg_query_nodes_to_json] prints it. *)
Fixpoint json_text (j : json) : bytes :=
  match j with
  | JTok s => s
  | JStr s => quoted s
  | JArr l => "["%byte :: join (map json_text l) ++ ["]"%byte]
  | JObj l => "{"%byte :: join (map (λ kv, member_text kv.1 (json_text kv.2)) l)
                ++ ["}"%byte]
  end.
Definition elems_text (l : list json) : bytes := join (map json_text l).
Definition members_text (l : list (bytes * json)) : bytes :=
  join (map (λ kv, member_text kv.1 (json_text kv.2)) l).

(** Well-formed trees: strings and keys are properly escaped, scalars hold no
    structural character. *)
Fixpoint esc_ok (s : bytes) : bool :=
  match s with
  | [] => true
  | c :: q =>
    if decide (c = NUL ∨ c = QUOTE) then false
    else if decide (c = BSLASH)
    then match q with [] => false | d :: q' => bool_decide (d ≠ NUL) && esc_ok q' end
    else esc_ok q
  end.
Definition tok_char (c : byte) : bool :=
  negb (scalar_stop c) && bool_decide (c ≠ QUOTE) && bool_decide (c ≠ "{"%byte)
  && bool_decide (c ≠ "["%byte).
#[global] Arguments tok_char : simpl never.
Definition tok_ok (s : bytes) : bool := bool_decide (s ≠ []) && forallb tok_char s.
Fixpoint json_wf (j : json) : bool :=
  match j with
  | JTok s => tok_ok s
  | JStr s => esc_ok s
  | JArr l => forallb json_wf l
  | JObj l => forallb (λ kv, esc_ok kv.1 && json_wf kv.2) l
  end.

(** What follows a value in compact text. *)
Definition sep_char (c : byte) : bool :=
  bool_decide (c = ","%byte) || bool_decide (c = "}"%byte) || bool_decide (c = "]"%byte).
#[global] Arguments sep_char : simpl never.
Definition value_end (t : cursor) : Prop :=
  match t with [] => True | c :: _ => Is_true (sep_char c) end.

(** A cursor on the text of a tree, at the start of some other text. *)
Definition starts_at (p : cursor) (j : json) : Prop :=
  ∃ t, p = json_text j ++ t ∧ value_end t.

(** The text behind a value inside a well-formed tree: closing braces and further
    elements and members. *)
Inductive rest_ok : cursor → Prop :=
| rest_nil : rest_ok []
| rest_close_obj t : rest_ok t → rest_ok ("}"%byte :: t)
| rest_close_arr t : rest_ok t → rest_ok ("]"%byte :: t)
| rest_elem j t : json_wf j → rest_ok t → rest_ok (","%byte :: json_text j ++ t)
| rest_member k j t : esc_ok k → json_wf j → rest_ok t →
    rest_ok (","%byte :: member_text k (json_text j) ++ t).

(** A cursor on a subtree of a well-formed tree. *)
Definition points_to (p : cursor) (j : json) : Prop :=
  ∃ t, p = json_text j ++ t ∧ rest_ok t.

(** *** Tree operations that the navigator implements *)
Fixpoint obj_lookup (k : bytes) (l : list (bytes * json)) : option json :=
  match l with
  | [] => None
  | kv :: r => if decide (kv.1 = k) then Some kv.2 else obj_lookup k r
  end.
Fixpoint first_some {A} (l : list (option A)) : option A :=
  match l with
  | [] => None
  | Some a :: _ => Some a
  | None :: r => first_some r
  end.
Fixpoint tree_search (k : bytes) (j : json) : option json :=
  match j with
  | JObj l =>
    match obj_lookup k l with
    | Some v => Some v
    | None => first_some (map (λ kv, tree_search k kv.2) l)
    end
  | JArr l => first_some (map (tree_search k) l)
  | _ => None
  end.

(** The values of a key anywhere in a tree, in text order; matched values are not
    searched. *)
Fixpoint tree_collect (k : bytes) (j : json) : list json :=
  match j with
  | JObj l =>
    concat (map (λ kv, if decide (kv.1 = k) then [kv.2] else tree_collect k kv.2) l)
  | JArr l => concat (map (tree_collect k) l)
  | _ => []
  end.

(** ** Shared lemmas *)
Lemma skip_ws_nonspace p : isspace (deref p) = false → json_skip_whitespace p = p.
Proof. destruct p as [|c p]; simpl; [done|]. by intros ->. Qed.

Lemma string_end_app s t :
  esc_ok s → string_end (s ++ QUOTE :: t) = Ret (QUOTE :: t).
Proof.
  revert s. fix IH 1. intros [|c s]; simpl; [done|].
  destruct (decide (c = NUL ∨ c = QUOTE)) as [|Hc]; [done|].
  rewrite (decide_False (P:=c = NUL)), (decide_False (P:=c = QUOTE)) by tauto.
  destruct (decide (c = BSLASH)).
  - destruct s as [|d s]; simpl; [done|]. intros [_ ?]%andb_prop_elim. by apply IH.
  - apply IH.
Qed.

Lemma skip_string_quoted s t : esc_ok s → skip_string (quoted s ++ t) = Ret t.
Proof.
  intros Hs. unfold skip_string, quoted. simpl.
  rewrite <- app_assoc. simpl. by rewrite string_end_app.
Qed.

Lemma join_cons x r t :
  join (x :: r) ++ t = x ++ match r with [] => t | _ => ","%byte :: join r ++ t end.
Proof. destruct r; simpl; [done|]. by rewrite <- app_assoc. Qed.

(** Reading the separator after an element leaves the text of the others. *)
Lemma skip_comma r t c :
  isspace c = false → c ≠ ","%byte →
  skip_char ","%byte (json_skip_whitespace
    match r with [] => c :: t | _ => ","%byte :: join r ++ c :: t end)
  = join r ++ c :: t.
Proof.
  intros Hs Hc. destruct r; simpl.
  - rewrite Hs. simpl. by rewrite decide_False.
  - done.
Qed.

Lemma rest_ok_end t : rest_ok t → value_end t.
Proof. by destruct 1. Qed.

Lemma rest_ok_elems l t :
  forallb json_wf l → rest_ok t →
  rest_ok match map json_text l with
    [] => "]"%byte :: t | _ => ","%byte :: join (map json_text l) ++ "]"%byte :: t end.
Proof.
  intros Hl Ht. induction l as [|j l IH]; [by constructor|].
  apply andb_prop_elim in Hl as [Hj Hl]. cbn [map]. rewrite join_cons.
  constructor; [done|]. auto.
Qed.

Lemma rest_ok_members (l : list (bytes * json)) t :
  forallb (λ kv, esc_ok kv.1 && json_wf kv.2) l → rest_ok t →
  let ms := map (λ kv, member_text kv.1 (json_text kv.2)) l in
  rest_ok match ms with
    [] => "}"%byte :: t | _ => ","%byte :: join ms ++ "}"%byte :: t end.
Proof.
  intros Hl Ht. induction l as [|kv l IH]; [by constructor|].
  apply andb_prop_elim in Hl as [[Hk Hj]%andb_prop_elim Hl]. cbn [map].
  rewrite join_cons. constructor; [done..|]. auto.
Qed.

#[export] Hint Resolve rest_ok_end : sharegres.

(** The first character of a value's text. *)
Definition value_start (c : byte) : bool :=
  bool_decide (c = QUOTE) || bool_decide (c = "{"%byte) || bool_decide (c = "["%byte)
  || tok_char c.

Lemma tok_ok_cons s : tok_ok s → ∃ c q, s = c :: q ∧ tok_char c ∧ forallb tok_char q.
Proof.
  intros [Hs Hq]%andb_prop_elim. destruct s as [|c q]; [done|].
  apply andb_prop_elim in Hq as [? ?]. by exists c, q.
Qed.

Lemma json_text_start j : json_wf j → ∃ c q, json_text j = c :: q ∧ value_start c.
Proof.
  destruct j as [s|s|l|l]; simpl; intros H.
  - apply tok_ok_cons in H as (c & q & -> & Hc & _). exists c, q. split; [done|].
    unfold value_start. destruct (tok_char c); [|done]. by rewrite orb_true_r.
  - unfold quoted. eauto.
  - eauto.
  - eauto.
Qed.

Lemma value_start_facts c : value_start c →
  isspace c = false ∧ c ≠ NUL ∧ c ≠ ","%byte ∧ c ≠ "}"%byte ∧ c ≠ "]"%byte.
Proof. 
  intros H. repeat split; try (intros ->; exact H).
  destruct (isspace c) eqn:E; [|done]. by destruct c.
Qed.

Lemma skip_scalar_tok s t : forallb tok_char s → value_end t → skip_scalar (s ++ t) = t.
Proof.
  intros Hs Ht. induction s as [|c s IH]; simpl in *.
  - destruct t as [|d t]; simpl in *; [done|].
    unfold sep_char in Ht. unfold scalar_stop.
    by destruct (bool_decide (d = NUL)), (bool_decide (d = ","%byte)),
      (bool_decide (d = "}"%byte)), (bool_decide (d = "]"%byte)).
  - apply andb_prop_elim in Hs as [Hc Hs]. rewrite IH by done.
    unfold tok_char in Hc. by destruct (scalar_stop c).
Qed.

Lemma drop_quoted k t : drop (S (S (length k))) (quoted k ++ t) = t.
Proof.
  unfold quoted. simpl. rewrite <- app_assoc, (drop_app_ge k) by lia.
  by replace (S (length k) - length k) with 1 by lia.
Qed.

(** ** [json_skip_value] skips exactly one value *)
Inductive brace : byte → byte → Prop :=
| curly : brace "{"%byte "}"%byte
| square : brace "["%byte "]"%byte.

(** Text that the loop runs over without changing its depth. *)
Definition skips (opn cls : byte) (s : bytes) : Prop :=
  ∃ k, k ≤ length s ∧ ∀ f d t, d ≠ 0 →
    skip_nested (k + f) opn cls d (s ++ t) = skip_nested f opn cls d t.

Section skips.
Context {opn cls : byte}.
Local Abbreviation skips := (skips opn cls).

Lemma skips_nil : skips [].
Proof. exists 0. done. Qed.

Lemma skips_app s1 s2 : skips s1 → skips s2 → skips (s1 ++ s2).
Proof.
  intros (k1 & Hk1 & H1) (k2 & Hk2 & H2). exists (k1 + k2).
  rewrite length_app. split; [lia|]. intros f d t Hd.
  rewrite <- Nat.add_assoc, <- app_assoc, H1, H2 by done. done.
Qed.

Lemma skips_char c : c ≠ NUL → c ≠ opn → c ≠ cls → c ≠ QUOTE → skips [c].
Proof.
  intros. exists 1. split; [done|]. intros f d t Hd. simpl.
  by rewrite !decide_False by done.
Qed.

Lemma skips_chars s :
  Forall (λ c, c ≠ NUL ∧ c ≠ opn ∧ c ≠ cls ∧ c ≠ QUOTE) s → skips s.
Proof.
  induction 1 as [|c s (?&?&?&?) _ IH]; [apply skips_nil|].
  apply (skips_app [c]); [by apply skips_char|done].
Qed.

Lemma skips_quoted s : brace opn cls → esc_ok s → skips (quoted s).
Proof.
  intros Hb Hs. exists 1. split; [simpl; lia|]. intros f d t Hd.
  cbn [skip_nested Nat.add].
  rewrite skip_string_quoted by done. simpl.
  rewrite !decide_False by (done || by inversion Hb). done.
Qed.

Lemma skips_nest s : brace opn cls → skips s → skips (opn :: s ++ [cls]).
Proof.
  intros Hb (k & Hk & H). exists (S (k + 1)). split.
  { simpl. rewrite length_app. simpl. lia. }
  intros f d t Hd. cbn [skip_nested Nat.add deref app advance].
  rewrite (decide_False (P:=opn = NUL)), (decide_False (P:=d = 0)), decide_True
    by (done || by inversion Hb).
  simpl. rewrite <- Nat.add_assoc, <- app_assoc, H by done. simpl.
  rewrite !decide_False by (done || by inversion Hb).
  rewrite decide_True by done. done.
Qed.

Lemma skips_join {A} (g : A → bytes) l :
  brace opn cls → (∀ x, x ∈ l → skips (g x)) → skips (join (map g l)).
Proof.
  intros Hb. induction l as [|x l IH]; intros Hl; [apply skips_nil|].
  destruct l as [|x' l]; [apply Hl; set_solver|].
  apply skips_app; [apply Hl; set_solver|].
  apply (skips_app [","%byte]); [by apply skips_char; inversion Hb|].
  apply IH. set_solver.
Qed.
End skips.

Lemma skips_bracket opn cls o c s :
  brace opn cls → brace o c → skips opn cls s → skips opn cls (o :: s ++ [c]).
Proof.
  intros Hb1 Hb2 Hs. destruct (decide (o = opn)) as [->|].
  - assert (c = cls) as -> by (by inversion Hb1; inversion Hb2; simplify_eq).
    by apply skips_nest.
  - apply (skips_app [o]); [|apply skips_app; [done|]];
      apply skips_char; inversion Hb1; inversion Hb2; by simplify_eq.
Qed.

Lemma skips_member opn cls k v :
  brace opn cls → esc_ok k → skips opn cls v → skips opn cls (member_text k v).
Proof.
  intros Hb Hk Hv. apply skips_app; [by apply skips_quoted|].
  apply (skips_app [":"%byte]); [by apply skips_char; inversion Hb|done].
Qed.

Lemma wf_elem l j : forallb json_wf l → j ∈ l → json_wf j.
Proof. rewrite forallb_True, Forall_forall. auto. Qed.

Lemma wf_member (l : list (bytes * json)) kv :
  forallb (λ kv, esc_ok kv.1 && json_wf kv.2) l → kv ∈ l →
  esc_ok kv.1 ∧ json_wf kv.2.
Proof. rewrite forallb_True, Forall_forall. intros H Hkv. by apply andb_prop_elim, H. Qed.

Lemma skips_json opn cls j : brace opn cls → json_wf j → skips opn cls (json_text j).
Proof.
  intros Hb. induction j as [s|s|l IH|l IH] using json_nested_ind; simpl; intros Hwf.
  - apply skips_chars. unfold tok_ok in Hwf.
    apply andb_prop_elim in Hwf as [_ Hwf]. rewrite forallb_True in Hwf.
    eapply Forall_impl; [done|]. intros c Hc.
    repeat split; intros ->; inversion Hb; by subst.
  - by apply skips_quoted.
  - apply skips_bracket; [done|constructor|].
    apply skips_join; [done|]. intros j Hj.
    rewrite Forall_forall in IH. eauto using wf_elem.
  - apply skips_bracket; [done|constructor|].
    apply skips_join; [done|]. intros kv Hkv. rewrite Forall_forall in IH.
    destruct (wf_member _ _ Hwf Hkv). apply skips_member; auto.
Qed.

(** The loop ends right behind the closing brace. *)
Lemma skip_nested_done opn cls s t fuel :
  brace opn cls → skips opn cls s → length s < fuel →
  skip_nested (S fuel) opn cls 1 (s ++ cls :: t) = Ret t.
Proof.
  intros Hb (k & Hk & H) Hf.
  replace (S fuel) with (k + S (S (fuel - k - 1))) by lia. rewrite H by done.
  simpl. rewrite !decide_False, decide_True by (done || by inversion Hb). simpl.
  by repeat case_decide.
Qed.

Lemma json_skip_value_text j t :
  json_wf j → value_end t → json_skip_value (json_text j ++ t) = Ret t.
Proof.
  intros Hwf Ht. pose proof (json_text_start j Hwf) as (c & q & Hq & Hc).
  apply value_start_facts in Hc as (Hc & _).
  unfold json_skip_value. rewrite skip_ws_nonspace by by rewrite Hq.
  destruct j as [s|s|l|l].
  - apply tok_ok_cons in Hwf as (d & s' & -> & Hd & Hs').
    cbn [json_text app deref].
    rewrite !decide_False by (by intros ->).
    change (d :: s' ++ t) with ((d :: s') ++ t).
    rewrite skip_scalar_tok; [done| |done]. by apply andb_prop_intro.
  - cbn [json_text]. by rewrite skip_string_quoted.
  - simpl. rewrite <- app_assoc. simpl.
    apply (skip_nested_done "[" "]"); [constructor| |rewrite length_app; simpl; lia].
    apply skips_join; [constructor|].
    intros. apply skips_json; [constructor|]. by eapply wf_elem.
  - simpl. rewrite <- app_assoc. simpl.
    apply (skip_nested_done "{" "}"); [constructor| |rewrite length_app; simpl; lia].
    apply skips_join; [constructor|]. intros kv Hkv.
    destruct (wf_member _ _ Hwf Hkv).
    apply skips_member; [constructor|done|]. apply skips_json; [constructor|done].
Qed.

(** ** [json_find_key] is a lookup in the object *)

(** Keys the program searches for: no quote, backslash or NUL. *)
Definition plain (k : bytes) : bool :=
  forallb (λ c, bool_decide (c ≠ QUOTE ∧ c ≠ BSLASH ∧ c ≠ NUL)) k.

Lemma esc_ok_plain_app k u : plain k → esc_ok (k ++ u) = esc_ok u.
Proof.
  induction k as [|c k IH]; simpl; [done|].
  intros [Hc Hk]%andb_prop_elim. apply bool_decide_unpack in Hc.
  by rewrite (decide_False (P:=c = NUL ∨ _)), decide_False by tauto; auto.
Qed.

Lemma plain_app_quote k u : plain (k ++ QUOTE :: u) = false.
Proof.
  unfold plain. rewrite forallb_app. simpl. by rewrite andb_false_r.
Qed.

Lemma key_at_quoted s k t :
  plain k → esc_ok s → key_at (quoted s ++ t) k = bool_decide (s = k).
Proof.
  intros Hk Hs. unfold key_at, quoted. simpl. rewrite <- app_assoc. simpl.
  case_bool_decide as Heq; simpl.
  - destruct (decide (s = k)) as [->|Hne].
    + rewrite drop_app_length. rewrite !bool_decide_true by done. done.
    + rewrite (bool_decide_false (s = k)), bool_decide_false; [done| |done].
      intros Hq. destruct (drop (length k) (s ++ QUOTE :: t)) as [|c u] eqn:Hd; [done|].
      simpl in Hq. subst c.
      assert (s ++ QUOTE :: t = k ++ QUOTE :: u) as E.
      { rewrite <- (take_drop (length k) (s ++ QUOTE :: t)), Heq, Hd. done. }
      apply app_eq_inv in E as [(w & -> & E)|(w & -> & E)]; destruct w as [|c w]; simpl in E.
      * by rewrite app_nil_r in Hne.
      * injection E as <- E. by rewrite esc_ok_plain_app in Hs.
      * by rewrite app_nil_r in Hne.
      * injection E as <- E. by rewrite plain_app_quote in Hk.
  - rewrite bool_decide_false; [done|]. intros ->. by rewrite take_app_length in Heq.
Qed.

Lemma points_to_starts p j : points_to p j → starts_at p j.
Proof. intros (t & -> & Ht). exists t. eauto using rest_ok_end. Qed.
#[export] Hint Resolve points_to_starts : sharegres.

(** The C search [r] finds what the tree search [o] finds. *)
Definition finds (r : res (option cursor)) (o : option json) : Prop :=
  match o with
  | None => r = Ret None
  | Some v => ∃ p, r = Ret (Some p) ∧ points_to p v
  end.

Lemma value_start_space j t :
  json_wf j → json_skip_whitespace (json_text j ++ t) = json_text j ++ t.
Proof.
  intros Hwf. destruct (json_text_start j Hwf) as (c & q & -> & Hc).
  apply skip_ws_nonspace. by apply value_start_facts in Hc as (? & _).
Qed.

Lemma find_key_loop_text l k t fuel :
  plain k → json_wf (JObj l) → rest_ok t → length l < fuel →
  finds (find_key_loop fuel (members_text l ++ "}"%byte :: t) k) (obj_lookup k l).
Proof.
  intros Hk Hwf Ht. revert fuel Hwf.
  induction l as [|[s v] l IH]; intros fuel Hwf Hf; (destruct fuel as [|fuel]; [simpl in Hf; lia|]).
  - done.
  - apply andb_prop_elim in Hwf as [[Hs Hv]%andb_prop_elim Hl]. simpl in Hs, Hv.
    unfold members_text. cbn [map]. rewrite join_cons.
    unfold member_text at 1. cbn [fst snd]. rewrite <- app_assoc. simpl app at 2.
    set (sep := match _ with [] => _ | _ => _ end).
    assert (rest_ok sep) as Hsep by by apply rest_ok_members.
    pose proof (rest_ok_end _ Hsep).
    cbn [find_key_loop].
    change (deref (quoted s ++ _)) with QUOTE.
    rewrite decide_False by (intros [?|?]; done).
    rewrite skip_ws_nonspace by done.
    rewrite decide_True by done.
    rewrite key_at_quoted by done. cbn [obj_lookup fst snd].
    case_bool_decide as Hsk.
    + subst s. rewrite decide_True by done.
      eexists. split; [done|]. cbn [Nat.add]. rewrite drop_quoted.
      simpl. rewrite value_start_space by done. by exists sep.
    + rewrite decide_False by done.
      rewrite skip_string_quoted by done. simpl.
      rewrite value_start_space by done.
      rewrite json_skip_value_text by done. simpl.
      subst sep. rewrite skip_comma by done.
      apply IH; [done|simpl in Hf; lia].
Qed.

Lemma length_join_le {A} (g : A → bytes) l :
  (∀ x, x ∈ l → g x ≠ []) → length l ≤ length (join (map g l)).
Proof.
  induction l as [|x l IH]; intros Hg; simpl; [lia|].
  assert (g x ≠ []) as Hx by (apply Hg; set_solver).
  assert (1 ≤ length (g x)) by (destruct (g x); simpl; [done|lia]).
  destruct l as [|y l]; simpl; [done|].
  rewrite length_app. simpl in *. specialize (IH ltac:(set_solver)). lia.
Qed.

Lemma obj_text l t : json_text (JObj l) ++ t = "{"%byte :: members_text l ++ "}"%byte :: t.
Proof. simpl. by rewrite <- app_assoc. Qed.

Lemma arr_text l t : json_text (JArr l) ++ t = "["%byte :: elems_text l ++ "]"%byte :: t.
Proof. simpl. by rewrite <- app_assoc. Qed.

(** [json_find_key] returns a cursor on the first member with the key. *)
Lemma json_find_key_text p l k :
  plain k → json_wf (JObj l) → points_to p (JObj l) →
  finds (json_find_key p k) (obj_lookup k l).
Proof.
  intros Hk Hwf (t & -> & Ht). rewrite obj_text. unfold json_find_key.
  apply find_key_loop_text; [done..|].
  assert (length l ≤ length (members_text l)) by by apply length_join_le.
  rewrite length_app. lia.
Qed.

(** On anything but an object it returns NULL. *)
Lemma json_find_key_not_object p j k :
  json_wf j → points_to p j → (∀ l, j ≠ JObj l) → json_find_key p k = Ret None.
Proof.
  intros Hwf (t & -> & Ht) Hj. unfold json_find_key.
  rewrite value_start_space by done. rewrite decide_False; [done|].
  destruct j as [s|s|l|l]; simpl in *; [|done|done|naive_solver].
  apply tok_ok_cons in Hwf as (c & q & -> & Hc & _). intros [=->]. done.
Qed.

(** The same, for any tree. *)
Definition jget (k : bytes) (j : json) : option json :=
  match j with JObj l => obj_lookup k l | _ => None end.

Lemma jget_wf k j v : json_wf j → jget k j = Some v → json_wf v.
Proof.
  destruct j as [| | |l]; simpl; [done..|].
  induction l as [|kv l IH]; simpl; [done|].
  intros [[_ Hv]%andb_prop_elim Hl]%andb_prop_elim. case_decide; naive_solver.
Qed.

Lemma json_find_key_spec p j k :
  plain k → json_wf j → points_to p j → finds (json_find_key p k) (jget k j).
Proof.
  intros Hk Hwf Hp. destruct j as [| | |l]; [..|by apply json_find_key_text].
  all: by eapply json_find_key_not_object.
Qed.

(** ** [json_find_key_recursive] is a depth-first search *)
Lemma finds_first (r r' : res (option cursor)) (o o' : option json) :
  finds r o → (o = None → finds r' o') →
  finds (r ≫= λ x, match x with Some q => Ret (Some q) | None => r' end)
        (match o with Some v => Some v | None => o' end).
Proof.
  destruct o as [v|]; simpl; [|intros ->; auto]. intros (p & -> & Hp) _. eauto.
Qed.

Section rec_search.
Context (k : bytes) (Hk : plain k).

Lemma find_key_rec_obj_text l t fuel :
  Forall (λ kv, ∀ t fuel, json_wf kv.2 → rest_ok t →
    2 * length (json_text kv.2) < fuel →
    finds (find_key_rec fuel (json_text kv.2 ++ t) k) (tree_search k kv.2)) l →
  json_wf (JObj l) → rest_ok t → 2 * length (members_text l) < fuel →
  finds (find_key_rec_obj fuel (members_text l ++ "}"%byte :: t) k)
        (first_some (map (λ kv, tree_search k kv.2) l)).
Proof.
  intros Hl. revert fuel. induction Hl as [|[s v] l Hv Hl IH]; intros fuel Hwf Ht Hf;
    (destruct fuel as [|fuel]; [lia|]); [done|].
  apply andb_prop_elim in Hwf as [[Hs Hwv]%andb_prop_elim Hwl]. simpl in Hs, Hwv, Hv.
  unfold members_text in *. cbn [map] in *. rewrite join_cons.
  assert (2 * length (json_text v) < fuel ∧
    2 * length (join (map (λ kv, member_text kv.1 (json_text kv.2)) l)) < fuel) as [Hf1 Hf2].
  { rewrite <- (app_nil_r (join _)), join_cons in Hf.
    unfold member_text at 1 in Hf. simpl in Hf.
    destruct l; simpl in *; rewrite !length_app in Hf; simpl in Hf;
      rewrite ?length_app in *; simpl in *; lia. }
  unfold member_text at 1. cbn [fst snd]. rewrite <- app_assoc. simpl app at 2.
  set (sep := match _ with [] => _ | _ => _ end).
  assert (rest_ok sep) as Hsep by by apply rest_ok_members.
  pose proof (rest_ok_end _ Hsep).
  cbn [find_key_rec_obj].
  change (deref (quoted s ++ _)) with QUOTE.
  rewrite decide_False by (intros [?|?]; done).
  rewrite skip_ws_nonspace by done. rewrite decide_True by done.
  rewrite skip_string_quoted by done. simpl.
  rewrite value_start_space by done.
  apply finds_first; [by apply Hv|]. intros _.
  rewrite json_skip_value_text by done. simpl.
  subst sep. rewrite skip_comma by done. by apply IH.
Qed.

Lemma find_key_rec_arr_text l t fuel :
  Forall (λ j, ∀ t fuel, json_wf j → rest_ok t →
    2 * length (json_text j) < fuel →
    finds (find_key_rec fuel (json_text j ++ t) k) (tree_search k j)) l →
  json_wf (JArr l) → rest_ok t → 2 * length (elems_text l) + 1 < fuel →
  finds (find_key_rec_arr fuel (elems_text l ++ "]"%byte :: t) k)
        (first_some (map (tree_search k) l)).
Proof.
  intros Hl. revert fuel. induction Hl as [|v l Hv Hl IH]; intros fuel Hwf Ht Hf;
    (destruct fuel as [|fuel]; [lia|]); [done|].
  apply andb_prop_elim in Hwf as [Hwv Hwl].
  unfold elems_text in *. cbn [map] in *. rewrite join_cons.
  pose proof (json_text_start v Hwv) as (c & q & Hq & Hc).
  apply value_start_facts in Hc as (Hcs & Hc0 & _ & _ & Hc1).
  assert (2 * length (json_text v) < fuel ∧
    2 * length (join (map json_text l)) + 1 < fuel) as (Hf1 & Hf2).
  { rewrite <- (app_nil_r (join _)), join_cons in Hf.
    destruct l; simpl in *; rewrite Hq in *; simpl in *; rewrite !length_app in Hf;
      simpl in Hf; rewrite ?length_app in *; simpl in *; lia. }
  set (sep := match _ with [] => _ | _ => _ end).
  assert (rest_ok sep) as Hsep by by apply rest_ok_elems.
  pose proof (rest_ok_end _ Hsep).
  cbn [find_key_rec_arr]. rewrite value_start_space by done.
  rewrite (decide_False (P:=_ ∨ _)), decide_False by (rewrite Hq; simpl; tauto).
  simpl first_some. apply finds_first; [by apply Hv|]. intros _.
  rewrite json_skip_value_text by done. simpl.
  subst sep. rewrite skip_comma by done. by apply IH.
Qed.

Lemma find_key_rec_text j t fuel :
  json_wf j → rest_ok t → 2 * length (json_text j) < fuel →
  finds (find_key_rec fuel (json_text j ++ t) k) (tree_search k j).
Proof.
  revert t fuel. induction j as [s|s|l IH|l IH] using json_nested_ind;
    intros t fuel Hwf Ht Hf; (destruct fuel as [|fuel]; [lia|]).
  - cbn [find_key_rec]. rewrite value_start_space by done.
    apply tok_ok_cons in Hwf as (d & s' & -> & Hd & Hs'). simpl.
    by rewrite !decide_False by (by intros ->).
  - done.
  - rewrite arr_text. cbn [find_key_rec]. simpl json_skip_whitespace.
    rewrite decide_False, decide_True by done. simpl.
    apply find_key_rec_arr_text; [done..|].
    simpl in Hf. rewrite length_app in Hf. simpl in Hf. unfold elems_text. lia.
  - cbn [find_key_rec]. rewrite value_start_space by done.
    rewrite decide_True by done.
    apply finds_first; [apply json_find_key_text; [done..|by exists t]|]. intros _.
    rewrite obj_text. simpl.
    apply find_key_rec_obj_text; [done..|].
    simpl in Hf. rewrite length_app in Hf. simpl in Hf. unfold members_text. lia.
Qed.
End rec_search.

(** [json_find_key_recursive] returns a cursor on the first match of a depth-first
    search in which an object's own keys come before those of its values. *)
Lemma json_find_key_recursive_spec p j k :
  plain k → json_wf j → points_to p j →
  finds (json_find_key_recursive p k) (tree_search k j).
Proof.
  intros Hk Hwf (t & -> & Ht). apply find_key_rec_text; [done..|].
  rewrite length_app. lia.
Qed.

Lemma tree_search_wf k j v : json_wf j → tree_search k j = Some v → json_wf v.
Proof.
  revert v. induction j as [s|s|l IH|l IH] using json_nested_ind; simpl; intros v Hwf Hv;
    [done..| |].
  - induction l as [|x l IHl]; simpl in *; [done|].
    apply andb_prop_elim in Hwf as [? ?]. apply Forall_cons in IH as [? ?].
    destruct (tree_search k x) eqn:E; naive_solver.
  - destruct (obj_lookup k l) eqn:E.
    { simplify_eq. by apply (jget_wf k (JObj l)). }
    clear E. induction l as [|x l IHl]; simpl in *; [done|].
    apply andb_prop_elim in Hwf as [[? ?]%andb_prop_elim ?].
    apply Forall_cons in IH as [? ?].
    destruct (tree_search k x.2) eqn:E; naive_solver.
Qed.

(** ** [json_get_string] and [json_starts_with_key] *)
Lemma json_get_string_text p s :
  esc_ok s → starts_at p (JStr s) → json_get_string p = Ret (Some s).
Proof.
  intros Hs (t & -> & Ht). unfold json_get_string. simpl.
  rewrite <- app_assoc. simpl. rewrite string_end_app by done. simpl.
  rewrite length_app. simpl.
  replace (length s + S (length t) - S (length t)) with (length s) by lia.
  by rewrite take_app_length.
Qed.

Lemma json_get_string_other p j :
  json_wf j → starts_at p j → (∀ s, j ≠ JStr s) → json_get_string p = Ret None.
Proof.
  intros Hwf (t & -> & Ht) Hj. unfold json_get_string.
  rewrite value_start_space by done. rewrite decide_False; [done|].
  destruct j as [s|s|l|l]; simpl in *; [|naive_solver|done|done].
  apply tok_ok_cons in Hwf as (c & q & -> & Hc & _). intros [=->]. done.
Qed.

(** What [json_get_string] yields on the text of a tree. *)
Definition jstring (j : json) : option bytes :=
  match j with JStr s => Some s | _ => None end.

Lemma json_get_string_spec p j :
  json_wf j → starts_at p j → json_get_string p = Ret (jstring j).
Proof.
  intros Hwf Hp. destruct j; [|by apply json_get_string_text|..];
    by eapply json_get_string_other.
Qed.

(** The first key of an object, which names the kind of a parse-tree node. *)
Definition first_key (j : json) : option bytes :=
  match j with JObj (kv :: _) => Some kv.1 | _ => None end.

Lemma json_starts_with_key_spec p j k :
  plain k → json_wf j → points_to p j →
  json_starts_with_key p k = Ret (bool_decide (first_key j = Some k)).
Proof.
  intros Hk Hwf (t & -> & Ht). unfold json_starts_with_key.
  rewrite value_start_space by done.
  destruct j as [s|s|l|l].
  - apply tok_ok_cons in Hwf as (c & q & -> & Hc & _). simpl.
    rewrite decide_False; [done|]. by intros ->.
  - done.
  - done.
  - rewrite obj_text. destruct l as [|[s v] l]; [done|].
    unfold members_text. cbn [map fst snd]. rewrite join_cons.
    change (member_text s (json_text v)) with (quoted s ++ ":"%byte :: json_text v).
    rewrite <- (app_assoc (quoted s)). simpl in Hwf. apply andb_prop_elim in Hwf as [[Hs _]%andb_prop_elim _].
    simpl in Hs. cbn [app deref advance].
    rewrite decide_True by done. rewrite bind_ret.
    rewrite skip_ws_nonspace, decide_True by done.
    rewrite key_at_quoted by done. f_equal. apply bool_decide_ext. naive_solver.
Qed.

(** ** Termination on arbitrary text

    Every loop of [json_skip_value], [json_find_key] and [json_find_all_values]
    consumes a character per iteration, whatever the text is. *)
Definition shrinks (p : cursor) (r : res cursor) : Prop :=
  r ≠ Hang ∧ ∀ q, r = Ret q → length q ≤ length p.

Lemma length_skip_ws p : length (json_skip_whitespace p) ≤ length p.
Proof. induction p as [|c p IH]; simpl; [done|]. destruct (isspace c); simpl; lia. Qed.

Lemma length_skip_char c p : length (skip_char c p) ≤ length p.
Proof. destruct p; simpl; [done|]. case_decide; simpl; lia. Qed.

Lemma length_skip_scalar p : length (skip_scalar p) ≤ length p.
Proof. induction p as [|c p IH]; simpl; [done|]. destruct (scalar_stop c); simpl; lia. Qed.

Lemma string_end_shrinks p : shrinks p (string_end p).
Proof.
  revert p. fix IH 1. intros [|c p]; simpl.
  - split; [done|]. by intros ? [= <-].
  - assert (shrinks (c :: p) (Ret (c :: p))) by (split; [done|]; by intros ? [= <-]).
    repeat case_decide; [done|done| |].
    + destruct p as [|d p]; [done|]. destruct (IH p) as [? Hq].
      split; [done|]. intros q ?%Hq. simpl. lia.
    + destruct (IH p) as [? Hq]. split; [done|]. intros q ?%Hq. simpl. lia.
Qed.

Lemma skip_string_shrinks p : shrinks p (skip_string p).
Proof.
  unfold skip_string. case_decide; [|split; [done|by intros ? [= <-]]].
  destruct p as [|c p]; simpl; [done|].
  destruct (string_end_shrinks p) as [Hn Hl].
  destruct (string_end p) as [q| |]; simpl; [|done|done].
  split; [done|]. intros ? [= <-].
  pose proof (length_skip_char QUOTE q). specialize (Hl q eq_refl). simpl. lia.
Qed.

(** On an opening quote it consumes at least the quote. *)
Lemma skip_string_strict p q :
  deref p = QUOTE → skip_string p = Ret q → length q < length p.
Proof.
  unfold skip_string. intros Hp. rewrite decide_True by done.
  destruct p as [|c p]; simpl; [done|]. destruct (string_end_shrinks p) as [Hn Hl].
  destruct (string_end p) as [r| |]; simpl; [|done|done].
  intros [= <-]. pose proof (length_skip_char QUOTE r).
  specialize (Hl r eq_refl). simpl. lia.
Qed.

Lemma skip_nested_shrinks opn cls fuel d p :
  length p < fuel → shrinks p (skip_nested fuel opn cls d p).
Proof.
  revert d p. induction fuel as [|fuel IH]; intros d p Hf; [lia|].
  assert (shrinks p (Ret p)) as Hret by (split; [done|]; by intros ? [= <-]).
  cbn [skip_nested]. case_decide as H0; [done|]. case_decide; [done|].
  assert (∀ d', shrinks p (p ← advance p; skip_nested fuel opn cls d' p)) as Hadv.
  { intros d'. destruct p as [|c p]; [done|]. simpl in Hf.
    destruct (IH d' p) as [? Hl]; [lia|]. split; [done|].
    intros q ?%Hl. simpl. lia. }
  repeat case_decide; [done|done| |done].
  destruct (skip_string_shrinks p) as [Hn Hl].
  pose proof (skip_string_strict p) as Hs.
  destruct (skip_string p) as [q| |]; simpl; [|done|done].
  specialize (Hs q ltac:(done) eq_refl).
  destruct (IH d q) as [? Hl']; [lia|]. split; [done|]. intros r ?%Hl'. lia.
Qed.

Lemma json_skip_value_shrinks p : shrinks p (json_skip_value p).
Proof.
  unfold json_skip_value. pose proof (length_skip_ws p) as Hw.
  set (w := json_skip_whitespace p) in *. clearbody w.
  repeat case_decide.
  - destruct (skip_string_shrinks w) as [? Hl]. split; [done|]. intros q ?%Hl. lia.
  - destruct w as [|c w]; [done|]. simpl in *.
    destruct (skip_nested_shrinks "{" "}" (S (length w)) 1 w) as [? Hl]; [lia|].
    split; [done|]. intros q ?%Hl. lia.
  - destruct w as [|c w]; [done|]. simpl in *.
    destruct (skip_nested_shrinks "[" "]" (S (length w)) 1 w) as [? Hl]; [lia|].
    split; [done|]. intros q ?%Hl. lia.
  - split; [done|]. intros ? [= <-]. pose proof (length_skip_scalar w). lia.
Qed.

Lemma find_key_loop_terminates fuel p k :
  length p < fuel → find_key_loop fuel p k ≠ Hang.
Proof.
  revert p. induction fuel as [|fuel IH]; intros p Hf; [lia|].
  cbn [find_key_loop]. case_decide; [done|].
  pose proof (length_skip_ws p). set (w := json_skip_whitespace p) in *. clearbody w.
  case_decide; [|done]. destruct (key_at w k); [done|].
  destruct (skip_string_shrinks w) as [Hn _].
  pose proof (skip_string_strict w) as Hs.
  destruct (skip_string w) as [q| |]; simpl; [|done|done].
  specialize (Hs q ltac:(done) eq_refl).
  set (q' := json_skip_whitespace _).
  assert (length q' ≤ length q) as Hq'.
  { etrans; [apply length_skip_ws|]. etrans; [apply length_skip_char|apply length_skip_ws]. }
  destruct (json_skip_value_shrinks q') as [Hn' Hl'].
  destruct (json_skip_value q') as [r| |]; simpl; [|done|done].
  specialize (Hl' r eq_refl). apply IH.
  pose proof (length_skip_char ","%byte (json_skip_whitespace r)).
  pose proof (length_skip_ws r). lia.
Qed.

Lemma find_all_loop_terminates fuel p k :
  length p < fuel → find_all_loop fuel p k ≠ Hang.
Proof.
  revert p. induction fuel as [|fuel IH]; intros p Hf; [lia|].
  cbn [find_all_loop]. case_decide; [done|]. case_decide as Hq.
  - destruct (_ && _).
    + set (v := json_skip_whitespace _).
      assert (length v < length p) as Hv.
      { destruct p as [|c p]; [done|]. subst v. simpl in *.
        pose proof (length_skip_ws (tail (json_skip_whitespace (drop (S (length k)) p)))).
        pose proof (length_skip_ws (drop (S (length k)) p)).
        rewrite length_drop in *.
        destruct (json_skip_whitespace (drop (S (length k)) p)); simpl in *; lia. }
      destruct (json_skip_value_shrinks v) as [Hn Hl].
      destruct (json_skip_value v) as [q| |]; simpl; [|done|done].
      specialize (Hl q eq_refl). assert (find_all_loop fuel q k ≠ Hang) by (apply IH; lia).
      by destruct (find_all_loop fuel q k).
    + destruct (skip_string_shrinks p) as [Hn _].
      pose proof (skip_string_strict p) as Hs.
      destruct (skip_string p) as [q| |]; simpl; [|done|done].
      specialize (Hs q ltac:(done) eq_refl). apply IH. lia.
  - destruct p as [|c p]; simpl in *; [done|]. apply IH. lia.
Qed.

(** More fuel does not change a finished scan. *)
Lemma find_all_loop_mono f f' p k :
  length p < f → f ≤ f' → find_all_loop f' p k = find_all_loop f p k.
Proof.
  intros Hp Hf. pose proof (find_all_loop_terminates f p k Hp) as Hn.
  clear Hp. revert f' p Hf Hn.
  induction f as [|f IH]; intros f' p Hf Hn; [done|].
  destruct f' as [|f']; [lia|]. revert Hn. cbn [find_all_loop].
  destruct (decide (deref p = NUL)); [done|].
  destruct (decide (deref p = QUOTE)).
  - destruct (_ && _).
    + destruct (json_skip_value _) as [q| |]; simpl; [|done..]. intros Hn.
      rewrite (IH f'); [done|lia|]. by destruct (find_all_loop f q k).
    + destruct (skip_string p); simpl; [|done..]. intros Hn. apply IH; [lia|done].
  - destruct (advance p); simpl; [|done..]. intros Hn. apply IH; [lia|done].
Qed.

(** ** [json_find_all_values] collects the values of a key *)

(** Running over [s] (followed by some [t] with [Q t]) collects [vs]. *)
Definition collects (k : bytes) (Q : cursor → Prop) (s : bytes) (vs : list json) : Prop :=
  ∃ n, n ≤ length s ∧ ∀ t, Q t → ∃ ps, Forall2 starts_at ps vs ∧
    ∀ f, find_all_loop (n + f) (s ++ t) k = (app ps <$> find_all_loop f t k).

Section collects.
Context (k : bytes) (Hk : plain k).
Local Abbreviation any := (λ _ : cursor, True).

Lemma res_fmap_nil {A} (r : res (list A)) : (app [] <$> r) = r.
Proof. by destruct r. Qed.

Lemma collects_app (Q1 Q : cursor → Prop) s1 s2 v1 v2 :
  collects k Q1 s1 v1 → collects k Q s2 v2 → (∀ t, Q t → Q1 (s2 ++ t)) →
  collects k Q (s1 ++ s2) (v1 ++ v2).
Proof.
  intros (n1 & Hn1 & H1) (n2 & Hn2 & H2) HQ. exists (n1 + n2).
  rewrite length_app. split; [lia|]. intros t Ht.
  destruct (H1 (s2 ++ t)) as (p1 & Hp1 & E1); [auto|].
  destruct (H2 t) as (p2 & Hp2 & E2); [auto|].
  exists (p1 ++ p2). split; [by apply Forall2_app|]. intros f.
  rewrite <- Nat.add_assoc, <- app_assoc, E1, E2.
  destruct (find_all_loop f t k); simpl; [|done..]. by rewrite app_assoc.
Qed.

Lemma collects_nil : collects k any [] [].
Proof. exists 0. split; [done|]. intros t _. exists []. split; [done|]. intros f. by rewrite res_fmap_nil. Qed.

Lemma collects_char c : c ≠ NUL → c ≠ QUOTE → collects k any [c] [].
Proof.
  intros. exists 1. split; [done|]. intros t _. exists []. split; [done|].
  intros f. rewrite res_fmap_nil. simpl. by rewrite !decide_False by done.
Qed.

Lemma collects_weaken (Q Q' : cursor → Prop) s vs :
  (∀ t, Q' t → Q t) → collects k Q s vs → collects k Q' s vs.
Proof. intros HQ (n & Hn & H). exists n. split; [done|]. auto. Qed.

(** A string that is not a matching key is skipped. *)
Lemma collects_quoted s :
  esc_ok s → collects k (λ t, s = k → value_end t) (quoted s) [].
Proof.
  intros Hs. exists 1. split; [simpl; lia|]. intros t Ht. exists [].
  split; [done|]. intros f. rewrite res_fmap_nil. cbn [find_all_loop Nat.add].
  change (deref (quoted s ++ t)) with QUOTE.
  rewrite decide_False, decide_True by done. rewrite key_at_quoted by done.
  rewrite skip_string_quoted by done.
  case_bool_decide as E; [|done]. subst s. rewrite drop_quoted.
  rewrite (bool_decide_false (deref _ = _)); [done|].
  specialize (Ht eq_refl). destruct t as [|c t]; simpl in *; [done|].
  assert (isspace c = false ∧ c ≠ ":"%byte) as [Hc1 Hc2] by by destruct c.
  by rewrite Hc1.
Qed.

Lemma collects_member_hit v :
  json_wf v → collects k value_end (member_text k (json_text v)) [v].
Proof.
  intros Hv. exists 1. split; [simpl; lia|]. intros t Ht.
  exists [json_text v ++ t]. split; [by repeat constructor; exists t|].
  intros f. unfold member_text. rewrite <- app_assoc. cbn [find_all_loop Nat.add].
  change (deref (quoted k ++ _)) with QUOTE.
  rewrite decide_False, decide_True by done.
  assert (esc_ok k) as Hek by by rewrite <- (app_nil_r k), esc_ok_plain_app.
  rewrite key_at_quoted, bool_decide_true, drop_quoted by done. simpl.
  rewrite value_start_space, json_skip_value_text by done. simpl.
  by destruct (find_all_loop f t k).
Qed.

Lemma collects_member_miss s v vs :
  s ≠ k → esc_ok s → collects k value_end v vs → collects k value_end (member_text s v) vs.
Proof.
  intros Hs Hes Hv. unfold member_text.
  apply (collects_app any value_end (quoted s) _ [] vs); [| |done].
  { eapply collects_weaken, collects_quoted; [naive_solver|done]. }
  apply (collects_app any value_end [":"%byte] v [] vs); [by apply collects_char|done..].
Qed.

Lemma collects_join {A} (g : A → bytes) (h : A → list json) l :
  (∀ x, x ∈ l → collects k value_end (g x) (h x)) →
  collects k value_end (join (map g l)) (concat (map h l)).
Proof.
  induction l as [|x l IH]; intros Hl; [by eapply collects_weaken, collects_nil|].
  assert (collects k value_end (g x) (h x)) as Hx by (apply Hl; set_solver).
  destruct l as [|y l]; [by simpl; rewrite app_nil_r|].
  apply (collects_app value_end value_end (g x) _ (h x)); [done| |done].
  apply (collects_app any value_end [","%byte] _ []); [by apply collects_char| |done].
  apply IH. set_solver.
Qed.

Lemma collects_bracket o c s vs :
  brace o c → collects k value_end s vs → collects k any (o :: s ++ [c]) vs.
Proof.
  intros Hb Hs. rewrite <- (app_nil_l vs).
  apply (collects_app any any [o]); [by apply collects_char; inversion Hb| |done].
  rewrite <- (app_nil_r vs).
  apply (collects_app value_end any s); [done|by apply collects_char; inversion Hb|].
  intros t _. by inversion Hb.
Qed.

Lemma collects_json j : json_wf j → collects k value_end (json_text j) (tree_collect k j).
Proof.
  induction j as [s|s|l IH|l IH] using json_nested_ind; simpl; intros Hwf.
  - unfold tok_ok in Hwf. apply andb_prop_elim in Hwf as [_ Hwf].
    eapply collects_weaken; [by intros t _; exact I|].
    rewrite forallb_True in Hwf. induction Hwf as [|c s Hc Hs IH]; [apply collects_nil|].
    apply (collects_app any any [c] s [] []); [|done..].
    apply collects_char; by intros ->.
  - eapply collects_weaken; [|by apply collects_quoted]. by intros t Ht _.
  - eapply (collects_weaken any); [done|]. apply collects_bracket; [constructor|].
    apply collects_join. intros j Hj. rewrite Forall_forall in IH.
    eauto using wf_elem.
  - eapply (collects_weaken any); [done|]. apply collects_bracket; [constructor|].
    apply collects_join. intros kv Hkv. rewrite Forall_forall in IH.
    destruct (wf_member _ _ Hwf Hkv). case_decide as E.
    + rewrite E. by apply collects_member_hit.
    + apply collects_member_miss; auto.
Qed.
End collects.

(** The scan goes on behind the value the cursor is on, to the end of the text. *)
Lemma json_find_all_values_spec j t k :
  plain k → json_wf j → value_end t →
  ∃ ps, Forall2 starts_at ps (tree_collect k j) ∧
    json_find_all_values (json_text j ++ t) k = (app ps <$> json_find_all_values t k).
Proof.
  intros Hk Hwf Ht. destruct (collects_json k Hk j Hwf) as (n & Hn & H).
  destruct (H t Ht) as (ps & Hps & E). exists ps. split; [done|].
  unfold json_find_all_values. rewrite length_app.
  replace (S (length (json_text j) + length t))
    with (n + (S (length t) + (length (json_text j) - n))) by lia.
  rewrite E. f_equal. apply find_all_loop_mono; lia.
Qed.

Lemma tree_collect_wf k j : json_wf j → Forall (λ v, Is_true (json_wf v)) (tree_collect k j).
Proof.
  induction j as [s|s|l IH|l IH] using json_nested_ind; simpl; intros Hwf; [done..| |].
  - rewrite Forall_concat, Forall_map. rewrite Forall_forall in *. eauto using wf_elem.
  - rewrite Forall_concat, Forall_map. rewrite Forall_forall in *. intros kv Hkv.
    destruct (wf_member _ _ Hwf Hkv). case_decide; [by repeat constructor|auto].
Qed.

(** Behind a value of a well-formed tree the scan meets only values of the tree. *)
Lemma scan_rest k t :
  plain k → rest_ok t →
  ∃ ps vs, Forall2 starts_at ps vs ∧ Forall (λ v, Is_true (json_wf v)) vs ∧
    json_find_all_values t k = Ret ps.
Proof.
  intros Hk.
  assert (∀ s t vs', collects k value_end s vs' → Forall (λ v, Is_true (json_wf v)) vs' →
    rest_ok t →
    (∃ ps vs, Forall2 starts_at ps vs ∧ Forall (λ v, Is_true (json_wf v)) vs ∧
      json_find_all_values t k = Ret ps) →
    ∃ ps vs, Forall2 starts_at ps vs ∧ Forall (λ v, Is_true (json_wf v)) vs ∧
      json_find_all_values (s ++ t) k = Ret ps) as Hstep.
  { clear t. intros s t vs' (n & Hn & H) Hvs' Ht (ps & vs & Hps & Hvs & E).
    destruct (H t) as (ps' & Hps' & E'); [eauto with sharegres|].
    exists (ps' ++ ps), (vs' ++ vs).
    split; [by apply Forall2_app|]. split; [by apply Forall_app|].
    unfold json_find_all_values in *. rewrite length_app.
    replace (S (length s + length t)) with (n + (S (length t) + (length s - n))) by lia.
    rewrite E', (find_all_loop_mono (S (length t))), E by lia. done. }
  assert (∀ c, c ≠ NUL → c ≠ QUOTE → collects k value_end [c] []) as Hchar.
  { intros. eapply (collects_weaken k (λ _, True)); [done|]. by apply collects_char. }
  induction 1 as [|t Ht IH|t Ht IH|j t Hj Ht IH|s j t Hs Hj Ht IH].
  - exists [], []. done.
  - by apply (Hstep ["}"%byte] t []); [apply Hchar|..].
  - by apply (Hstep ["]"%byte] t []); [apply Hchar|..].
  - apply (Hstep (","%byte :: json_text j) t (tree_collect k j)); [|by apply tree_collect_wf|done..].
    apply (collects_app k (λ _, True) value_end [","%byte] _ []); [by apply collects_char| |done].
    by apply collects_json.
  - set (vs := if decide (s = k) then [j] else tree_collect k j).
    apply (Hstep (","%byte :: member_text s (json_text j)) t vs); [| |done..].
    + apply (collects_app k (λ _, True) value_end [","%byte] _ []); [by apply collects_char| |done].
      subst vs. case_decide as E; [rewrite E; by apply collects_member_hit|].
      apply collects_member_miss; [done..|by apply collects_json].
    + subst vs. case_decide; [by repeat constructor|by apply tree_collect_wf].
Qed.

Lemma json_find_all_values_in_tree p j k :
  plain k → json_wf j → points_to p j →
  ∃ ps ps' vs', json_find_all_values p k = Ret (ps ++ ps') ∧
    Forall2 starts_at ps (tree_collect k j) ∧
    Forall2 starts_at ps' vs' ∧ Forall (λ v, Is_true (json_wf v)) vs' ∧ (p = json_text j → ps' = []).
Proof.
  intros Hk Hwf (t & -> & Ht).
  destruct (json_find_all_values_spec j t k) as (ps & Hps & E); [eauto with sharegres..|].
  destruct (scan_rest k t Hk Ht) as (ps' & vs' & Hps' & Hvs' & E').
  exists ps, ps', vs'. rewrite E, E'. split_and!; try done. intros Et.
  assert (t = []) as -> by (apply (app_inv_head (json_text j)); by rewrite app_nil_r).
  by injection E' as <-.
Qed.

(** ** [json_get_int] reads the number and nothing behind it *)
Lemma digits_val_prefix acc s t :
  match t with c :: _ => isdigit c = false | [] => True end →
  digits_val acc (s ++ t) = digits_val acc s.
Proof.
  intros Ht. revert acc. induction s as [|c s IH]; intros acc; simpl.
  - destruct t as [|c t]; simpl; [done|]. by rewrite Ht.
  - destruct (isdigit c); auto.
Qed.

Lemma strtoll_app c s t :
  isspace c = false → value_end t → strtoll ((c :: s) ++ t) = strtoll (c :: s).
Proof.
  intros Hc Ht. assert (match t with c :: _ => isdigit c = false | [] => True end) as Hd.
  { destruct t as [|d t]; [done|]. simpl in Ht.
    unfold sep_char in Ht. unfold isdigit. rewrite bool_decide_false; [done|].
    destruct (decide (d = ","%byte)) as [->|]; [by vm_compute; intros []|].
    destruct (decide (d = "}"%byte)) as [->|]; [by vm_compute; intros []|].
    destruct (decide (d = "]"%byte)) as [->|]; [by vm_compute; intros []|].
    by rewrite !bool_decide_false in Ht. }
  unfold strtoll, strto_parse. simpl. rewrite Hc.
  repeat case_decide; by rewrite ?digits_val_prefix.
Qed.

Definition jint (j : json) : Z := strtoll (json_text j).

Lemma json_get_int_spec p j : json_wf j → starts_at p j → json_get_int p = jint j.
Proof.
  intros Hwf (t & -> & Ht). unfold json_get_int, jint.
  rewrite value_start_space by done.
  destruct (json_text_start j Hwf) as (c & q & -> & Hc).
  apply strtoll_app; [|done]. by apply value_start_facts in Hc as (? & _).
Qed.

(** ** Properties *)

(** C16: On the text of any well-formed tree, every function of the navigator
    computes the corresponding operation on the tree: [json_find_key] the member
    of the object, [json_find_key_recursive] the depth-first search,
    [json_get_string], [json_get_int] and [json_starts_with_key] the contents,
    [json_skip_value] moves to the end of the value, and [json_find_all_values]
    gives the values of the key in the tree in text order; as its scan does not stop
    at the end of the value it is given, these are followed by the values in the text
    behind it, if there is text behind it.  None reads out of bounds. *)
Theorem navigator_refines_tree p j k :
  plain k → json_wf j → points_to p j →
  finds (json_find_key p k) (jget k j) ∧
  finds (json_find_key_recursive p k) (tree_search k j) ∧
  json_get_string p = Ret (jstring j) ∧
  json_get_int p = jint j ∧
  json_starts_with_key p k = Ret (bool_decide (first_key j = Some k)) ∧
  (∃ t, p = json_text j ++ t ∧ json_skip_value p = Ret t) ∧
  (∃ ps ps' vs', json_find_all_values p k = Ret (ps ++ ps') ∧
     Forall2 starts_at ps (tree_collect k j) ∧
     Forall2 starts_at ps' vs' ∧ Forall (λ v, Is_true (json_wf v)) vs' ∧ (p = json_text j → ps' = [])).
Proof.
  intros Hk Hwf Hp. pose proof (points_to_starts _ _ Hp) as Hs.
  split_and!; auto using json_find_key_spec, json_find_key_recursive_spec,
    json_get_string_spec, json_get_int_spec, json_starts_with_key_spec.
  - destruct Hs as (t & -> & Ht). exists t. auto using json_skip_value_text.
  - by apply json_find_all_values_in_tree.
Qed.

(** A document for the witnesses: [a] with an escaped quote in its value, [b] an
    array with an object in it. *)
Definition sample_doc : json :=
  JObj [(bs "a", JStr [BSLASH; QUOTE; "}"%byte]);
        (bs "b", JArr [JTok (bs "17"); JObj [(bs "c", JTok (bs "-42"))]])].

Lemma navigator_refines_tree_witness :
  finds (json_find_key_recursive (json_text sample_doc) (bs "c")) (Some (JTok (bs "-42"))) ∧
  json_find_key_recursive (json_text sample_doc) (bs "c") = Ret (Some (bs "-42}]}")) ∧
  ∃ ps, json_find_all_values (json_text sample_doc) (bs "c") = Ret ps ∧ Forall2 starts_at ps [JTok (bs "-42")].
Proof.
  destruct (navigator_refines_tree (json_text sample_doc) sample_doc (bs "c"))
    as (_ & H & _ & _ & _ & _ & ps & ps' & vs' & E & Hps & _ & _ & Hnil);
    [exact I|exact I|exists []; split; [by rewrite app_nil_r|constructor]|].
  split; [exact H|]. split; [reflexivity|]. exists ps. rewrite (Hnil eq_refl), app_nil_r in E.
  split; [exact E|exact Hps].
Defined.

(** ** Text that does not end in a backslash

    Such text is never left: a backslash always has a character behind it. *)
Definition no_bslash_end (p : cursor) : Prop := last p ≠ Some BSLASH.
(** [r] has no undefined behaviour, and its result satisfies [Q]. *)
Definition stays_in {A} (Q : A → Prop) (r : res A) : Prop :=
  match r with Ret a => Q a | Ub => False | Hang => True end.
Lemma stays_bind {A B} (Q : A → Prop) (R : B → Prop) (r : res A) (f : A → res B) :
  stays_in Q r → (∀ a, Q a → stays_in R (f a)) → stays_in R (r ≫= f).
Proof. destruct r; cbn; auto. Qed.
Lemma no_bslash_tail c p : no_bslash_end (c :: p) → no_bslash_end p.
Proof. unfold no_bslash_end. rewrite last_cons. by destruct (last p). Qed.
Lemma no_bslash_drop n p : no_bslash_end p → no_bslash_end (drop n p).
Proof.
  revert p. induction n as [|n IH]; intros p Hp; [done|]. destruct p as [|c p]; [done|]. simpl. by eapply IH, no_bslash_tail.
Qed.
Lemma no_bslash_ws p : no_bslash_end p → no_bslash_end (json_skip_whitespace p).
Proof. induction p as [|c p IH]; intros Hp; [done|]. simpl. destruct (isspace c); [by eapply IH, no_bslash_tail|done]. Qed.
Lemma no_bslash_skip c p : no_bslash_end p → no_bslash_end (skip_char c p).
Proof. destruct p as [|d p]; [done|]. simpl. intros Hp. case_match; [by eapply no_bslash_tail|done]. Qed.
Lemma no_bslash_scalar p : no_bslash_end p → no_bslash_end (skip_scalar p).
Proof. induction p as [|c p IH]; intros Hp; [done|]. simpl. destruct (scalar_stop c); [done|by eapply IH, no_bslash_tail]. Qed.
#[local] Hint Resolve no_bslash_drop no_bslash_ws no_bslash_skip no_bslash_scalar : core.
Lemma advance_stays p : deref p ≠ NUL → no_bslash_end p → stays_in no_bslash_end (advance p).
Proof. destruct p as [|c p]; [done|]. intros _. apply no_bslash_tail. Qed.
Lemma string_end_stays p : no_bslash_end p → stays_in no_bslash_end (string_end p).
Proof.
  induction p as [p IH] using (induction_ltof1 _ (@length byte)). unfold ltof in IH. intros Hp.
  destruct p as [|c p]; [done|]. cbn [string_end]. repeat case_decide; try done.
  - destruct p as [|d p]; [subst c; by destruct Hp|]. apply IH; [simpl; lia|by do 2 eapply no_bslash_tail].
  - apply IH; [simpl; lia|by eapply no_bslash_tail].
Qed.
Lemma skip_string_stays p : no_bslash_end p → stays_in no_bslash_end (skip_string p).
Proof.
  intros Hp. unfold skip_string. case_decide as E; [|done].
  eapply stays_bind; [apply advance_stays; [by rewrite E|done]|]. intros q Hq.
  eapply stays_bind; [by apply string_end_stays|]. intros r Hr. simpl. auto.
Qed.
Lemma skip_nested_stays fuel opn cls d p :
  no_bslash_end p → stays_in no_bslash_end (skip_nested fuel opn cls d p).
Proof.
  revert d p. induction fuel as [|fuel IH]; intros d p Hp; [done|]. cbn [skip_nested].
  case_decide as Hn; [done|]. repeat (case_decide; [first [done|
    eapply stays_bind; [first [by apply skip_string_stays|by apply advance_stays]|auto]]|]).
  eapply stays_bind; [by apply advance_stays|auto].
Qed.
Lemma json_skip_value_stays p : no_bslash_end p → stays_in no_bslash_end (json_skip_value p).
Proof.
  intros Hp. unfold json_skip_value. apply no_bslash_ws in Hp. case_decide; [by apply skip_string_stays|].
  repeat (case_decide; [eapply stays_bind; [apply advance_stays; [congruence|done]|auto using skip_nested_stays]|]).
  simpl. auto.
Qed.
Lemma find_key_loop_stays fuel p k : no_bslash_end p → stays_in (λ _, True) (find_key_loop fuel p k).
Proof.
  revert p. induction fuel as [|fuel IH]; intros p Hp; [done|]. cbn [find_key_loop].
  case_decide; [done|]. case_decide; [|done]. destruct (key_at _ _); [done|].
  eapply stays_bind; [apply skip_string_stays; auto|]. intros q Hq.
  eapply stays_bind; [apply json_skip_value_stays; auto|]. intros r Hr. apply IH. auto.
Qed.
Lemma find_all_loop_stays fuel p k : no_bslash_end p → stays_in (λ _, True) (find_all_loop fuel p k).
Proof.
  revert p. induction fuel as [|fuel IH]; intros p Hp; [done|]. cbn [find_all_loop].
  case_decide; [done|]. case_decide.
  - destruct (_ && _).
    + assert (∀ q, no_bslash_end q → no_bslash_end (tail q)) as Ht by (intros [|? ?]; eauto using no_bslash_tail).
      eapply stays_bind; [apply json_skip_value_stays; auto|]. intros q Hq.
      eapply stays_bind; [by apply IH|done].
    + eapply stays_bind; [by apply skip_string_stays|auto].
  - eapply stays_bind; [by apply advance_stays|auto].
Qed.
Lemma stays_ret {A} (Q : A → Prop) (r : res A) : stays_in Q r → r ≠ Hang → ∃ a, r = Ret a ∧ Q a.
Proof. destruct r as [a| |]; [by exists a|done..]. Qed.

(** C29: On any text [json_skip_value], [json_get_string], [json_find_key] and
    [json_find_all_values] do not loop for ever; on any text, well formed or not, that
    does not end in a backslash they return without reading past its end, and skipping
    a value never moves the cursor back. *)
Theorem navigator_terminates p k :
  (json_skip_value p ≠ Hang ∧ json_get_string p ≠ Hang ∧ json_find_key p k ≠ Hang ∧
   json_find_all_values p k ≠ Hang) ∧
  (last p ≠ Some BSLASH →
   (∃ q, json_skip_value p = Ret q ∧ length q ≤ length p) ∧
   (∃ o, json_get_string p = Ret o) ∧
   (∃ o, json_find_key p k = Ret o) ∧
   (∃ l, json_find_all_values p k = Ret l)).
Proof.
  destruct (json_skip_value_shrinks p) as [H1 H2].
  assert (json_get_string p ≠ Hang) as H3.
  { unfold json_get_string. case_decide; [|done].
    destruct (json_skip_whitespace p) as [|c q]; [done|]. simpl.
    destruct (string_end_shrinks q) as [Hs _]. by destruct (string_end q). }
  assert (json_find_key p k ≠ Hang) as H4.
  { unfold json_find_key. case_decide; [|done].
    destruct (json_skip_whitespace p) as [|c q]; [done|]. cbn [advance mbind res_bind].
    apply find_key_loop_terminates. lia. }
  assert (json_find_all_values p k ≠ Hang) as H5 by (apply find_all_loop_terminates; lia).
  split; [done|]. intros Hp. split_and!.
  - destruct (stays_ret _ _ (json_skip_value_stays p Hp) H1) as (q & E & _). exists q. split; [done|by apply H2].
  - assert (stays_in (λ _, True) (json_get_string p)) as Hs.
    { unfold json_get_string. case_decide as E; [|done].
      eapply stays_bind; [apply advance_stays; [by rewrite E|auto]|]. intros q Hq.
      eapply stays_bind; [by apply string_end_stays|done]. }
    destruct (stays_ret _ _ Hs H3) as (o & E & _). by exists o.
  - assert (stays_in (λ _, True) (json_find_key p k)) as Hs.
    { unfold json_find_key. case_decide as E; [|done].
      eapply stays_bind; [apply advance_stays; [by rewrite E|auto]|]. intros q Hq. by apply find_key_loop_stays. }
    destruct (stays_ret _ _ Hs H4) as (o & E & _). by exists o.
  - destruct (stays_ret _ _ (find_all_loop_stays (S (length p)) p k Hp) H5) as (o & E & _). by exists o.
Qed.
Lemma navigator_terminates_witness :
  ∃ o, json_find_key (bs "{'a") (bs "a") = Ret o.
Proof. apply (navigator_terminates (bs "{'a") (bs "a")). vm_compute. discriminate. Defined.

(** The recursive search does not share that guarantee: on an array that is
    closed by a brace it loops for ever, whatever the key; and a string that ends
    in a backslash makes [json_skip_value] and [json_find_key] read past the
    terminator. *)
Theorem malformed_text k :
  (∀ fuel, find_key_rec fuel (bs "[}") k = Hang) ∧
  json_skip_value [QUOTE; BSLASH] = Ub ∧
  (plain k → k ≠ [] → json_find_key ["{"%byte; QUOTE; BSLASH] k = Ub).
Proof.
  split_and!; [|done|].
  - assert (∀ fuel, find_key_rec_arr fuel (bs "}") k = Hang) as Harr.
    { intros fuel. induction fuel as [[|[|fuel]] IH] using lt_wf_ind; [done..|].
      transitivity (find_key_rec_arr (S fuel) (bs "}") k); [done|]. apply IH. lia. }
    intros [|fuel]; [done|]. exact (Harr fuel).
  - intros Hk Hne. destruct k as [|c k]; [done|]. apply andb_prop_elim in Hk as [Hc _].
    apply bool_decide_unpack in Hc as (_ & Hc & _). unfold json_find_key. simpl.
    unfold key_at. simpl. by rewrite bool_decide_false by (intros [= ? ?]; congruence).
Qed.

Lemma malformed_text_witness :
  find_key_rec 1000 (bs "[}") (bs "x") = Hang ∧
  json_find_key ["{"%byte; QUOTE; BSLASH] (bs "x") = Ub.
Proof. destruct (malformed_text (bs "x")) as (H1 & _ & H3). split; [apply H1|by apply H3]. Defined.
