(* ===== verification/PgTree.v ===== *)
(** * The parse trees of libpg_query and their JSON text

    [parse_query] reads the text that libpg_query prints.  This file models the
    printer ([src/third_party/libpg_query/src/pg_query_outfuncs_json.c] and the
    generated [pg_query_outfuncs_defs.c]) as a function from trees to JSON trees.
    SELECT, INSERT, UPDATE and DELETE statements and the nodes of simple expressions have
    their own constructors.  Every other node type is [N_Other], a tag with the fields that its
    generated function writes, one for each use of a macro.  The text is in
    [PgPrint]. *)
From S2P Require Import Prelude Json.
#[local] Set Warnings "-clear-no-such-hyp".
#[local] Open Scope Z_scope.

(** ** Strings ([_outToken]) *)
Definition hex_digit (d : Z) : byte := Z_byte (if decide (d < 10) then 48 + d else 87 + d).
Definition hex4 (z : Z) : bytes :=
  [hex_digit (z / 4096 `mod` 16); hex_digit (z / 256 `mod` 16);
   hex_digit (z / 16 `mod` 16); hex_digit (z `mod` 16)].
Definition escape_char (c : byte) : bytes :=
  if decide (c = "008"%byte) then [BSLASH; "b"%byte]
  else if decide (c = "012"%byte) then [BSLASH; "f"%byte]
  else if decide (c = "010"%byte) then [BSLASH; "n"%byte]
  else if decide (c = "013"%byte) then [BSLASH; "r"%byte]
  else if decide (c = "009"%byte) then [BSLASH; "t"%byte]
  else if decide (c = QUOTE) then [BSLASH; QUOTE]
  else if decide (c = BSLASH) then [BSLASH; BSLASH]
  else if decide (byte_Z c < 32 ∨ c = "<"%byte ∨ c = ">"%byte)
  then BSLASH :: "u"%byte :: hex4 (byte_Z c)
  else [c].
Definition outToken (str : bytes) : json := JStr (concat (map escape_char str)).

(** ** Fields

    Each macro writes [name:value] followed by a comma, or nothing. *)
Definition members : Type := list (bytes * json).
Definition WRITE_INT_FIELD (name : bytes) (v : Z) : members :=
  if decide (v = 0) then [] else [(name, JTok (dec v))].
Definition WRITE_UINT_FIELD := WRITE_INT_FIELD.
Definition WRITE_UINT64_FIELD := WRITE_INT_FIELD.
Definition WRITE_LONG_FIELD := WRITE_INT_FIELD.
Definition WRITE_CHAR_FIELD (name : bytes) (v : byte) : members :=
  if decide (v = NUL) then [] else [(name, JStr [v])].
Definition WRITE_ENUM_FIELD (name : bytes) (v : bytes) : members := [(name, JStr v)].
(** A float is the text that ["%f"] gives for it. *)
Definition WRITE_FLOAT_FIELD (name : bytes) (v : bytes) : members := [(name, JTok v)].
Definition WRITE_BOOL_FIELD (name : bytes) (v : bool) : members :=
  if v then [(name, JTok (bs "true"))] else [].
Definition WRITE_STRING_FIELD (name : bytes) (v : option bytes) : members :=
  match v with Some s => [(name, outToken s)] | None => [] end.
(** An empty list is a NULL pointer in PostgreSQL. *)
Definition WRITE_LIST_FIELD (name : bytes) (l : list json) : members :=
  match l with [] => [] | _ => [(name, JArr l)] end.
Definition WRITE_NODE_FIELD (name : bytes) (j : json) : members := [(name, j)].
Definition WRITE_NODE_PTR_FIELD (name : bytes) (v : option json) : members :=
  match v with Some j => [(name, j)] | None => [] end.
Definition WRITE_SPECIFIC_NODE_FIELD (name : bytes) (fields : members) : members :=
  [(name, JObj fields)].
Definition WRITE_SPECIFIC_NODE_PTR_FIELD (name : bytes) (o : option members) : members :=
  match o with Some fields => WRITE_SPECIFIC_NODE_FIELD name fields | None => [] end.
(** A bitmap set is the list of its members in increasing order.  [bms_members] are the
    values that [x] takes in the loop over the set; the loop of the macro starts with
    [x = 0], so that a member 0 is not printed. *)
Definition bms_next_member (l : list Z) (prevbit : Z) : option Z :=
  head (filter (λ x, prevbit < x) l).
Fixpoint bms_members (fuel : nat) (l : list Z) (x : Z) : list Z :=
  match fuel with
  | O => []
  | S fuel =>
    match bms_next_member l x with Some y => y :: bms_members fuel l y | None => [] end
  end.
Definition WRITE_BITMAPSET_FIELD (name : bytes) (l : list Z) : members :=
  match l with
  | [] => []
  | _ => [(name, JArr (map (JTok ∘ dec) (bms_members (length l) l 0)))]
  end.
(** [_outNode] with [OUT_NODE]: the type and the fields. *)
Definition OUT_NODE (tag : bytes) (fields : members) : json := JObj [(tag, JObj fields)].

(** ** Nodes *)
Inductive A_Expr_Kind : Type :=
| AEXPR_OP | AEXPR_OP_ANY | AEXPR_OP_ALL | AEXPR_DISTINCT | AEXPR_NOT_DISTINCT | AEXPR_NULLIF
| AEXPR_IN | AEXPR_LIKE | AEXPR_ILIKE | AEXPR_SIMILAR | AEXPR_BETWEEN | AEXPR_NOT_BETWEEN
| AEXPR_BETWEEN_SYM | AEXPR_NOT_BETWEEN_SYM.
Definition A_Expr_Kind_name (k : A_Expr_Kind) : bytes :=
  match k with
  | AEXPR_OP => bs "AEXPR_OP" | AEXPR_OP_ANY => bs "AEXPR_OP_ANY"
  | AEXPR_OP_ALL => bs "AEXPR_OP_ALL" | AEXPR_DISTINCT => bs "AEXPR_DISTINCT"
  | AEXPR_NOT_DISTINCT => bs "AEXPR_NOT_DISTINCT" | AEXPR_NULLIF => bs "AEXPR_NULLIF"
  | AEXPR_IN => bs "AEXPR_IN" | AEXPR_LIKE => bs "AEXPR_LIKE" | AEXPR_ILIKE => bs "AEXPR_ILIKE"
  | AEXPR_SIMILAR => bs "AEXPR_SIMILAR" | AEXPR_BETWEEN => bs "AEXPR_BETWEEN"
  | AEXPR_NOT_BETWEEN => bs "AEXPR_NOT_BETWEEN" | AEXPR_BETWEEN_SYM => bs "AEXPR_BETWEEN_SYM"
  | AEXPR_NOT_BETWEEN_SYM => bs "AEXPR_NOT_BETWEEN_SYM"
  end.
Inductive BoolExprType : Type := AND_EXPR | OR_EXPR | NOT_EXPR.
Definition BoolExprType_name (t : BoolExprType) : bytes :=
  match t with AND_EXPR => bs "AND_EXPR" | OR_EXPR => bs "OR_EXPR" | NOT_EXPR => bs "NOT_EXPR" end.

Inductive LimitOption : Type :=
| LIMIT_OPTION_DEFAULT | LIMIT_OPTION_COUNT | LIMIT_OPTION_WITH_TIES.
Definition LimitOption_name (o : LimitOption) : bytes :=
  match o with
  | LIMIT_OPTION_DEFAULT => bs "LIMIT_OPTION_DEFAULT" | LIMIT_OPTION_COUNT => bs "LIMIT_OPTION_COUNT"
  | LIMIT_OPTION_WITH_TIES => bs "LIMIT_OPTION_WITH_TIES"
  end.
Inductive SetOperation : Type := SETOP_NONE | SETOP_UNION | SETOP_INTERSECT | SETOP_EXCEPT.
Definition SetOperation_name (o : SetOperation) : bytes :=
  match o with
  | SETOP_NONE => bs "SETOP_NONE" | SETOP_UNION => bs "SETOP_UNION"
  | SETOP_INTERSECT => bs "SETOP_INTERSECT" | SETOP_EXCEPT => bs "SETOP_EXCEPT"
  end.
Inductive OverridingKind : Type :=
| OVERRIDING_NOT_SET | OVERRIDING_USER_VALUE | OVERRIDING_SYSTEM_VALUE.
Definition OverridingKind_name (k : OverridingKind) : bytes :=
  match k with
  | OVERRIDING_NOT_SET => bs "OVERRIDING_NOT_SET" | OVERRIDING_USER_VALUE => bs "OVERRIDING_USER_VALUE"
  | OVERRIDING_SYSTEM_VALUE => bs "OVERRIDING_SYSTEM_VALUE"
  end.

(** [colnames] is a list of String nodes. *)
Record Alias : Type := mkAlias {
  aliasname : option bytes;
  colnames : list bytes;
}.
Record RangeVar : Type := mkRangeVar {
  rv_catalogname : option bytes;
  rv_schemaname : option bytes;
  rv_relname : option bytes;
  rv_inh : bool;
  rv_relpersistence : byte;
  rv_alias : option Alias;
  rv_location : Z;
}.
Inductive Const : Type :=
| C_Integer (ival : Z) | C_Float (fval : bytes) | C_Boolean (boolval : bool)
| C_String (sval : bytes) | C_BitString (bsval : bytes).

(** The statements.  [N] is the type of nodes and [F] that of the fields of a node whose
    type is known from its place, such as a WITH clause or an operand of a UNION. *)
Record SelectStmt {N F : Type} : Type := mkSelectStmt {
  distinctClause : list N;
  intoClause : option F;
  sel_targetList : list N;
  fromClause : list N;
  sel_whereClause : option N;
  groupClause : list N;
  groupDistinct : bool;
  havingClause : option N;
  windowClause : list N;
  valuesLists : list N;
  sortClause : list N;
  limitOffset : option N;
  limitCount : option N;
  limitOption : LimitOption;
  lockingClause : list N;
  sel_withClause : option F;
  sel_op : SetOperation;
  sel_all : bool;
  larg : option F;
  rarg : option F;
}.
Record InsertStmt {N F : Type} : Type := mkInsertStmt {
  ins_relation : RangeVar;
  ins_cols : list N;
  ins_selectStmt : option N;
  onConflictClause : option F;
  ins_returningList : list N;
  ins_withClause : option F;
  ins_override : OverridingKind;
}.
Record UpdateStmt {N F : Type} : Type := mkUpdateStmt {
  upd_relation : RangeVar;
  upd_targetList : list N;
  upd_whereClause : option N;
  upd_fromClause : list N;
  upd_returningList : list N;
  upd_withClause : option F;
}.
Record DeleteStmt {N F : Type} : Type := mkDeleteStmt {
  del_relation : RangeVar;
  usingClause : list N;
  del_whereClause : option N;
  del_returningList : list N;
  del_withClause : option F;
}.

#[global] Arguments SelectStmt : clear implicits.
#[global] Arguments InsertStmt : clear implicits.
#[global] Arguments UpdateStmt : clear implicits.
#[global] Arguments DeleteStmt : clear implicits.
#[global] Arguments mkSelectStmt {N F}.
#[global] Arguments mkInsertStmt {N F}.
#[global] Arguments mkUpdateStmt {N F}.
#[global] Arguments mkDeleteStmt {N F}.

(** [N_Empty] is a NULL element of a list or a node of a type the printer does not
    know: both are printed as an empty object.  [Field] has a constructor for each macro
    of the generated functions. *)
Unset Elimination Schemes.
Inductive Node : Type :=
| N_Empty
| N_Integer (ival : Z)
| N_Float (fval : bytes)
| N_Boolean (boolval : bool)
| N_BitString (bsval : bytes)
| N_IntList (items : list Z)
| N_OidList (items : list Z)
| N_String (sval : bytes)
| N_A_Star
| N_ColumnRef (fields : list Node) (location : Z)
| N_A_Const (val : option Const) (location : Z)
| N_A_Expr (kind : A_Expr_Kind) (name : list Node) (lexpr rexpr : option Node) (location : Z)
| N_BoolExpr (boolop : BoolExprType) (args : list Node) (location : Z)
| N_List (items : list Node)
| N_RangeVar (rv : RangeVar)
| N_ResTarget (name : option bytes) (indirection : list Node) (val : option Node) (location : Z)
| N_SelectStmt (s : SelectStmt Node (list (bytes * Field)))
| N_InsertStmt (s : InsertStmt Node (list (bytes * Field)))
| N_UpdateStmt (s : UpdateStmt Node (list (bytes * Field)))
| N_DeleteStmt (s : DeleteStmt Node (list (bytes * Field)))
| N_Other (tag : bytes) (fields : list (bytes * Field))
with Field : Type :=
| F_INT (v : Z) | F_UINT (v : Z) | F_UINT64 (v : Z) | F_LONG (v : Z)
| F_CHAR (v : byte) | F_ENUM (v : bytes) | F_FLOAT (v : bytes) | F_BOOL (v : bool)
| F_STRING (v : option bytes)
| F_LIST (l : list Node)
| F_NODE (n : Node)
| F_NODE_PTR (n : option Node)
| F_SPECIFIC_NODE (fields : list (bytes * Field))
| F_SPECIFIC_NODE_PTR (fields : option (list (bytes * Field)))
| F_BITMAPSET (l : list Z).
Set Elimination Schemes.

Definition outInteger (z : Z) : members :=
  if decide (z = 0) then [] else [(bs "ival", JTok (dec z))].
Definition outFloat (s : bytes) : members := [(bs "fval", outToken s)].
Definition outBoolean (b : bool) : members :=
  [(bs "boolval", JTok (if b then bs "true" else bs "false"))].
Definition outString (s : bytes) : members := [(bs "sval", outToken s)].
Definition outBitString (s : bytes) : members := [(bs "bsval", outToken s)].
Definition outList (l : list json) : members := [(bs "items", JArr l)].
Definition outIntList (l : list Z) : members := outList (map (JTok ∘ dec) l).
Definition outOidList (l : list Z) : members := outList (map (JTok ∘ dec) l).
Definition outAConst (val : option Const) (location : Z) : members :=
  match val with
  | None => [(bs "isnull", JTok (bs "true"))]
  | Some (C_Integer z) => [(bs "ival", JObj (outInteger z))]
  | Some (C_Float s) => [(bs "fval", JObj (outFloat s))]
  | Some (C_Boolean b) =>
    [(bs "boolval", JObj (if b then [(bs "boolval", JTok (bs "true"))] else []))]
  | Some (C_String s) => [(bs "sval", JObj (outString s))]
  | Some (C_BitString s) => [(bs "bsval", JObj (outBitString s))]
  end ++ [(bs "location", JTok (dec location))].
Definition outAlias (a : Alias) : members :=
  WRITE_STRING_FIELD (bs "aliasname") (aliasname a) ++
  WRITE_LIST_FIELD (bs "colnames") (map (OUT_NODE (bs "String") ∘ outString) (colnames a)).
Definition outRangeVar (rv : RangeVar) : members :=
  WRITE_STRING_FIELD (bs "catalogname") (rv_catalogname rv) ++
  WRITE_STRING_FIELD (bs "schemaname") (rv_schemaname rv) ++
  WRITE_STRING_FIELD (bs "relname") (rv_relname rv) ++
  WRITE_BOOL_FIELD (bs "inh") (rv_inh rv) ++
  WRITE_CHAR_FIELD (bs "relpersistence") (rv_relpersistence rv) ++
  WRITE_SPECIFIC_NODE_PTR_FIELD (bs "alias") (outAlias <$> rv_alias rv) ++
  WRITE_INT_FIELD (bs "location") (rv_location rv).

(** [_outNode] *)
Fixpoint outNode (n : Node) : json :=
  let outPtr o := match o with Some n => Some (outNode n) | None => None end in
  let outSpecific o :=
    match o with
    | Some fields => Some (concat (map (λ kf : bytes * Field, outField kf.1 kf.2) fields))
    | None => None
    end in
  match n with
  | N_Empty => JObj []
  | N_Integer z => OUT_NODE (bs "Integer") (outInteger z)
  | N_Float s => OUT_NODE (bs "Float") (outFloat s)
  | N_Boolean b => OUT_NODE (bs "Boolean") (outBoolean b)
  | N_BitString s => OUT_NODE (bs "BitString") (outBitString s)
  | N_IntList l => OUT_NODE (bs "IntList") (outIntList l)
  | N_OidList l => OUT_NODE (bs "OidList") (outOidList l)
  | N_String s => OUT_NODE (bs "String") (outString s)
  | N_A_Star => OUT_NODE (bs "A_Star") []
  | N_ColumnRef fields location =>
    OUT_NODE (bs "ColumnRef")
      (WRITE_LIST_FIELD (bs "fields") (map outNode fields) ++
       WRITE_INT_FIELD (bs "location") location)
  | N_A_Const val location => OUT_NODE (bs "A_Const") (outAConst val location)
  | N_A_Expr kind name lexpr rexpr location =>
    OUT_NODE (bs "A_Expr")
      (WRITE_ENUM_FIELD (bs "kind") (A_Expr_Kind_name kind) ++
       WRITE_LIST_FIELD (bs "name") (map outNode name) ++
       WRITE_NODE_PTR_FIELD (bs "lexpr") (outPtr lexpr) ++
       WRITE_NODE_PTR_FIELD (bs "rexpr") (outPtr rexpr) ++
       WRITE_INT_FIELD (bs "location") location)
  | N_BoolExpr boolop args location =>
    OUT_NODE (bs "BoolExpr")
      (WRITE_ENUM_FIELD (bs "boolop") (BoolExprType_name boolop) ++
       WRITE_LIST_FIELD (bs "args") (map outNode args) ++
       WRITE_INT_FIELD (bs "location") location)
  | N_List items => OUT_NODE (bs "List") (outList (map outNode items))
  | N_RangeVar rv => OUT_NODE (bs "RangeVar") (outRangeVar rv)
  | N_ResTarget name indirection val location =>
    OUT_NODE (bs "ResTarget")
      (WRITE_STRING_FIELD (bs "name") name ++
       WRITE_LIST_FIELD (bs "indirection") (map outNode indirection) ++
       WRITE_NODE_PTR_FIELD (bs "val") (outPtr val) ++
       WRITE_INT_FIELD (bs "location") location)
  | N_SelectStmt s =>
    OUT_NODE (bs "SelectStmt")
      (WRITE_LIST_FIELD (bs "distinctClause") (map outNode (distinctClause s)) ++
       WRITE_SPECIFIC_NODE_PTR_FIELD (bs "intoClause") (outSpecific (intoClause s)) ++
       WRITE_LIST_FIELD (bs "targetList") (map outNode (sel_targetList s)) ++
       WRITE_LIST_FIELD (bs "fromClause") (map outNode (fromClause s)) ++
       WRITE_NODE_PTR_FIELD (bs "whereClause") (outPtr (sel_whereClause s)) ++
       WRITE_LIST_FIELD (bs "groupClause") (map outNode (groupClause s)) ++
       WRITE_BOOL_FIELD (bs "groupDistinct") (groupDistinct s) ++
       WRITE_NODE_PTR_FIELD (bs "havingClause") (outPtr (havingClause s)) ++
       WRITE_LIST_FIELD (bs "windowClause") (map outNode (windowClause s)) ++
       WRITE_LIST_FIELD (bs "valuesLists") (map outNode (valuesLists s)) ++
       WRITE_LIST_FIELD (bs "sortClause") (map outNode (sortClause s)) ++
       WRITE_NODE_PTR_FIELD (bs "limitOffset") (outPtr (limitOffset s)) ++
       WRITE_NODE_PTR_FIELD (bs "limitCount") (outPtr (limitCount s)) ++
       WRITE_ENUM_FIELD (bs "limitOption") (LimitOption_name (limitOption s)) ++
       WRITE_LIST_FIELD (bs "lockingClause") (map outNode (lockingClause s)) ++
       WRITE_SPECIFIC_NODE_PTR_FIELD (bs "withClause") (outSpecific (sel_withClause s)) ++
       WRITE_ENUM_FIELD (bs "op") (SetOperation_name (sel_op s)) ++
       WRITE_BOOL_FIELD (bs "all") (sel_all s) ++
       WRITE_SPECIFIC_NODE_PTR_FIELD (bs "larg") (outSpecific (larg s)) ++
       WRITE_SPECIFIC_NODE_PTR_FIELD (bs "rarg") (outSpecific (rarg s)))
  | N_InsertStmt s =>
    OUT_NODE (bs "InsertStmt")
      (WRITE_SPECIFIC_NODE_FIELD (bs "relation") (outRangeVar (ins_relation s)) ++
       WRITE_LIST_FIELD (bs "cols") (map outNode (ins_cols s)) ++
       WRITE_NODE_PTR_FIELD (bs "selectStmt") (outPtr (ins_selectStmt s)) ++
       WRITE_SPECIFIC_NODE_PTR_FIELD (bs "onConflictClause") (outSpecific (onConflictClause s)) ++
       WRITE_LIST_FIELD (bs "returningList") (map outNode (ins_returningList s)) ++
       WRITE_SPECIFIC_NODE_PTR_FIELD (bs "withClause") (outSpecific (ins_withClause s)) ++
       WRITE_ENUM_FIELD (bs "override") (OverridingKind_name (ins_override s)))
  | N_UpdateStmt s =>
    OUT_NODE (bs "UpdateStmt")
      (WRITE_SPECIFIC_NODE_FIELD (bs "relation") (outRangeVar (upd_relation s)) ++
       WRITE_LIST_FIELD (bs "targetList") (map outNode (upd_targetList s)) ++
       WRITE_NODE_PTR_FIELD (bs "whereClause") (outPtr (upd_whereClause s)) ++
       WRITE_LIST_FIELD (bs "fromClause") (map outNode (upd_fromClause s)) ++
       WRITE_LIST_FIELD (bs "returningList") (map outNode (upd_returningList s)) ++
       WRITE_SPECIFIC_NODE_PTR_FIELD (bs "withClause") (outSpecific (upd_withClause s)))
  | N_DeleteStmt s =>
    OUT_NODE (bs "DeleteStmt")
      (WRITE_SPECIFIC_NODE_FIELD (bs "relation") (outRangeVar (del_relation s)) ++
       WRITE_LIST_FIELD (bs "usingClause") (map outNode (usingClause s)) ++
       WRITE_NODE_PTR_FIELD (bs "whereClause") (outPtr (del_whereClause s)) ++
       WRITE_LIST_FIELD (bs "returningList") (map outNode (del_returningList s)) ++
       WRITE_SPECIFIC_NODE_PTR_FIELD (bs "withClause") (outSpecific (del_withClause s)))
  | N_Other tag fields => OUT_NODE tag (concat (map (λ kf, outField kf.1 kf.2) fields))
  end
with outField (name : bytes) (f : Field) {struct f} : members :=
  match f with
  | F_INT v => WRITE_INT_FIELD name v
  | F_UINT v => WRITE_UINT_FIELD name v
  | F_UINT64 v => WRITE_UINT64_FIELD name v
  | F_LONG v => WRITE_LONG_FIELD name v
  | F_CHAR v => WRITE_CHAR_FIELD name v
  | F_ENUM v => WRITE_ENUM_FIELD name v
  | F_FLOAT v => WRITE_FLOAT_FIELD name v
  | F_BOOL v => WRITE_BOOL_FIELD name v
  | F_STRING v => WRITE_STRING_FIELD name v
  | F_LIST l => WRITE_LIST_FIELD name (map outNode l)
  | F_NODE n => WRITE_NODE_FIELD name (outNode n)
  | F_NODE_PTR o =>
    WRITE_NODE_PTR_FIELD name match o with Some n => Some (outNode n) | None => None end
  | F_SPECIFIC_NODE fields =>
    WRITE_SPECIFIC_NODE_FIELD name (concat (map (λ kf, outField kf.1 kf.2) fields))
  | F_SPECIFIC_NODE_PTR o =>
    WRITE_SPECIFIC_NODE_PTR_FIELD name
      match o with
      | Some fields => Some (concat (map (λ kf, outField kf.1 kf.2) fields))
      | None => None
      end
  | F_BITMAPSET l => WRITE_BITMAPSET_FIELD name l
  end.

Record RawStmt : Type := mkRawStmt {
  raw_stmt : Node;
  stmt_location : Z;
  stmt_len : Z;
}.
Definition outRawStmt (r : RawStmt) : members :=
  WRITE_NODE_PTR_FIELD (bs "stmt") (Some (outNode (raw_stmt r))) ++
  WRITE_INT_FIELD (bs "stmt_location") (stmt_location r) ++
  WRITE_INT_FIELD (bs "stmt_len") (stmt_len r).

(** [pg_query_nodes_to_json]; [version] is [PG_VERSION_NUM]. *)
Definition nodes_to_json (version : Z) (stmts : list RawStmt) : json :=
  JObj [(bs "version", JTok (dec version)); (bs "stmts", JArr (map (JObj ∘ outRawStmt) stmts))].

(** ** The tree is well formed *)

(** Strings are C strings and hold no NUL.  The names of node types, fields and
    enumerators, and the one-letter codes, need no escapes. *)
Definition str_ok (s : bytes) : bool := bool_decide (cstring s).
Definition opt_ok {A} (f : A → bool) (o : option A) : bool :=
  match o with Some a => f a | None => true end.
Definition alias_ok (a : Alias) : bool := opt_ok str_ok (aliasname a) && forallb str_ok (colnames a).
Definition rangevar_ok (rv : RangeVar) : bool :=
  opt_ok str_ok (rv_catalogname rv) && opt_ok str_ok (rv_schemaname rv) &&
  opt_ok str_ok (rv_relname rv) && esc_ok [rv_relpersistence rv] &&
  opt_ok alias_ok (rv_alias rv).
Definition const_ok (c : Const) : bool :=
  match c with
  | C_Float s | C_String s | C_BitString s => str_ok s
  | C_Integer _ | C_Boolean _ => true
  end.
Definition members_ok (l : members) : bool := forallb (λ kv, esc_ok kv.1 && json_wf kv.2) l.
Fixpoint node_ok (n : Node) : bool :=
  let fields_ok := opt_ok (forallb (λ kf : bytes * Field, esc_ok kf.1 && field_ok kf.2)) in
  match n with
  | N_Empty | N_Integer _ | N_Boolean _ | N_IntList _ | N_OidList _ => true
  | N_Float s | N_BitString s => str_ok s
  | N_String s => str_ok s
  | N_A_Star => true
  | N_ColumnRef fields _ => forallb node_ok fields
  | N_A_Const val _ => opt_ok const_ok val
  | N_A_Expr _ name lexpr rexpr _ =>
    forallb node_ok name && opt_ok node_ok lexpr && opt_ok node_ok rexpr
  | N_BoolExpr _ args _ => forallb node_ok args
  | N_List items => forallb node_ok items
  | N_RangeVar rv => rangevar_ok rv
  | N_ResTarget name indirection val _ =>
    opt_ok str_ok name && forallb node_ok indirection && opt_ok node_ok val
  | N_SelectStmt s =>
    forallb node_ok (distinctClause s) && fields_ok (intoClause s) &&
    forallb node_ok (sel_targetList s) && forallb node_ok (fromClause s) &&
    opt_ok node_ok (sel_whereClause s) && forallb node_ok (groupClause s) &&
    opt_ok node_ok (havingClause s) && forallb node_ok (windowClause s) &&
    forallb node_ok (valuesLists s) && forallb node_ok (sortClause s) &&
    opt_ok node_ok (limitOffset s) && opt_ok node_ok (limitCount s) &&
    forallb node_ok (lockingClause s) && fields_ok (sel_withClause s) &&
    fields_ok (larg s) && fields_ok (rarg s)
  | N_InsertStmt s =>
    rangevar_ok (ins_relation s) && forallb node_ok (ins_cols s) && opt_ok node_ok (ins_selectStmt s) &&
    fields_ok (onConflictClause s) && forallb node_ok (ins_returningList s) && fields_ok (ins_withClause s)
  | N_UpdateStmt s =>
    rangevar_ok (upd_relation s) && forallb node_ok (upd_targetList s) && opt_ok node_ok (upd_whereClause s) &&
    forallb node_ok (upd_fromClause s) && forallb node_ok (upd_returningList s) && fields_ok (upd_withClause s)
  | N_DeleteStmt s =>
    rangevar_ok (del_relation s) && forallb node_ok (usingClause s) && opt_ok node_ok (del_whereClause s) &&
    forallb node_ok (del_returningList s) && fields_ok (del_withClause s)
  | N_Other tag fields => esc_ok tag && forallb (λ kf, esc_ok kf.1 && field_ok kf.2) fields
  end
with field_ok (f : Field) : bool :=
  match f with
  | F_INT _ | F_UINT _ | F_UINT64 _ | F_LONG _ | F_BOOL _ | F_BITMAPSET _ => true
  | F_CHAR c => esc_ok [c]
  | F_ENUM s => esc_ok s
  | F_FLOAT s => tok_ok s
  | F_STRING o => opt_ok str_ok o
  | F_LIST l => forallb node_ok l
  | F_NODE n => node_ok n
  | F_NODE_PTR o => opt_ok node_ok o
  | F_SPECIFIC_NODE fields => forallb (λ kf, esc_ok kf.1 && field_ok kf.2) fields
  | F_SPECIFIC_NODE_PTR o => opt_ok (forallb (λ kf, esc_ok kf.1 && field_ok kf.2)) o
  end.

Lemma esc_ok_escape c u : c ≠ NUL → esc_ok (escape_char c ++ u) = esc_ok u.
Proof. destruct c; done. Qed.
Lemma outToken_wf s : str_ok s → json_wf (outToken s).
Proof.
  intros Hs%bool_decide_unpack. unfold cstring in Hs. simpl.
  induction s as [|c s IH]; [done|]. cbn [map concat].
  rewrite esc_ok_escape by set_solver. apply IH. set_solver.
Qed.
Lemma tok_ok_dec z : tok_ok (dec z).
Proof.
  assert (∀ l, Forall (λ c, isdigit c = true) l → forallb tok_char l) as Hd.
  { induction 1 as [|c l Hc Hl IH]; [done|]. simpl. apply andb_prop_intro. split; [|done].
    revert Hc. by destruct c. }
  unfold dec, tok_ok. case_decide; apply andb_prop_intro.
  - split; [by apply bool_decide_pack|]. cbn [forallb]. apply andb_prop_intro.
    split; [done|]. apply Hd, dec_digits_isdigit. lia.
  - destruct (dec_digits_cons (Z.to_nat (Z.log2 z)) z) as (c & l & E & _); [lia|].
    split; [rewrite E; by apply bool_decide_pack|]. apply Hd, dec_digits_isdigit. lia.
Qed.

Lemma members_ok_app l1 l2 : members_ok l1 → members_ok l2 → members_ok (l1 ++ l2).
Proof. unfold members_ok. rewrite forallb_app. auto using andb_prop_intro. Qed.
Lemma members_ok_one k j : esc_ok k → json_wf j → members_ok [(k, j)].
Proof. intros. simpl. rewrite andb_true_r. auto using andb_prop_intro. Qed.
Lemma int_field_ok k z : esc_ok k → members_ok (WRITE_INT_FIELD k z).
Proof. intros. unfold WRITE_INT_FIELD. case_decide; [done|]. apply members_ok_one; [done|]. apply tok_ok_dec. Qed.
Lemma string_field_ok k s : esc_ok k → opt_ok str_ok s → members_ok (WRITE_STRING_FIELD k s).
Proof. intros. destruct s; [|done]. apply members_ok_one; [done|]. by apply outToken_wf. Qed.
Lemma list_field_ok k l : esc_ok k → forallb json_wf l → members_ok (WRITE_LIST_FIELD k l).
Proof. intros. destruct l; [done|]. by apply members_ok_one. Qed.
Lemma ptr_field_ok k o : esc_ok k → opt_ok json_wf o → members_ok (WRITE_NODE_PTR_FIELD k o).
Proof. intros. destruct o; [|done]. by apply members_ok_one. Qed.
Lemma out_node_ok tag l : esc_ok tag → members_ok l → json_wf (OUT_NODE tag l).
Proof. intros. simpl. rewrite andb_true_r. auto using andb_prop_intro. Qed.
Lemma members_ok_struct k l : esc_ok k → members_ok l → members_ok (WRITE_SPECIFIC_NODE_FIELD k l).
Proof. intros. by apply members_ok_one. Qed.
Lemma bool_field_ok k b : esc_ok k → members_ok (WRITE_BOOL_FIELD k b).
Proof. intros. destruct b; [|done]. by apply members_ok_one. Qed.
Lemma char_field_ok k c : esc_ok k → esc_ok [c] → members_ok (WRITE_CHAR_FIELD k c).
Proof. intros. unfold WRITE_CHAR_FIELD. case_decide; [done|]. by apply members_ok_one. Qed.
Lemma specific_ptr_ok k o :
  esc_ok k → opt_ok members_ok o → members_ok (WRITE_SPECIFIC_NODE_PTR_FIELD k o).
Proof. intros. destruct o; [|done]. by apply members_ok_struct. Qed.
Lemma outAlias_ok a : alias_ok a → members_ok (outAlias a).
Proof.
  unfold alias_ok, outAlias. rewrite andb_True. intros [? Hc].
  apply members_ok_app; [by apply string_field_ok|]. apply list_field_ok; [done|].
  induction (colnames a) as [|c l IH]; [done|]. cbn [forallb map] in *. rewrite andb_True in *.
  destruct Hc. split; [|auto]. apply out_node_ok; [done|]. by apply members_ok_one; [|apply outToken_wf].
Qed.
Lemma outRangeVar_ok rv : rangevar_ok rv → members_ok (outRangeVar rv).
Proof.
  unfold rangevar_ok, outRangeVar. rewrite !andb_True. intros ((((? & ?) & ?) & ?) & Ha).
  repeat apply members_ok_app; auto using string_field_ok, int_field_ok, bool_field_ok, char_field_ok.
  apply specific_ptr_ok; [done|]. destruct (rv_alias rv); [|done]. by apply outAlias_ok.
Qed.
Lemma outAConst_ok v loc : opt_ok const_ok v → members_ok (outAConst v loc).
Proof.
  intros Hv. apply members_ok_app; [|apply members_ok_one; [done|apply tok_ok_dec]].
  destruct v as [[z|s|b|s|s]|]; [..|done]; (apply members_ok_one; [done|]).
  - unfold outInteger. case_decide; [done|]. simpl. rewrite andb_true_r. apply tok_ok_dec.
  - apply members_ok_one; [done|]. by apply outToken_wf.
  - by destruct b.
  - apply members_ok_one; [done|]. by apply outToken_wf.
  - apply members_ok_one; [done|]. by apply outToken_wf.
Qed.

(** Induction over nodes, with the children in lists and behind pointers. *)
Definition opt_prop {A} (P : A → Prop) (o : option A) : Prop :=
  match o with Some a => P a | None => True end.
Section node_ind.
Context (P : Node → Prop) (Q : Field → Prop).
Let Qs (l : list (bytes * Field)) : Prop := Forall (λ kf, Q kf.2) l.
(** Nodes and fields without children. *)
Hypothesis HLeaf : ∀ n,
  match n with
  | N_Empty | N_Integer _ | N_Float _ | N_Boolean _ | N_BitString _ | N_IntList _ | N_OidList _
  | N_String _ | N_A_Star | N_A_Const _ _ | N_RangeVar _ => P n
  | _ => True
  end.
Hypothesis HFLeaf : ∀ f,
  match f with
  | F_LIST _ | F_NODE _ | F_NODE_PTR _ | F_SPECIFIC_NODE _ | F_SPECIFIC_NODE_PTR _ => True
  | _ => Q f
  end.
Hypothesis HColumn : ∀ l loc, Forall P l → P (N_ColumnRef l loc).
Hypothesis HExpr : ∀ k l a b loc, Forall P l → opt_prop P a → opt_prop P b → P (N_A_Expr k l a b loc).
Hypothesis HBool : ∀ o l loc, Forall P l → P (N_BoolExpr o l loc).
Hypothesis HList : ∀ l, Forall P l → P (N_List l).
Hypothesis HRes : ∀ n l a loc, Forall P l → opt_prop P a → P (N_ResTarget n l a loc).
Hypothesis HSelect : ∀ s,
  Forall P (distinctClause s) → opt_prop Qs (intoClause s) → Forall P (sel_targetList s) →
  Forall P (fromClause s) → opt_prop P (sel_whereClause s) → Forall P (groupClause s) →
  opt_prop P (havingClause s) → Forall P (windowClause s) → Forall P (valuesLists s) →
  Forall P (sortClause s) → opt_prop P (limitOffset s) → opt_prop P (limitCount s) →
  Forall P (lockingClause s) → opt_prop Qs (sel_withClause s) → opt_prop Qs (larg s) →
  opt_prop Qs (rarg s) → P (N_SelectStmt s).
Hypothesis HInsert : ∀ s,
  Forall P (ins_cols s) → opt_prop P (ins_selectStmt s) → opt_prop Qs (onConflictClause s) →
  Forall P (ins_returningList s) → opt_prop Qs (ins_withClause s) → P (N_InsertStmt s).
Hypothesis HUpdate : ∀ s,
  Forall P (upd_targetList s) → opt_prop P (upd_whereClause s) → Forall P (upd_fromClause s) →
  Forall P (upd_returningList s) → opt_prop Qs (upd_withClause s) → P (N_UpdateStmt s).
Hypothesis HDelete : ∀ s,
  Forall P (usingClause s) → opt_prop P (del_whereClause s) → Forall P (del_returningList s) →
  opt_prop Qs (del_withClause s) → P (N_DeleteStmt s).
Hypothesis HOther : ∀ t l, Qs l → P (N_Other t l).
Hypothesis HFList : ∀ l, Forall P l → Q (F_LIST l).
Hypothesis HFNode : ∀ n, P n → Q (F_NODE n).
Hypothesis HFPtr : ∀ o, opt_prop P o → Q (F_NODE_PTR o).
Hypothesis HFSpec : ∀ l, Qs l → Q (F_SPECIFIC_NODE l).
Hypothesis HFSpecPtr : ∀ o, opt_prop Qs o → Q (F_SPECIFIC_NODE_PTR o).

(** Lists and pointers, given the induction for an element. *)
Definition all_of {A} (R : A → Prop) (f : ∀ a, R a) : ∀ l, Forall R l :=
  fix all l := match l with
    | [] => List.Forall_nil _
    | x :: r => List.Forall_cons _ x r (f x) (all r)
    end.
Definition opt_of {A} (R : A → Prop) (f : ∀ a, R a) (o : option A) : opt_prop R o :=
  match o with Some a => f a | None => I end.
Fixpoint node_nested_ind (n : Node) : P n :=
  let nodes := all_of P node_nested_ind in
  let ptr := opt_of P node_nested_ind in
  let specific := opt_of Qs (all_of (λ kf, Q kf.2) (λ kf, field_nested_ind kf.2)) in
  match n with
  | N_ColumnRef l loc => HColumn l loc (nodes l)
  | N_A_Expr k l a b loc =>
    HExpr k l a b loc (nodes l) (ptr a) (ptr b)
  | N_BoolExpr o l loc => HBool o l loc (nodes l)
  | N_List l => HList l (nodes l)
  | N_ResTarget m l a loc => HRes m l a loc (nodes l) (ptr a)
  | N_SelectStmt s =>
    HSelect s (nodes (distinctClause s)) (specific (intoClause s)) (nodes (sel_targetList s))
      (nodes (fromClause s)) (ptr (sel_whereClause s)) (nodes (groupClause s)) (ptr (havingClause s))
      (nodes (windowClause s)) (nodes (valuesLists s)) (nodes (sortClause s)) (ptr (limitOffset s))
      (ptr (limitCount s)) (nodes (lockingClause s)) (specific (sel_withClause s))
      (specific (larg s)) (specific (rarg s))
  | N_InsertStmt s =>
    HInsert s (nodes (ins_cols s)) (ptr (ins_selectStmt s)) (specific (onConflictClause s))
      (nodes (ins_returningList s)) (specific (ins_withClause s))
  | N_UpdateStmt s =>
    HUpdate s (nodes (upd_targetList s)) (ptr (upd_whereClause s)) (nodes (upd_fromClause s))
      (nodes (upd_returningList s)) (specific (upd_withClause s))
  | N_DeleteStmt s =>
    HDelete s (nodes (usingClause s)) (ptr (del_whereClause s)) (nodes (del_returningList s))
      (specific (del_withClause s))
  | N_Other t l => HOther t l (all_of (λ kf, Q kf.2) (λ kf, field_nested_ind kf.2) l)
  | n => HLeaf n
  end
with field_nested_ind (f : Field) : Q f :=
  match f with
  | F_LIST l => HFList l (all_of P node_nested_ind l)
  | F_NODE n => HFNode n (node_nested_ind n)
  | F_NODE_PTR o => HFPtr o (opt_of P node_nested_ind o)
  | F_SPECIFIC_NODE l => HFSpec l (all_of (λ kf, Q kf.2) (λ kf, field_nested_ind kf.2) l)
  | F_SPECIFIC_NODE_PTR o =>
    HFSpecPtr o (opt_of Qs (all_of (λ kf, Q kf.2) (λ kf, field_nested_ind kf.2)) o)
  | f => HFLeaf f
  end.
Lemma node_field_ind : (∀ n, P n) ∧ (∀ f, Q f).
Proof. split; [exact node_nested_ind|exact field_nested_ind]. Qed.
End node_ind.

Lemma out_list_wf l :
  Forall (λ n, node_ok n → json_wf (outNode n)) l → forallb node_ok l →
  forallb json_wf (map outNode l).
Proof.
  induction 1 as [|n l Hn Hl IH]; [done|]. simpl. intros [? ?]%andb_prop_elim.
  auto using andb_prop_intro.
Qed.
Lemma out_opt_wf o :
  opt_prop (λ n, node_ok n → json_wf (outNode n)) o → opt_ok node_ok o →
  opt_ok json_wf match o with Some n => Some (outNode n) | None => None end.
Proof. destruct o; auto. Qed.
Definition field_wf (f : Field) : Prop :=
  ∀ k, esc_ok k → field_ok f → members_ok (outField k f).
Lemma out_fields_wf l :
  Forall (λ kf, field_wf kf.2) l → forallb (λ kf, esc_ok kf.1 && field_ok kf.2) l →
  members_ok (concat (map (λ kf, outField kf.1 kf.2) l)).
Proof.
  induction 1 as [|[k f] l Hf Hl IH]; [done|]. cbn [forallb map concat fst snd].
  rewrite !andb_True. intros [[? ?] ?]. apply members_ok_app; auto.
Qed.
Lemma decs_wf (l : list Z) : forallb json_wf (map (JTok ∘ dec) l).
Proof. induction l; [done|]. apply andb_prop_intro. split; [apply tok_ok_dec|done]. Qed.
Lemma out_specific_wf o :
  opt_prop (Forall (λ kf, field_wf kf.2)) o →
  opt_ok (forallb (λ kf : bytes * Field, esc_ok kf.1 && field_ok kf.2)) o →
  opt_ok members_ok match o with
    | Some l => Some (concat (map (λ kf : bytes * Field, outField kf.1 kf.2) l))
    | None => None
    end.
Proof. destruct o; [|done]. apply out_fields_wf. Qed.
#[local] Hint Resolve out_list_wf out_opt_wf string_field_ok int_field_ok list_field_ok
  ptr_field_ok members_ok_struct members_ok_one outRangeVar_ok outToken_wf out_fields_wf decs_wf
  tok_ok_dec bool_field_ok char_field_ok specific_ptr_ok out_specific_wf : sharegres.

Lemma leaf_wf n :
  match n with
  | N_Empty | N_Integer _ | N_Float _ | N_Boolean _ | N_BitString _ | N_IntList _ | N_OidList _
  | N_String _ | N_A_Star | N_A_Const _ _ | N_RangeVar _ => node_ok n → json_wf (outNode n)
  | _ => True
  end.
Proof.
  destruct n; try done; cbn [node_ok outNode]; intros Hn; apply out_node_ok; try done;
    try (by apply outAConst_ok); try (by apply outRangeVar_ok); try (by apply members_ok_one; [|apply outToken_wf]);
    try (apply members_ok_one; [done|apply decs_wf]).
  - unfold outInteger. case_decide; [done|]. by apply members_ok_one; [|apply tok_ok_dec].
  - by destruct boolval.
Qed.
Lemma field_leaf_wf f :
  match f with
  | F_LIST _ | F_NODE _ | F_NODE_PTR _ | F_SPECIFIC_NODE _ | F_SPECIFIC_NODE_PTR _ => True
  | _ => field_wf f
  end.
Proof.
  destruct f; try done; intros k Hk; cbn [field_ok outField]; intros Hf;
    try (by apply int_field_ok); try (by apply members_ok_one).
  - by apply char_field_ok.
  - by apply bool_field_ok.
  - by apply string_field_ok.
  - unfold WRITE_BITMAPSET_FIELD. case_match; [done|]. apply members_ok_one; [done|apply decs_wf].
Qed.
Lemma tree_wf : (∀ n, node_ok n → json_wf (outNode n)) ∧ (∀ f, field_wf f).
Proof.
  apply node_field_ind; [exact leaf_wf|exact field_leaf_wf|..]; unfold field_wf; intros;
    cbn [node_ok field_ok outNode outField] in *; rewrite ?andb_True in *; destruct_and?;
    try (apply out_node_ok; try done); repeat apply members_ok_app; auto with sharegres; try done.
  - by destruct k.
  - by destruct o.
  - apply members_ok_one; [done|]. simpl. auto with sharegres.
  - by destruct (limitOption s).
  - by destruct (sel_op s).
  - by destruct (ins_override s).
  - apply members_ok_one; auto.
Qed.
Lemma outNode_wf n : node_ok n → json_wf (outNode n).
Proof. apply tree_wf. Qed.
Lemma nodes_to_json_wf version stmts :
  forallb (node_ok ∘ raw_stmt) stmts → json_wf (nodes_to_json version stmts).
Proof.
  intros Hs. apply (members_ok_app [_] [_]); [apply members_ok_one; [done|apply tok_ok_dec]|].
  apply members_ok_one; [done|]. cbn [json_wf].
  induction stmts as [|s l IH]; [done|]. cbn [map forallb] in *.
  apply andb_prop_elim in Hs as [Hs Hl]. apply andb_prop_intro. split; [|auto].
  apply members_ok_app; [apply ptr_field_ok; [done|]; by apply outNode_wf|].
  apply members_ok_app; by apply int_field_ok.
Qed.
