(* ===== verification/PgPrint.v ===== *)
(** * The text of the parse trees

    The printer of [src/third_party/libpg_query/src/pg_query_outfuncs_json.c] as it is
    written: functions and macros that append to a string buffer, write a comma after
    every field and remove the last one ([removeTrailingDelimiter]).  It is shown to
    print the compact text of the JSON tree of [PgTree]. *)
From S2P Require Import Prelude Json PgTree.
#[local] Set Warnings "-clear-no-such-hyp".
#[local] Open Scope Z_scope.

(** ** The buffer

    A [StringInfo] is its contents; a function that writes to it is a [writer]. *)
Definition writer : Type := bytes → bytes.
Declare Scope writer_scope.
Delimit Scope writer_scope with writer.
#[local] Open Scope writer_scope.
Definition write_then (a b : writer) : writer := λ out, b (a out).
Notation "a >>> b" := (write_then a b) (at level 62, right associativity) : writer_scope.
(** [appendStringInfo], [appendStringInfoString] and [appendStringInfoChar] *)
Definition append (s : bytes) : writer := λ out, out ++ s.
Definition skip : writer := λ out, out.
Definition removeTrailingDelimiter : writer := λ out,
  match reverse out with
  | c :: rest => if decide (c = ","%byte) then reverse rest else out
  | [] => out
  end.

Fixpoint out_chars (s : bytes) : writer :=
  match s with [] => skip | c :: s => append (escape_char c) >>> out_chars s end.
(** [_outToken]; NULL is [None]. *)
Definition out_token (str : option bytes) : writer :=
  match str with
  | None => append (bs "null")
  | Some s => append [QUOTE] >>> out_chars s >>> append [QUOTE]
  end.

(** ** The macros *)
Definition label (name : bytes) : bytes := quoted name ++ [":"%byte].
Definition comma : writer := append [","%byte].
Definition write_int_field (name : bytes) (v : Z) : writer :=
  if decide (v = 0) then skip else append (label name ++ dec v ++ [","%byte]).
(** Each prints its value in decimal, at its width. *)
Definition write_uint_field : bytes → Z → writer := write_int_field.
Definition write_uint64_field : bytes → Z → writer := write_int_field.
Definition write_long_field : bytes → Z → writer := write_int_field.
Definition write_char_field (name : bytes) (v : byte) : writer :=
  if decide (v = NUL) then skip else append (label name ++ [QUOTE; v; QUOTE; ","%byte]).
Definition write_enum_field (name v : bytes) : writer :=
  append (label name ++ [QUOTE] ++ v ++ [QUOTE; ","%byte]).
Definition write_float_field (name v : bytes) : writer :=
  append (label name ++ v ++ [","%byte]).
Definition booltostr (b : bool) : bytes := if b then bs "true" else bs "false".
Definition write_bool_field (name : bytes) (v : bool) : writer :=
  if v then append (label name ++ booltostr v ++ [","%byte]) else skip.
Definition write_string_field (name : bytes) (v : option bytes) : writer :=
  match v with
  | Some s => append (label name) >>> out_token (Some s) >>> comma
  | None => skip
  end.
(** [foreach], with a comma when there is a next element. *)
Fixpoint out_elems (l : list writer) : writer :=
  match l with
  | [] => skip
  | [w] => w
  | w :: l => w >>> comma >>> out_elems l
  end.
Definition write_list_field (name : bytes) (l : list writer) : writer :=
  match l with
  | [] => skip
  | _ => append (label name) >>> append ["["%byte] >>> out_elems l >>> append ["]"%byte; ","%byte]
  end.
Definition write_node_field (name : bytes) (w : writer) : writer :=
  append (label name) >>> w >>> comma.
Definition write_node_ptr_field (name : bytes) (o : option writer) : writer :=
  match o with Some w => append (label name) >>> w >>> comma | None => skip end.
Definition write_specific_node_field (name : bytes) (w : writer) : writer :=
  append (label name ++ ["{"%byte]) >>> w >>> removeTrailingDelimiter >>> append ["}"%byte; ","%byte].
Definition write_specific_node_ptr_field (name : bytes) (o : option writer) : writer :=
  match o with
  | Some w =>
    append (label name ++ ["{"%byte]) >>> w >>> removeTrailingDelimiter >>> append ["}"%byte; ","%byte]
  | None => skip
  end.
Fixpoint out_members (fuel : nat) (l : list Z) (x : Z) : writer :=
  match fuel with
  | O => skip
  | S fuel =>
    match bms_next_member l x with
    | Some y => append (dec y ++ [","%byte]) >>> out_members fuel l y
    | None => skip
    end
  end.
Definition write_bitmapset_field (name : bytes) (l : list Z) : writer :=
  match l with
  | [] => skip
  | _ =>
    append (label name ++ ["["%byte]) >>> out_members (length l) l 0 >>>
    removeTrailingDelimiter >>> append ["]"%byte; ","%byte]
  end.

(** ** Nodes

    The functions of the file and the generated ones. *)
Definition out_integer (z : Z) : writer :=
  if decide (z = 0) then skip else append (label (bs "ival") ++ dec z).
Definition out_boolean (b : bool) : writer := append (label (bs "boolval") ++ booltostr b).
Definition out_float (s : bytes) : writer := append (label (bs "fval")) >>> out_token (Some s).
Definition out_string (s : bytes) : writer := append (label (bs "sval")) >>> out_token (Some s).
Definition out_bit_string (s : bytes) : writer := append (label (bs "bsval")) >>> out_token (Some s).
Definition out_list (l : list writer) : writer :=
  append (label (bs "items")) >>> append ["["%byte] >>> out_elems l >>> append ["]"%byte] >>> comma.
Definition out_int_list (l : list Z) : writer := out_list (map (append ∘ dec) l).
Definition out_oid_list (l : list Z) : writer := out_list (map (append ∘ dec) l).
Definition out_a_const (val : option Const) (location : Z) : writer :=
  match val with
  | None => append (label (bs "isnull") ++ bs "true")
  | Some (C_Integer z) => append (label (bs "ival") ++ ["{"%byte]) >>> out_integer z >>> append ["}"%byte]
  | Some (C_Float s) => append (label (bs "fval") ++ ["{"%byte]) >>> out_float s >>> append ["}"%byte]
  | Some (C_Boolean b) =>
    append (label (bs "boolval") ++ ["{"%byte] ++
      (if b then label (bs "boolval") ++ bs "true" else []) ++ ["}"%byte])
  | Some (C_String s) => append (label (bs "sval") ++ ["{"%byte]) >>> out_string s >>> append ["}"%byte]
  | Some (C_BitString s) =>
    append (label (bs "bsval") ++ ["{"%byte]) >>> out_bit_string s >>> append ["}"%byte]
  end >>> append ([","%byte] ++ label (bs "location") ++ dec location).

(** [OUT_NODE] between the brace that [_outNode] opens and the two that it closes. *)
Definition out_object (tag : bytes) (w : writer) : writer :=
  append ["{"%byte] >>> append (label tag ++ ["{"%byte]) >>> w >>>
  removeTrailingDelimiter >>> append ["}"%byte; "}"%byte].

Definition out_alias (a : Alias) : writer :=
  write_string_field (bs "aliasname") (aliasname a) >>>
  write_list_field (bs "colnames") (map (out_object (bs "String") ∘ out_string) (colnames a)).
Definition out_range_var (rv : RangeVar) : writer :=
  write_string_field (bs "catalogname") (rv_catalogname rv) >>>
  write_string_field (bs "schemaname") (rv_schemaname rv) >>>
  write_string_field (bs "relname") (rv_relname rv) >>>
  write_bool_field (bs "inh") (rv_inh rv) >>>
  write_char_field (bs "relpersistence") (rv_relpersistence rv) >>>
  write_specific_node_ptr_field (bs "alias") (out_alias <$> rv_alias rv) >>>
  write_int_field (bs "location") (rv_location rv).

(** [_outNode].  The fields of a node that has no constructor of its own are written one
    after the other. *)
Definition out_fields (f : bytes * Field → writer) (l : list (bytes * Field)) : writer :=
  foldr (λ kf w, f kf >>> w) skip l.
Fixpoint out_node (n : Node) : writer :=
  let nodes := map out_node in
  let ptr o := match o with Some n => Some (out_node n) | None => None end in
  let specific o :=
    match o with Some l => Some (out_fields (λ kf, out_field kf.1 kf.2) l) | None => None end in
  match n with
  | N_Empty => append ["{"%byte] >>> append ["}"%byte]
  | N_Integer z => out_object (bs "Integer") (out_integer z)
  | N_Float s => out_object (bs "Float") (out_float s)
  | N_Boolean b => out_object (bs "Boolean") (out_boolean b)
  | N_BitString s => out_object (bs "BitString") (out_bit_string s)
  | N_IntList l => out_object (bs "IntList") (out_int_list l)
  | N_OidList l => out_object (bs "OidList") (out_oid_list l)
  | N_String s => out_object (bs "String") (out_string s)
  | N_A_Star => out_object (bs "A_Star") skip
  | N_ColumnRef fields location =>
    out_object (bs "ColumnRef")
      (write_list_field (bs "fields") (nodes fields) >>>
       write_int_field (bs "location") location)
  | N_A_Const val location => out_object (bs "A_Const") (out_a_const val location)
  | N_A_Expr kind name lexpr rexpr location =>
    out_object (bs "A_Expr")
      (write_enum_field (bs "kind") (A_Expr_Kind_name kind) >>>
       write_list_field (bs "name") (nodes name) >>>
       write_node_ptr_field (bs "lexpr") (ptr lexpr) >>>
       write_node_ptr_field (bs "rexpr") (ptr rexpr) >>>
       write_int_field (bs "location") location)
  | N_BoolExpr boolop args location =>
    out_object (bs "BoolExpr")
      (write_enum_field (bs "boolop") (BoolExprType_name boolop) >>>
       write_list_field (bs "args") (nodes args) >>>
       write_int_field (bs "location") location)
  | N_List items => out_object (bs "List") (out_list (nodes items))
  | N_RangeVar rv => out_object (bs "RangeVar") (out_range_var rv)
  | N_ResTarget name indirection val location =>
    out_object (bs "ResTarget")
      (write_string_field (bs "name") name >>>
       write_list_field (bs "indirection") (nodes indirection) >>>
       write_node_ptr_field (bs "val") (ptr val) >>>
       write_int_field (bs "location") location)
  | N_SelectStmt s =>
    out_object (bs "SelectStmt")
      (write_list_field (bs "distinctClause") (nodes (distinctClause s)) >>>
       write_specific_node_ptr_field (bs "intoClause") (specific (intoClause s)) >>>
       write_list_field (bs "targetList") (nodes (sel_targetList s)) >>>
       write_list_field (bs "fromClause") (nodes (fromClause s)) >>>
       write_node_ptr_field (bs "whereClause") (ptr (sel_whereClause s)) >>>
       write_list_field (bs "groupClause") (nodes (groupClause s)) >>>
       write_bool_field (bs "groupDistinct") (groupDistinct s) >>>
       write_node_ptr_field (bs "havingClause") (ptr (havingClause s)) >>>
       write_list_field (bs "windowClause") (nodes (windowClause s)) >>>
       write_list_field (bs "valuesLists") (nodes (valuesLists s)) >>>
       write_list_field (bs "sortClause") (nodes (sortClause s)) >>>
       write_node_ptr_field (bs "limitOffset") (ptr (limitOffset s)) >>>
       write_node_ptr_field (bs "limitCount") (ptr (limitCount s)) >>>
       write_enum_field (bs "limitOption") (LimitOption_name (limitOption s)) >>>
       write_list_field (bs "lockingClause") (nodes (lockingClause s)) >>>
       write_specific_node_ptr_field (bs "withClause") (specific (sel_withClause s)) >>>
       write_enum_field (bs "op") (SetOperation_name (sel_op s)) >>>
       write_bool_field (bs "all") (sel_all s) >>>
       write_specific_node_ptr_field (bs "larg") (specific (larg s)) >>>
       write_specific_node_ptr_field (bs "rarg") (specific (rarg s)))
  | N_InsertStmt s =>
    out_object (bs "InsertStmt")
      (write_specific_node_ptr_field (bs "relation") (Some (out_range_var (ins_relation s))) >>>
       write_list_field (bs "cols") (nodes (ins_cols s)) >>>
       write_node_ptr_field (bs "selectStmt") (ptr (ins_selectStmt s)) >>>
       write_specific_node_ptr_field (bs "onConflictClause") (specific (onConflictClause s)) >>>
       write_list_field (bs "returningList") (nodes (ins_returningList s)) >>>
       write_specific_node_ptr_field (bs "withClause") (specific (ins_withClause s)) >>>
       write_enum_field (bs "override") (OverridingKind_name (ins_override s)))
  | N_UpdateStmt s =>
    out_object (bs "UpdateStmt")
      (write_specific_node_ptr_field (bs "relation") (Some (out_range_var (upd_relation s))) >>>
       write_list_field (bs "targetList") (nodes (upd_targetList s)) >>>
       write_node_ptr_field (bs "whereClause") (ptr (upd_whereClause s)) >>>
       write_list_field (bs "fromClause") (nodes (upd_fromClause s)) >>>
       write_list_field (bs "returningList") (nodes (upd_returningList s)) >>>
       write_specific_node_ptr_field (bs "withClause") (specific (upd_withClause s)))
  | N_DeleteStmt s =>
    out_object (bs "DeleteStmt")
      (write_specific_node_ptr_field (bs "relation") (Some (out_range_var (del_relation s))) >>>
       write_list_field (bs "usingClause") (nodes (usingClause s)) >>>
       write_node_ptr_field (bs "whereClause") (ptr (del_whereClause s)) >>>
       write_list_field (bs "returningList") (nodes (del_returningList s)) >>>
       write_specific_node_ptr_field (bs "withClause") (specific (del_withClause s)))
  | N_Other tag fields => out_object tag (out_fields (λ kf, out_field kf.1 kf.2) fields)
  end
with out_field (name : bytes) (f : Field) {struct f} : writer :=
  match f with
  | F_INT v => write_int_field name v
  | F_UINT v => write_uint_field name v
  | F_UINT64 v => write_uint64_field name v
  | F_LONG v => write_long_field name v
  | F_CHAR v => write_char_field name v
  | F_ENUM v => write_enum_field name v
  | F_FLOAT v => write_float_field name v
  | F_BOOL v => write_bool_field name v
  | F_STRING v => write_string_field name v
  | F_LIST l => write_list_field name (map out_node l)
  | F_NODE n => write_node_field name (out_node n)
  | F_NODE_PTR o =>
    write_node_ptr_field name match o with Some n => Some (out_node n) | None => None end
  | F_SPECIFIC_NODE l =>
    write_specific_node_field name (out_fields (λ kf, out_field kf.1 kf.2) l)
  | F_SPECIFIC_NODE_PTR o =>
    write_specific_node_ptr_field name
      match o with Some l => Some (out_fields (λ kf, out_field kf.1 kf.2) l) | None => None end
  | F_BITMAPSET l => write_bitmapset_field name l
  end.

Definition out_raw_stmt (r : RawStmt) : writer :=
  write_node_ptr_field (bs "stmt") (Some (out_node (raw_stmt r))) >>>
  write_int_field (bs "stmt_location") (stmt_location r) >>>
  write_int_field (bs "stmt_len") (stmt_len r).

Definition PG_VERSION_NUM : Z := 160001.
(** The pointer that [pg_query_node_to_json] is given may be NULL. *)
Definition pg_query_node_to_json (obj : option Node) : bytes :=
  match obj with
  | None => append (bs "null")
  | Some n => out_node n
  end [].
(** An empty list is a NULL pointer. *)
Definition pg_query_nodes_to_json (obj : list RawStmt) : bytes :=
  match obj with
  | [] =>
    append ("{"%byte :: label (bs "version") ++ dec PG_VERSION_NUM ++ [","%byte] ++
      label (bs "stmts") ++ ["["%byte; "]"%byte; "}"%byte])
  | _ =>
    append ["{"%byte] >>> append (label (bs "version") ++ dec PG_VERSION_NUM ++ [","%byte]) >>>
    append (label (bs "stmts")) >>> append ["["%byte] >>>
    out_elems (map (λ r, append ["{"%byte] >>> out_raw_stmt r >>> removeTrailingDelimiter >>>
      append ["}"%byte]) obj) >>>
    append ["]"%byte] >>> append ["}"%byte]
  end [].

(** ** What a writer appends *)
Definition writes (w : writer) (t : bytes) : Prop := ∀ out, w out = out ++ t.
Definition field_text (kv : bytes * json) : bytes := member_text kv.1 (json_text kv.2).
Definition fields_text (l : members) : bytes := concat (map (λ kv, field_text kv ++ [","%byte]) l).
(** The fields [w] writes, each with its comma. *)
Definition writes_fields (w : writer) (l : members) : Prop := writes w (fields_text l).
(** After a brace and the removal of the last comma there is the text of the members. *)
Definition closes (w : writer) (l : members) : Prop :=
  ∀ out, removeTrailingDelimiter (w (out ++ ["{"%byte])) = (out ++ ["{"%byte]) ++ join (map field_text l).

Lemma writes_append s : writes (append s) s.
Proof. done. Qed.
Lemma writes_skip : writes skip [].
Proof. intros out. by rewrite app_nil_r. Qed.
Lemma writes_seq a b s t : writes a s → writes b t → writes (a >>> b) (s ++ t).
Proof. intros Ha Hb out. unfold write_then. by rewrite Hb, Ha, <- app_assoc. Qed.
Lemma writes_eq w s t : writes w s → s = t → writes w t.
Proof. by intros ? <-. Qed.
Lemma fields_none : writes_fields skip [].
Proof. apply writes_skip. Qed.
Lemma fields_seq a b k l : writes_fields a k → writes_fields b l → writes_fields (a >>> b) (k ++ l).
Proof.
  intros Ha Hb. eapply writes_eq; [by apply writes_seq|]. unfold fields_text.
  by rewrite map_app, concat_app.
Qed.

Lemma removeTrailing_comma s : removeTrailingDelimiter (s ++ [","%byte]) = s.
Proof. unfold removeTrailingDelimiter. rewrite reverse_app. simpl. by rewrite reverse_involutive. Qed.
Lemma removeTrailing_other s : last s ≠ Some ","%byte → removeTrailingDelimiter s = s.
Proof.
  destruct s as [|c s _] using rev_ind; [done|]. rewrite last_snoc. intros Hc.
  unfold removeTrailingDelimiter. rewrite reverse_app. simpl. rewrite decide_False; [done|congruence].
Qed.
Lemma concat_commas (l : list bytes) :
  l ≠ [] → concat (map (λ s, s ++ [","%byte]) l) = join l ++ [","%byte].
Proof.
  induction l as [|s [|s' l] IH]; intros Hl; [done|by simpl; rewrite app_nil_r|].
  cbn [map concat]. cbn [map concat] in IH. rewrite IH by done.
  change (join (s :: s' :: l)) with (s ++ ","%byte :: join (s' :: l)).
  by rewrite <- !app_assoc.
Qed.
Lemma removeTrailing_commas s l :
  last s ≠ Some ","%byte →
  removeTrailingDelimiter (s ++ concat (map (λ x, x ++ [","%byte]) l)) = s ++ join l.
Proof.
  intros Hs. destruct l as [|x l].
  - simpl. rewrite !app_nil_r. by apply removeTrailing_other.
  - by rewrite concat_commas, app_assoc, removeTrailing_comma.
Qed.
Lemma fields_close w l : writes_fields w l → closes w l.
Proof.
  intros Hw out. rewrite Hw. unfold fields_text.
  rewrite <- (map_map field_text (λ s, s ++ [","%byte])). apply removeTrailing_commas. by rewrite last_snoc.
Qed.
(** The functions that write no comma end in a digit, a letter, a quote or a brace. *)
Lemma bare_close w l :
  writes w (join (map field_text l)) → last (join (map field_text l)) ≠ Some ","%byte → closes w l.
Proof.
  intros Hw Hl out. rewrite Hw. apply removeTrailing_other. rewrite last_app, last_snoc.
  by destruct (last (join (map field_text l))).
Qed.

Lemma writes_struct pre w l post :
  closes w l →
  writes (append (pre ++ ["{"%byte]) >>> w >>> removeTrailingDelimiter >>> append post)
    (pre ++ "{"%byte :: join (map field_text l) ++ post).
Proof.
  intros Hw out. unfold write_then, append. rewrite app_assoc, Hw, <- !app_assoc. done.
Qed.
Lemma object_text l : json_text (JObj l) = "{"%byte :: join (map field_text l) ++ ["}"%byte].
Proof. done. Qed.
Lemma label_text k v : label k ++ v = member_text k v.
Proof. unfold label, member_text. by rewrite <- app_assoc. Qed.
Lemma out_object_text tag w l : closes w l → writes (out_object tag w) (json_text (OUT_NODE tag l)).
Proof.
  intros Hw. eapply writes_eq; [apply writes_seq; [apply writes_append|]|].
  { exact (writes_struct (label tag) w l _ Hw). }
  change (json_text (OUT_NODE tag l)) with ("{"%byte :: member_text tag (json_text (JObj l)) ++ ["}"%byte]).
  rewrite object_text, <- label_text, <- !app_assoc, <- !app_comm_cons, <- app_assoc. done.
Qed.
Lemma fields_one k j : fields_text [(k, j)] = label k ++ json_text j ++ [","%byte].
Proof.
  unfold fields_text, field_text. cbn [map concat fst snd].
  by rewrite app_nil_r, <- label_text, <- app_assoc.
Qed.

(** ** The macros write the fields of the tree *)
Lemma int_field_text k v : writes_fields (write_int_field k v) (WRITE_INT_FIELD k v).
Proof.
  unfold write_int_field, WRITE_INT_FIELD. case_decide; [apply fields_none|].
  eapply writes_eq; [apply writes_append|]. by rewrite fields_one.
Qed.
Lemma char_field_text k v : writes_fields (write_char_field k v) (WRITE_CHAR_FIELD k v).
Proof.
  unfold write_char_field, WRITE_CHAR_FIELD. case_decide; [apply fields_none|].
  eapply writes_eq; [apply writes_append|]. by rewrite fields_one.
Qed.
Lemma enum_field_text k v : writes_fields (write_enum_field k v) (WRITE_ENUM_FIELD k v).
Proof.
  eapply writes_eq; [apply writes_append|]. unfold WRITE_ENUM_FIELD. rewrite fields_one.
  f_equal. change (json_text (JStr v)) with (QUOTE :: v ++ [QUOTE]).
  cbn [app]. by rewrite <- app_assoc.
Qed.
Lemma float_field_text k v : writes_fields (write_float_field k v) (WRITE_FLOAT_FIELD k v).
Proof. eapply writes_eq; [apply writes_append|]. unfold WRITE_FLOAT_FIELD. by rewrite fields_one. Qed.
Lemma bool_field_text k v : writes_fields (write_bool_field k v) (WRITE_BOOL_FIELD k v).
Proof.
  destruct v; [|apply fields_none]. eapply writes_eq; [apply writes_append|].
  unfold WRITE_BOOL_FIELD. by rewrite fields_one.
Qed.
Lemma out_chars_text s : writes (out_chars s) (concat (map escape_char s)).
Proof. induction s as [|c s IH]; [apply writes_skip|]. by apply writes_seq. Qed.
Lemma out_token_text s : writes (out_token (Some s)) (json_text (outToken s)).
Proof.
  eapply writes_eq; [apply writes_seq; [apply writes_append|apply writes_seq;
    [apply out_chars_text|apply writes_append]]|]. done.
Qed.
Lemma node_field_text k w j :
  writes w (json_text j) → writes_fields (write_node_field k w) (WRITE_NODE_FIELD k j).
Proof.
  intros Hw. eapply writes_eq; [apply writes_seq; [apply writes_append|apply writes_seq;
    [exact Hw|apply writes_append]]|]. by rewrite <- fields_one.
Qed.
Lemma string_field_text k v : writes_fields (write_string_field k v) (WRITE_STRING_FIELD k v).
Proof. destruct v as [s|]; [|apply fields_none]. apply (node_field_text _ _ (outToken s)), out_token_text. Qed.
Lemma out_elems_text ws js :
  Forall2 (λ w j, writes w (json_text j)) ws js → writes (out_elems ws) (join (map json_text js)).
Proof.
  induction 1 as [|w j ws js Hw Hws IH]; [apply writes_skip|].
  destruct Hws as [|w' j' ws js Hw' Hws]; [done|].
  eapply writes_eq; [apply writes_seq; [exact Hw|apply writes_seq; [apply writes_append|exact IH]]|].
  done.
Qed.
Lemma list_field_text k ws js :
  Forall2 (λ w j, writes w (json_text j)) ws js →
  writes_fields (write_list_field k ws) (WRITE_LIST_FIELD k js).
Proof.
  intros Hl. pose proof (out_elems_text _ _ Hl) as He.
  destruct Hl as [|w j ws js Hw Hl]; [apply fields_none|].
  eapply writes_eq; [repeat (apply writes_seq; [first [exact He|apply writes_append]|]); apply writes_append|].
  unfold WRITE_LIST_FIELD. rewrite fields_one. cbn [json_text app]. by rewrite <- app_assoc.
Qed.
Lemma ptr_field_text k o oj :
  option_Forall2 (λ w j, writes w (json_text j)) o oj →
  writes_fields (write_node_ptr_field k o) (WRITE_NODE_PTR_FIELD k oj).
Proof. destruct 1; [by apply node_field_text|apply fields_none]. Qed.
Lemma specific_field_text k w l :
  closes w l → writes_fields (write_specific_node_field k w) (WRITE_SPECIFIC_NODE_FIELD k l).
Proof.
  intros Hw. eapply writes_eq; [by apply writes_struct|]. unfold WRITE_SPECIFIC_NODE_FIELD.
  rewrite fields_one, object_text. cbn [app]. by rewrite <- app_assoc.
Qed.
Lemma specific_ptr_text k o ol :
  option_Forall2 closes o ol →
  writes_fields (write_specific_node_ptr_field k o) (WRITE_SPECIFIC_NODE_PTR_FIELD k ol).
Proof. destruct 1; [by apply specific_field_text|apply fields_none]. Qed.

Lemma last_app_r {A} (s t : list A) x : last t = Some x → last (s ++ t) = Some x.
Proof. intros E. by rewrite last_app, E. Qed.
Lemma last_dec z : ∃ c, last (dec z) = Some c ∧ c ≠ ","%byte.
Proof.
  assert (∀ f z, 0 ≤ z → ∃ c, last (dec_digits (S f) z) = Some c ∧ c ≠ ","%byte) as Hd.
  { intros f x Hx. cbn [dec_digits]. rewrite last_snoc. eexists. split; [done|]. intros E.
    assert (isdigit (digit (x `mod` 10)) = true) as Hi by (apply isdigit_digit, Z.mod_pos_bound; lia).
    by rewrite E in Hi. }
  unfold dec. case_decide; [|apply Hd; lia].
  destruct (Hd (Z.to_nat (Z.log2 (- z))) (- z)) as (c & E & Hc); [lia|].
  exists c. split; [|done]. by apply (last_app_r ["-"%byte]).
Qed.
Lemma out_members_text fuel l x :
  writes (out_members fuel l x) (concat (map (λ s, s ++ [","%byte]) (map dec (bms_members fuel l x)))).
Proof.
  revert x. induction fuel as [|fuel IH]; intros x; [apply writes_skip|]. simpl.
  destruct (bms_next_member l x) as [y|]; [|apply writes_skip].
  apply writes_seq; [apply writes_append|apply IH].
Qed.
Lemma bitmapset_field_text k l : writes_fields (write_bitmapset_field k l) (WRITE_BITMAPSET_FIELD k l).
Proof.
  unfold write_bitmapset_field, WRITE_BITMAPSET_FIELD. destruct l as [|x l]; [apply fields_none|].
  set (n := length (x :: l)). set (s := x :: l). intros out. unfold write_then, append.
  rewrite (out_members_text n s 0), fields_one, removeTrailing_commas
    by (rewrite !app_assoc, last_snoc; done).
  cbn [json_text app]. rewrite map_map, <- !app_assoc. done.
Qed.

(** ** The nodes *)
Lemma token_last s : last (json_text (outToken s)) ≠ Some ","%byte.
Proof.
  change (json_text (outToken s)) with ((QUOTE :: concat (map escape_char s)) ++ [QUOTE]).
  by rewrite last_snoc.
Qed.
Lemma bare_token k s :
  writes (append (label k) >>> out_token (Some s)) (join (map field_text [(k, outToken s)])).
Proof.
  eapply writes_eq; [apply writes_seq; [apply writes_append|apply out_token_text]|]. apply label_text.
Qed.
Lemma last_field k v : last v ≠ Some ","%byte → last (member_text k v) ≠ Some ","%byte.
Proof.
  intros Hv. rewrite <- label_text. unfold label. rewrite last_app, last_snoc. by destruct (last v).
Qed.
Lemma token_close k s : closes (append (label k) >>> out_token (Some s)) [(k, outToken s)].
Proof. apply bare_close; [apply bare_token|]. apply last_field, token_last. Qed.
Lemma integer_text z : writes (out_integer z) (join (map field_text (outInteger z))).
Proof.
  unfold out_integer, outInteger. case_decide; [apply writes_skip|].
  eapply writes_eq; [apply writes_append|]. apply label_text.
Qed.
Lemma integer_close z : closes (out_integer z) (outInteger z).
Proof.
  apply bare_close; [apply integer_text|]. unfold outInteger. case_decide; [done|].
  apply last_field. destruct (last_dec z) as (c & E & Hc). simpl. rewrite E. congruence.
Qed.
Lemma boolean_close b : closes (out_boolean b) (outBoolean b).
Proof.
  apply bare_close; [|apply last_field; by destruct b].
  eapply writes_eq; [apply writes_append|]. destruct b; apply label_text.
Qed.
Lemma list_close ws js :
  Forall2 (λ w j, writes w (json_text j)) ws js → closes (out_list ws) (outList js).
Proof.
  intros Hl%out_elems_text. apply fields_close.
  eapply writes_eq; [repeat (apply writes_seq; [first [exact Hl|apply writes_append]|]); apply writes_append|].
  unfold outList. rewrite fields_one. cbn [json_text app]. by rewrite <- app_assoc.
Qed.
Lemma decs_text (l : list Z) :
  Forall2 (λ w j, writes w (json_text j)) (map (append ∘ dec) l) (map (JTok ∘ dec) l).
Proof. induction l; constructor; [apply writes_append|done]. Qed.
(** A constant: one field, a comma and the location. *)
Lemma const_close w kv loc :
  writes w (field_text kv) →
  closes (w >>> append ([","%byte] ++ label (bs "location") ++ dec loc))
    [kv; (bs "location", JTok (dec loc))].
Proof.
  intros Hw. apply bare_close.
  - eapply writes_eq; [apply writes_seq; [exact Hw|apply writes_append]|].
    cbn [map join]. by rewrite label_text.
  - cbn [map join]. destruct (last_dec loc) as (c & E & Hc).
    rewrite (last_app_r _ _ c); [congruence|]. apply (last_app_r [","%byte]).
    unfold field_text. rewrite <- label_text. by apply last_app_r.
Qed.
Lemma const_field k w l :
  writes w (join (map field_text l)) →
  writes (append (label k ++ ["{"%byte]) >>> w >>> append ["}"%byte]) (field_text (k, JObj l)).
Proof.
  intros Hw. eapply writes_eq; [apply writes_seq; [apply writes_append|apply writes_seq;
    [exact Hw|apply writes_append]]|].
  unfold field_text. rewrite <- label_text. cbn [fst snd]. by rewrite object_text, <- app_assoc.
Qed.
Lemma a_const_close v loc : closes (out_a_const v loc) (outAConst v loc).
Proof.
  destruct v as [[z|s|b|s|s]|]; apply const_close;
    [apply const_field, integer_text|apply const_field, bare_token| |
     apply const_field, bare_token|apply const_field, bare_token|].
  - eapply writes_eq; [apply writes_append|]. unfold field_text. rewrite <- label_text.
    by destruct b.
  - apply writes_append.
Qed.
Lemma alias_close a : closes (out_alias a) (outAlias a).
Proof.
  apply fields_close, fields_seq; [apply string_field_text|]. apply list_field_text.
  induction (colnames a) as [|c l IH]; constructor; [|done]. apply out_object_text, token_close.
Qed.
#[local] Hint Resolve fields_seq fields_none int_field_text char_field_text enum_field_text
  float_field_text bool_field_text string_field_text list_field_text node_field_text ptr_field_text
  specific_field_text specific_ptr_text bitmapset_field_text token_close : sharegres.
Lemma range_var_close rv : closes (out_range_var rv) (outRangeVar rv).
Proof.
  apply fields_close. unfold out_range_var, outRangeVar. repeat apply fields_seq; auto with sharegres.
  apply specific_ptr_text. destruct (rv_alias rv); constructor. apply alias_close.
Qed.

(** The tree is printed as its text, and a field as the fields of the tree. *)
Definition printed (n : Node) : Prop := writes (out_node n) (json_text (outNode n)).
Definition field_printed (f : Field) : Prop := ∀ k, writes_fields (out_field k f) (outField k f).
Lemma nodes_printed l :
  Forall printed l → Forall2 (λ w j, writes w (json_text j)) (map out_node l) (map outNode l).
Proof. induction 1; constructor; done. Qed.
Lemma ptr_printed o :
  opt_prop printed o →
  option_Forall2 (λ w j, writes w (json_text j))
    match o with Some n => Some (out_node n) | None => None end
    match o with Some n => Some (outNode n) | None => None end.
Proof. by destruct o; constructor. Qed.
Lemma fields_printed l :
  Forall (λ kf, field_printed kf.2) l →
  writes_fields (out_fields (λ kf, out_field kf.1 kf.2) l) (concat (map (λ kf, outField kf.1 kf.2) l)).
Proof. induction 1 as [|kf l Hf Hl IH]; [apply fields_none|]. by apply fields_seq. Qed.
Lemma specific_printed o :
  opt_prop (Forall (λ kf, field_printed kf.2)) o →
  option_Forall2 closes
    match o with Some l => Some (out_fields (λ kf, out_field kf.1 kf.2) l) | None => None end
    match o with
    | Some l => Some (concat (map (λ kf : bytes * Field, outField kf.1 kf.2) l))
    | None => None
    end.
Proof. destruct o; constructor. by apply fields_close, fields_printed. Qed.
#[local] Hint Resolve nodes_printed ptr_printed fields_printed specific_printed range_var_close : sharegres.

Lemma leaf_printed n :
  match n with
  | N_Empty | N_Integer _ | N_Float _ | N_Boolean _ | N_BitString _ | N_IntList _ | N_OidList _
  | N_String _ | N_A_Star | N_A_Const _ _ | N_RangeVar _ => printed n
  | _ => True
  end.
Proof.
  destruct n; try done; [|apply out_object_text..]; cbn [out_node];
    try apply token_close; try apply (list_close _ _ (decs_text _));
    auto using integer_close, boolean_close, a_const_close, range_var_close, fields_close, fields_none.
  by eapply writes_eq; [apply writes_seq; apply writes_append|].
Qed.
Lemma tree_printed : (∀ n, printed n) ∧ (∀ f, field_printed f).
Proof.
  apply node_field_ind; [exact leaf_printed| |..]; unfold printed, field_printed.
  { intros f. destruct f; try done; intros k; cbn [out_field outField];
      try apply int_field_text; auto with sharegres. }
  all: intros; cbn [out_node outNode out_field outField].
  all: try (apply out_object_text; first [by apply list_close, nodes_printed|apply fields_close]).
  all: repeat apply fields_seq; auto using fields_close with sharegres.
  all: apply (specific_field_text _ _ _ (range_var_close _)).
Qed.
Lemma raw_stmt_close r : closes (out_raw_stmt r) (outRawStmt r).
Proof.
  apply fields_close. unfold out_raw_stmt, outRawStmt. repeat apply fields_seq; auto with sharegres.
  apply ptr_field_text. constructor. apply tree_printed.
Qed.
Lemma stmts_printed l :
  Forall2 (λ w j, writes w (json_text j))
    (map (λ r, append ["{"%byte] >>> out_raw_stmt r >>> removeTrailingDelimiter >>> append ["}"%byte]) l)
    (map (JObj ∘ outRawStmt) l).
Proof.
  induction l as [|r l IH]; constructor; [|done].
  apply (writes_struct [] _ _ ["}"%byte] (raw_stmt_close r)).
Qed.
(** What is printed for a list of statements is the compact text of its tree. *)
Lemma nodes_to_json_text l : pg_query_nodes_to_json l = json_text (nodes_to_json PG_VERSION_NUM l).
Proof.
  assert (json_text (nodes_to_json PG_VERSION_NUM l) = "{"%byte :: label (bs "version") ++
    dec PG_VERSION_NUM ++ [","%byte] ++ label (bs "stmts") ++ ["["%byte] ++
    join (map json_text (map (JObj ∘ outRawStmt) l)) ++ ["]"%byte; "}"%byte]) as E.
  { unfold nodes_to_json. rewrite object_text. cbn [map join]. unfold field_text. cbn [fst snd].
    rewrite <- !label_text. cbn [json_text]. rewrite <- !app_assoc. cbn [app].
    rewrite <- !app_assoc. cbn [app]. by rewrite <- !app_assoc. }
  rewrite E. clear E. pose proof (out_elems_text _ _ (stmts_printed l)) as He.
  destruct l as [|r l]; [done|]. unfold pg_query_nodes_to_json, write_then, append.
  rewrite He, <- !app_assoc. done.
Qed.

(** ** Properties *)

(** C18: The printer implements the tree.  Whatever the statements, the printer of
    libpg_query, which appends fields with a comma after each and takes the last comma
    back, writes the compact text of one JSON tree; when the strings of the statements are
    C strings that tree is well formed: the input that the query parser relies on.  No
    statements at all are printed as an empty list. *)
Theorem printed_tree_well_formed stmts :
  pg_query_nodes_to_json stmts = json_text (nodes_to_json PG_VERSION_NUM stmts) ∧
  (forallb (node_ok ∘ raw_stmt) stmts → json_wf (nodes_to_json PG_VERSION_NUM stmts)).
Proof. split; [apply nodes_to_json_text|apply nodes_to_json_wf]. Qed.
Lemma printed_tree_well_formed_witness :
  json_wf (nodes_to_json PG_VERSION_NUM [mkRawStmt (N_String [QUOTE; BSLASH; "010"%byte]) 0 7]) ∧
  pg_query_nodes_to_json [] = bs "{" ++ label (bs "version") ++ bs "160001," ++ label (bs "stmts") ++ bs "[]}" ∧
  pg_query_node_to_json (Some (N_Other (bs "X") [(bs "set", F_BITMAPSET [0; 3; 5])]))
    = json_text (JObj [(bs "X", JObj [(bs "set", JArr [JTok (bs "3"); JTok (bs "5")])])]).
Proof.
  split; [|split; [rewrite (proj1 (printed_tree_well_formed [])); reflexivity|reflexivity]].
  apply (printed_tree_well_formed [mkRawStmt (N_String [QUOTE; BSLASH; "010"%byte]) 0 7]).
  vm_compute. exact I.
Defined.
