(* ===== verification/PgQuery.v ===== *)
(** * The entry points of libpg_query

    [pg_query_parse] and what it uses of [src/third_party/libpg_query/src/pg_query.c] and
    [pg_query_parse.c]: the memory contexts, the settings that the parser reads from global
    variables, PG_TRY and PG_CATCH, and the blocks that the caller has to free.  The
    grammar of PostgreSQL ([raw_parser], generated tables and their actions) is a parameter.
    [DEBUG] is defined in [pg_query_internal.h], so that the redirection of stderr is not
    compiled. *)
From S2P Require Import Prelude Json PgTree PgPrint.
#[local] Set Warnings "-clear-no-such-hyp".
#[local] Open Scope Z_scope.

(** ** Data *)
Inductive RawParseMode : Type :=
| RAW_PARSE_DEFAULT | RAW_PARSE_TYPE_NAME | RAW_PARSE_PLPGSQL_EXPR
| RAW_PARSE_PLPGSQL_ASSIGN1 | RAW_PARSE_PLPGSQL_ASSIGN2 | RAW_PARSE_PLPGSQL_ASSIGN3.
Inductive BackslashQuoteType : Type :=
| BACKSLASH_QUOTE_OFF | BACKSLASH_QUOTE_ON | BACKSLASH_QUOTE_SAFE_ENCODING.
(** The settings that the scanner reads. *)
Record Settings : Type := mkSettings {
  backslash_quote : BackslashQuoteType;
  standard_conforming_strings : bool;
  escape_string_warning : bool;
}.
(** The fields of [ErrorData] that are copied. *)
Record ErrorData : Type := mkErrorData {
  ed_message : bytes;
  ed_filename : bytes;
  ed_funcname : bytes;
  ed_lineno : Z;
  ed_cursorpos : Z;
}.
Abbreviation ptr := positive.
Record PgQueryError : Type := mkPgQueryError {
  message : ptr;
  funcname : ptr;
  filename : ptr;
  lineno : Z;
  cursorpos : Z;
  context : option ptr;
}.
Record PgQueryInternalParsetreeAndError : Type := mkInternal {
  in_tree : list RawStmt;
  in_stderr_buffer : option ptr;
  in_error : option ptr;
}.
Record PgQueryParseResult : Type := mkParseResult {
  parse_tree : option ptr;
  stderr_buffer : option ptr;
  error : option ptr;
}.
(** What [malloc] and [strdup] return points to. *)
Inductive block : Type := BUninit | BString (s : bytes) | BError (e : PgQueryError).
Inductive MemoryContext : Type := TopMemoryContext | ErrorContext | Child (n : nat).
#[export] Instance MemoryContext_eq_dec : EqDecision MemoryContext.
Proof. solve_decision. Defined.
(** The state of the library: whether it is initialised, [CurrentMemoryContext] (NULL is
    [None]), the children of [TopMemoryContext], the settings and the blocks that are
    allocated. *)
Record PgState : Type := mkPgState {
  pg_initialized : bool;
  pg_current : option MemoryContext;
  pg_contexts : gset nat;
  pg_settings : Settings;
  pg_heap : gmap ptr block;
}.
Definition set_current (c : option MemoryContext) (st : PgState) : PgState :=
  mkPgState (pg_initialized st) c (pg_contexts st) (pg_settings st) (pg_heap st).
Definition set_contexts (l : gset nat) (st : PgState) : PgState :=
  mkPgState (pg_initialized st) (pg_current st) l (pg_settings st) (pg_heap st).
Definition set_settings (g : Settings) (st : PgState) : PgState :=
  mkPgState (pg_initialized st) (pg_current st) (pg_contexts st) g (pg_heap st).
Definition set_heap (h : gmap ptr block) (st : PgState) : PgState :=
  mkPgState (pg_initialized st) (pg_current st) (pg_contexts st) (pg_settings st) h.

(** ** Blocks *)
Definition alloc (b : block) (st : PgState) : ptr * PgState :=
  let p := fresh (dom (pg_heap st)) in (p, set_heap (<[p := b]> (pg_heap st)) st).
Definition strdup (s : bytes) (st : PgState) : ptr * PgState := alloc (BString s) st.
Definition store (p : ptr) (b : block) (st : PgState) : PgState :=
  set_heap (<[p := b]> (pg_heap st)) st.
Definition free (o : option ptr) (st : PgState) : res PgState :=
  match o with
  | None => Ret st
  | Some p =>
    match pg_heap st !! p with
    | Some _ => Ret (set_heap (delete p (pg_heap st)) st)
    | None => Ub
    end
  end.
Definition read_string (o : option ptr) (st : PgState) : res bytes :=
  match p ← o; pg_heap st !! p with Some (BString s) => Ret s | _ => Ub end.
Definition read_error (o : option ptr) (st : PgState) : res PgQueryError :=
  match p ← o; pg_heap st !! p with Some (BError e) => Ret e | _ => Ub end.

(** ** Memory contexts *)
Definition pg_query_init (st : PgState) : PgState :=
  if pg_initialized st then st
  else mkPgState true (Some TopMemoryContext) ∅ (pg_settings st) (pg_heap st).
Definition pg_query_enter_memory_context (st : PgState) : nat * PgState :=
  let st := pg_query_init st in
  let n := fresh (pg_contexts st) in
  (n, set_current (Some (Child n)) (set_contexts ({[ n ]} ∪ pg_contexts st) st)).
(** [MemoryContextDelete] must not be given the current context. *)
Definition MemoryContextDelete (n : nat) (st : PgState) : res PgState :=
  if decide (n ∈ pg_contexts st ∧ pg_current st ≠ Some (Child n)) then
    Ret (set_contexts (pg_contexts st ∖ {[ n ]}) st)
  else Ub.
Definition pg_query_exit_memory_context (n : nat) (st : PgState) : res PgState :=
  MemoryContextDelete n (set_current (Some TopMemoryContext) st).

(** ** Parsing *)
Definition PG_QUERY_PARSE_DEFAULT : Z := 0.
Definition PG_QUERY_PARSE_MODE_BITMASK : Z := 15.
Definition PG_QUERY_DISABLE_BACKSLASH_QUOTE : Z := 16.
Definition PG_QUERY_DISABLE_STANDARD_CONFORMING_STRINGS : Z := 32.
Definition PG_QUERY_DISABLE_ESCAPE_STRING_WARNING : Z := 64.
Definition parse_mode (parser_options : Z) : RawParseMode :=
  match Z.land parser_options PG_QUERY_PARSE_MODE_BITMASK with
  | 1 => RAW_PARSE_TYPE_NAME
  | 2 => RAW_PARSE_PLPGSQL_EXPR
  | 3 => RAW_PARSE_PLPGSQL_ASSIGN1
  | 4 => RAW_PARSE_PLPGSQL_ASSIGN2
  | 5 => RAW_PARSE_PLPGSQL_ASSIGN3
  | _ => RAW_PARSE_DEFAULT
  end.
Definition option_set (parser_options bit : Z) : bool := bool_decide (Z.land parser_options bit = bit).
Definition parse_settings (parser_options : Z) : Settings :=
  mkSettings
    (if option_set parser_options PG_QUERY_DISABLE_BACKSLASH_QUOTE
     then BACKSLASH_QUOTE_OFF else BACKSLASH_QUOTE_SAFE_ENCODING)
    (negb (option_set parser_options PG_QUERY_DISABLE_STANDARD_CONFORMING_STRINGS))
    (negb (option_set parser_options PG_QUERY_DISABLE_ESCAPE_STRING_WARNING)).
Definition default_settings : Settings := mkSettings BACKSLASH_QUOTE_SAFE_ENCODING true true.

(** The parser returns the list of statements or throws an error. *)
Abbreviation RawParser := (Settings → bytes → RawParseMode → ErrorData + list RawStmt).

Section parse.
Context (raw_parser : RawParser).

(** [pg_query_raw_parse].  An error leaves [CurrentMemoryContext] set to [ErrorContext],
    and the settings as they are. *)
Definition pg_query_raw_parse (input : bytes) (parser_options : Z) (st : PgState)
    : PgQueryInternalParsetreeAndError * PgState :=
  let parse_context := pg_current st in
  let st := set_settings (parse_settings parser_options) st in
  match raw_parser (pg_settings st) input (parse_mode parser_options) with
  | inr tree =>
    let st := set_settings default_settings st in
    let '(buffer, st) := strdup [] st in
    (mkInternal tree (Some buffer) None, st)
  | inl error_data =>
    let st := set_current (Some ErrorContext) st in
    let st := set_current parse_context st in
    let '(error, st) := alloc BUninit st in
    let '(message, st) := strdup (ed_message error_data) st in
    let '(filename, st) := strdup (ed_filename error_data) st in
    let '(funcname, st) := strdup (ed_funcname error_data) st in
    let st := store error (BError (mkPgQueryError message funcname filename
      (ed_lineno error_data) (ed_cursorpos error_data) None)) st in
    (mkInternal [] None (Some error), st)
  end.

Definition pg_query_parse_opts (input : bytes) (parser_options : Z) (st : PgState)
    : res (PgQueryParseResult * PgState) :=
  let '(ctx, st) := pg_query_enter_memory_context st in
  let '(r, st) := pg_query_raw_parse input parser_options st in
  let tree_json := pg_query_nodes_to_json (in_tree r) in
  let '(tree, st) := strdup tree_json st in
  st ← pg_query_exit_memory_context ctx st;
  Ret (mkParseResult (Some tree) (in_stderr_buffer r) (in_error r), st).
Definition pg_query_parse (input : bytes) (st : PgState) : res (PgQueryParseResult * PgState) :=
  pg_query_parse_opts input PG_QUERY_PARSE_DEFAULT st.
End parse.

Definition pg_query_free_error (p : ptr) (st : PgState) : res PgState :=
  e ← read_error (Some p) st;
  st ← free (Some (message e)) st;
  st ← free (Some (funcname e)) st;
  st ← free (Some (filename e)) st;
  st ← free (context e) st;
  free (Some p) st.
Definition pg_query_free_parse_result (r : PgQueryParseResult) (st : PgState) : res PgState :=
  st ← match error r with Some e => pg_query_free_error e st | None => Ret st end;
  st ← free (parse_tree r) st;
  free (stderr_buffer r) st.

(** ** The call in [parse_query]

    The text of the tree, or nothing when the query does not parse; the message of the
    error is read for the log.  Every return of [parse_query] after this point frees the
    result once. *)
Definition parse_text (raw_parser : RawParser) (sql : bytes) (st : PgState) : res (option bytes * PgState) :=
  '(pgr, st) ← pg_query_parse raw_parser sql st;
  match error pgr with
  | Some e =>
    err ← read_error (Some e) st;
    _ ← read_string (Some (message err)) st;
    st ← pg_query_free_parse_result pgr st;
    Ret (None, st)
  | None =>
    tree ← read_string (parse_tree pgr) st;
    st ← pg_query_free_parse_result pgr st;
    Ret (Some tree, st)
  end.
(** What it amounts to. *)
Definition query_tree (raw_parser : RawParser) (sql : bytes) : option bytes :=
  match raw_parser default_settings sql RAW_PARSE_DEFAULT with
  | inl _ => None
  | inr tree => Some (pg_query_nodes_to_json tree)
  end.

(** Between calls the library is not initialised or in its top memory context. *)
Definition pg_idle (st : PgState) : Prop :=
  if pg_initialized st then pg_current st = Some TopMemoryContext else pg_contexts st = ∅.

(** ** Facts *)
Lemma alloc_spec b st :
  ∃ p, alloc b st = (p, set_heap (<[p := b]> (pg_heap st)) st) ∧ pg_heap st !! p = None.
Proof. eexists. split; [reflexivity|]. apply not_elem_of_dom, is_fresh. Qed.
Lemma enter_spec st :
  pg_idle st →
  ∃ n, pg_query_enter_memory_context st =
      (n, mkPgState true (Some (Child n)) ({[ n ]} ∪ pg_contexts st) (pg_settings st) (pg_heap st)) ∧
    n ∉ pg_contexts st.
Proof.
  unfold pg_idle, pg_query_enter_memory_context, pg_query_init. intros Hi.
  destruct (pg_initialized st) eqn:E.
  - eexists. split; [|apply is_fresh]. by rewrite <- E.
  - eexists. rewrite Hi. split; [reflexivity|apply is_fresh].
Qed.
Lemma exit_spec n c g h l :
  n ∉ l →
  pg_query_exit_memory_context n (mkPgState true c ({[ n ]} ∪ l) g h)
    = Ret (mkPgState true (Some TopMemoryContext) l g h).
Proof.
  intros Hn. unfold pg_query_exit_memory_context, MemoryContextDelete. cbn [set_current pg_contexts pg_current].
  rewrite decide_True by (split; [set_solver|done]). unfold set_contexts. cbn. do 2 f_equal. set_solver.
Qed.
Lemma free_spec p b st :
  pg_heap st !! p = Some b → free (Some p) st = Ret (set_heap (delete p (pg_heap st)) st).
Proof. intros E. unfold free. by rewrite E. Qed.
Lemma free_null st : free None st = Ret st.
Proof. done. Qed.

(** The blocks of a result, on top of the heap [h] before the call. *)
Definition result_of (out : ErrorData + list RawStmt) (h : gmap ptr block) (r : PgQueryParseResult)
    (h' : gmap ptr block) : Prop :=
  match out with
  | inr tree => ∃ b t,
    r = mkParseResult (Some t) (Some b) None ∧
    h' = <[t := BString (pg_query_nodes_to_json tree)]> (<[b := BString []]> h) ∧
    h !! b = None ∧ h !! t = None ∧ b ≠ t
  | inl ed => ∃ e m f n t,
    r = mkParseResult (Some t) None (Some e) ∧
    h' = <[t := BString (pg_query_nodes_to_json [])]>
      (<[e := BError (mkPgQueryError m n f (ed_lineno ed) (ed_cursorpos ed) None)]>
      (<[n := BString (ed_funcname ed)]> (<[f := BString (ed_filename ed)]>
      (<[m := BString (ed_message ed)]> (<[e := BUninit]> h))))) ∧
    Forall (λ p, h !! p = None) [e; m; f; n; t] ∧ NoDup [e; m; f; n; t]
  end.

Ltac pg_cbn :=
  unfold strdup, store, set_current, set_settings, set_heap;
  cbn [pg_initialized pg_current pg_contexts pg_settings pg_heap in_tree in_error in_stderr_buffer].
(** Names the blocks that are allocated. *)
Ltac allocs :=
  repeat match goal with |- context [alloc ?b ?s] =>
    let p := fresh "p" in let H := fresh "Hp" in
    destruct (alloc_spec b s) as (p & -> & H); revert H; pg_cbn; intros H end.
Lemma parse_opts_spec raw sql opts st :
  pg_idle st →
  let out := raw (parse_settings opts) sql (parse_mode opts) in
  ∃ r st', pg_query_parse_opts raw sql opts st = Ret (r, st') ∧
    result_of out (pg_heap st) r (pg_heap st') ∧
    pg_initialized st' = true ∧ pg_current st' = Some TopMemoryContext ∧ pg_contexts st' = pg_contexts st ∧
    pg_settings st' = match out with inl _ => parse_settings opts | inr _ => default_settings end.
Proof.
  intros Hi out. unfold pg_query_parse_opts. destruct (enter_spec st Hi) as (n & -> & Hn).
  unfold pg_query_raw_parse. pg_cbn. fold out. destruct out as [ed|tree]; pg_cbn; allocs;
    rewrite exit_spec by done; cbn [mbind res_bind]; eexists _, _; (split; [reflexivity|]); pg_cbn;
    (split; [|done]); rewrite !lookup_insert_None in *.
  - exists p, p0, p1, p2, p3. split_and!; [done|done|..].
    + repeat constructor; tauto.
    + rewrite !NoDup_cons, NoDup_nil. set_solver.
  - exists p, p0. by destruct_and?.
Qed.

(** Freeing a result leaves the heap as it was before the call. *)
Lemma free_result_spec out h r st :
  result_of out h r (pg_heap st) → pg_query_free_parse_result r st = Ret (set_heap h st).
Proof.
  destruct st as [i c l g h']. cbn [pg_heap]. unfold pg_query_free_parse_result.
  destruct out as [ed|tree]; cbn [result_of].
  - intros (e & m & f & n & t & -> & -> & Hf & Hd). rewrite !NoDup_cons in Hd.
    rewrite !Forall_cons in Hf. destruct_and?.
    assert (m ≠ e ∧ f ≠ e ∧ n ≠ e ∧ t ≠ e ∧ f ≠ m ∧ n ≠ m ∧ t ≠ m ∧ n ≠ f ∧ t ≠ f ∧ t ≠ n) by set_solver.
    destruct_and?. unfold pg_query_free_error, read_error. cbn [error mbind option_bind pg_heap].
    rewrite lookup_insert_ne, lookup_insert_eq by done. cbn [mbind res_bind message funcname filename context].
    repeat (first [erewrite free_spec by (unfold set_heap; cbn [pg_heap]; by simplify_map_eq)|rewrite free_null];
      unfold set_heap; cbn [mbind res_bind pg_initialized pg_current pg_contexts pg_settings pg_heap parse_tree stderr_buffer]).
    do 2 f_equal. apply map_eq. intros i'.
    destruct (decide (i' = e)); [by simplify_map_eq|]. destruct (decide (i' = m)); [by simplify_map_eq|].
    destruct (decide (i' = f)); [by simplify_map_eq|]. destruct (decide (i' = n)); [by simplify_map_eq|].
    destruct (decide (i' = t)); by simplify_map_eq.
  - intros (b & t & -> & -> & Hb & Ht & Hn). cbn [error mbind res_bind parse_tree stderr_buffer].
    repeat (erewrite free_spec by (unfold set_heap; cbn [pg_heap]; by simplify_map_eq);
      unfold set_heap; cbn [mbind res_bind pg_initialized pg_current pg_contexts pg_settings pg_heap]).
    do 2 f_equal. apply map_eq. intros i'. destruct (decide (i' = b)), (decide (i' = t)); by simplify_map_eq.
Qed.

(** What the caller reads in a result. *)
Lemma result_tree out h r st :
  result_of out h r (pg_heap st) →
  read_string (parse_tree r) st = Ret (pg_query_nodes_to_json (match out with inl _ => [] | inr tree => tree end)).
Proof.
  unfold read_string.
  destruct out as [ed|tree]; [intros (e & m & f & n & t & -> & -> & _)|intros (b & t & -> & -> & _)];
    cbn [parse_tree mbind option_bind]; by rewrite lookup_insert_eq.
Qed.
Lemma result_error ed h r st :
  result_of (inl ed) h r (pg_heap st) →
  ∃ e err, error r = Some e ∧ read_error (Some e) st = Ret err ∧
    read_string (Some (message err)) st = Ret (ed_message ed) ∧
    read_string (Some (filename err)) st = Ret (ed_filename ed) ∧
    read_string (Some (funcname err)) st = Ret (ed_funcname ed) ∧
    lineno err = ed_lineno ed ∧ cursorpos err = ed_cursorpos ed.
Proof.
  intros (e & m & f & n & t & -> & Hh & _ & Hd). rewrite !NoDup_cons in Hd. destruct_and?.
  assert (m ≠ e ∧ f ≠ e ∧ n ≠ e ∧ t ≠ e ∧ f ≠ m ∧ n ≠ m ∧ t ≠ m ∧ n ≠ f ∧ t ≠ f ∧ t ≠ n) by set_solver.
  destruct_and?. exists e. unfold read_error, read_string. rewrite Hh. cbn [mbind option_bind].
  eexists. split; [done|]. split; [by simplify_map_eq|]. cbn [message filename funcname]. by simplify_map_eq.
Qed.
Lemma result_no_error tree h r h' : result_of (inr tree) h r h' → error r = None.
Proof. by intros (b & t & -> & _). Qed.

Definition pg_settled (st : PgState) : PgState :=
  mkPgState true (Some TopMemoryContext) (pg_contexts st) default_settings (pg_heap st).
Lemma settle st st' :
  pg_initialized st' = true → pg_current st' = Some TopMemoryContext → pg_contexts st' = pg_contexts st →
  pg_settings st' = default_settings → set_heap (pg_heap st) st' = pg_settled st.
Proof. destruct st'. cbn. by intros -> -> -> ->. Qed.
Lemma parse_text_spec raw sql st :
  pg_idle st → parse_text raw sql st = Ret (query_tree raw sql, pg_settled st).
Proof.
  intros Hi. unfold parse_text, pg_query_parse, query_tree.
  destruct (parse_opts_spec raw sql PG_QUERY_PARSE_DEFAULT st Hi) as (r & st' & -> & Hr & H1 & H2 & H3 & H4).
  change (parse_settings PG_QUERY_PARSE_DEFAULT) with default_settings in *.
  change (parse_mode PG_QUERY_PARSE_DEFAULT) with RAW_PARSE_DEFAULT in *. cbn [mbind res_bind].
  destruct (raw default_settings sql RAW_PARSE_DEFAULT) as [ed|tree].
  - destruct (result_error _ _ _ _ Hr) as (e & err & He & Herr & Hm & _). rewrite He, Herr. cbn [mbind res_bind].
    rewrite Hm. cbn [mbind res_bind]. rewrite (free_result_spec _ _ _ _ Hr). cbn [mbind res_bind].
    by rewrite settle.
  - rewrite (result_no_error _ _ _ _ Hr), (result_tree _ _ _ _ Hr). cbn [mbind res_bind].
    rewrite (free_result_spec _ _ _ _ Hr). cbn [mbind res_bind]. by rewrite settle.
Qed.

(** ** The text the query parser is given *)

(** Trees of the grammar: their strings are C strings. *)
Definition well_built (raw : RawParser) : Prop :=
  ∀ g sql mode tree, raw g sql mode = inr tree → forallb (node_ok ∘ raw_stmt) tree.

(** ** Properties *)

(** C19: A call of libpg_query.  Whatever the query and the options, [pg_query_parse_opts]
    returns: when the parser accepts the query, the text of its tree; when it throws, the
    fields of the error, next to the text of an empty tree.  The memory context of the call
    is gone and the top context is current again, after an error as well.  Freeing the
    result frees each of its blocks once and nothing else.  After an error the settings
    stay as the options set them.  So the way [parse_query] uses the library is a function
    of the query alone, and the library is afterwards as it was, with default settings. *)
Theorem library_call raw sql opts st :
  pg_idle st →
  (∃ r st', pg_query_parse_opts raw sql opts st = Ret (r, st') ∧
    pg_idle st' ∧ pg_contexts st' = pg_contexts st ∧
    pg_query_free_parse_result r st' = Ret (set_heap (pg_heap st) st') ∧
    match raw (parse_settings opts) sql (parse_mode opts) with
    | inr tree => error r = None ∧ read_string (parse_tree r) st' = Ret (pg_query_nodes_to_json tree) ∧
        pg_settings st' = default_settings
    | inl ed => ∃ e err, error r = Some e ∧ read_error (Some e) st' = Ret err ∧
        read_string (Some (message err)) st' = Ret (ed_message ed) ∧
        read_string (Some (filename err)) st' = Ret (ed_filename ed) ∧
        read_string (Some (funcname err)) st' = Ret (ed_funcname ed) ∧
        lineno err = ed_lineno ed ∧ cursorpos err = ed_cursorpos ed ∧
        read_string (parse_tree r) st' = Ret (pg_query_nodes_to_json []) ∧
        pg_settings st' = parse_settings opts
    end) ∧
  parse_text raw sql st = Ret (query_tree raw sql, pg_settled st).
Proof.
  intros Hi. split; [|by apply parse_text_spec].
  destruct (parse_opts_spec raw sql opts st Hi) as (r & st' & E & Hr & H1 & H2 & H3 & H4).
  exists r, st'. split; [done|]. split; [by unfold pg_idle; rewrite H1|]. split; [done|].
  split; [by eapply free_result_spec|]. pose proof (result_tree _ _ _ _ Hr) as Ht.
  destruct (raw _ _ _) as [ed|tree].
  - destruct (result_error _ _ _ _ Hr) as (e & err & ? & ? & ? & ? & ? & ? & ?). by exists e, err.
  - by split; [eapply result_no_error|].
Qed.
Lemma library_call_witness :
  let raw : RawParser := λ _ sql _,
    if decide (sql = bs "x") then inl (mkErrorData (bs "syntax error") (bs "scan.l") (bs "scanner_yyerror") 1242 1)
    else inr [] in
  let st := mkPgState false None ∅ default_settings {[ 7%positive := BString (bs "kept") ]} in
  parse_text raw (bs "x") st = Ret (None, pg_settled st) ∧
  parse_text raw (bs "") st = Ret (Some (pg_query_nodes_to_json []), pg_settled st).
Proof.
  intros raw st. split; [exact (proj2 (library_call raw (bs "x") 48 st eq_refl))|
    exact (proj2 (library_call raw (bs "") 0 st eq_refl))].
Defined.
