(* ===== verification/Parser.v ===== *)
(** * The query parser ([src/src/parser/query_parser.c])

    [parse_query] navigates the JSON text of a libpg_query parse tree and fills a
    [ParseResult]: the statement type, the target table and, for SELECT, UPDATE
    and DELETE, the shard key of the WHERE clause.  The first part follows the C
    functions; the second shows that on the text of any well-formed tree they
    neither read out of bounds nor loop, and compute a function of the tree. *)
From S2P Require Import Prelude Json.

(** ** Data ([query_parser.h]) *)
Inductive StmtType : Type :=
| STMT_SELECT | STMT_INSERT | STMT_UPDATE | STMT_DELETE | STMT_DDL
| STMT_TRANSACTION | STMT_SET | STMT_SHOW | STMT_DISCARD | STMT_COPY | STMT_UNKNOWN.
#[export] Instance StmtType_eq_dec : EqDecision StmtType.
Proof. solve_decision. Defined.

Record ParseResult : Type := mkParseResult {
  stmt_type : StmtType;
  table_name : option bytes;
  schema_name : option bytes;
  shard_key_found : bool;
  shard_key_column : option bytes;
  shard_key_int : Z;
  shard_key_str : option bytes;
  shard_key_is_int : bool;
  parse_tree_json : option bytes;
}.

(** Assignments to the fields. *)
Definition set_stmt_type (t : StmtType) (r : ParseResult) : ParseResult :=
  {| stmt_type := t; table_name := table_name r; schema_name := schema_name r;
     shard_key_found := shard_key_found r; shard_key_column := shard_key_column r;
     shard_key_int := shard_key_int r; shard_key_str := shard_key_str r;
     shard_key_is_int := shard_key_is_int r; parse_tree_json := parse_tree_json r |}.
Definition set_table_name (t : option bytes) (r : ParseResult) : ParseResult :=
  {| stmt_type := stmt_type r; table_name := t; schema_name := schema_name r;
     shard_key_found := shard_key_found r; shard_key_column := shard_key_column r;
     shard_key_int := shard_key_int r; shard_key_str := shard_key_str r;
     shard_key_is_int := shard_key_is_int r; parse_tree_json := parse_tree_json r |}.
Definition set_schema_name (s : option bytes) (r : ParseResult) : ParseResult :=
  {| stmt_type := stmt_type r; table_name := table_name r; schema_name := s;
     shard_key_found := shard_key_found r; shard_key_column := shard_key_column r;
     shard_key_int := shard_key_int r; shard_key_str := shard_key_str r;
     shard_key_is_int := shard_key_is_int r; parse_tree_json := parse_tree_json r |}.
Definition set_shard_key_column (c : option bytes) (r : ParseResult) : ParseResult :=
  {| stmt_type := stmt_type r; table_name := table_name r; schema_name := schema_name r;
     shard_key_found := shard_key_found r; shard_key_column := c;
     shard_key_int := shard_key_int r; shard_key_str := shard_key_str r;
     shard_key_is_int := shard_key_is_int r; parse_tree_json := parse_tree_json r |}.
Definition set_parse_tree_json (j : option bytes) (r : ParseResult) : ParseResult :=
  {| stmt_type := stmt_type r; table_name := table_name r; schema_name := schema_name r;
     shard_key_found := shard_key_found r; shard_key_column := shard_key_column r;
     shard_key_int := shard_key_int r; shard_key_str := shard_key_str r;
     shard_key_is_int := shard_key_is_int r; parse_tree_json := j |}.
(** [shard_key_int = v; shard_key_is_int = true; shard_key_found = true] *)
Definition set_int_key (v : Z) (r : ParseResult) : ParseResult :=
  {| stmt_type := stmt_type r; table_name := table_name r; schema_name := schema_name r;
     shard_key_found := true; shard_key_column := shard_key_column r;
     shard_key_int := v; shard_key_str := shard_key_str r;
     shard_key_is_int := true; parse_tree_json := parse_tree_json r |}.
(** [shard_key_str = s; shard_key_is_int = false; shard_key_found = true] *)
Definition set_str_key (s : option bytes) (r : ParseResult) : ParseResult :=
  {| stmt_type := stmt_type r; table_name := table_name r; schema_name := schema_name r;
     shard_key_found := true; shard_key_column := shard_key_column r;
     shard_key_int := shard_key_int r; shard_key_str := s;
     shard_key_is_int := false; parse_tree_json := parse_tree_json r |}.

(** [memset(result, 0, sizeof(ParseResult))] *)
Definition zero_result : ParseResult :=
  mkParseResult STMT_SELECT None None false None 0 None false None.

(** ** The C functions *)

(** [detect_stmt_type]: the keys are tried in this order. *)
Definition stmt_keys : list (bytes * StmtType) :=
  [(bs "SelectStmt", STMT_SELECT); (bs "InsertStmt", STMT_INSERT);
   (bs "UpdateStmt", STMT_UPDATE); (bs "DeleteStmt", STMT_DELETE);
   (bs "TransactionStmt", STMT_TRANSACTION); (bs "VariableSetStmt", STMT_SET);
   (bs "VariableShowStmt", STMT_SHOW); (bs "DiscardStmt", STMT_DISCARD);
   (bs "CopyStmt", STMT_COPY); (bs "CreateStmt", STMT_DDL);
   (bs "AlterTableStmt", STMT_DDL); (bs "DropStmt", STMT_DDL);
   (bs "IndexStmt", STMT_DDL); (bs "CreateSchemaStmt", STMT_DDL);
   (bs "ViewStmt", STMT_DDL); (bs "CreateFunctionStmt", STMT_DDL);
   (bs "TruncateStmt", STMT_DDL); (bs "RenameStmt", STMT_DDL);
   (bs "CreateSeqStmt", STMT_DDL); (bs "AlterSeqStmt", STMT_DDL)].
Fixpoint detect_among (keys : list (bytes * StmtType)) (stmt_json : cursor) : res StmtType :=
  match keys with
  | [] => Ret STMT_UNKNOWN
  | kt :: keys =>
    b ← json_starts_with_key stmt_json kt.1;
    if (b : bool) then Ret kt.2 else detect_among keys stmt_json
  end.
Definition detect_stmt_type (stmt_json : cursor) : res StmtType :=
  detect_among stmt_keys stmt_json.

(** [if (p) x = json_get_string(p)] for a key looked up at a cursor. *)
Definition get_key_string (json : cursor) (key : bytes)
    (set : option bytes → ParseResult → ParseResult) (result : ParseResult)
    : res ParseResult :=
  p ← json_find_key json key;
  match p with
  | Some p => s ← json_get_string p; Ret (set s result)
  | None => Ret result
  end.

(** [extract_table_from_rangevar] *)
Definition extract_table_from_rangevar (rv_json : cursor) (result : ParseResult)
    : res ParseResult :=
  result ← get_key_string rv_json (bs "relname") set_table_name result;
  get_key_string rv_json (bs "schemaname") set_schema_name result.

(** [x = find(...); if (!x) return;] *)
Notation "'let?' x ':=' m 'or' d 'in' k" :=
  (mbind (M:=res) (λ o : option cursor, match o with Some x => k | None => Ret d end) m)
  (at level 10, x name, m at level 100, d at level 100, k at level 200) : stdpp_scope.

(** The constant of an [A_Const] node: the tail shared by
    [extract_shard_key_from_where] and [extract_shard_key_from_insert]; [fin] is
    what the caller assigns in addition when it finds one. *)
Definition extract_const (fin : ParseResult → ParseResult) (aconst : cursor)
    (result : ParseResult) : res ParseResult :=
  ival_obj ← json_find_key aconst (bs "ival");
  ival ← match ival_obj with
         | Some o => json_find_key o (bs "ival")
         | None => Ret None
         end;
  match ival with
  | Some p => Ret (fin (set_int_key (json_get_int p) result))
  | None =>
    let? sval_obj := json_find_key aconst (bs "sval") or result in
    let? sv := json_find_key sval_obj (bs "sval") or result in
    s ← json_get_string sv;
    Ret (fin (set_str_key s result))
  end.

(** The part of [extract_shard_key_from_where] that handles an [A_Expr]. *)
Definition extract_aexpr (aexpr : cursor) (result : ParseResult) : res ParseResult :=
  let? name_arr := json_find_key aexpr (bs "name") or result in
  let? sval := json_find_key_recursive name_arr (bs "sval") or result in
  op ← json_get_string sval;
  if decide (op = Some (bs "=")) then
    let? lexpr := json_find_key aexpr (bs "lexpr") or result in
    let? colref := json_find_key lexpr (bs "ColumnRef") or result in
    let? fields := json_find_key colref (bs "fields") or result in
    str_node ← json_find_key_recursive fields (bs "String");
    result ← match str_node with
             | Some n => get_key_string n (bs "sval") set_shard_key_column result
             | None => Ret result
             end;
    match shard_key_column result with
    | None => Ret result
    | Some _ =>
      let? rexpr := json_find_key aexpr (bs "rexpr") or result in
      let? aconst := json_find_key rexpr (bs "A_Const") or result in
      extract_const id aconst result
    end
  else Ret result.

(** [extract_shard_key_from_where] and the loop over the arguments of a
    [BoolExpr]. *)
Fixpoint extract_shard_key_from_where (fuel : nat) (where_json : cursor)
    (result : ParseResult) : res ParseResult :=
  match fuel with
  | O => Hang
  | S fuel =>
    aexpr ← json_find_key where_json (bs "A_Expr");
    match aexpr with
    | Some aexpr => extract_aexpr aexpr result
    | None =>
      let? boolexpr := json_find_key where_json (bs "BoolExpr") or result in
      let? args := json_find_key boolexpr (bs "args") or result in
      if decide (deref args = "["%byte) then
        p ← advance args; where_args fuel p result
      else Ret result
    end
  end
with where_args (fuel : nat) (p : cursor) (result : ParseResult) : res ParseResult :=
  match fuel with
  | O => Hang
  | S fuel =>
    if decide (deref p = NUL ∨ deref p = "]"%byte) then Ret result
    else
      let p := json_skip_whitespace p in
      if decide (deref p = "]"%byte) then Ret result
      else
        result ← extract_shard_key_from_where fuel p result;
        if shard_key_found result then Ret result
        else
          p ← json_skip_value p;
          where_args fuel (skip_char ","%byte (json_skip_whitespace p)) result
  end.
(** Enough fuel for the text of a JSON tree: two calls per character. *)
Definition where_fuel (where_json : cursor) : nat := 2 * length where_json + 2.

(** The loop of [extract_shard_key_from_insert] over the column names. *)
Fixpoint column_pos (names : list cursor) (shard_column : bytes) (pos : nat)
    : res (option nat) :=
  match names with
  | [] => Ret None
  | n :: names =>
    name ← json_get_string n;
    if decide (name = Some shard_column) then Ret (Some pos)
    else column_pos names shard_column (S pos)
  end.

(** Skipping the first [n] elements of a VALUES row. *)
Fixpoint skip_elems (n : nat) (p : cursor) : res cursor :=
  match n with
  | O => Ret p
  | S n =>
    if decide (deref p = NUL ∨ deref p = "]"%byte) then Ret p
    else
      p ← json_skip_value (json_skip_whitespace p);
      skip_elems n (skip_char ","%byte (json_skip_whitespace p))
  end.

(** [extract_shard_key_from_insert] *)
Definition extract_shard_key_from_insert (insert_json : cursor) (result : ParseResult)
    (shard_column : bytes) : res ParseResult :=
  let? cols := json_find_key insert_json (bs "cols") or result in
  if decide (deref cols = "["%byte) then
    names ← json_find_all_values cols (bs "name");
    target_pos ← column_pos names shard_column 0;
    match target_pos with
    | None => Ret result
    | Some target_pos =>
      let? select_stmt := json_find_key insert_json (bs "selectStmt") or result in
      let? ss := json_find_key select_stmt (bs "SelectStmt") or result in
      let? values_lists := json_find_key ss (bs "valuesLists") or result in
      let? first_list := json_find_key_recursive values_lists (bs "items") or result in
      if decide (deref first_list = "["%byte) then
        p ← advance first_list;
        p ← skip_elems target_pos p;
        let p := json_skip_whitespace p in
        if decide (deref p = "]"%byte) then Ret result
        else
          let? aconst := json_find_key_recursive p (bs "A_Const") or result in
          extract_const (set_shard_key_column (Some shard_column)) aconst result
      else Ret result
    end
  else Ret result.

(** Following the target table and the WHERE clause of an UPDATE or DELETE. *)
Definition extract_rel_where (node : cursor) (result : ParseResult) : res ParseResult :=
  rel ← json_find_key node (bs "relation");
  result ← match rel with
           | Some rel => extract_table_from_rangevar rel result
           | None => Ret result
           end;
  let? wh := json_find_key node (bs "whereClause") or result in
  extract_shard_key_from_where (where_fuel wh) wh result.

(** The [STMT_SELECT] case of [parse_query]. *)
Definition extract_select (ss : cursor) (result : ParseResult) : res ParseResult :=
  from ← json_find_key ss (bs "fromClause");
  result ← match from with
           | Some from =>
             rv ← json_find_key_recursive from (bs "RangeVar");
             match rv with
             | Some rv => extract_table_from_rangevar rv result
             | None =>
               let? rv := json_find_key_recursive from (bs "relname") or result in
               s ← json_get_string rv;
               Ret (set_table_name s result)
             end
           | None => Ret result
           end;
  let? wh := json_find_key ss (bs "whereClause") or result in
  extract_shard_key_from_where (where_fuel wh) wh result.

(** The switch of [parse_query] on the statement type. *)
Definition extract_stmt (stmt_obj : cursor) (result : ParseResult) : res ParseResult :=
  match stmt_type result with
  | STMT_SELECT =>
    let? ss := json_find_key stmt_obj (bs "SelectStmt") or result in
    extract_select ss result
  | STMT_INSERT =>
    let? ins := json_find_key stmt_obj (bs "InsertStmt") or result in
    let? rel := json_find_key ins (bs "relation") or result in
    extract_table_from_rangevar rel result
  | STMT_UPDATE =>
    let? us := json_find_key stmt_obj (bs "UpdateStmt") or result in
    extract_rel_where us result
  | STMT_DELETE =>
    let? ds := json_find_key stmt_obj (bs "DeleteStmt") or result in
    extract_rel_where ds result
  | STMT_DDL =>
    let? rv := json_find_key_recursive stmt_obj (bs "relname") or result in
    s ← json_get_string rv;
    Ret (set_table_name s result)
  | _ => Ret result
  end.

Section parse_query.
(** [pg_query_parse] of libpg_query: [None] for a syntax error, otherwise the
    JSON text of the parse tree. *)
Context (pg_query_parse : bytes → option bytes).

(** [parse_query]: the return code and the result it fills. *)
Definition parse_query (sql : bytes) : res (Z * ParseResult) :=
  let result := set_stmt_type STMT_UNKNOWN zero_result in
  match pg_query_parse sql with
  | None => Ret (-1, result)%Z
  | Some parse_tree =>
    let result := set_parse_tree_json (Some parse_tree) result in
    let? stmts := json_find_key parse_tree (bs "stmts") or (-1, result)%Z in
    if decide (deref stmts = "["%byte) then
      p ← advance stmts;
      let first_stmt_wrapper := json_skip_whitespace p in
      if decide (deref first_stmt_wrapper = "]"%byte) then Ret (0, result)%Z
      else
        let? stmt_obj := json_find_key first_stmt_wrapper (bs "stmt")
          or (-1, result)%Z in
        t ← detect_stmt_type stmt_obj;
        result ← extract_stmt stmt_obj (set_stmt_type t result);
        Ret (0, result)%Z
    else Ret (-1, result)%Z
  end.
End parse_query.

(** [parse_extract_insert_shard_key]; a NULL column is [None]. *)
Definition parse_extract_insert_shard_key (result : ParseResult)
    (shard_column : option bytes) : res ParseResult :=
  if decide (stmt_type result = STMT_INSERT) then
    match parse_tree_json result, shard_column with
    | Some tree, Some shard_column =>
      let? stmts := json_find_key tree (bs "stmts") or result in
      p ← advance stmts;
      let first := json_skip_whitespace p in
      let? stmt := json_find_key first (bs "stmt") or result in
      let? ins := json_find_key stmt (bs "InsertStmt") or result in
      extract_shard_key_from_insert ins result shard_column
    | _, _ => Ret result
    end
  else Ret result.

(** [parse_result_free]: the fields are freed and the record zeroed. *)
Definition parse_result_free (result : ParseResult) : ParseResult := zero_result.

(** ** What the functions compute, on trees *)
Fixpoint key_type (keys : list (bytes * StmtType)) (k : option bytes) : StmtType :=
  match keys with
  | [] => STMT_UNKNOWN
  | kt :: keys => if bool_decide (k = Some kt.1) then kt.2 else key_type keys k
  end.
Definition stmt_type_tree (j : json) : StmtType := key_type stmt_keys (first_key j).

Definition key_string_tree (j : json) (key : bytes)
    (set : option bytes → ParseResult → ParseResult) (r : ParseResult) : ParseResult :=
  match jget key j with Some v => set (jstring v) r | None => r end.

Definition rangevar_tree (j : json) (r : ParseResult) : ParseResult :=
  key_string_tree j (bs "schemaname") set_schema_name
    (key_string_tree j (bs "relname") set_table_name r).

Definition const_tree (fin : ParseResult → ParseResult) (j : json) (r : ParseResult)
    : ParseResult :=
  match v ← jget (bs "ival") j; jget (bs "ival") v with
  | Some v => fin (set_int_key (jint v) r)
  | None =>
    match v ← jget (bs "sval") j; jget (bs "sval") v with
    | Some v => fin (set_str_key (jstring v) r)
    | None => r
    end
  end.

Definition aexpr_op (j : json) : option bytes :=
  n ← jget (bs "name") j; v ← tree_search (bs "sval") n; jstring v.
Definition aexpr_fields (j : json) : option json :=
  l ← jget (bs "lexpr") j; c ← jget (bs "ColumnRef") l; jget (bs "fields") c.
Definition aexpr_const (j : json) : option json :=
  v ← jget (bs "rexpr") j; jget (bs "A_Const") v.
Definition column_tree (fields : json) (r : ParseResult) : ParseResult :=
  match tree_search (bs "String") fields with
  | Some n => key_string_tree n (bs "sval") set_shard_key_column r
  | None => r
  end.
Definition aexpr_tree (j : json) (r : ParseResult) : ParseResult :=
  if decide (aexpr_op j = Some (bs "=")) then
    match aexpr_fields j with
    | None => r
    | Some fields =>
      let r := column_tree fields r in
      match shard_key_column r, aexpr_const j with
      | Some _, Some c => const_tree id c r
      | _, _ => r
      end
    end
  else r.

(** [f] on the elements in order until one yields a key. *)
Fixpoint until_found {A} (f : A → ParseResult → ParseResult) (l : list A)
    (r : ParseResult) : ParseResult :=
  match l with
  | [] => r
  | x :: l => let r := f x r in if shard_key_found r then r else until_found f l r
  end.

Definition bool_args (j : json) : option (list json) :=
  b ← jget (bs "BoolExpr") j; a ← jget (bs "args") b;
  match a with JArr l => Some l | _ => None end.

(** The shard key of a WHERE clause: [where_rank] levels of boolean operators are
    enough for any tree (see [where_tree_eq]). *)
Fixpoint where_levels (n : nat) (j : json) (r : ParseResult) : ParseResult :=
  match n with
  | O => r
  | S n =>
    match jget (bs "A_Expr") j with
    | Some a => aexpr_tree a r
    | None =>
      match bool_args j with
      | Some l => until_found (where_levels n) l r
      | None => r
      end
    end
  end.
Definition where_tree (j : json) (r : ParseResult) : ParseResult :=
  where_levels (length (json_text j)) j r.

(** ** The functions compute that *)

(** [let? x := m or d in k]: a search that agrees with a search [o] of the tree. *)
Lemma let_found {A} (m : res (option cursor)) (o : option json) (k : cursor → res A)
    (d : A) (F : json → A) :
  finds m o → (∀ p v, o = Some v → points_to p v → k p = Ret (F v)) →
  (let? x := m or d in k x) = Ret match o with Some v => F v | None => d end.
Proof. destruct o as [v|]; simpl; [intros (p & -> & Hp)|intros ->]; naive_solver. Qed.

(** The same when the tree searches are chained with [≫=]. *)
Lemma let_found_bind {A} (m : res (option cursor)) (o : option json) (k : cursor → res A)
    (f : json → option json) (d : A) (F : json → A) :
  finds m o →
  (∀ p v, o = Some v → points_to p v →
     k p = Ret match f v with Some w => F w | None => d end) →
  (let? x := m or d in k x) = Ret match (v ← o; f v) with Some w => F w | None => d end.
Proof. destruct o as [v|]; simpl; [intros (p & -> & Hp)|intros ->]; naive_solver. Qed.

(** Well-formedness and the [plain] side conditions of searches. *)
Ltac wf :=
  match goal with
  | |- Is_true (plain _) => exact I
  | H : jget _ ?j = Some ?v |- Is_true (json_wf ?v) => eapply jget_wf; [|exact H]; wf
  | H : tree_search _ ?j = Some ?v |- Is_true (json_wf ?v) =>
      eapply tree_search_wf; [|exact H]; wf
  | |- _ => solve [eauto with sharegres]
  end.
Ltac search := first [apply json_find_key_spec | apply json_find_key_recursive_spec]; wf.

(** Runs the search at the head of the code and cases on the tree's answer. *)
Ltac follow_with lem Hp p j k search :=
  let H := fresh "H" in let E := fresh "E" in
  pose proof (lem p j k I ltac:(wf) Hp) as H;
  destruct (search k j) as [?v|] eqn:E; [destruct H as (?q & -> & ?Hq)|rewrite H];
  cbn [mbind res_bind option_bind]; try clear H.
Ltac follow :=
  match goal with
  | Hp : points_to ?p ?j |- (json_find_key ?p ?k ≫= _) = _ =>
      follow_with json_find_key_spec Hp p j k jget
  | Hp : points_to ?p ?j |- (json_find_key_recursive ?p ?k ≫= _) = _ =>
      follow_with json_find_key_recursive_spec Hp p j k tree_search
  end.

Lemma detect_stmt_type_spec p j :
  json_wf j → points_to p j → detect_stmt_type p = Ret (stmt_type_tree j).
Proof.
  intros Hwf Hp. unfold detect_stmt_type, stmt_type_tree.
  assert (Forall (λ kt : bytes * StmtType, Is_true (plain kt.1)) stmt_keys) as Hkeys
    by (repeat constructor).
  induction Hkeys as [|kt keys Hk Hkeys IH]; [done|]. simpl.
  rewrite (json_starts_with_key_spec p j) by done. simpl.
  by case_bool_decide.
Qed.

Lemma get_key_string_spec p j key set r :
  plain key → json_wf j → points_to p j →
  get_key_string p key set r = Ret (key_string_tree j key set r).
Proof.
  intros Hk Hwf Hp. unfold get_key_string, key_string_tree.
  apply let_found with (F := λ v, set (jstring v) r); [by apply json_find_key_spec|].
  intros q v Hv Hq. rewrite (json_get_string_spec q v) by wf. done.
Qed.

Lemma extract_table_from_rangevar_spec p j r :
  json_wf j → points_to p j →
  extract_table_from_rangevar p r = Ret (rangevar_tree j r).
Proof.
  intros Hwf Hp. unfold extract_table_from_rangevar.
  rewrite (get_key_string_spec p j) by done. simpl.
  by rewrite (get_key_string_spec p j) by done.
Qed.

Lemma extract_const_spec fin p j r :
  json_wf j → points_to p j → extract_const fin p r = Ret (const_tree fin j r).
Proof.
  intros Hwf Hp. unfold extract_const, const_tree.
  assert ((let? sval_obj := json_find_key p (bs "sval") or r in
           let? sv := json_find_key sval_obj (bs "sval") or r in
           s ← json_get_string sv; Ret (fin (set_str_key s r)))
    = Ret match v ← jget (bs "sval") j; jget (bs "sval") v with
          | Some v => fin (set_str_key (jstring v) r) | None => r end) as Hstr.
  { apply let_found_bind with (F := λ v, fin (set_str_key (jstring v) r)); [search|].
    intros q o Ho Hq. apply let_found with (F := λ v, fin (set_str_key (jstring v) r)); [search|].
    intros q' v Hv Hq'. by rewrite (json_get_string_spec q' v) by wf. }
  pose proof (json_find_key_spec p j (bs "ival") I Hwf Hp) as H1.
  destruct (jget (bs "ival") j) as [o|] eqn:E; simpl in *; [|by rewrite H1].
  destruct H1 as (q & -> & Hq). simpl.
  pose proof (json_find_key_spec q o (bs "ival") I ltac:(wf) Hq) as H2.
  destruct (jget (bs "ival") o) as [v|] eqn:E'; simpl in *; [|by rewrite H2].
  destruct H2 as (q' & -> & Hq'). simpl. by rewrite (json_get_int_spec q' v) by wf.
Qed.

Lemma column_tree_spec p fields r :
  json_wf fields → points_to p fields →
  (str_node ← json_find_key_recursive p (bs "String");
   match str_node with
   | Some n => get_key_string n (bs "sval") set_shard_key_column r
   | None => Ret r
   end) = Ret (column_tree fields r).
Proof.
  intros Hwf Hp. unfold column_tree.
  apply let_found with (F := λ n, key_string_tree n (bs "sval") set_shard_key_column r); [search|].
  intros q n Hn Hq. apply get_key_string_spec; wf.
Qed.

Lemma extract_aexpr_spec p j r :
  json_wf j → points_to p j → extract_aexpr p r = Ret (aexpr_tree j r).
Proof.
  intros Hwf Hp.
  unfold extract_aexpr, aexpr_tree, aexpr_op, aexpr_fields, aexpr_const.
  follow; [|done]. follow; [|done].
  rewrite (json_get_string_spec q0 v0) by wf. cbn [mbind res_bind option_bind].
  case_decide; [|done].
  do 3 (follow; [|done]). rewrite bind_assoc.
  erewrite (column_tree_spec q3 v3) by wf. rewrite bind_ret.
  destruct (shard_key_column (column_tree v3 r)); [|done].
  do 2 (follow; [|done]). apply extract_const_spec; wf.
Qed.

(** Subtrees have shorter text. *)
Lemma length_join_elem {A} (g : A → bytes) l x :
  x ∈ l → length (g x) ≤ length (join (map g l)).
Proof.
  induction l as [|y l IH]; [by intros ?%not_elem_of_nil|].
  intros [->|Hx]%elem_of_cons; destruct l as [|z l]; simpl in *;
    rewrite ?length_app in *; simpl; [lia|lia|by apply not_elem_of_nil in Hx|].
  specialize (IH Hx). lia.
Qed.

Lemma obj_lookup_elem k l v : obj_lookup k l = Some v → ∃ s, (s, v) ∈ l.
Proof.
  induction l as [|[s w] l IH]; simpl; [done|].
  case_decide; [intros [= ->]; exists s; set_solver|].
  intros (s' & ?)%IH. exists s'. set_solver.
Qed.

Lemma jget_length k j v : jget k j = Some v → length (json_text v) < length (json_text j).
Proof.
  destruct j as [| | |l]; simpl; [done..|]. intros (s & Hs)%obj_lookup_elem.
  apply (length_join_elem (λ kv, member_text kv.1 (json_text kv.2))) in Hs.
  unfold member_text at 1 in Hs. simpl in Hs. rewrite !length_app in *. simpl in *. lia.
Qed.

Lemma bool_args_length j l e :
  bool_args j = Some l → e ∈ l → length (json_text e) < length (json_text j).
Proof.
  unfold bool_args. intros H He.
  destruct (jget (bs "BoolExpr") j) as [b|] eqn:E1; [|done]. simpl in H.
  destruct (jget (bs "args") b) as [a|] eqn:E2; [|done]. simpl in H.
  destruct a as [| |l'|]; [done..| |done]. injection H as ->.
  apply jget_length in E1, E2. apply (length_join_elem json_text) in He.
  simpl in E2. rewrite length_app in E2. lia.
Qed.

Lemma until_found_ext {A} (f g : A → ParseResult → ParseResult) l r :
  (∀ x r, x ∈ l → f x r = g x r) → until_found f l r = until_found g l r.
Proof.
  revert r. induction l as [|x l IH]; intros r H; simpl; [done|].
  rewrite H by set_solver. destruct (shard_key_found (g x r)); [done|].
  apply IH. set_solver.
Qed.

Lemma where_levels_enough n m j r :
  length (json_text j) ≤ n → length (json_text j) ≤ m →
  where_levels n j r = where_levels m j r.
Proof.
  revert m j r. induction n as [|n IH]; intros m j r Hn Hm.
  - destruct j as [[|]| | |]; simpl in Hn; try lia. by destruct m.
  - destruct m as [|m].
    { destruct j as [[|]| | |]; simpl in Hm; by try lia. }
    simpl. destruct (jget (bs "A_Expr") j); [done|].
    destruct (bool_args j) as [l|] eqn:E; [|done].
    apply until_found_ext. intros e r' He.
    pose proof (bool_args_length _ _ _ E He). apply IH; lia.
Qed.

(** The equation of [where_tree]. *)
Lemma where_tree_eq j r :
  where_tree j r =
  match jget (bs "A_Expr") j with
  | Some a => aexpr_tree a r
  | None =>
    match bool_args j with
    | Some l => until_found where_tree l r
    | None => r
    end
  end.
Proof.
  unfold where_tree at 1. rewrite (where_levels_enough _ (S (length (json_text j)))) by lia.
  simpl. destruct (jget (bs "A_Expr") j); [done|].
  destruct (bool_args j) as [l|] eqn:E; [|done].
  apply until_found_ext. intros e r' He.
  pose proof (bool_args_length _ _ _ E He). apply where_levels_enough; lia.
Qed.

(** The loop over the arguments, given that the recursive calls are right. *)
Lemma where_args_spec l t r fuel :
  (∀ e p r fuel, e ∈ l → points_to p e → 2 * length (json_text e) < fuel →
     extract_shard_key_from_where fuel p r = Ret (where_tree e r)) →
  forallb json_wf l → rest_ok t → 2 * length (elems_text l) + 1 < fuel →
  where_args fuel (elems_text l ++ "]"%byte :: t) r = Ret (until_found where_tree l r).
Proof.
  intros Hrec Hl Ht. revert r fuel.
  induction l as [|e l IH]; intros r fuel Hf; (destruct fuel as [|fuel]; [lia|]); [done|].
  apply andb_prop_elim in Hl as [He Hl].
  unfold elems_text in *. cbn [map] in *.
  pose proof (json_text_start e He) as (c & q & Hq & Hc).
  apply value_start_facts in Hc as (Hcs & Hc0 & _ & _ & Hc1).
  assert (2 * length (json_text e) < fuel ∧
    2 * length (join (map json_text l)) + 1 < fuel) as (Hf1 & Hf2).
  { rewrite <- (app_nil_r (join _)), join_cons in Hf.
    destruct l; simpl in *; rewrite Hq in *; simpl in *; rewrite !length_app in Hf;
      simpl in Hf; rewrite ?length_app in *; simpl in *; lia. }
  rewrite join_cons. set (sep := match _ with [] => _ | _ => _ end).
  assert (rest_ok sep) as Hsep by by apply rest_ok_elems.
  pose proof (rest_ok_end _ Hsep).
  cbn [where_args]. rewrite value_start_space by done.
  rewrite (decide_False (P:=_ ∨ _)), decide_False by (rewrite Hq; simpl; tauto).
  rewrite (Hrec e) by (set_solver || lia || by exists sep). simpl.
  destruct (shard_key_found (where_tree e r)); [done|].
  rewrite json_skip_value_text by done. simpl.
  subst sep. rewrite skip_comma by done. apply IH; [|done..].
  intros. apply Hrec; set_solver.
Qed.

Lemma extract_where_spec p j r fuel :
  json_wf j → points_to p j → 2 * length (json_text j) < fuel →
  extract_shard_key_from_where fuel p r = Ret (where_tree j r).
Proof.
  remember (length (json_text j)) as n eqn:Hn. revert p j r fuel Hn.
  induction n as [n IH] using lt_wf_ind. intros p j r fuel -> Hwf Hp Hf.
  destruct fuel as [|fuel]; [lia|]. rewrite where_tree_eq. unfold bool_args.
  cbn [extract_shard_key_from_where].
  follow; [apply extract_aexpr_spec; wf|].
  do 2 (follow; [|done]).
  assert (json_wf v0) as Hv0 by wf. destruct Hq0 as (t & -> & Ht).
  destruct v0 as [s|s|l|l].
  - apply tok_ok_cons in Hv0 as (c & q' & -> & Hc & _). simpl.
    rewrite decide_False by (by intros ->). done.
  - done.
  - rewrite arr_text. cbn [deref advance]. rewrite decide_True, bind_ret by done.
    apply where_args_spec; [|done..|].
    + intros e p' r' fuel' He Hp' Hf'.
      eapply IH; [|done|by eapply wf_elem|done|done].
      eapply (bool_args_length _ l); [|done]. unfold bool_args. by rewrite E0; simpl; rewrite E1.
    + apply jget_length in E0, E1. simpl in E1. rewrite length_app in E1.
      unfold elems_text. simpl in *. lia.
  - done.
Qed.

(** *** INSERT *)
Fixpoint index_of (x : option bytes) (l : list (option bytes)) : option nat :=
  match l with
  | [] => None
  | y :: l => if decide (y = x) then Some 0 else S <$> index_of x l
  end.
(** The names in the column list. *)
Definition insert_names (ins : json) : option (list (option bytes)) :=
  c ← jget (bs "cols") ins;
  match c with JArr l => Some (map jstring (tree_collect (bs "name") c)) | _ => None end.
(** The expressions of the first VALUES row. *)
Definition insert_row (ins : json) : option (list json) :=
  s ← jget (bs "selectStmt") ins; ss ← jget (bs "SelectStmt") s;
  v ← jget (bs "valuesLists") ss; i ← tree_search (bs "items") v;
  match i with JArr l => Some l | _ => None end.
Definition row_value_tree (col : bytes) (e : json) (r : ParseResult) : ParseResult :=
  match tree_search (bs "A_Const") e with
  | Some c => const_tree (set_shard_key_column (Some col)) c r
  | None => r
  end.
Definition insert_at (ins : json) (col : bytes) (i : nat) (r : ParseResult) : ParseResult :=
  match row ← insert_row ins; row !! i with
  | Some e => row_value_tree col e r
  | None => r
  end.
(** [names] are the names the scan for columns meets. *)
Definition insert_tree (ins : json) (names : list (option bytes)) (col : bytes)
    (r : ParseResult) : ParseResult :=
  match index_of (Some col) names with
  | Some i => insert_at ins col i r
  | None => r
  end.

Lemma column_pos_spec ps vs col n :
  Forall2 starts_at ps vs → Forall (λ v, Is_true (json_wf v)) vs →
  column_pos ps col n = Ret (Nat.add n <$> index_of (Some col) (map jstring vs)).
Proof.
  intros H Hvs. revert n. induction H as [|p v ps vs Hp Hps IH]; intros n; [done|].
  apply Forall_cons in Hvs as [Hv Hvs]. simpl.
  rewrite (json_get_string_spec p v) by done. simpl.
  case_decide; simpl; [by rewrite Nat.add_0_r|].
  rewrite IH by done. destruct (index_of _ _); simpl; [|done].
  by rewrite Nat.add_succ_r.
Qed.

Lemma skip_elems_spec n l t :
  forallb json_wf l → rest_ok t →
  skip_elems n (elems_text l ++ "]"%byte :: t) = Ret (elems_text (drop n l) ++ "]"%byte :: t).
Proof.
  intros Hl Ht. revert l Hl. induction n as [|n IH]; intros l Hl; [done|].
  destruct l as [|e l]; [done|]. apply andb_prop_elim in Hl as [He Hl].
  unfold elems_text at 1. cbn [map]. rewrite join_cons.
  set (sep := match _ with [] => _ | _ => _ end).
  assert (rest_ok sep) as Hsep by by apply rest_ok_elems.
  pose proof (rest_ok_end _ Hsep).
  pose proof (json_text_start e He) as (c & q & Hq & Hc).
  apply value_start_facts in Hc as (Hcs & Hc0 & _ & _ & Hc1).
  cbn [skip_elems]. rewrite (decide_False (P:=_ ∨ _)) by (rewrite Hq; simpl; tauto).
  rewrite value_start_space, json_skip_value_text by done. rewrite bind_ret.
  subst sep. rewrite skip_comma by done. by apply IH.
Qed.

(** Reading the value at position [n] of a row. *)
Lemma row_value_spec n l t col r :
  forallb json_wf l → rest_ok t →
  (p ← skip_elems n (elems_text l ++ "]"%byte :: t);
   let p := json_skip_whitespace p in
   if decide (deref p = "]"%byte) then Ret r
   else
     let? aconst := json_find_key_recursive p (bs "A_Const") or r in
     extract_const (set_shard_key_column (Some col)) aconst r)
  = Ret match l !! n with Some e => row_value_tree col e r | None => r end.
Proof.
  intros Hl Ht. rewrite skip_elems_spec, bind_ret by done. cbn zeta.
  destruct (l !! n) as [e|] eqn:E.
  - erewrite drop_S by done.
    assert (json_wf e) as He by (by eapply wf_elem, list_elem_of_lookup_2).
    unfold elems_text. cbn [map]. rewrite join_cons.
    set (sep := match _ with [] => _ | _ => _ end).
    assert (rest_ok sep) as Hsep.
    { apply rest_ok_elems; [|done]. rewrite forallb_True in *. by apply Forall_drop. }
    pose proof (json_text_start e He) as (c & q & Hq & Hc).
    apply value_start_facts in Hc as (Hcs & Hc0 & _ & _ & Hc1).
    rewrite value_start_space by done.
    rewrite decide_False by (rewrite Hq; simpl; tauto).
    assert (points_to (json_text e ++ sep) e) as Hp by by exists sep.
    unfold row_value_tree. follow; [|done]. apply extract_const_spec; wf.
  - rewrite drop_ge by by apply lookup_ge_None. done.
Qed.

Lemma extract_insert_spec p ins r col :
  json_wf ins → points_to p ins →
  ∃ extra, extract_shard_key_from_insert p r col =
    Ret match insert_names ins with
        | Some names => insert_tree ins (names ++ extra) col r
        | None => r
        end.
Proof.
  intros Hwf Hp. unfold extract_shard_key_from_insert, insert_names.
  pose proof (json_find_key_spec p ins (bs "cols") I Hwf Hp) as H.
  destruct (jget (bs "cols") ins) as [c|] eqn:E; simpl in H; [|exists []; by rewrite H].
  destruct H as (q & -> & Hq). cbn [mbind res_bind option_bind].
  assert (json_wf c) as Hc by wf.
  destruct c as [s|s|cols|o]; destruct Hq as (t & -> & Ht).
  - apply tok_ok_cons in Hc as (c & q' & -> & Hc & _). exists [].
    simpl. rewrite decide_False by (by intros ->). done.
  - by exists [].
  - assert (points_to (json_text (JArr cols) ++ t) (JArr cols)) as Hq by by exists t.
    destruct (json_find_all_values_in_tree _ _ (bs "name") I Hc Hq)
      as (ps & ps' & vs' & Hnames & Hps & Hps' & Hvs' & _).
    exists (map jstring vs'). rewrite decide_True, Hnames by done.
    rewrite bind_ret. rewrite (column_pos_spec _ (tree_collect (bs "name") (JArr cols) ++ vs')).
    2: by apply Forall2_app. 2: { apply Forall_app. split; [by apply tree_collect_wf|done]. }
    rewrite map_app, bind_ret. unfold insert_tree.
    destruct (index_of _ _) as [i|]; cbn [fmap option_fmap option_map]; [|done].
    unfold insert_at, insert_row.
    do 3 (follow; [|done]). follow; [|done].
    assert (json_wf v2) as Hv2 by wf. destruct Hq3 as (t' & -> & Ht').
    destruct v2 as [s|s|l|l].
    + apply tok_ok_cons in Hv2 as (c & q' & -> & Hc' & _). simpl.
      rewrite decide_False by (by intros ->). done.
    + done.
    + rewrite arr_text. cbn [deref advance]. rewrite decide_True, bind_ret by done.
      by apply row_value_spec.
    + done.
  - by exists [].
Qed.

(** *** The whole statement *)
Definition where_of (node : json) (r : ParseResult) : ParseResult :=
  match jget (bs "whereClause") node with Some w => where_tree w r | None => r end.
Definition rel_where_tree (node : json) (r : ParseResult) : ParseResult :=
  where_of node
    match jget (bs "relation") node with Some rel => rangevar_tree rel r | None => r end.
Definition from_tree (from : json) (r : ParseResult) : ParseResult :=
  match tree_search (bs "RangeVar") from with
  | Some rv => rangevar_tree rv r
  | None =>
    match tree_search (bs "relname") from with
    | Some v => set_table_name (jstring v) r
    | None => r
    end
  end.
Definition select_tree (ss : json) (r : ParseResult) : ParseResult :=
  where_of ss
    match jget (bs "fromClause") ss with Some f => from_tree f r | None => r end.
Definition stmt_tree (stmt : json) (r : ParseResult) : ParseResult :=
  let in_node k f := match jget k stmt with Some n => f n r | None => r end in
  match stmt_type r with
  | STMT_SELECT => in_node (bs "SelectStmt") select_tree
  | STMT_INSERT =>
    in_node (bs "InsertStmt") (λ n r,
      match jget (bs "relation") n with Some rel => rangevar_tree rel r | None => r end)
  | STMT_UPDATE => in_node (bs "UpdateStmt") rel_where_tree
  | STMT_DELETE => in_node (bs "DeleteStmt") rel_where_tree
  | STMT_DDL =>
    match tree_search (bs "relname") stmt with
    | Some v => set_table_name (jstring v) r
    | None => r
    end
  | _ => r
  end.
(** The first statement of a parse tree. *)
Inductive first_stmt := NoStmts | EmptyStmts | FirstStmt (stmt : json).
Definition first_stmt_of (root : json) : first_stmt :=
  match jget (bs "stmts") root with
  | Some (JArr []) => EmptyStmts
  | Some (JArr (w :: _)) =>
    match jget (bs "stmt") w with Some s => FirstStmt s | None => NoStmts end
  | _ => NoStmts
  end.
Definition init_result (tree : bytes) : ParseResult :=
  set_parse_tree_json (Some tree) (set_stmt_type STMT_UNKNOWN zero_result).
Definition parse_tree (root : json) : Z * ParseResult :=
  let r := init_result (json_text root) in
  match first_stmt_of root with
  | NoStmts => (-1, r)%Z
  | EmptyStmts => (0, r)%Z
  | FirstStmt s => (0, stmt_tree s (set_stmt_type (stmt_type_tree s) r))%Z
  end.

Lemma extract_where_of_spec p node r :
  json_wf node → points_to p node →
  (let? wh := json_find_key p (bs "whereClause") or r in
   extract_shard_key_from_where (where_fuel wh) wh r) = Ret (where_of node r).
Proof.
  intros Hwf Hp. unfold where_of. follow; [|done].
  apply extract_where_spec; [wf|done|]. destruct Hq as (t & -> & _).
  unfold where_fuel. rewrite length_app. lia.
Qed.

Lemma extract_rel_where_spec p node r :
  json_wf node → points_to p node →
  extract_rel_where p r = Ret (rel_where_tree node r).
Proof.
  intros Hwf Hp. unfold extract_rel_where, rel_where_tree.
  follow; [rewrite (extract_table_from_rangevar_spec q v) by wf|];
    rewrite ?bind_ret; by apply extract_where_of_spec.
Qed.

Lemma extract_select_spec p ss r :
  json_wf ss → points_to p ss → extract_select p r = Ret (select_tree ss r).
Proof.
  intros Hwf Hp. unfold extract_select, select_tree.
  follow; [|by apply extract_where_of_spec].
  match goal with |- (?m ≫= _) = _ => assert (m = Ret (from_tree v r)) as -> end.
  { unfold from_tree. follow; [apply extract_table_from_rangevar_spec; wf|].
    follow; [|done]. by rewrite (json_get_string_spec q0 v0) by wf. }
  rewrite bind_ret. by apply extract_where_of_spec.
Qed.

Lemma extract_stmt_spec p stmt r :
  json_wf stmt → points_to p stmt → extract_stmt p r = Ret (stmt_tree stmt r).
Proof.
  intros Hwf Hp. unfold extract_stmt, stmt_tree.
  destruct (stmt_type r); try done; (follow; [|done]).
  - apply extract_select_spec; wf.
  - follow; [|done]. apply extract_table_from_rangevar_spec; wf.
  - apply extract_rel_where_spec; wf.
  - apply extract_rel_where_spec; wf.
  - by rewrite (json_get_string_spec q v) by wf.
Qed.

(** A cursor on the first statement wrapper of the [stmts] array. *)
Lemma first_elem_spec e l t :
  forallb json_wf (e :: l) → rest_ok t →
  ∃ p, json_skip_whitespace (elems_text (e :: l) ++ "]"%byte :: t) = p ∧
    points_to p e ∧ deref p ≠ "]"%byte.
Proof.
  intros [He Hl]%andb_prop_elim Ht. eexists. split; [done|].
  unfold elems_text. cbn [map]. rewrite join_cons.
  set (sep := match _ with [] => _ | _ => _ end).
  assert (rest_ok sep) as Hsep by by apply rest_ok_elems.
  rewrite value_start_space by done. split; [by exists sep|].
  pose proof (json_text_start e He) as (c & q & -> & Hc).
  by apply value_start_facts in Hc as (_ & _ & _ & _ & ?).
Qed.

Lemma parse_query_spec pg_query_parse sql root :
  json_wf root → pg_query_parse sql = Some (json_text root) →
  parse_query pg_query_parse sql = Ret (parse_tree root).
Proof.
  intros Hwf Hpg. unfold parse_query, parse_tree, first_stmt_of. rewrite Hpg.
  assert (points_to (json_text root) root) as Hp
    by (exists []; split; [by rewrite app_nil_r|constructor]).
  follow; [|done]. fold (init_result (json_text root)).
  assert (json_wf v) as Hv by wf. destruct Hq as (t & -> & Ht).
  destruct v as [s|s|l|l].
  - apply tok_ok_cons in Hv as (c & q & -> & Hc & _). simpl.
    rewrite decide_False by (by intros ->). done.
  - done.
  - rewrite arr_text. cbn [deref advance]. rewrite decide_True, bind_ret by done.
    destruct l as [|w l]; [done|].
    destruct (first_elem_spec w l t Hv Ht) as (p & -> & Hw & Hd).
    rewrite decide_False by done. apply andb_prop_elim in Hv as [Hww _].
    follow; [|done]. rewrite (detect_stmt_type_spec q v), bind_ret by wf.
    by rewrite (extract_stmt_spec q v) by wf.
  - done.
Qed.

(** The second pass over an INSERT. *)
Lemma parse_extract_insert_spec root r col ins :
  json_wf root → stmt_type r = STMT_INSERT →
  parse_tree_json r = Some (json_text root) →
  first_stmt_of root = FirstStmt ins →
  ∃ extra, parse_extract_insert_shard_key r (Some col) = Ret
    match n ← jget (bs "InsertStmt") ins; names ← insert_names n; Some (n, names) with
    | Some (n, names) => insert_tree n (names ++ extra) col r
    | None => r
    end.
Proof.
  intros Hwf Hr Ht Hf. unfold parse_extract_insert_shard_key, first_stmt_of in *.
  rewrite decide_True, Ht by done.
  assert (points_to (json_text root) root) as Hp
    by (exists []; split; [by rewrite app_nil_r|constructor]).
  pose proof (json_find_key_spec _ root (bs "stmts") I Hwf Hp) as H.
  destruct (jget (bs "stmts") root) as [v|] eqn:E; [|done]. destruct H as (q & -> & Hq).
  assert (json_wf v) as Hv by wf. destruct Hq as (t & -> & Ht').
  destruct v as [| |[|w l]|]; [done..| |done].
  rewrite arr_text. cbn [mbind res_bind advance].
  destruct (first_elem_spec w l t Hv Ht') as (p & -> & Hw & _).
  apply andb_prop_elim in Hv as [Hww _].
  pose proof (json_find_key_spec p w (bs "stmt") I Hww Hw) as H.
  destruct (jget (bs "stmt") w) as [s|] eqn:E1; [|done]. injection Hf as ->.
  destruct H as (q & -> & Hq). cbn [mbind res_bind].
  assert (json_wf ins) as Hins by wf.
  pose proof (json_find_key_spec q ins (bs "InsertStmt") I Hins Hq) as H.
  destruct (jget (bs "InsertStmt") ins) as [n|] eqn:E2; [|exists []; by rewrite H].
  destruct H as (q' & -> & Hq'). cbn [mbind res_bind option_bind].
  destruct (extract_insert_spec q' n r col) as (extra & ->); [wf..|].
  exists extra. by destruct (insert_names n).
Qed.

(** ** Properties *)

(** [SELECT * FROM orders WHERE user_id = 42], as libpg_query prints it (without
    the fields the parser does not look at). *)
Definition sample_column (c : bytes) : json :=
  JObj [(bs "ColumnRef", JObj [(bs "fields",
    JArr [JObj [(bs "String", JObj [(bs "sval", JStr c)])]])])].
Definition sample_const (n : bytes) : json :=
  JObj [(bs "A_Const", JObj [(bs "ival", JObj [(bs "ival", JTok n)])])].
Definition sample_equality (c n : bytes) : json :=
  JObj [(bs "A_Expr", JObj
    [(bs "kind", JStr (bs "AEXPR_OP"));
     (bs "name", JArr [JObj [(bs "String", JObj [(bs "sval", JStr (bs "="))])]]);
     (bs "lexpr", sample_column c); (bs "rexpr", sample_const n)])].
Definition sample_relation (t : bytes) : json := JObj [(bs "relname", JStr t); (bs "inh", JTok (bs "true"))].
Definition sample_stmts (stmt : json) : json :=
  JObj [(bs "version", JTok (bs "160001")); (bs "stmts", JArr [JObj [(bs "stmt", stmt)]])].
Definition sample_select : json :=
  JObj [(bs "SelectStmt", JObj
    [(bs "fromClause", JArr [JObj [(bs "RangeVar", sample_relation (bs "orders"))]]);
     (bs "whereClause", sample_equality (bs "user_id") (bs "42"))])].
Definition sample_insert : json :=
  JObj [(bs "InsertStmt", JObj
    [(bs "relation", sample_relation (bs "orders"));
     (bs "cols", JArr [JObj [(bs "ResTarget", JObj [(bs "name", JStr (bs "item"))])];
                       JObj [(bs "ResTarget", JObj [(bs "name", JStr (bs "user_id"))])]]);
     (bs "selectStmt", JObj [(bs "SelectStmt", JObj [(bs "valuesLists",
        JArr [JObj [(bs "List", JObj [(bs "items",
          JArr [sample_const (bs "5"); sample_const (bs "42")])])]])])])])].

(** C17: [parse_query] on the text of any well-formed parse tree neither reads out
    of bounds nor loops, and fills its result with a function of the tree: the
    statement type, the table and, for SELECT, UPDATE and DELETE, the first key of
    the WHERE clause.  A query that libpg_query rejects gives -1 and an empty
    result. *)
Theorem parse_query_refines pg sql :
  (∀ root, json_wf root → pg sql = Some (json_text root) →
     parse_query pg sql = Ret (parse_tree root)) ∧
  (pg sql = None → parse_query pg sql = Ret ((-1)%Z, set_stmt_type STMT_UNKNOWN zero_result)).
Proof.
  split; [intros; by apply parse_query_spec|]. intros H. unfold parse_query. by rewrite H.
Qed.

Lemma parse_query_refines_witness :
  parse_query (λ _, Some (json_text (sample_stmts sample_select))) (bs "q")
    = Ret (parse_tree (sample_stmts sample_select)) ∧
  (parse_tree (sample_stmts sample_select)).1 = 0%Z ∧
  table_name (parse_tree (sample_stmts sample_select)).2 = Some (bs "orders") ∧
  shard_key_column (parse_tree (sample_stmts sample_select)).2 = Some (bs "user_id") ∧
  shard_key_int (parse_tree (sample_stmts sample_select)).2 = 42%Z.
Proof.
  split_and!; [|vm_compute; reflexivity..].
  destruct (parse_query_refines (λ _, Some (json_text (sample_stmts sample_select))) (bs "q"))
    as [H _]. apply H; [exact I|reflexivity].
Defined.

(** C25: The second pass over an INSERT takes the constant at the position of the
    shard column in the first row of VALUES.  The column names it sees are those
    of the column list followed by whatever names occur later in the statement. *)
Theorem insert_pass_refines root r col ins :
  json_wf root → stmt_type r = STMT_INSERT →
  parse_tree_json r = Some (json_text root) →
  first_stmt_of root = FirstStmt ins →
  ∃ extra, parse_extract_insert_shard_key r (Some col) = Ret
    match n ← jget (bs "InsertStmt") ins; names ← insert_names n; Some (n, names) with
    | Some (n, names) => insert_tree n (names ++ extra) col r
    | None => r
    end.
Proof. apply parse_extract_insert_spec. Qed.

Lemma insert_pass_refines_witness :
  let r := (parse_tree (sample_stmts sample_insert)).2 in
  (∃ extra, parse_extract_insert_shard_key r (Some (bs "user_id")) = Ret
    match n ← jget (bs "InsertStmt") sample_insert; names ← insert_names n; Some (n, names) with
    | Some (n, names) => insert_tree n (names ++ extra) (bs "user_id") r
    | None => r
    end) ∧
  (shard_key_int <$> parse_extract_insert_shard_key r (Some (bs "user_id"))) = Ret 42%Z.
Proof.
  split; [|vm_compute; reflexivity].
  apply (insert_pass_refines (sample_stmts sample_insert));
    [exact I|vm_compute; reflexivity..].
Defined.
