(* ===== verification/LibPQ.v ===== *)
(** * The interface to libpq and to the operating system

    libpq, the sockets and epoll are not part of the repository.  They are the
    operations of the classes [LibPQ] and [OS] over an abstract world [W]; every
    operation of the program that uses them takes the world and returns the new
    one.  A connection handle is only a name: whether it has been passed to
    [PQfinish] is recorded by [pq_live], and every use of a handle that is not live
    is undefined behaviour of the model ([with_conn]).

    [LibPQLaws] and [OSLaws] state the documented behaviour that the proofs rely
    on; [SimWorld] is a simulated world that satisfies them. *)
From S2P Require Import Prelude.
#[local] Set Warnings "-clear-no-such-hyp".

(** ** Data of libpq *)
Definition PGconn : Type := positive.

(** Outside an asynchronous connection procedure only these two are seen. *)
Inductive ConnStatusType : Type := CONNECTION_OK | CONNECTION_BAD.
Inductive PGTransactionStatusType : Type :=
| PQTRANS_IDLE | PQTRANS_ACTIVE | PQTRANS_INTRANS | PQTRANS_INERROR | PQTRANS_UNKNOWN.
Inductive ExecStatusType : Type :=
| PGRES_EMPTY_QUERY | PGRES_COMMAND_OK | PGRES_TUPLES_OK | PGRES_COPY_OUT | PGRES_COPY_IN
| PGRES_BAD_RESPONSE | PGRES_NONFATAL_ERROR | PGRES_FATAL_ERROR | PGRES_COPY_BOTH
| PGRES_SINGLE_TUPLE.
#[export] Instance ConnStatusType_eq_dec : EqDecision ConnStatusType.
Proof. solve_decision. Defined.
#[export] Instance PGTransactionStatusType_eq_dec : EqDecision PGTransactionStatusType.
Proof. solve_decision. Defined.
#[export] Instance ExecStatusType_eq_dec : EqDecision ExecStatusType.
Proof. solve_decision. Defined.

(** A result, as the accessors [PQfname], [PQgetvalue], ... present it; a NULL
    value is [None], an error field that is not set is [None]. *)
Record PGfield : Type := mkPGfield {
  PQfname : bytes;
  PQftype : Z;
  PQfsize : Z;
  PQfmod : Z;
}.
Record PGresult : Type := mkPGresult {
  PQresultStatus : ExecStatusType;
  res_fields : list PGfield;
  res_rows : list (list (option bytes));
  PQcmdStatus : bytes;
  diag_severity : option bytes;
  diag_sqlstate : option bytes;
  diag_message_primary : option bytes;
  diag_message_detail : option bytes;
}.
(** A bound on the memory that holds a result: its texts with room for the headers. *)
Definition opt_size (o : option bytes) : nat := match o with Some s => 8 + length s | None => 8 end.
Definition result_size (r : PGresult) : nat :=
  512 + length (PQcmdStatus r) + sum_list_with (λ f, 32 + length (PQfname f)) (res_fields r) +
  sum_list_with (λ row, 16 + sum_list_with opt_size row) (res_rows r) +
  opt_size (diag_severity r) + opt_size (diag_sqlstate r) +
  opt_size (diag_message_primary r) + opt_size (diag_message_detail r).
Lemma size_pos r : (0 < result_size r)%nat.
Proof. unfold result_size. lia. Qed.
(** Every row has a value for every column. *)
Definition result_wf (r : PGresult) : Prop :=
  Forall (λ row, length row = length (res_fields r)) (res_rows r).
(** [PQgetCopyData] in asynchronous mode: a row, 0, -1 or -2. *)
Inductive copy_result : Type := CopyRow (data : bytes) | CopyWait | CopyEnd | CopyError.

(** ** Operations *)
Class LibPQ (W : Type) : Type := {
  (** the handles that [PQconnectdb] returned and [PQfinish] has not freed *)
  pq_live : W → gset PGconn;
  (** the queries that [PQsendQuery] has accepted, in order *)
  pq_log : W → list (PGconn * bytes);
  (** how many bytes the results and COPY rows take that a connection still has *)
  pq_pending : W → PGconn → nat;
  pq_copy_pending : W → PGconn → nat;
  PQstatus : W → PGconn → ConnStatusType;
  PQtransactionStatus : W → PGconn → PGTransactionStatusType;
  PQconnectdb : W → bytes → W * PGconn;
  PQfinish : W → PGconn → W;
  PQsocket : W → PGconn → Z;
  PQerrorMessage : W → PGconn → bytes;
  PQsetnonblocking : W → PGconn → W;
  PQsendQuery : W → PGconn → bytes → W * bool;
  PQflush : W → PGconn → W;
  PQconsumeInput : W → PGconn → W * bool;
  PQisBusy : W → PGconn → W * bool;
  PQgetResult : W → PGconn → W * option PGresult;
  PQputCopyData : W → PGconn → bytes → W * Z;
  PQputCopyEnd : W → PGconn → option bytes → W * Z;
  PQgetCopyData : W → PGconn → W * copy_result;
}.

(** Sockets and epoll.  [send] and [recv] return the number of bytes or the data,
    [EAGAIN], or another error; an end of file is empty data. *)
Inductive send_result : Type := Sent (n : nat) | SendAgain | SendError.
Inductive recv_result : Type := Received (data : bytes) | RecvAgain | RecvError.
Inductive epoll_op : Type := EPOLL_CTL_ADD | EPOLL_CTL_MOD | EPOLL_CTL_DEL.
Class OS (W : Type) : Type := {
  (** the bytes the kernel has accepted for a socket so far *)
  sock_sent : W → Z → bytes;
  sock_send : W → Z → bytes → W * send_result;
  sock_recv : W → Z → nat → W * recv_result;
  sock_close : W → Z → W;
  epoll_ctl : W → epoll_op → Z → Z → W * bool;
  os_getpid : W → Z;
  (** [fcntl(fd, F_GETFL)] and [fcntl(fd, F_SETFL, flags)] *)
  fcntl_getfl : W → Z → Z;
  fcntl_setfl : W → Z → Z → W * Z;
}.

(** ** Documented behaviour *)

(** While a COPY is going on [PQgetResult] keeps returning its status. *)
Definition is_copy (st : ExecStatusType) : bool :=
  match st with PGRES_COPY_IN | PGRES_COPY_OUT | PGRES_COPY_BOTH => true | _ => false end.

(** [PQconnectdb] returns a new handle, [PQfinish] frees exactly the handle it is
    given, no other operation opens or frees a connection, and freeing a handle
    does not change the state of another one.  The results and COPY rows that a
    connection still has take finitely many bytes, less than the address space, and
    become fewer with every one that is returned, except that [PQgetResult] repeats
    the status of a COPY until it is over.  [PGRES_COPY_BOTH] is for replication
    connections only. *)
Class LibPQLaws (W : Type) `{LibPQ W} : Prop := {
  connectdb_fresh w s : (PQconnectdb w s).2 ∉ pq_live w;
  connectdb_live w s :
    pq_live (PQconnectdb w s).1 = {[(PQconnectdb w s).2]} ∪ pq_live w;
  finish_live w c : pq_live (PQfinish w c) = pq_live w ∖ {[c]};
  finish_status w c c' : c' ≠ c → PQstatus (PQfinish w c) c' = PQstatus w c';
  getResult_pending w c r :
    (PQgetResult w c).2 = Some r → is_copy (PQresultStatus r) = false →
    (result_size r + pq_pending (PQgetResult w c).1 c ≤ pq_pending w c)%nat;
  getResult_wf w c r : (PQgetResult w c).2 = Some r → result_wf r;
  getResult_size w c r : (PQgetResult w c).2 = Some r → (Z.of_nat (result_size r) ≤ 2 ^ 48)%Z;
  getResult_both w c r : (PQgetResult w c).2 = Some r → PQresultStatus r ≠ PGRES_COPY_BOTH;
  getResult_copy w c r :
    (PQgetResult w c).2 = Some r → is_copy (PQresultStatus r) = true →
    ∃ r', (PQgetResult (PQgetResult w c).1 c).2 = Some r' ∧ PQresultStatus r' = PQresultStatus r;
  getCopyData_pending w c d :
    (PQgetCopyData w c).2 = CopyRow d →
    (16 + length d + pq_copy_pending (PQgetCopyData w c).1 c ≤ pq_copy_pending w c)%nat;
  pending_size w c : (Z.of_nat (pq_pending w c) ≤ 2 ^ 48)%Z;
  copy_pending_size w c : (Z.of_nat (pq_copy_pending w c) ≤ 2 ^ 48)%Z;
  errorMessage_size w c : (Z.of_nat (length (PQerrorMessage w c)) ≤ 2 ^ 48)%Z;
}.
(** Nothing of this is observable: no connection is opened or freed, no query and
    nothing to a client is sent. *)
Definition quiet {W} {PQ : LibPQ W} {Os : OS W} (w w' : W) : Prop :=
  pq_live w' = pq_live w ∧ pq_log w' = pq_log w ∧ ∀ fd, sock_sent w' fd = sock_sent w fd.
(** The sockets of the clients and epoll are independent of libpq, which sends nothing
    to a client; only [PQsendQuery] sends queries; [send] accepts a prefix of what it is
    given, at least a byte, and [recv] returns at most what it is given room for. *)
Class OSLaws (W : Type) `{LibPQ W} `{OS W} : Prop := {
  quiet_setnonblocking w c : quiet w (PQsetnonblocking w c);
  quiet_flush w c : quiet w (PQflush w c);
  quiet_consume w c : quiet w (PQconsumeInput w c).1;
  quiet_busy w c : quiet w (PQisBusy w c).1;
  quiet_result w c : quiet w (PQgetResult w c).1;
  quiet_copy_row w c : quiet w (PQgetCopyData w c).1;
  quiet_put_copy w c d : quiet w (PQputCopyData w c d).1;
  quiet_put_end w c e : quiet w (PQputCopyEnd w c e).1;
  quiet_recv w fd n : quiet w (sock_recv w fd n).1;
  quiet_close w fd : quiet w (sock_close w fd);
  quiet_epoll w op fd ev : quiet w (epoll_ctl w op fd ev).1;
  quiet_fcntl w fd flags : quiet w (fcntl_setfl w fd flags).1;
  connectdb_sent w s fd : sock_sent (PQconnectdb w s).1 fd = sock_sent w fd;
  connectdb_log w s : pq_log (PQconnectdb w s).1 = pq_log w;
  finish_sent w c fd : sock_sent (PQfinish w c) fd = sock_sent w fd;
  finish_log w c : pq_log (PQfinish w c) = pq_log w;
  sendQuery_live w c q : pq_live (PQsendQuery w c q).1 = pq_live w;
  sendQuery_sent w c q fd : sock_sent (PQsendQuery w c q).1 fd = sock_sent w fd;
  sendQuery_log w c q :
    pq_log (PQsendQuery w c q).1 = pq_log w ++ if (PQsendQuery w c q).2 then [(c, q)] else [];
  send_live w fd d : pq_live (sock_send w fd d).1 = pq_live w;
  send_log w fd d : pq_log (sock_send w fd d).1 = pq_log w;
  send_sent w fd d fd' :
    sock_sent (sock_send w fd d).1 fd' =
    sock_sent w fd' ++
      match (sock_send w fd d).2 with
      | Sent n => if decide (fd' = fd) then take n d else []
      | _ => []
      end;
  send_count w fd d n : (sock_send w fd d).2 = Sent n → d ≠ [] → (0 < n ≤ length d)%nat;
  recv_count w fd n d : (sock_recv w fd n).2 = Received d → (length d ≤ n)%nat;
}.

(** ** Uses of a handle *)
Definition with_conn {W A} {PQ : LibPQ W} (w : W) (c : PGconn) (a : A) : res A :=
  if decide (c ∈ pq_live w) then Ret a else Ub.
Definition pq_status {W} {PQ : LibPQ W} (w : W) (c : PGconn) : res ConnStatusType :=
  with_conn w c (PQstatus w c).
Definition pq_transaction_status {W} {PQ : LibPQ W} (w : W) (c : PGconn)
    : res PGTransactionStatusType :=
  with_conn w c (PQtransactionStatus w c).
Definition pq_finish {W} {PQ : LibPQ W} (w : W) (c : PGconn) : res W :=
  with_conn w c (PQfinish w c).

Section live.
Context {W : Type} {PQ : LibPQ W}.
Lemma with_conn_live {A} w c (a : A) : c ∈ pq_live w → with_conn w c a = Ret a.
Proof. intros. unfold with_conn. by rewrite decide_True. Qed.
Lemma pq_status_live w c : c ∈ pq_live w → pq_status w c = Ret (PQstatus w c).
Proof. apply with_conn_live. Qed.
Lemma pq_transaction_status_live w c :
  c ∈ pq_live w → pq_transaction_status w c = Ret (PQtransactionStatus w c).
Proof. apply with_conn_live. Qed.
Lemma pq_finish_live w c : c ∈ pq_live w → pq_finish w c = Ret (PQfinish w c).
Proof. apply with_conn_live. Qed.
End live.

(** ** A simulated world *)
Record SimConn : Type := mkSimConn {
  sim_status : ConnStatusType;
  sim_txn : PGTransactionStatusType;
  sim_results : list PGresult;         (* what [PQgetResult] will return *)
  sim_copy : list copy_result;         (* what [PQgetCopyData] will return *)
}.
Record SimWorld : Type := mkSimWorld {
  sim_conns : gmap PGconn SimConn;
  sim_up : bool;                       (* new connections succeed *)
  sim_results_for : bytes → list PGresult;
  sim_input : list recv_result;        (* what [recv] will return *)
  sim_blocked : bool;                  (* [send] would block *)
  sim_sent : gmap Z bytes;             (* what has been sent to clients *)
  sim_log : list (PGconn * bytes);     (* the queries *)
}.
Definition sim_set (w : SimWorld) (m : gmap PGconn SimConn) : SimWorld :=
  mkSimWorld m (sim_up w) (sim_results_for w) (sim_input w) (sim_blocked w) (sim_sent w) (sim_log w).
Definition sim_alter (f : SimConn → SimConn) (c : PGconn) (w : SimWorld) : SimWorld :=
  sim_set w (alter f c (sim_conns w)).
Definition sim_empty : SimWorld := mkSimWorld ∅ true (λ _, []) [] false ∅ [].

(** What the laws ask of results and rows; a connection for which something else was
    set up has none. *)
Definition fits (n : nat) : bool := bool_decide (Z.of_nat n ≤ 2 ^ 48)%Z.
Definition sim_good (r : PGresult) : bool :=
  forallb (λ row, bool_decide (length row = length (res_fields r))) (res_rows r) &&
  bool_decide (PQresultStatus r ≠ PGRES_COPY_BOTH).
Definition results_size (l : list PGresult) : nat := sum_list_with result_size l.
Definition sim_queue (s : SimConn) : list PGresult :=
  if forallb sim_good (sim_results s) && fits (results_size (sim_results s))
  then sim_results s else [].
Definition row_size (r : copy_result) : nat :=
  match r with CopyRow d => 16 + length d | _ => 0 end.
Definition sim_rows (s : SimConn) : list copy_result :=
  if fits (sum_list_with row_size (sim_copy s)) then sim_copy s else [].

(** The status of a COPY stays until the COPY has ended. *)
Definition sim_drop (s : SimConn) : SimConn :=
  mkSimConn (sim_status s) (sim_txn s) (tail (sim_queue s)) (sim_copy s).
Definition sim_take_result (s : SimConn) : SimConn :=
  match sim_queue s with
  | r :: _ => if is_copy (PQresultStatus r) then s else sim_drop s
  | [] => s
  end.
Definition sim_take_copy (s : SimConn) : SimConn :=
  match sim_rows s with
  | _ :: l => mkSimConn (sim_status s) (sim_txn s) (sim_results s) l
  | [] => sim_drop s
  end.

#[export] Instance SimPQ : LibPQ SimWorld := {|
  pq_live w := dom (sim_conns w);
  pq_log w := sim_log w;
  pq_pending w c := from_option (results_size ∘ sim_queue) 0%nat (sim_conns w !! c);
  pq_copy_pending w c := from_option (sum_list_with row_size ∘ sim_rows) 0%nat (sim_conns w !! c);
  PQstatus w c := from_option sim_status CONNECTION_BAD (sim_conns w !! c);
  PQtransactionStatus w c := from_option sim_txn PQTRANS_UNKNOWN (sim_conns w !! c);
  PQconnectdb w s :=
    let c := fresh (dom (sim_conns w)) in
    let st := if sim_up w then CONNECTION_OK else CONNECTION_BAD in
    (sim_set w (<[c := mkSimConn st PQTRANS_IDLE [] []]> (sim_conns w)), c);
  PQfinish w c := sim_set w (delete c (sim_conns w));
  PQsocket w c := (Z.pos c + 100)%Z;
  PQerrorMessage w c := bs "error";
  PQsetnonblocking w c := w;
  PQsendQuery w c q :=
    let ok := bool_decide (from_option sim_status CONNECTION_BAD (sim_conns w !! c) = CONNECTION_OK) in
    (mkSimWorld
       (alter (λ s, mkSimConn (sim_status s) (sim_txn s) (sim_results_for w q) (sim_copy s)) c
          (sim_conns w))
       (sim_up w) (sim_results_for w) (sim_input w) (sim_blocked w) (sim_sent w)
       (sim_log w ++ if ok then [(c, q)] else []), ok);
  PQflush w c := w;
  PQconsumeInput w c :=
    (w, bool_decide (from_option sim_status CONNECTION_BAD (sim_conns w !! c) = CONNECTION_OK));
  PQisBusy w c := (w, false);
  PQgetResult w c := (sim_alter sim_take_result c w, s ← sim_conns w !! c; head (sim_queue s));
  PQputCopyData w c d := (w, 1%Z);
  PQputCopyEnd w c e := (sim_alter sim_drop c w, 1%Z);
  PQgetCopyData w c :=
    (sim_alter sim_take_copy c w, default CopyEnd (s ← sim_conns w !! c; head (sim_rows s)));
|}.
#[export] Instance SimOS : OS SimWorld := {|
  sock_sent w fd := default [] (sim_sent w !! fd);
  sock_send w fd d :=
    if sim_blocked w then (w, SendAgain)
    else (mkSimWorld (sim_conns w) (sim_up w) (sim_results_for w) (sim_input w) false
            (<[fd := default [] (sim_sent w !! fd) ++ d]> (sim_sent w)) (sim_log w), Sent (length d));
  sock_recv w fd n :=
    match sim_input w with
    | [] => (w, RecvAgain)
    | r :: l =>
      (mkSimWorld (sim_conns w) (sim_up w) (sim_results_for w) l (sim_blocked w) (sim_sent w)
         (sim_log w),
       match r with Received d => Received (take n d) | _ => r end)
    end;
  sock_close w fd := w;
  epoll_ctl w op fd ev := (w, true);
  os_getpid w := 4242%Z;
  fcntl_getfl w fd := 2%Z;
  fcntl_setfl w fd flags := (w, 0%Z);
|}.

Lemma sim_alter_live f c w : dom (sim_conns (sim_alter f c w)) = dom (sim_conns w).
Proof. simpl. apply dom_alter_L. Qed.
Lemma sim_queue_bound s : fits (results_size (sim_queue s)).
Proof.
  unfold sim_queue. destruct (forallb _ _); [|done]. simpl.
  destruct (fits (results_size (sim_results s))) eqn:E; [by rewrite E|done].
Qed.
Lemma sim_rows_bound s : fits (sum_list_with row_size (sim_rows s)).
Proof. 
  unfold sim_rows.
  destruct (fits (sum_list_with row_size (sim_copy s))) eqn:E; [by rewrite E|done].
 Qed.
Lemma sim_queue_cons s r l : sim_queue s = r :: l → sim_good r ∧ sim_queue (sim_drop s) = l.
Proof.
  intros E. unfold sim_queue at 1. unfold sim_drop. cbn [sim_results]. rewrite E. cbn [tail].
  unfold sim_queue in E. destruct (forallb sim_good _) eqn:Hg; [|done].
  destruct (fits _) eqn:Hf; [|done]. simpl in E. rewrite E in Hg, Hf.
  cbn [forallb] in Hg. apply andb_prop in Hg as [Hr Hl]. rewrite Hl. split; [by rewrite Hr|].
  unfold fits in *. apply bool_decide_eq_true in Hf. unfold results_size in *. simpl in Hf.
  rewrite bool_decide_true; [done|lia].
Qed.
Lemma sim_result_head w c r :
  (PQgetResult w c).2 = Some r →
  ∃ s l, sim_conns w !! c = Some s ∧ sim_queue s = r :: l ∧ sim_good r.
Proof.
  simpl. destruct (sim_conns w !! c) as [s|]; simpl; [|done].
  destruct (sim_queue s) as [|r' l] eqn:E; [done|]. intros [= ->].
  destruct (sim_queue_cons _ _ _ E). eauto.
Qed.
#[export] Instance SimPQ_laws : LibPQLaws SimWorld.
Proof.
  split; try (intros; simpl; rewrite ?dom_alter_L; done).
  - intros. apply is_fresh.
  - intros. simpl. by rewrite dom_insert_L.
  - intros. simpl. by rewrite dom_delete_L.
  - intros. simpl. by rewrite lookup_delete_ne.
  - intros w c r Hr Hc. apply sim_result_head in Hr as (s & l & E & Hq & _).
    simpl. rewrite lookup_alter_eq, E. simpl. unfold sim_take_result. rewrite Hq, Hc.
    destruct (sim_queue_cons _ _ _ Hq) as [_ ->]. done.
  - intros w c r (s & l & _ & _ & Hg)%sim_result_head. apply andb_True in Hg as [Hg _].
    apply forallb_True in Hg. eapply Forall_impl; [exact Hg|]. by intros row ?%bool_decide_unpack.
  - intros w c r (s & l & _ & Hq & _)%sim_result_head.
    pose proof (sim_queue_bound s) as Hb%bool_decide_unpack. rewrite Hq in Hb.
    change (results_size (r :: l)) with (result_size r + results_size l)%nat in Hb. lia.
  - intros w c r (s & l & _ & _ & Hg)%sim_result_head. apply andb_True in Hg as [_ Hg].
    by apply bool_decide_unpack in Hg.
  - intros w c r Hr Hc. exists r. split; [|done]. pose proof Hr as (s & l & E & Hq & _)%sim_result_head.
    simpl. rewrite lookup_alter_eq, E. simpl. unfold sim_take_result. rewrite Hq, Hc. by rewrite Hq.
  - intros w c d. simpl. rewrite lookup_alter_eq.
    destruct (sim_conns w !! c) as [s|]; simpl; [|done].
    pose proof (sim_rows_bound s) as Hb%bool_decide_unpack. unfold sim_take_copy.
    destruct (sim_rows s) as [|r' l]; [done|]. intros E. cbn in E. subst r'.
    cbn [sum_list_with row_size] in *. unfold sim_rows, fits. cbn [sim_copy].
    rewrite bool_decide_true by lia. lia.
  - intros w c. simpl. destruct (sim_conns w !! c) as [s|]; simpl; [|lia].
    by pose proof (sim_queue_bound s) as Hb%bool_decide_unpack.
  - intros w c. simpl. destruct (sim_conns w !! c) as [s|]; simpl; [|lia].
    by pose proof (sim_rows_bound s) as Hb%bool_decide_unpack.
Qed.
#[export] Instance SimOS_laws : OSLaws SimWorld.
Proof.
  split; try (intros; reflexivity);
    try (intros; split; [simpl; rewrite ?dom_alter_L; done|done]).
  - intros w fd n. simpl. by destruct (sim_input w).
  - intros w c q. simpl. by rewrite dom_alter_L.
  - intros w fd d. simpl. by destruct (sim_blocked w).
  - intros w fd d. simpl. by destruct (sim_blocked w).
  - intros w fd d fd'. simpl. destruct (sim_blocked w); simpl; [by rewrite app_nil_r|].
    destruct (decide (fd' = fd)) as [->|Hne].
    + rewrite lookup_insert_eq. simpl. by rewrite firstn_all.
    + rewrite lookup_insert_ne by done. by rewrite app_nil_r.
  - intros w fd d n. simpl. destruct (sim_blocked w); [done|]. intros [= <-] Hd.
    destruct d; [done|simpl; lia].
  - intros w fd n d. simpl. destruct (sim_input w) as [|[] l]; simpl; [done| |done|done].
    intros [= <-]. rewrite length_take. lia.
Qed.
