(* ===== verification/Pool.v ===== *)
(** * The connection pool ([src/src/pool/conn_pool.c]) *)
From S2P Require Import Prelude LibPQ.
#[local] Set Warnings "-clear-no-such-hyp".

(** ** Data ([conn_pool.h])

    [idle_conns] is the array allocated by [calloc(max_size, ...)], NULL is [None];
    the entries below [idle_count] are the idle connections. *)
Record ConnPool : Type := mkConnPool {
  pool_conninfo : bytes;
  idle_conns : list (option PGconn);
  idle_count : nat;
  max_size : Z;
  active_count : Z;
}.

Definition set_idle (arr : list (option PGconn)) (n : nat) (p : ConnPool) : ConnPool :=
  mkConnPool (pool_conninfo p) arr n (max_size p) (active_count p).
Definition set_active (a : Z) (p : ConnPool) : ConnPool :=
  mkConnPool (pool_conninfo p) (idle_conns p) (idle_count p) (max_size p) a.

(** An array entry: out of bounds and NULL (which no call site may pass on) are
    undefined behaviour. *)
Definition conn_at (arr : list (option PGconn)) (i : nat) : res PGconn :=
  o ← deref_opt (arr !! i); deref_opt o.
(** [arr[i] = v], undefined out of bounds. *)
Definition store_at (arr : list (option PGconn)) (i : nat) (v : option PGconn)
    : res (list (option PGconn)) :=
  if decide (i < length arr) then Ret (<[i := v]> arr) else Ub.

Section pool.
Context {W : Type} {PQ : LibPQ W}.

(** [conn_pool_init]; [conninfo] is not NULL ([strdup]). *)
Definition conn_pool_init (conninfo : option bytes) (size : Z) : res ConnPool :=
  s ← deref_opt conninfo;
  Ret (mkConnPool s (replicate (Z.to_nat size) None) 0 size 0).

(** [conn_pool_destroy]: finishes the idle connections. *)
Fixpoint finish_idle (w : W) (arr : list (option PGconn)) (i n : nat) : res W :=
  match n with
  | O => Ret w
  | S n =>
    o ← deref_opt (arr !! i);
    w ← match o with Some c => pq_finish w c | None => Ret w end;
    finish_idle w arr (S i) n
  end.
Definition conn_pool_destroy (w : W) (pool : ConnPool) : res (W * ConnPool) :=
  w ← finish_idle w (idle_conns pool) 0 (idle_count pool);
  Ret (w, mkConnPool [] [] 0 0 0).

(** The [while] loop of [conn_pool_acquire]: [n] is [idle_count]. *)
Fixpoint acquire_idle (w : W) (pool : ConnPool) (n : nat)
    : res (W * ConnPool * option PGconn) :=
  match n with
  | O => Ret (w, pool, None)
  | S n =>
    conn ← conn_at (idle_conns pool) n;
    arr ← store_at (idle_conns pool) n None;
    let pool := set_idle arr n pool in
    st ← pq_status w conn;
    if decide (st = CONNECTION_OK) then
      Ret (w, set_active (active_count pool + 1) pool, Some conn)
    else
      w ← pq_finish w conn;
      acquire_idle w pool n
  end.

(** [conn_pool_acquire] *)
Definition conn_pool_acquire (w : W) (pool : ConnPool)
    : res (W * ConnPool * option PGconn) :=
  '(w, pool, found) ← acquire_idle w pool (idle_count pool);
  match found with
  | Some conn => Ret (w, pool, Some conn)
  | None =>
    if decide (max_size pool ≤ active_count pool)%Z then Ret (w, pool, None)
    else
      let '(w, conn) := PQconnectdb w (pool_conninfo pool) in
      st ← pq_status w conn;
      if decide (st = CONNECTION_OK) then
        Ret (w, set_active (active_count pool + 1) pool, Some conn)
      else
        w ← pq_finish w conn;
        Ret (w, pool, None)
  end.

(** [conn_pool_release] *)
Definition conn_pool_release (w : W) (pool : ConnPool) (conn : option PGconn)
    : res (W * ConnPool) :=
  match conn with
  | None => Ret (w, pool)
  | Some conn =>
    let pool := set_active (active_count pool - 1) pool in
    st ← pq_status w conn;
    if decide (st = CONNECTION_OK) then
      txn ← pq_transaction_status w conn;
      if decide (txn = PQTRANS_IDLE) then
        if decide (Z.of_nat (idle_count pool) < max_size pool)%Z then
          arr ← store_at (idle_conns pool) (idle_count pool) (Some conn);
          Ret (w, set_idle arr (S (idle_count pool)) pool)
        else
          w ← pq_finish w conn; Ret (w, pool)
      else
        w ← pq_finish w conn; Ret (w, pool)
    else
      w ← pq_finish w conn; Ret (w, pool)
  end.

(** The inner loop of [conn_pool_health_check]: [n] moves from [j] on. *)
Fixpoint shift_entries (arr : list (option PGconn)) (j n : nat)
    : res (list (option PGconn)) :=
  match n with
  | O => Ret arr
  | S n =>
    v ← deref_opt (arr !! S j);
    arr ← store_at arr j v;
    shift_entries arr (S j) n
  end.
(** The outer loop, [i] from [idle_count - 1] down to 0. *)
Fixpoint health_loop (w : W) (pool : ConnPool) (i : nat) : res (W * ConnPool) :=
  match i with
  | O => Ret (w, pool)
  | S i =>
    conn ← conn_at (idle_conns pool) i;
    st ← pq_status w conn;
    if decide (st = CONNECTION_OK) then health_loop w pool i
    else
      w ← pq_finish w conn;
      arr ← shift_entries (idle_conns pool) i (idle_count pool - 1 - i);
      health_loop w (set_idle arr (idle_count pool - 1) pool) i
  end.
Definition conn_pool_health_check (w : W) (pool : ConnPool) : res (W * ConnPool) :=
  health_loop w pool (idle_count pool).
End pool.

(** ** Invariant

    [idle] are the idle connections in array order, [held] the ones checked out. *)
Definition pool_rep (p : ConnPool) (idle : list PGconn) : Prop :=
  length (idle_conns p) = Z.to_nat (max_size p) ∧
  idle_count p = length idle ∧
  length idle ≤ length (idle_conns p) ∧
  ∀ i c, idle !! i = Some c → idle_conns p !! i = Some (Some c).

Record pool_inv {W} {PQ : LibPQ W} (w : W) (p : ConnPool) (idle held : list PGconn) : Prop := {
  inv_rep : pool_rep p idle;
  inv_nodup : NoDup (idle ++ held);
  inv_live : ∀ c, c ∈ idle ++ held → c ∈ pq_live w;
  inv_active : active_count p = Z.of_nat (length held);
  inv_bound : length idle + length held ≤ Z.to_nat (max_size p);
}.

(** The live connections that are not [cs]. *)
Definition other_conns {W} {PQ : LibPQ W} (w : W) (cs : list PGconn) : gset PGconn :=
  pq_live w ∖ list_to_set cs.

Lemma pool_rep_last p idle c :
  pool_rep p (idle ++ [c]) →
  conn_at (idle_conns p) (length idle) = Ret c ∧
  ∃ arr, store_at (idle_conns p) (length idle) None = Ret arr ∧
    pool_rep (set_idle arr (length idle) p) idle.
Proof.
  intros (Hlen & Hn & Hle & Harr). rewrite length_app in *. simpl in *.
  unfold conn_at, store_at. rewrite (Harr (length idle) c).
  2: { rewrite lookup_app_r by lia. by rewrite Nat.sub_diag. }
  split; [done|]. rewrite decide_True by lia. eexists. split; [done|].
  split_and!; simpl; rewrite ?length_insert; [done|done|lia|].
  intros i d Hi. assert (i < length idle) by (by eapply lookup_lt_Some).
  rewrite list_lookup_insert_ne by lia. apply Harr. by rewrite lookup_app_l.
Qed.

Lemma shift_entries_spec arr j n :
  j + n < length arr →
  ∃ arr', shift_entries arr j n = Ret arr' ∧ length arr' = length arr ∧
    ∀ k, arr' !! k = if decide (j ≤ k < j + n) then arr !! S k else arr !! k.
Proof.
  revert arr j. induction n as [|n IH]; intros arr j Hj; simpl.
  - exists arr. split_and!; [done..|]. intros k. by rewrite decide_False by lia.
  - destruct (arr !! S j) as [v|] eqn:Hv; [|apply lookup_ge_None in Hv; lia]. simpl.
    unfold store_at. rewrite decide_True by lia. simpl.
    destruct (IH (<[j:=v]> arr) (S j)) as (arr' & -> & Hlen & Harr).
    { rewrite length_insert. lia. }
    exists arr'. rewrite length_insert in Hlen. split_and!; [done..|].
    intros k. rewrite Harr. destruct (decide (k = j)) as [->|].
    + rewrite decide_False, decide_True, list_lookup_insert_eq by lia. by rewrite Hv.
    + destruct (decide (S j ≤ k < S j + n)).
      * rewrite decide_True, list_lookup_insert_ne by lia. done.
      * rewrite decide_False, list_lookup_insert_ne by lia. done.
Qed.

(** Removing entry [i] of the array removes it from the list. *)
Lemma pool_rep_shift p l1 c l2 :
  pool_rep p (l1 ++ c :: l2) →
  ∃ arr, shift_entries (idle_conns p) (length l1) (idle_count p - 1 - length l1) = Ret arr ∧
    pool_rep (set_idle arr (idle_count p - 1) p) (l1 ++ l2).
Proof.
  intros (Hlen & Hn & Hle & Harr). rewrite length_app in *. simpl in *.
  destruct (shift_entries_spec (idle_conns p) (length l1) (idle_count p - 1 - length l1))
    as (arr & -> & Hl & Ha); [lia|].
  exists arr. split; [done|]. split_and!; simpl; rewrite ?length_app; [lia..|].
  intros i d Hi. rewrite Ha. case_decide as Hc.
  - apply Harr. rewrite lookup_app_r in Hi by lia. rewrite lookup_app_r by lia.
    by replace (S i - length l1) with (S (i - length l1)) by lia.
  - assert (i < length l1 + length l2).
    { rewrite <- length_app. by eapply lookup_lt_Some. }
    assert (i < length l1) by lia. apply Harr.
    rewrite lookup_app_l in Hi by done. by rewrite lookup_app_l.
Qed.

Section pool_spec.
Context {W : Type} {PQ : LibPQ W} {Laws : LibPQLaws W}.
Implicit Types (w : W) (p : ConnPool) (c : PGconn) (idle held : list PGconn).

(** Checking out the last idle connection. *)
Lemma pool_inv_take w p idle c held arr :
  pool_inv w p (idle ++ [c]) held →
  pool_rep (set_idle arr (length idle) p) idle →
  pool_inv w (set_active (active_count p + 1) (set_idle arr (length idle) p))
    idle (c :: held).
Proof.
  intros [_ Hnd Hl Ha Hb] Hrep. rewrite <- app_assoc in *. simpl in *.
  rewrite !length_app in *. simpl in *. split; simpl; [done|done|done|lia|lia].
Qed.

(** Closing the last idle connection. *)
Lemma pool_inv_close w p idle c held arr :
  pool_inv w p (idle ++ [c]) held →
  pool_rep (set_idle arr (length idle) p) idle →
  pool_inv (PQfinish w c) (set_idle arr (length idle) p) idle held ∧
  other_conns (PQfinish w c) (idle ++ held) = other_conns w ((idle ++ [c]) ++ held).
Proof.
  intros [_ Hnd Hl Ha Hb] Hrep.
  assert (c ∉ idle ++ held) as Hc.
  { rewrite <- app_assoc in Hnd. simpl in Hnd.
    apply NoDup_app in Hnd as (_ & Hd & Hnd). apply NoDup_cons in Hnd as [? _].
    specialize (λ H, Hd c H (list_elem_of_here _ _)). set_solver. }
  split.
  - split; simpl; [done| | |done|].
    + rewrite <- app_assoc in Hnd. simpl in Hnd. rewrite <- Permutation_middle in Hnd.
      by apply NoDup_cons in Hnd as [_ ?].
    + intros d Hd. rewrite finish_live. specialize (Hl d). set_solver.
    + rewrite length_app in Hb. simpl in Hb. lia.
  - unfold other_conns. rewrite finish_live. set_solver.
Qed.

(** A connection that works. *)
Definition conn_ok (w : W) (c : PGconn) : Prop := PQstatus w c = CONNECTION_OK.
#[global] Instance conn_ok_dec w c : Decision (conn_ok w c) :=
  decide (PQstatus w c = CONNECTION_OK).

(** The connections [l] are closed, the last one first. *)
Definition closed (w : W) (l : list PGconn) : W := foldr (λ c w, PQfinish w c) w l.

(** The loop takes the topmost connection that works and closes those above it. *)
Lemma acquire_idle_spec w p idle held :
  pool_inv w p idle held →
  ∃ w' p' r idle', acquire_idle w p (length idle) = Ret (w', p', r) ∧
    max_size p' = max_size p ∧ pool_conninfo p' = pool_conninfo p ∧
    match r with
    | Some c => (∃ dead, idle = idle' ++ c :: dead ∧ Forall (λ d, ¬ conn_ok w d) dead ∧
          w' = closed w dead) ∧ conn_ok w c ∧
        conn_ok w' c ∧ pool_inv w' p' idle' (c :: held) ∧
        other_conns w' (idle' ++ c :: held) = other_conns w (idle ++ held)
    | None => Forall (λ d, ¬ conn_ok w d) idle ∧ w' = closed w idle ∧ idle' = [] ∧ pool_inv w' p' [] held ∧
        other_conns w' held = other_conns w (idle ++ held)
    end.
Proof.
  revert w p. induction idle as [|c idle IH] using rev_ind; intros w p Hinv.
  - by exists w, p, None, [].
  - destruct (pool_rep_last p idle c (inv_rep _ _ _ _ Hinv)) as (Hat & arr & Hst & Hrep).
    rewrite length_app, Nat.add_1_r. simpl. rewrite Hat. simpl. rewrite Hst. simpl.
    assert (c ∈ pq_live w) as Hc by (apply (inv_live _ _ _ _ Hinv); set_solver).
    rewrite pq_status_live, pq_finish_live by done. simpl.
    case_decide as Hok.
    + eexists _, _, (Some c), idle. split_and!; [done|done|done|by exists []|done|done|by apply pool_inv_take|].
      f_equal. by rewrite <- app_assoc.
    + simpl. destruct (pool_inv_close w p idle c held arr Hinv Hrep) as [Hinv' Ho].
      assert (∀ d, d ∈ idle → conn_ok (PQfinish w c) d ↔ conn_ok w d) as Hsame.
      { intros d Hd. unfold conn_ok. rewrite finish_status; [done|]. intros ->.
        pose proof (inv_nodup _ _ _ _ Hinv) as Hn. rewrite <- app_assoc in Hn. apply NoDup_app in Hn as (_ & Hn & _).
        apply (Hn c Hd). simpl. by left. }
      destruct (IH _ _ Hinv') as (w' & p' & r & idle' & E & Hms & Hci & Hr).
      exists w', p', r, idle'. split_and!; [done..|].
      destruct r as [d|].
      * destruct Hr as ((dead & -> & Hdead & ->) & Hd & ? & ? & Ho'). split_and!; [|apply Hsame; [set_solver|done]|done|done|congruence].
        exists (dead ++ [c]). split; [by rewrite <- app_assoc|]. split; [|unfold closed; by rewrite foldr_app].
        apply Forall_app. split; [|by constructor].
        apply Forall_forall. intros x Hx. rewrite Forall_forall in Hdead. rewrite <- Hsame by set_solver. by apply Hdead.
      * destruct Hr as (Hdead & -> & -> & ? & Ho'). split_and!; [|unfold closed; by rewrite foldr_app|done|done|congruence].
        apply Forall_app. split; [|by constructor].
        apply Forall_forall. intros x Hx. rewrite Forall_forall in Hdead. rewrite <- Hsame by done. by apply Hdead.
Qed.

(** How a connection was found, or why there is none, and what has been closed and opened
    from [w] to [w']: [conninfo] is tried when no idle connection works and the limit is not
    reached. *)
Definition acquired w p idle held idle' c w' : Prop :=
  (∃ dead, idle = idle' ++ c :: dead ∧ Forall (λ d, ¬ conn_ok w d) dead ∧ conn_ok w c ∧ w' = closed w dead) ∨
  (Forall (λ d, ¬ conn_ok w d) idle ∧ idle' = [] ∧ (Z.of_nat (length held) < max_size p)%Z ∧
   PQconnectdb (closed w idle) (pool_conninfo p) = (w', c)).
Definition exhausted w p idle held w' : Prop :=
  Forall (λ d, ¬ conn_ok w d) idle ∧
  (((max_size p ≤ Z.of_nat (length held))%Z ∧ w' = closed w idle) ∨
   ((Z.of_nat (length held) < max_size p)%Z ∧
    let '(w2, c) := PQconnectdb (closed w idle) (pool_conninfo p) in ¬ conn_ok w2 c ∧ w' = PQfinish w2 c)).
(** [conn_pool_acquire]: the result is a live, working connection that nobody
    holds, or NULL with no idle connection left. *)
Lemma conn_pool_acquire_full w p idle held :
  pool_inv w p idle held →
  ∃ w' p' r idle', conn_pool_acquire w p = Ret (w', p', r) ∧ max_size p' = max_size p ∧
    match r with
    | Some c => acquired w p idle held idle' c w' ∧ PQstatus w' c = CONNECTION_OK ∧
        pool_inv w' p' idle' (c :: held) ∧
        other_conns w' (idle' ++ c :: held) = other_conns w (idle ++ held)
    | None => exhausted w p idle held w' ∧ pool_inv w' p' [] held ∧ idle' = [] ∧
        other_conns w' held = other_conns w (idle ++ held)
    end.
Proof.
  intros Hinv. unfold conn_pool_acquire.
  destruct (inv_rep _ _ _ _ Hinv) as (_ & -> & _ & _).
  destruct (acquire_idle_spec w p idle held Hinv)
    as (w1 & p1 & r & idle' & -> & Hms & Hci & Hr). simpl.
  destruct r as [c|].
  { destruct Hr as ((dead & -> & Hdead & Ew) & Hc & ? & ? & ?). exists w1, p1, (Some c), idle'. split_and!; try done.
    left. by exists dead. }
  destruct Hr as (Hdead & Ew & -> & Hinv1 & Ho). pose proof (inv_active _ _ _ _ Hinv1) as Hact.
  case_decide as Hlim.
  { exists w1, p1, None, []. split_and!; try done. split; [done|]. left. split; [lia|done]. }
  pose proof (connectdb_fresh w1 (pool_conninfo p1)) as Hfr.
  pose proof (connectdb_live w1 (pool_conninfo p1)) as Hlv.
  destruct (PQconnectdb w1 (pool_conninfo p1)) as [w2 c] eqn:Ecd. simpl in Hfr, Hlv.
  assert (c ∉ held) as Hch.
  { intros Hin. by apply Hfr, (inv_live _ _ _ _ Hinv1). }
  rewrite pq_status_live, pq_finish_live by set_solver. simpl.
  destruct Hinv1 as [Hrep Hnd Hl Ha Hb]. simpl in *. rewrite Hci in Ecd.
  case_decide as Hok; simpl.
  - eexists w2, _, (Some c), []. split_and!; [done|done| |done| |].
    + right. split_and!; [done|done|lia|]. by rewrite <- Ew.
    + split; simpl; [done|by apply NoDup_cons| |lia|].
      * intros d. rewrite Hlv. set_solver.
      * lia.
    + rewrite <- Ho. unfold other_conns. rewrite Hlv. simpl. set_solver.
  - exists (PQfinish w2 c), p1, None, []. split_and!; [done|done| | |done|].
    + split; [done|]. right. split; [lia|]. by rewrite <- Ew, Ecd.
    + split; simpl; [done|done| |done|lia].
      intros d Hd. rewrite finish_live, Hlv. specialize (Hl d Hd). set_solver.
    + rewrite <- Ho. unfold other_conns. rewrite finish_live, Hlv. set_solver.
Qed.
Lemma conn_pool_acquire_spec w p idle held :
  pool_inv w p idle held →
  ∃ w' p' r idle', conn_pool_acquire w p = Ret (w', p', r) ∧
    idle' `prefix_of` idle ∧ max_size p' = max_size p ∧
    match r with
    | Some c => PQstatus w' c = CONNECTION_OK ∧
        pool_inv w' p' idle' (c :: held) ∧
        other_conns w' (idle' ++ c :: held) = other_conns w (idle ++ held)
    | None => pool_inv w' p' [] held ∧ idle' = [] ∧
        other_conns w' held = other_conns w (idle ++ held)
    end.
Proof.
  intros Hinv. destruct (conn_pool_acquire_full w p idle held Hinv) as (w' & p' & r & idle' & E & Hm & Hr).
  exists w', p', r, idle'. split; [done|]. destruct r as [c|].
  - destruct Hr as ([(dead & -> & _)|(_ & -> & _)] & ? & ? & ?); split_and!; try done; [by eexists|apply prefix_nil].
  - destruct Hr as (_ & ? & -> & ?). split_and!; try done. apply prefix_nil.
Qed.

Lemma pool_inv_perm w p idle held held' :
  held ≡ₚ held' → pool_inv w p idle held → pool_inv w p idle held'.
Proof.
  intros Hp [Hrep Hnd Hl Ha Hb].
  split; [done|by rewrite <- Hp|by setoid_rewrite <- Hp|by rewrite <- Hp|by rewrite <- Hp].
Qed.

(** Closing a connection that is checked out. *)
Lemma pool_inv_drop w p idle c held :
  pool_inv w p idle (c :: held) →
  pool_inv (PQfinish w c) (set_active (active_count p - 1) p) idle held.
Proof.
  intros [Hrep Hnd Hl Ha Hb]. rewrite <- Permutation_middle in Hnd.
  apply NoDup_cons in Hnd as [Hc Hnd]. simpl in *.
  split; simpl; [done|done| |lia|lia].
  intros d Hd. rewrite finish_live. specialize (Hl d). set_solver.
Qed.

(** Returning one to the idle array. *)
Lemma pool_inv_return w p idle c held :
  pool_inv w p idle (c :: held) →
  ∃ arr, store_at (idle_conns p) (idle_count p) (Some c) = Ret arr ∧
    pool_inv w (set_idle arr (S (idle_count p)) (set_active (active_count p - 1) p))
      (idle ++ [c]) held.
Proof.
  intros [(Hlen & Hn & Hle & Harr) Hnd Hl Ha Hb]. simpl in *.
  unfold store_at. rewrite decide_True by lia. eexists. split; [done|].
  split; simpl; [|by rewrite <- app_assoc|by setoid_rewrite <- (assoc_L (++))|lia|].
  - split_and!; simpl; rewrite ?length_insert, ?length_app; simpl; [done|lia|lia|].
    rewrite Hn. intros i d. destruct (decide (i = length idle)) as [->|].
    + rewrite lookup_app_r, Nat.sub_diag by lia. intros [= <-].
      by rewrite list_lookup_insert_eq by lia.
    + intros Hi. rewrite list_lookup_insert_ne by done. apply Harr.
      apply lookup_app_Some in Hi as [?|[? Hi]]; [done|].
      destruct (i - length idle) eqn:E; [lia|done].
  - rewrite length_app. simpl. lia.
Qed.

(** [conn_pool_release]: a healthy connection outside a transaction goes back to
    the idle array, which has room for it; any other one is closed. *)
Lemma conn_pool_release_spec w p idle c held :
  pool_inv w p idle (c :: held) →
  ∃ p', max_size p' = max_size p ∧
    if decide (PQstatus w c = CONNECTION_OK ∧ PQtransactionStatus w c = PQTRANS_IDLE)
    then conn_pool_release w p (Some c) = Ret (w, p') ∧ pool_inv w p' (idle ++ [c]) held
    else conn_pool_release w p (Some c) = Ret (PQfinish w c, p') ∧
         pool_inv (PQfinish w c) p' idle held.
Proof.
  intros Hinv. assert (c ∈ pq_live w) by (apply (inv_live _ _ _ _ Hinv); set_solver).
  unfold conn_pool_release.
  rewrite pq_status_live, pq_transaction_status_live, pq_finish_live by done. simpl.
  pose proof (pool_inv_drop _ _ _ _ _ Hinv) as Hdrop.
  destruct (decide (PQstatus w c = CONNECTION_OK)).
  2: { exists (set_active (active_count p - 1) p). rewrite decide_False by tauto. done. }
  destruct (decide (PQtransactionStatus w c = PQTRANS_IDLE)).
  2: { exists (set_active (active_count p - 1) p). rewrite decide_False by tauto. done. }
  destruct (pool_inv_return _ _ _ _ _ Hinv) as (arr & Hst & Hret).
  assert (Z.of_nat (idle_count p) < max_size p)%Z as Hroom.
  { destruct Hinv as [(Hlen & -> & _) _ _ _ Hb]. simpl in Hb. lia. }
  rewrite decide_True by done. rewrite Hst.
  exists (set_idle arr (S (idle_count p)) (set_active (active_count p - 1) p)).
  by rewrite decide_True.
Qed.

Lemma filter_status_ext w w' (l : list PGconn) :
  (∀ c, c ∈ l → PQstatus w' c = PQstatus w c) →
  filter (conn_ok w') l = filter (conn_ok w) l.
Proof.
  induction l as [|c l IH]; intros Hl; [done|]. rewrite !filter_cons, IH by set_solver.
  assert (PQstatus w' c = PQstatus w c) as Hc by (apply Hl; set_solver).
  destruct (decide (conn_ok w' c)), (decide (conn_ok w c)); unfold conn_ok in *; congruence.
Qed.

Lemma health_loop_spec w p l1 l2 held :
  pool_inv w p (l1 ++ l2) held →
  ∃ w' p', health_loop w p (length l1) = Ret (w', p') ∧ max_size p' = max_size p ∧
    pool_inv w' p' (filter (conn_ok w) l1 ++ l2) held ∧
    (∀ c, (c ∈ l1 → conn_ok w c) → PQstatus w' c = PQstatus w c) ∧
    other_conns w' (filter (conn_ok w) l1 ++ l2 ++ held)
      = other_conns w (l1 ++ l2 ++ held).
Proof.
  revert w p l2. induction l1 as [|c l1 IH] using rev_ind; intros w p l2 Hinv.
  { by exists w, p. }
  rewrite length_app, Nat.add_1_r. rewrite <- app_assoc in Hinv. simpl in *.
  destruct (inv_rep _ _ _ _ Hinv) as (Hlen & Hn & Hle & Harr).
  unfold conn_at. rewrite (Harr (length l1) c); simpl.
  2: { by rewrite lookup_app_r, Nat.sub_diag by lia. }
  assert (c ∈ pq_live w) by (apply (inv_live _ _ _ _ Hinv); set_solver).
  rewrite pq_status_live by done. simpl.
  case_decide as Hok.
  - destruct (IH w p (c :: l2) Hinv) as (w' & p' & -> & Hms & Hinv' & Hst & Ho).
    exists w', p'. rewrite filter_app, filter_cons_True, <- !app_assoc by done.
    split_and!; [done|done|done| |done]. intros d Hd. apply Hst. set_solver.
  - rewrite pq_finish_live by done. simpl.
    destruct (pool_rep_shift p l1 c l2 (inv_rep _ _ _ _ Hinv)) as (arr & -> & Hrep). simpl.
    assert (c ∉ l1 ++ l2 ++ held) as Hc.
    { pose proof (inv_nodup _ _ _ _ Hinv) as Hnd. rewrite <- app_assoc in Hnd. simpl in Hnd.
      rewrite <- Permutation_middle in Hnd. by apply NoDup_cons in Hnd as [? _]. }
    destruct (IH (PQfinish w c) (set_idle arr (idle_count p - 1) p) l2)
      as (w' & p' & -> & Hms & Hinv' & Hst & Ho).
    { destruct Hinv as [_ Hnd Hl Ha Hb]. split; simpl; [done| | |done|].
      - rewrite <- !app_assoc in *. simpl in *. rewrite <- Permutation_middle in Hnd.
        by apply NoDup_cons in Hnd as [_ ?].
      - intros d Hd. rewrite finish_live. specialize (Hl d). set_solver.
      - rewrite !length_app in *. simpl in *. lia. }
    assert (filter (conn_ok (PQfinish w c)) l1 = filter (conn_ok w) l1) as Hfl.
    { apply filter_status_ext. intros d Hd. apply finish_status. set_solver. }
    rewrite Hfl in *. exists w', p'.
    rewrite filter_app, filter_cons_False, filter_nil, app_nil_r by done.
    split_and!; [done|done|done| |].
    + intros d Hd. assert (d ≠ c) as Hdc by (intros ->; apply Hok, Hd; set_solver).
      rewrite Hst; [by apply finish_status|]. intros Hd'. unfold conn_ok.
      rewrite finish_status by done. apply Hd. set_solver.
    + rewrite Ho. unfold other_conns. rewrite finish_live.
      rewrite <- !app_assoc. simpl. set_solver.
Qed.

Lemma conn_pool_health_check_spec w p idle held :
  pool_inv w p idle held →
  ∃ w' p', conn_pool_health_check w p = Ret (w', p') ∧ max_size p' = max_size p ∧
    pool_inv w' p' (filter (conn_ok w) idle) held ∧
    (∀ c, (c ∈ idle → conn_ok w c) → PQstatus w' c = PQstatus w c) ∧
    other_conns w' (filter (conn_ok w) idle ++ held) = other_conns w (idle ++ held).
Proof.
  intros Hinv. unfold conn_pool_health_check.
  destruct (inv_rep _ _ _ _ Hinv) as (_ & -> & _ & _).
  pose proof (health_loop_spec w p idle [] held) as Hh. rewrite !app_nil_r in Hh.
  by apply Hh.
Qed.

(** [conn_pool_destroy] closes exactly the idle connections. *)
Lemma conn_pool_destroy_spec w p idle held :
  pool_inv w p idle held →
  ∃ w', conn_pool_destroy w p = Ret (w', mkConnPool [] [] 0 0 0) ∧
    pq_live w' = pq_live w ∖ list_to_set idle.
Proof.
  intros [(Hlen & Hn & Hle & Harr) Hnd Hl _ _]. unfold conn_pool_destroy. rewrite Hn.
  assert (∀ l1 l2 w', idle = l1 ++ l2 → pq_live w' = pq_live w ∖ list_to_set l1 →
    ∃ w'', finish_idle w' (idle_conns p) (length l1) (length l2) = Ret w'' ∧
      pq_live w'' = pq_live w ∖ list_to_set idle) as Hloop.
  { intros l1 l2. revert l1. induction l2 as [|c l2 IH]; intros l1 w' Hidle Hlive; simpl.
    { exists w'. by rewrite Hidle, app_nil_r. }
    rewrite (Harr (length l1) c); simpl.
    2: { rewrite Hidle. by rewrite lookup_app_r, Nat.sub_diag by lia. }
    rewrite pq_finish_live; simpl.
    2: { rewrite Hlive. apply elem_of_difference. split; [apply Hl; set_solver|].
         rewrite elem_of_list_to_set. intros Hc. subst idle. rewrite <- app_assoc in Hnd.
         apply NoDup_app in Hnd as (_ & Hd & _). apply (Hd c Hc). set_solver. }
    destruct (IH (l1 ++ [c]) (PQfinish w' c)) as (w'' & E & Hw'').
    - by rewrite <- app_assoc.
    - rewrite finish_live, Hlive, list_to_set_app_L. set_solver.
    - rewrite length_app, Nat.add_1_r in E. by exists w''. }
  destruct (Hloop [] idle w) as (w' & E & Hw'); [done|set_solver|].
  simpl in E. rewrite E. by exists w'.
Qed.

(** The invariant of a pool is kept by whatever keeps its connections alive. *)
Lemma pool_inv_frame w w' p idle held :
  pool_inv w p idle held → (∀ c, c ∈ idle ++ held → c ∈ pq_live w') →
  pool_inv w' p idle held.
Proof. intros [Hrep Hnd _ Ha Hb] Hl. by split. Qed.

Lemma conn_pool_init_spec w s size :
  ∃ p, conn_pool_init (Some s) size = Ret p ∧ max_size p = size ∧ pool_conninfo p = s ∧
    pool_inv w p [] [].
Proof.
  eexists. split_and!; [done|done|done|].
  split; simpl; [|constructor|set_solver|done|lia].
  split_and!; simpl; [by rewrite length_replicate|done|lia|done].
Qed.
End pool_spec.

(** ** The pool as a state machine

    What a client that only releases connections it holds can do, interleaved with
    health checks and with anything that happens to the connections themselves. *)
Section machine.
Context {W : Type} {PQ : LibPQ W} {Laws : LibPQLaws W}.

(** The world, the pool, and the connections that are checked out. *)
Definition pool_state : Type := W * ConnPool * list PGconn.
Inductive pool_step : pool_state → pool_state → Prop :=
| step_acquire w p held w' p' c :
    conn_pool_acquire w p = Ret (w', p', Some c) → pool_step (w, p, held) (w', p', c :: held)
| step_acquire_fail w p held w' p' :
    conn_pool_acquire w p = Ret (w', p', None) → pool_step (w, p, held) (w', p', held)
| step_release w p h1 c h2 w' p' :
    conn_pool_release w p (Some c) = Ret (w', p') →
    pool_step (w, p, h1 ++ c :: h2) (w', p', h1 ++ h2)
| step_health w p held w' p' :
    conn_pool_health_check w p = Ret (w', p') → pool_step (w, p, held) (w', p', held)
| step_world w p held w' : pq_live w' = pq_live w → pool_step (w, p, held) (w', p, held).

(** [X] are the connections of others. *)
Definition state_inv (X : gset PGconn) (st : pool_state) : Prop :=
  ∃ idle, pool_inv st.1.1 st.1.2 idle st.2 ∧ other_conns st.1.1 (idle ++ st.2) = X.

Lemma other_conns_perm w l l' : l ≡ₚ l' → other_conns w l = other_conns w l'.
Proof. intros E. unfold other_conns. by rewrite (list_to_set_perm_L _ _ E). Qed.
Lemma other_conns_finish w l c l' : other_conns (PQfinish w c) (l ++ l') = other_conns w (l ++ c :: l').
Proof. unfold other_conns. rewrite finish_live. set_solver. Qed.
Lemma pool_step_inv X st st' : pool_step st st' → state_inv X st →
  state_inv X st' ∧ max_size st'.1.2 = max_size st.1.2.
Proof.
  intros Hst (idle & Hinv & HX). destruct Hst as [w p held w' p' c E|w p held w' p' E|
    w p h1 c h2 w' p' E|w p held w' p' E|w p held w' E]; cbn [fst snd] in *.
  - destruct (conn_pool_acquire_spec w p idle held Hinv)
      as (w1 & p1 & r & idle' & E' & Hpre & Hm & Hr).
    rewrite E in E'. simplify_eq. split; [|done]. exists idle'. split; apply Hr.
  - destruct (conn_pool_acquire_spec w p idle held Hinv)
      as (w1 & p1 & r & idle' & E' & Hpre & Hm & Hr).
    rewrite E in E'. simplify_eq. split; [|done]. exists []. split; apply Hr.
  - assert (h1 ++ c :: h2 ≡ₚ c :: h1 ++ h2) as Hp by (by rewrite Permutation_middle).
    apply (pool_inv_perm _ _ _ _ _ Hp) in Hinv. rewrite (other_conns_perm _ _ (idle ++ c :: h1 ++ h2)) in HX by (by rewrite Hp).
    destruct (conn_pool_release_spec w p idle c _ Hinv) as (p1 & Hm & Hr).
    rewrite E in Hr. case_decide; destruct Hr as [[= -> ->] Hr]; (split; [|done]).
    + exists (idle ++ [c]). split; [done|]. cbn [fst snd]. by rewrite <- app_assoc.
    + exists idle. split; [done|]. cbn [fst snd]. by rewrite other_conns_finish.
  - destruct (conn_pool_health_check_spec w p idle held Hinv) as (w1 & p1 & E' & Hm & Hr & _ & Ho).
    rewrite E in E'. simplify_eq. split; [|done]. eexists. split; [exact Hr|done].
  - split; [|done]. exists idle. split; [|cbn [fst snd]; unfold other_conns in *; by rewrite E]. eapply pool_inv_frame; [exact Hinv|].
    intros c Hc. cbn [fst snd]. rewrite E. by apply (inv_live _ _ _ _ Hinv).
Qed.

Lemma pool_reach_inv s size w0 p0 st :
  conn_pool_init (Some s) size = Ret p0 → rtc pool_step (w0, p0, []) st →
  state_inv (pq_live w0) st ∧ max_size st.1.2 = size.
Proof.
  intros Hi Hr. destruct (conn_pool_init_spec w0 s size) as (p & E & Hm & _ & Hp).
  rewrite Hi in E. injection E as <-.
  assert (state_inv (pq_live w0) (w0, p0, []) ∧ max_size (w0, p0, @nil PGconn).1.2 = size) as H0.
  { split; [|done]. exists []. split; [done|]. unfold other_conns. cbn. set_solver. }
  revert H0. generalize (pq_live w0). intros X. induction Hr as [|x y z Hxy Hyz IH]; [done|]. intros [Hx Hsz].
  destruct (pool_step_inv X x y Hxy Hx) as [Hy Hsz']. apply IH. split; [done|congruence].
Qed.

(** C15: Whatever sequence of acquires, releases, health checks and connection
    failures a pool goes through, the array holds distinct idle connections, the connections
    it has handed out are distinct from them and from each other, all of them are open, and
    there are at most [max_size] of them; the counters are right; no connection is lost:
    each open connection is idle, handed out, or was open before the pool was made.
    Every further operation is safe: acquiring, releasing any connection that is checked
    out, the health check and the destruction of the pool touch no connection that has been
    closed and no array entry out of bounds, and the destruction closes exactly the idle
    connections. *)
Theorem pool_safe s size w0 p0 w p held :
  conn_pool_init (Some s) size = Ret p0 → rtc pool_step (w0, p0, []) (w, p, held) →
  (∃ idle, pool_rep p idle ∧ NoDup (idle ++ held) ∧ (∀ c, c ∈ idle ++ held → c ∈ pq_live w) ∧
     pq_live w ∖ list_to_set (idle ++ held) = pq_live w0 ∧
     length idle + length held ≤ Z.to_nat size ∧
     idle_count p = length idle ∧ active_count p = Z.of_nat (length held) ∧
     ∃ w' p', conn_pool_destroy w p = Ret (w', p') ∧ pq_live w' = pq_live w ∖ list_to_set idle) ∧
  (∃ w' p' r, conn_pool_acquire w p = Ret (w', p', r)) ∧
  (∀ c, c ∈ held → ∃ w' p', conn_pool_release w p (Some c) = Ret (w', p')) ∧
  (∃ w' p', conn_pool_health_check w p = Ret (w', p')).
Proof.
  intros Hi Hr. destruct (pool_reach_inv _ _ _ _ _ Hi Hr) as [(idle & Hinv & HX) Hm]. cbn [fst snd] in *.
  pose proof Hinv as [Hrep Hnd Hl Ha Hb]. split_and!.
  - exists idle. rewrite Hm in Hb. pose proof Hrep as (_ & Hn & _). split_and!; try done.
    destruct (conn_pool_destroy_spec w p idle held Hinv) as (w' & ? & ?). by exists w', (mkConnPool [] [] 0 0 0).
  - destruct (conn_pool_acquire_spec w p idle held Hinv) as (? & ? & ? & ? & ? & _). eauto.
  - intros c Hc. apply list_elem_of_split in Hc as (h1 & h2 & ->).
    apply (pool_inv_perm _ _ _ _ (c :: h1 ++ h2)) in Hinv; [|by rewrite Permutation_middle].
    destruct (conn_pool_release_spec w p idle c _ Hinv) as (p1 & _ & Hx).
    case_decide; destruct Hx as [E _]; rewrite E; eauto.
  - destruct (conn_pool_health_check_spec w p idle held Hinv) as (? & ? & ? & _). eauto.
Qed.
End machine.

(** ** Properties of the operations *)

Definition sample_pool : ConnPool :=
  mkConnPool (bs "host=a") (replicate 2 None) 0 2 0.
(** Two connections are acquired, and the first is released again. *)
Definition sample_run : res (SimWorld * ConnPool * list PGconn) :=
  '(w, p, c1) ← conn_pool_acquire sim_empty sample_pool;
  '(w, p, c2) ← conn_pool_acquire w p;
  '(w, p) ← conn_pool_release w p c1;
  Ret (w, p, option_list c2).

Lemma pool_safe_witness :
  ∃ w p c d, sample_run = Ret (w, p, [c]) ∧ pool_rep p [d] ∧ NoDup [d; c] ∧ active_count p = 1%Z ∧
    pq_live w ∖ list_to_set [d; c] = ∅.
Proof.
  destruct sample_run as [[[w p] held]| |] eqn:E; [|discriminate..].
  pose proof E as E'. vm_compute in E'. injection E' as Hw Hp Hh.
  assert (rtc pool_step (sim_empty, sample_pool, []) (w, p, held)) as Hr.
  { subst w p held. eapply rtc_l; [by apply step_acquire|]. eapply rtc_l; [by apply step_acquire|].
    eapply rtc_l; [|apply rtc_refl]. by apply (step_release _ _ [2%positive] 1%positive []). }
  destruct (pool_safe (bs "host=a") 2 sim_empty sample_pool w p held eq_refl Hr)
    as ((idle & Hrep & Hnd & _ & Hl & _ & Hn & Ha & _) & _).
  assert (∃ d, idle = [d]) as [d ->].
  { subst p. destruct idle as [|d [|]]; [discriminate Hn| |discriminate Hn]. by exists d. }
  subst held. exists w, p, 2%positive, d. split; [reflexivity|]. split; [exact Hrep|]. split; [exact Hnd|].
  split; [exact Ha|exact Hl].
Defined.

(** A pool with two idle connections, the second of which has been lost, and one
    that is checked out. *)
Definition sample_conn (st : ConnStatusType) : SimConn := mkSimConn st PQTRANS_IDLE [] [].
Definition sample_world : SimWorld :=
  sim_set sim_empty
    (<[1%positive := sample_conn CONNECTION_OK]> (<[2%positive := sample_conn CONNECTION_BAD]>
      (<[3%positive := sample_conn CONNECTION_OK]> ∅))).
Definition sample_used_pool : ConnPool :=
  mkConnPool (bs "host=a") [Some 1%positive; Some 2%positive; None] 2 3 1.
Lemma sample_pool_inv : pool_inv sample_world sample_used_pool [1; 2]%positive [3%positive].
Proof.
  split; simpl; [|repeat constructor; set_solver| |done|lia].
  - split_and!; simpl; [done|done|lia|]. intros [|[|i]] c; simpl; [by intros [= <-]..|done].
  - intros c Hc. change (c ∈ (dom (sim_conns sample_world) : gset PGconn)).
    simpl. rewrite !dom_insert_L. set_solver.
Defined.

Section claims.
Context {W : Type} {PQ : LibPQ W} {Laws : LibPQLaws W}.

(** C27: [conn_pool_acquire] returns the topmost idle connection that works, and closes the
    idle connections above it; if none works they are all closed, and a new connection is
    opened unless as many as [max_size] are checked out.  The result is open, has status
    OK, is held by nobody else and is counted as active.  NULL is returned only if no idle
    connection works, and the limit is reached or the new connection fails, which is then
    closed.  No other connection is opened or closed. *)
Theorem acquire_behaviour w p idle held :
  pool_inv w p idle held →
  ∃ w' p' r idle', conn_pool_acquire w p = Ret (w', p', r) ∧ max_size p' = max_size p ∧
    match r with
    | Some c => acquired w p idle held idle' c w' ∧ PQstatus w' c = CONNECTION_OK ∧
        pool_inv w' p' idle' (c :: held) ∧
        other_conns w' (idle' ++ c :: held) = other_conns w (idle ++ held)
    | None => exhausted w p idle held w' ∧ pool_inv w' p' [] held ∧ idle' = [] ∧
        other_conns w' held = other_conns w (idle ++ held)
    end.
Proof. apply conn_pool_acquire_full. Qed.

(** C28: [conn_pool_release] puts a connection that works and is outside a
    transaction on the idle stack, for which there is always room, and closes any
    other one; nothing else is closed, and the pool stays consistent. *)
Theorem release_behaviour w p idle c h1 h2 :
  pool_inv w p idle (h1 ++ c :: h2) →
  ∃ p', max_size p' = max_size p ∧
    if decide (PQstatus w c = CONNECTION_OK ∧ PQtransactionStatus w c = PQTRANS_IDLE)
    then conn_pool_release w p (Some c) = Ret (w, p') ∧
         pool_inv w p' (idle ++ [c]) (h1 ++ h2)
    else conn_pool_release w p (Some c) = Ret (PQfinish w c, p') ∧
         pool_inv (PQfinish w c) p' idle (h1 ++ h2).
Proof.
  intros Hinv. apply conn_pool_release_spec.
  eapply pool_inv_perm; [|done]. by rewrite Permutation_middle.
Qed.

(** The in-place compaction of [conn_pool_health_check] is a filter: the idle
    connections whose status is OK stay, in their order, the others are closed,
    and the connections that are checked out are not touched. *)
Theorem health_check_is_filter w p idle held :
  pool_inv w p idle held →
  ∃ w' p', conn_pool_health_check w p = Ret (w', p') ∧ max_size p' = max_size p ∧
    pool_inv w' p' (filter (conn_ok w) idle) held ∧
    other_conns w' (filter (conn_ok w) idle ++ held) = other_conns w (idle ++ held).
Proof.
  intros Hinv. destruct (conn_pool_health_check_spec w p idle held Hinv)
    as (w' & p' & ? & ? & ? & _ & ?). eauto 10.
Qed.
End claims.

Lemma acquire_behaviour_witness :
  ∃ w' p' r idle', conn_pool_acquire sample_world sample_used_pool = Ret (w', p', r) ∧
    r = Some 1%positive ∧ acquired sample_world sample_used_pool [1; 2]%positive [3%positive] idle' 1%positive w' ∧
    max_size p' = 3%Z.
Proof.
  destruct (acquire_behaviour _ _ _ _ sample_pool_inv) as (w' & p' & r & idle' & E & Hm & Hr).
  assert (r = Some 1%positive) as -> by (vm_compute in E; congruence).
  exists w', p', (Some 1%positive), idle'. split; [exact E|]. split; [reflexivity|]. split; [apply Hr|exact Hm].
Defined.

Lemma release_behaviour_witness :
  ∃ p', conn_pool_release sample_world sample_used_pool (Some 3%positive) = Ret (sample_world, p') ∧
    pool_inv sample_world p' [1; 2; 3]%positive [].
Proof.
  destruct (release_behaviour _ _ _ 3%positive [] [] sample_pool_inv) as (p' & _ & H).
  rewrite decide_True in H by done. exists p'. exact H.
Defined.

Lemma health_check_is_filter_witness :
  ∃ w' p', conn_pool_health_check sample_world sample_used_pool = Ret (w', p') ∧
    idle_conns p' = [Some 1; Some 2; None]%positive ∧ idle_count p' = 1 ∧
    pool_inv w' p' [1%positive] [3%positive].
Proof.
  destruct (health_check_is_filter _ _ _ _ sample_pool_inv) as (w' & p' & E & _ & H & _).
  exists w', p'. split; [exact E|]. split; [|split].
  - vm_compute in E. injection E as _ <-. reflexivity.
  - vm_compute in E. injection E as _ <-. reflexivity.
  - exact H.
Defined.
