(* ===== verification/ShardMap.v ===== *)
(** * The shard map ([src/src/router/shard_map.c], [src/src/pool/health_check.c])

    A [Shard *] is an index into the array [map->shards], so the pointers a table
    rule holds and the shards they point to share their pools. *)
From S2P Require Import Prelude LibPQ Pool.
#[local] Set Warnings "-clear-no-such-hyp".
#[local] Open Scope Z_scope.

(** ** Data ([shard_map.h]); NULL strings are [None]. *)
Inductive ShardMethod : Type := SHARD_RANGE | SHARD_HASH.
#[export] Instance ShardMethod_eq_dec : EqDecision ShardMethod.
Proof. solve_decision. Defined.

Record Shard : Type := mkShard {
  shard_name : option bytes;
  shard_conninfo : option bytes;
  key_range_start : Z;
  key_range_end : Z;
  shard_pool : ConnPool;
}.
Definition set_pool (p : ConnPool) (s : Shard) : Shard :=
  mkShard (shard_name s) (shard_conninfo s) (key_range_start s) (key_range_end s) p.

Record TableRule : Type := mkTableRule {
  rule_table_name : option bytes;
  shard_column : option bytes;
  method : ShardMethod;
  broadcast : bool;
  rule_shard_count : nat;
  rule_shards : list nat;
}.

Record ShardMap : Type := mkShardMap {
  shards : list Shard;
  table_rules : list TableRule;
  pool_size : Z;
}.

(** ** Operations *)

(** [strcmp(a, b) == 0]; a NULL argument is undefined behaviour. *)
Definition strcmp_eq (a b : option bytes) : res bool :=
  x ← deref_opt a; y ← deref_opt b; Ret (bool_decide (x = y)).

(** [shard_map_find_rule] *)
Fixpoint find_rule_in (rules : list TableRule) (table_name : bytes) : res (option TableRule) :=
  match rules with
  | [] => Ret None
  | r :: rules =>
    eq ← strcmp_eq (rule_table_name r) (Some table_name);
    if eq : bool then Ret (Some r) else find_rule_in rules table_name
  end.
Definition shard_map_find_rule (map : ShardMap) (table_name : option bytes)
    : res (option TableRule) :=
  match table_name with
  | None => Ret None
  | Some t => find_rule_in (table_rules map) t
  end.

(** [rule->shards[i]]; an index outside the array is undefined behaviour. *)
Definition rule_shard (rule : TableRule) (i : nat) : res nat := deref_opt (rule_shards rule !! i).

(** The range loop shared by the two lookups: [n] iterations from [i]. *)
Fixpoint find_range (map : ShardMap) (rule : TableRule) (key : Z) (i n : nat)
    : res (option nat) :=
  match n with
  | O => Ret None
  | S n =>
    s ← rule_shard rule i;
    sh ← deref_opt (shards map !! s);
    if decide (key_range_start sh ≤ key ∧ key < key_range_end sh) then Ret (Some s)
    else find_range map rule key (S i) n
  end.

(** [shard_map_find_by_int]; [key] is an [int64_t]. *)
Definition shard_map_find_by_int (map : ShardMap) (rule : TableRule) (key : Z)
    : res (option nat) :=
  if decide (rule_shard_count rule = 0%nat) then Ret None
  else
    match method rule with
    | SHARD_RANGE =>
      let ukey := u64 key in
      r ← find_range map rule ukey 0 (rule_shard_count rule);
      match r with
      | Some s => Ret (Some s)
      | None => s ← rule_shard rule 0; Ret (Some s)
      end
    | SHARD_HASH =>
      let idx := i32 (u64 key `mod` Z.of_nat (rule_shard_count rule)) in
      s ← rule_shard rule (Z.to_nat idx); Ret (Some s)
    end.

(** The loop over the characters of a string key, which are signed. *)
Fixpoint hash_loop (hash : Z) (key : bytes) : Z :=
  match key with
  | [] => hash
  | c :: key => hash_loop (u64 (u64 (u64 (hash * 2 ^ 5) + hash) + u64 (char_Z c))) key
  end.

(** [shard_map_find_by_str] *)
Definition shard_map_find_by_str (map : ShardMap) (rule : TableRule) (key : option bytes)
    : res (option nat) :=
  match key with
  | None => Ret None
  | Some key =>
    if decide (rule_shard_count rule = 0%nat) then Ret None
    else
      let hash := hash_loop 5381 key in
      match method rule with
      | SHARD_RANGE =>
        r ← find_range map rule hash 0 (rule_shard_count rule);
        match r with
        | Some s => Ret (Some s)
        | None => s ← rule_shard rule 0; Ret (Some s)
        end
      | SHARD_HASH =>
        let idx := i32 (hash `mod` Z.of_nat (rule_shard_count rule)) in
        s ← rule_shard rule (Z.to_nat idx); Ret (Some s)
      end
  end.

(** [shard_map_get_all]: the count and the array. *)
Definition shard_map_get_all (rule : TableRule) : nat * list nat :=
  (rule_shard_count rule, rule_shards rule).

Section effects.
Context {W : Type} {PQ : LibPQ W}.

(** [shard_map_init] *)
Fixpoint init_pools (l : list Shard) (size : Z) : res (list Shard) :=
  match l with
  | [] => Ret []
  | s :: l =>
    p ← conn_pool_init (shard_conninfo s) size;
    l ← init_pools l size;
    Ret (set_pool p s :: l)
  end.
Definition shard_map_init (map : ShardMap) : res ShardMap :=
  l ← init_pools (shards map) (pool_size map);
  Ret (mkShardMap l (table_rules map) (pool_size map)).

(** [shard_map_destroy]: what it does to the connections; the memory it frees is
    not used again. *)
Fixpoint destroy_pools (w : W) (l : list Shard) : res W :=
  match l with
  | [] => Ret w
  | s :: l => '(w, _) ← conn_pool_destroy w (shard_pool s); destroy_pools w l
  end.
Definition shard_map_destroy (w : W) (map : ShardMap) : res W :=
  destroy_pools w (shards map).

(** [health_check_all] *)
Fixpoint check_pools (w : W) (l : list Shard) : res (W * list Shard) :=
  match l with
  | [] => Ret (w, [])
  | s :: l =>
    '(w, p) ← conn_pool_health_check w (shard_pool s);
    '(w, l) ← check_pools w l;
    Ret (w, set_pool p s :: l)
  end.
Definition health_check_all (w : W) (map : ShardMap) : res (W * ShardMap) :=
  '(w, l) ← check_pools w (shards map);
  Ret (w, mkShardMap l (table_rules map) (pool_size map)).
End effects.

(** ** Well-formed maps *)

(** What the loader guarantees of a rule: the count is the length of the array and
    every pointer is one into [map->shards]. *)
Definition rule_wf (map : ShardMap) (rule : TableRule) : Prop :=
  rule_shard_count rule = length (rule_shards rule) ∧
  Z.of_nat (rule_shard_count rule) ≤ 2147483647 ∧
  Forall (λ s, (s < length (shards map))%nat) (rule_shards rule).
Definition map_wf (map : ShardMap) : Prop :=
  Forall (λ r, is_Some (rule_table_name r) ∧ rule_wf map r) (table_rules map).

(** The shards of a rule, with their indices. *)
Definition range_of (map : ShardMap) (s : nat) (key : Z) : Prop :=
  ∃ sh, shards map !! s = Some sh ∧ key_range_start sh ≤ key < key_range_end sh.
#[export] Instance range_of_dec map s key : Decision (range_of map s key).
Proof.
  destruct (shards map !! s) as [sh|] eqn:E; [|by right; intros (? & ? & _); congruence].
  refine (cast_if (decide (key_range_start sh ≤ key < key_range_end sh)));
    [by exists sh|by intros (? & ? & ?); simplify_eq].
Defined.

(** Reference definition: the first shard of the rule whose range holds the key. *)
Definition first_in_range (map : ShardMap) (l : list nat) (key : Z) : option nat :=
  snd <$> list_find (λ s, range_of map s key) l.

Lemma find_range_spec map rule key l1 l2 :
  Forall (λ s, (s < length (shards map))%nat) (rule_shards rule) →
  rule_shards rule = l1 ++ l2 →
  find_range map rule key (length l1) (length l2) = Ret (first_in_range map l2 key).
Proof.
  intros Hwf. revert l1. induction l2 as [|s l2 IH]; intros l1 Hl; simpl; [done|].
  unfold rule_shard. rewrite Hl, lookup_app_r, Nat.sub_diag by lia. simpl.
  assert (s < length (shards map))%nat as Hs by (rewrite Hl in Hwf; decompose_Forall; done).
  destruct (lookup_lt_is_Some_2 _ _ Hs) as [sh Hsh]. rewrite Hsh. simpl.
  unfold first_in_range. simpl. destruct (decide (range_of map s key)) as [Hr|Hr].
  - destruct Hr as (sh' & ? & ?). simplify_eq. by rewrite decide_True by lia.
  - rewrite decide_False by (intros ?; apply Hr; by exists sh).
    replace (S (length l1)) with (length (l1 ++ [s])) by (rewrite length_app; simpl; lia).
    rewrite IH by (by rewrite Hl, <- app_assoc). f_equal. unfold first_in_range.
    by destruct (list_find _ l2) as [[]|].
Qed.

(** Reference definition of the two lookups on the 64-bit key they use. *)
Definition place (map : ShardMap) (rule : TableRule) (k : Z) : option nat :=
  match rule_shards rule with
  | [] => None
  | s0 :: _ =>
    match method rule with
    | SHARD_RANGE => Some (default s0 (first_in_range map (rule_shards rule) k))
    | SHARD_HASH => rule_shards rule !! Z.to_nat (k `mod` Z.of_nat (length (rule_shards rule)))
    end
  end.

Lemma i32_mod k n : 0 < n ≤ 2147483647 → i32 (k `mod` n) = k `mod` n.
Proof. intros. apply swrap_small; [lia|]. pose proof (Z.mod_pos_bound k n). lia. Qed.

Lemma hash_index (l : list nat) k :
  l ≠ [] → is_Some (l !! Z.to_nat (k `mod` Z.of_nat (length l))).
Proof.
  intros Hl. apply lookup_lt_is_Some_2. assert (0 < length l)%nat by (destruct l; simpl; done || lia).
  pose proof (Z.mod_pos_bound k (Z.of_nat (length l))). lia.
Qed.

Lemma place_steps map rule k :
  rule_wf map rule → rule_shards rule ≠ [] →
  match method rule with
  | SHARD_RANGE =>
    r ← find_range map rule k 0 (rule_shard_count rule);
    match r with
    | Some s => Ret (Some s)
    | None => s ← rule_shard rule 0; Ret (Some s)
    end
  | SHARD_HASH =>
    s ← rule_shard rule (Z.to_nat (i32 (k `mod` Z.of_nat (rule_shard_count rule))));
    Ret (Some s)
  end = Ret (place map rule k).
Proof.
  intros (Hc & Hm & Hs) Hne. unfold place.
  destruct (rule_shards rule) as [|s0 l] eqn:El; [done|]. destruct (method rule).
  - rewrite Hc. rewrite <- El in Hs.
    rewrite (find_range_spec map rule k [] (s0 :: l) Hs El : find_range _ _ _ 0 _ = _). simpl.
    destruct (first_in_range _ _ _); [done|]. unfold rule_shard. by rewrite El.
  - rewrite i32_mod by (rewrite Hc in *; simpl in *; lia). unfold rule_shard.
    rewrite El, Hc. destruct (hash_index (s0 :: l) k) as [s Hs']; [done|]. by rewrite Hs'.
Qed.

Lemma place_nil map rule k : rule_shards rule = [] → place map rule k = None.
Proof. intros E. unfold place. by rewrite E. Qed.

Lemma find_by_int_place map rule key :
  rule_wf map rule → shard_map_find_by_int map rule key = Ret (place map rule (u64 key)).
Proof.
  intros Hwf. unfold shard_map_find_by_int. case_decide as Hz.
  - destruct Hwf as (Hc & _). rewrite place_nil; [done|]. apply nil_length_inv. lia.
  - apply place_steps; [done|]. destruct Hwf as (Hc & _). intros E. by rewrite E in Hc.
Qed.
Lemma find_by_str_place map rule key :
  rule_wf map rule →
  shard_map_find_by_str map rule (Some key) = Ret (place map rule (hash_loop 5381 key)).
Proof.
  intros Hwf. unfold shard_map_find_by_str. case_decide as Hz.
  - destruct Hwf as (Hc & _). rewrite place_nil; [done|]. apply nil_length_inv. lia.
  - apply place_steps; [done|]. destruct Hwf as (Hc & _). intros E. by rewrite E in Hc.
Qed.

(** ** Properties of the placement *)

Lemma first_in_range_Some map l k s :
  first_in_range map l k = Some s → s ∈ l ∧ range_of map s k.
Proof.
  unfold first_in_range. intros H. apply fmap_Some in H as ([i s'] & H & ->).
  apply list_find_Some in H as (H & Hr & _). split; [|done]. by eapply list_elem_of_lookup_2.
Qed.
Lemma first_in_range_None map l k s :
  first_in_range map l k = None → s ∈ l → ¬ range_of map s k.
Proof.
  unfold first_in_range. intros H%fmap_None%list_find_None. rewrite Forall_forall in H. auto.
Qed.

Lemma place_in map rule k s : place map rule k = Some s → s ∈ rule_shards rule.
Proof.
  unfold place. destruct (rule_shards rule) as [|s0 l] eqn:El; [done|].
  destruct (method rule).
  - intros [= <-]. destruct (first_in_range _ _ _) as [s|] eqn:E; simpl; [|set_solver].
    by apply first_in_range_Some in E as [? _].
  - apply list_elem_of_lookup_2.
Qed.
Lemma place_total map rule k : rule_shards rule ≠ [] → is_Some (place map rule k).
Proof.
  unfold place. destruct (rule_shards rule) as [|s0 l] eqn:El; [done|]. intros _.
  destruct (method rule); [done|]. by apply hash_index.
Qed.

(** With disjoint ranges the shard of a key is the one whose range holds it. *)
Definition ranges_disjoint (map : ShardMap) (l : list nat) : Prop :=
  ∀ s1 s2 k, s1 ∈ l → s2 ∈ l → range_of map s1 k → range_of map s2 k → s1 = s2.

Lemma place_range map rule k s :
  method rule = SHARD_RANGE → ranges_disjoint map (rule_shards rule) →
  s ∈ rule_shards rule → range_of map s k → place map rule k = Some s.
Proof.
  intros Hm Hd Hs Hr. unfold place. rewrite Hm.
  destruct (rule_shards rule) as [|s0 l] eqn:El; [set_solver|]. rewrite <- El in *.
  destruct (first_in_range _ _ _) as [s'|] eqn:E; simpl.
  - apply first_in_range_Some in E as [? ?]. f_equal. by eapply Hd.
  - by destruct (first_in_range_None _ _ _ s E).
Qed.

(** Every shard of a hash rule gets keys: the residues cover the array. *)
Lemma place_hash_onto map rule s i :
  rule_wf map rule → method rule = SHARD_HASH → rule_shards rule !! i = Some s →
  place map rule (Z.of_nat i) = Some s.
Proof.
  intros (Hc & Hmx & _) Hm Hi. unfold place. rewrite Hm.
  destruct (rule_shards rule) as [|s0 l] eqn:El; [done|]. rewrite <- El in *.
  apply lookup_lt_Some in Hi as Hlt. rewrite Z.mod_small by lia. by rewrite Nat2Z.id.
Qed.

(** ** The string hash is a polynomial in 33, modulo 2^64 *)
Fixpoint poly33 (acc : Z) (key : bytes) : Z :=
  match key with [] => acc | c :: key => poly33 (acc * 33 + char_Z c) key end.

Lemma uwrap_add w a b : uwrap w (uwrap w a + uwrap w b) = uwrap w (a + b).
Proof. unfold uwrap. by rewrite <- Zplus_mod. Qed.
Lemma uwrap_mul_l w a b : uwrap w (uwrap w a * b) = uwrap w (a * b).
Proof. unfold uwrap. by rewrite Zmult_mod_idemp_l. Qed.

Lemma hash_loop_poly h key : hash_loop (u64 h) key = u64 (poly33 h key).
Proof.
  revert h. induction key as [|c key IH]; intros h; simpl; [done|]. rewrite <- IH. f_equal.
  rewrite uwrap_mul_l, (uwrap_add _ (h * 2 ^ 5) h), uwrap_add. f_equal. lia.
Qed.
Lemma hash_loop_range h key : 0 ≤ h < 2^64 → 0 ≤ hash_loop h key < 2 ^ 64.
Proof.
  intros Hh. rewrite <- (uwrap_small 64 h) by done. rewrite hash_loop_poly.
  by apply uwrap_range.
Qed.

(** ** The pools of all shards

    [own] gives the idle and the checked-out connections of every shard; no
    connection belongs to two shards. *)
Section pools.
Context {W : Type} {PQ : LibPQ W} {Laws : LibPQLaws W}.

Definition conns_of (o : list PGconn * list PGconn) : list PGconn := o.1 ++ o.2.
Record pools_inv (w : W) (l : list Shard) (own : list (list PGconn * list PGconn)) : Prop := {
  pools_each : Forall2 (λ s o, pool_inv w (shard_pool s) o.1 o.2) l own;
  pools_apart : NoDup (own ≫= conns_of);
}.

Lemma pools_inv_cons w s l o own :
  pools_inv w (s :: l) (o :: own) ↔
  pool_inv w (shard_pool s) o.1 o.2 ∧ pools_inv w l own ∧
  ∀ c, c ∈ conns_of o → c ∉ own ≫= conns_of.
Proof.
  split.
  - intros [Hf Hn]. apply Forall2_cons in Hf as [Hp Hf]. simpl in Hn.
    apply NoDup_app in Hn as (? & ? & ?). done.
  - intros (Hp & [Hf Hn] & Hd). split; [by constructor|]. simpl. apply NoDup_app.
    split_and!; [apply (inv_nodup _ _ _ _ Hp)|done|done].
Qed.

Lemma pools_inv_live w l own c :
  pools_inv w l own → c ∈ own ≫= conns_of → c ∈ pq_live w.
Proof.
  intros [Hf _] (o & Hc & Ho)%list_elem_of_bind.
  apply list_elem_of_lookup in Ho as [i Ho].
  destruct (Forall2_lookup_r _ _ _ _ _ Hf Ho) as (s & _ & Hp).
  by apply (inv_live _ _ _ _ Hp).
Qed.

Lemma pools_inv_frame w w' l own :
  pools_inv w l own → (∀ c, c ∈ own ≫= conns_of → c ∈ pq_live w') → pools_inv w' l own.
Proof.
  intros [Hf Hn] Hl. split; [|done]. clear Hn. induction Hf as [|s o l own Hp Hf IH]; [done|].
  constructor; [eapply pool_inv_frame; [done|]|apply IH]; intros c Hc; apply Hl; set_solver.
Qed.

(** [health_check_all] keeps exactly the idle connections that are alive. *)
Definition alive (w : W) (o : list PGconn * list PGconn) : list PGconn * list PGconn :=
  (filter (conn_ok w) o.1, o.2).

Lemma alive_ext w w' own :
  (∀ c, c ∈ own ≫= conns_of → PQstatus w' c = PQstatus w c) →
  alive w' <$> own = alive w <$> own.
Proof.
  intros Hs. apply list_fmap_ext. intros i o Ho. unfold alive. f_equal.
  apply filter_status_ext. intros c Hc. apply Hs. apply list_elem_of_bind.
  exists o. split; [set_solver|]. by eapply list_elem_of_lookup_2.
Qed.

Lemma alive_sub w own c : c ∈ (alive w <$> own) ≫= conns_of → c ∈ own ≫= conns_of.
Proof.
  intros (o & Hc & (o' & -> & Ho)%list_elem_of_fmap)%list_elem_of_bind.
  apply list_elem_of_bind. exists o'. split; [|done].
  unfold conns_of, alive in *. simpl in *. rewrite elem_of_app, list_elem_of_filter in *. set_solver.
Qed.

Lemma alive_conns w o c : c ∈ conns_of (alive w o) → c ∈ conns_of o.
Proof.
  unfold conns_of, alive. simpl. rewrite !elem_of_app, list_elem_of_filter. tauto.
Qed.
Lemma alive_live w w' own own' c :
  other_conns w' (own' ≫= conns_of) = other_conns w (own ≫= conns_of) →
  c ∈ pq_live w → c ∉ own ≫= conns_of → c ∈ pq_live w'.
Proof.
  intros Ho Hc Hn. assert (c ∈ other_conns w (own ≫= conns_of)) as Hoc.
  { apply elem_of_difference. by rewrite elem_of_list_to_set. }
  rewrite <- Ho in Hoc. unfold other_conns in Hoc. by apply elem_of_difference in Hoc as [? _].
Qed.
Lemma other_conns_app w a b : other_conns w (a ++ b) = other_conns w b ∖ list_to_set a.
Proof. unfold other_conns. rewrite list_to_set_app_L. set_solver. Qed.

Lemma check_pools_spec w l own :
  pools_inv w l own →
  ∃ w' l', check_pools w l = Ret (w', l') ∧
    pools_inv w' l' (alive w <$> own) ∧
    Forall2 (λ s s', s' = set_pool (shard_pool s') s) l l' ∧
    (∀ c, (c ∈ own ≫= fst → conn_ok w c) → PQstatus w' c = PQstatus w c) ∧
    other_conns w' ((alive w <$> own) ≫= conns_of) = other_conns w (own ≫= conns_of).
Proof.
  revert w own. induction l as [|s l IH]; intros w own Hinv.
  { exists w, []. assert (own = []) as ->; [|done].
    destruct Hinv as [Hf _]. by apply Forall2_nil_inv_l in Hf. }
  destruct own as [|o own]; [by destruct Hinv as [?%Forall2_cons_nil_inv _]|].
  apply pools_inv_cons in Hinv as (Hp & Hl & Hd). simpl.
  destruct (conn_pool_health_check_spec w _ _ _ Hp) as (w1 & p1 & -> & _ & Hp1 & Hs1 & Ho1). simpl.
  assert (∀ c, c ∈ own ≫= conns_of → c ∉ conns_of o) as Hd' by (intros c Hc ?; by eapply Hd).
  assert (∀ c, c ∈ own ≫= conns_of → c ∈ pq_live w1) as Hlive.
  { intros c Hc. pose proof (pools_inv_live _ _ _ _ Hl Hc). pose proof (Hd' _ Hc).
    assert (c ∈ other_conns w (o.1 ++ o.2)) as Hoc by (unfold other_conns, conns_of in *; set_solver).
    rewrite <- Ho1 in Hoc. unfold other_conns in Hoc. set_solver. }
  assert (alive w1 <$> own = alive w <$> own) as Hal.
  { apply alive_ext. intros c Hc. apply Hs1. intros Hc'. destruct (Hd' _ Hc). set_solver. }
  destruct (IH w1 own (pools_inv_frame _ _ _ _ Hl Hlive)) as (w2 & l2 & -> & Hl2 & Hf & Hs2 & Ho2).
  simpl. rewrite Hal in *. exists w2, (set_pool p1 s :: l2). split_and!; [done| | | |].
  - apply pools_inv_cons. split_and!; [|done|].
    + eapply pool_inv_frame; [exact Hp1|]. intros c Hc. apply (alive_live w1 w2 own (alive w <$> own));
        [done|by apply (inv_live _ _ _ _ Hp1)|].
      intros Hc'. apply (Hd' _ Hc'). by apply (alive_conns w).
    + intros c Hc Hc'. eapply Hd; [by apply (alive_conns w)|by apply (alive_sub w)].
  - by constructor.
  - intros c Hc. assert (PQstatus w1 c = PQstatus w c) as E by (apply Hs1; set_solver).
    rewrite <- E. apply Hs2. intros. unfold conn_ok. rewrite E. apply Hc. set_solver.
  - change (other_conns w2 (conns_of (alive w o) ++ (alive w <$> own) ≫= conns_of)
      = other_conns w (conns_of o ++ own ≫= conns_of)).
    rewrite (other_conns_app w2), Ho2, !other_conns_app.
    unfold other_conns, conns_of, alive in *. simpl. set_solver.
Qed.

(** [shard_map_destroy] closes the idle connections of every shard. *)
Lemma destroy_pools_spec w l own :
  pools_inv w l own →
  ∃ w', destroy_pools w l = Ret w' ∧ pq_live w' = pq_live w ∖ list_to_set (own ≫= fst).
Proof.
  revert w own. induction l as [|s l IH]; intros w own Hinv.
  { exists w. assert (own = []) as ->; [|set_solver].
    destruct Hinv as [Hf _]. by apply Forall2_nil_inv_l in Hf. }
  destruct own as [|o own]; [by destruct Hinv as [?%Forall2_cons_nil_inv _]|].
  apply pools_inv_cons in Hinv as (Hp & Hl & Hd). simpl.
  destruct (conn_pool_destroy_spec w _ _ _ Hp) as (w1 & -> & Hw1). simpl.
  destruct (IH w1 own) as (w2 & -> & Hw2).
  { eapply pools_inv_frame; [done|]. intros c Hc. rewrite Hw1.
    apply elem_of_difference. split; [by eapply pools_inv_live|].
    rewrite elem_of_list_to_set. intros Hc'. eapply Hd; [|done]. set_solver. }
  exists w2. split; [done|]. rewrite Hw2, Hw1, list_to_set_app_L. set_solver.
Qed.

(** [shard_map_init] starts with empty pools. *)
Lemma init_pools_spec w l size :
  Forall (λ s, is_Some (shard_conninfo s)) l →
  ∃ l', init_pools l size = Ret l' ∧
    Forall2 (λ s s', s' = set_pool (shard_pool s') s ∧
      Some (pool_conninfo (shard_pool s')) = shard_conninfo s ∧
      max_size (shard_pool s') = size) l l' ∧
    pools_inv w l' (replicate (length l) ([], [])).
Proof.
  induction 1 as [|s l [ci Hs] Hl (l' & E & Hf & Hinv)]; simpl.
  { exists []. split_and!; [done|done|]. split; [done|constructor]. }
  destruct (conn_pool_init_spec w ci size) as (p & Ep & Hm & Hc & Hp).
  rewrite Hs, Ep. simpl. rewrite E. simpl. exists (set_pool p s :: l'). split_and!; [done| |].
  - constructor; [|done]. simpl. by rewrite Hs, Hc.
  - apply pools_inv_cons. split_and!; [done|done|set_solver].
Qed.
End pools.

(** ** Properties *)

(** A map for the witnesses: two shards with adjacent ranges, a range rule, a hash
    rule and a broadcast rule. *)
Definition sample_shard (name : bytes) (lo hi : Z) : Shard :=
  mkShard (Some name) (Some (bs "host=h")) lo hi (mkConnPool [] [] 0 0 0).
Definition range_rule : TableRule :=
  mkTableRule (Some (bs "orders")) (Some (bs "user_id")) SHARD_RANGE false 2 [0%nat; 1%nat].
Definition hash_rule : TableRule :=
  mkTableRule (Some (bs "users")) (Some (bs "id")) SHARD_HASH false 2 [1%nat; 0%nat].
Definition all_rule : TableRule :=
  mkTableRule (Some (bs "countries")) None SHARD_RANGE true 2 [0%nat; 1%nat].
Definition sample_map : ShardMap :=
  mkShardMap [sample_shard (bs "shard_0") 0 1000000; sample_shard (bs "shard_1") 1000000 2000000]
    [range_rule; hash_rule; all_rule] 2.
Lemma sample_map_wf : map_wf sample_map.
Proof. repeat constructor; simpl; try done; try lia; by eexists. Defined.
Lemma sample_rule_wf r : r ∈ [range_rule; hash_rule; all_rule] → rule_wf sample_map r.
Proof.
  intros Hr. pose proof sample_map_wf as H. unfold map_wf in H. rewrite Forall_forall in H.
  by apply H.
Defined.

(** C21: On a well-formed rule both lookups compute the reference placement: an
    integer key is placed by its 64-bit two's complement, a string key by the
    polynomial hash in 33 over its (signed) characters modulo 2^64; a rule with at
    least one shard always yields one of its shards. *)
Theorem lookups_refine_place map rule key s :
  rule_wf map rule →
  shard_map_find_by_int map rule key = Ret (place map rule (u64 key)) ∧
  shard_map_find_by_str map rule (Some s) = Ret (place map rule (u64 (poly33 5381 s))) ∧
  (rule_shards rule ≠ [] → ∀ k, ∃ i, place map rule k = Some i ∧ i ∈ rule_shards rule).
Proof.
  intros Hwf. split_and!.
  - by apply find_by_int_place.
  - by rewrite find_by_str_place, <- hash_loop_poly.
  - intros Hne k. destruct (place_total map rule k Hne) as [i Hi]. exists i.
    split; [done|]. by eapply place_in.
Qed.
Lemma lookups_refine_place_witness :
  shard_map_find_by_int sample_map hash_rule 7 = Ret (Some 0%nat) ∧
  shard_map_find_by_str sample_map hash_rule (Some (bs "bob"))
    = Ret (place sample_map hash_rule (u64 (poly33 5381 (bs "bob")))).
Proof.
  split; [reflexivity|].
  apply (lookups_refine_place sample_map hash_rule 7 (bs "bob")). apply sample_rule_wf. set_solver.
Defined.

(** With disjoint ranges a range rule sends every key to the shard whose range
    holds it; a key that no range holds, such as any negative key when the ranges
    lie below 2^63, goes to the first shard of the rule. *)
Theorem range_lookup map rule key :
  rule_wf map rule → method rule = SHARD_RANGE → ranges_disjoint map (rule_shards rule) →
  (∀ s, s ∈ rule_shards rule → range_of map s (u64 key) →
     shard_map_find_by_int map rule key = Ret (Some s)) ∧
  ((∀ s, s ∈ rule_shards rule → ¬ range_of map s (u64 key)) →
     shard_map_find_by_int map rule key = Ret (head (rule_shards rule))) ∧
  (- 2 ^ 63 ≤ key < 0 → (∀ s sh, shards map !! s = Some sh → key_range_end sh ≤ 2 ^ 63) →
     shard_map_find_by_int map rule key = Ret (head (rule_shards rule))).
Proof.
  intros Hwf Hm Hd. rewrite find_by_int_place by done.
  assert ((∀ s, s ∈ rule_shards rule → ¬ range_of map s (u64 key)) →
    Ret (place map rule (u64 key)) = Ret (head (rule_shards rule))) as Hout.
  { intros Hno. unfold place. rewrite Hm. destruct (rule_shards rule) as [|s0 l] eqn:E; [done|].
    destruct (first_in_range map (s0 :: l) (u64 key)) as [s|] eqn:Ef; [|done].
    apply first_in_range_Some in Ef as [Hs Hr]. by destruct (Hno s Hs). }
  split_and!; [|done|].
  - intros s Hs Hr. f_equal. by apply place_range.
  - intros Hk Hends. apply Hout. intros s _ (sh & Hsh & Hr). specialize (Hends s sh Hsh).
    unfold uwrap in Hr. rewrite <- (Z.mod_add key 1), Z.mod_small in Hr by lia. lia.
Qed.
Lemma range_lookup_witness :
  shard_map_find_by_int sample_map range_rule 1234567 = Ret (Some 1%nat) ∧
  shard_map_find_by_int sample_map range_rule (-5) = Ret (Some 0%nat).
Proof.
  assert (rule_wf sample_map range_rule) as Hwf by (apply sample_rule_wf; set_solver).
  assert (ranges_disjoint sample_map (rule_shards range_rule)) as Hd.
  { intros s1 s2 k H1 H2 (sh1 & E1 & R1) (sh2 & E2 & R2).
    destruct s1 as [|[|s1]], s2 as [|[|s2]]; simpl in *; simplify_eq; simpl in *; try done; lia. }
  split.
  - apply (range_lookup sample_map range_rule 1234567 Hwf eq_refl Hd); [set_solver|].
    eexists. split; [reflexivity|]. vm_compute. split; discriminate || reflexivity.
  - apply (range_lookup sample_map range_rule (-5) Hwf eq_refl Hd); [lia|].
    intros [|[|s]] sh E; simpl in E; simplify_eq; simpl; lia.
Defined.

Section claims.
Context {W : Type} {PQ : LibPQ W} {Laws : LibPQLaws W}.

(** [health_check_all] keeps, in every pool, exactly the idle connections that
    are alive, leaves the checked-out ones and every connection outside the pools
    alone, and changes nothing of the shards but their pools. *)
Theorem health_check_all_behaviour w map own :
  pools_inv w (shards map) own →
  ∃ w' map', health_check_all w map = Ret (w', map') ∧
    pools_inv w' (shards map') (alive w <$> own) ∧
    Forall2 (λ s s', s' = set_pool (shard_pool s') s) (shards map) (shards map') ∧
    table_rules map' = table_rules map ∧
    other_conns w' ((alive w <$> own) ≫= conns_of) = other_conns w (own ≫= conns_of).
Proof.
  intros Hinv. destruct (check_pools_spec w _ own Hinv) as (w' & l & E & Hi & Hf & _ & Ho).
  unfold health_check_all. rewrite E. eexists _, _. split; [done|]. done.
Qed.

(** The pools' life cycle: [shard_map_init] gives every shard an empty pool for
    its connection string, and [shard_map_destroy] closes the idle connections of
    all pools and nothing else. *)
Theorem pools_life_cycle w map :
  (Forall (λ s, is_Some (shard_conninfo s)) (shards map) →
   ∃ map', shard_map_init map = Ret map' ∧
     pools_inv w (shards map') (replicate (length (shards map)) ([], [])) ∧
     Forall2 (λ s s', Some (pool_conninfo (shard_pool s')) = shard_conninfo s ∧
       max_size (shard_pool s') = pool_size map) (shards map) (shards map')) ∧
  (∀ own, pools_inv w (shards map) own →
   ∃ w', shard_map_destroy w map = Ret w' ∧
     pq_live w' = pq_live w ∖ list_to_set (own ≫= fst)).
Proof.
  split.
  - intros Hc. destruct (init_pools_spec w (shards map) (pool_size map) Hc) as (l & E & Hf & Hi).
    unfold shard_map_init. rewrite E. eexists. split; [done|]. split; [done|]. simpl.
    eapply Forall2_impl; [exact Hf|]. naive_solver.
  - intros own Hinv. by apply destroy_pools_spec.
Qed.
End claims.

Definition sample_pools : ShardMap :=
  mkShardMap [set_pool sample_used_pool (sample_shard (bs "s") 0 10)] [] 3.
Lemma sample_pools_inv :
  pools_inv sample_world (shards sample_pools) [([1; 2]%positive, [3%positive])].
Proof.
  split; [constructor; [exact sample_pool_inv|constructor]|].
  repeat constructor; set_solver.
Defined.
Lemma health_check_all_behaviour_witness :
  ∃ w' map', health_check_all sample_world sample_pools = Ret (w', map') ∧
    pools_inv w' (shards map') [([1%positive], [3%positive])].
Proof.
  destruct (health_check_all_behaviour _ _ _ sample_pools_inv) as (w' & map' & E & H & _).
  exists w', map'. split; [exact E|exact H].
Defined.
Lemma pools_life_cycle_witness :
  ∃ w', shard_map_destroy sample_world sample_pools = Ret w' ∧
    pq_live w' = pq_live sample_world ∖ list_to_set [1; 2]%positive.
Proof.
  destruct (pools_life_cycle sample_world sample_pools) as [_ H]. apply (H _ sample_pools_inv).
Defined.
