(* ===== verification/Resources.v ===== *)
(** * Who owns which connection

    [resources w l H P]: every live libpq connection is either idle in the pool of
    exactly one shard, or checked out of the pool of the shard that [H] names for it,
    or private ([P]: a connection to the default backend), and no connection plays two
    of these parts.  The pool counters agree with [H].  The lemmas say how acquiring,
    releasing, opening and closing change it. *)
From S2P Require Import Prelude LibPQ Pool ShardMap.
#[local] Set Warnings "-clear-no-such-hyp".

Section resources.
Context {W : Type} {PQ : LibPQ W} {Laws : LibPQLaws W}.
Implicit Types (w : W) (l : list Shard) (H : list (nat * PGconn)) (P : list PGconn).

(** The connections checked out of the pool of shard [i]. *)
Definition of_shard (i : nat) (h : nat * PGconn) : Prop := h.1 = i.
#[export] Instance of_shard_dec i h : Decision (of_shard i h) := decide (h.1 = i).
Definition held_of (H : list (nat * PGconn)) (i : nat) : list PGconn := (filter (of_shard i) H).*2.
Definition held_elsewhere (H : list (nat * PGconn)) (i : nat) : list PGconn :=
  (filter (λ h, ¬ of_shard i h) H).*2.

Record owned w l (idles : list (list PGconn)) H P : Prop := {
  owned_length : length idles = length l;
  owned_pools i s idle :
    l !! i = Some s → idles !! i = Some idle → pool_inv w (shard_pool s) idle (held_of H i);
  owned_index : Forall (λ h, (h.1 < length l)%nat) H;
  owned_nodup : NoDup (concat idles ++ H.*2 ++ P);
  owned_live : pq_live w = list_to_set (concat idles ++ H.*2 ++ P);
}.
Definition resources w l H P : Prop := ∃ idles, owned w l idles H P.

(** ** Splitting off one pool *)
Definition rest_of (idles : list (list PGconn)) H P i : list PGconn :=
  concat (delete i idles) ++ held_elsewhere H i ++ P.

Lemma concat_Permutation {A} (l l' : list (list A)) : l ≡ₚ l' → concat l ≡ₚ concat l'.
Proof.
  induction 1; simpl; [done|by f_equiv|by rewrite !app_assoc, (Permutation_app_comm x y)|by etrans].
Qed.
Lemma held_split H i : H.*2 ≡ₚ held_of H i ++ held_elsewhere H i.
Proof. unfold held_of, held_elsewhere. rewrite <- fmap_app. f_equiv. by rewrite filter_app_complement. Qed.
Lemma owned_split idles H P i idle :
  idles !! i = Some idle →
  concat idles ++ H.*2 ++ P ≡ₚ (idle ++ held_of H i) ++ rest_of idles H P i.
Proof.
  intros Hi. unfold rest_of. rewrite (concat_Permutation _ _ (delete_Permutation _ _ _ Hi)).
  simpl. rewrite (held_split H i). solve_Permutation.
Qed.

Lemma held_of_other H H' i j :
  j ≠ i → filter (λ h, ¬ of_shard i h) H' ≡ₚ filter (λ h, ¬ of_shard i h) H →
  held_of H' j ≡ₚ held_of H j.
Proof.
  intros Hij HH.
  assert (∀ K, held_of K j = (filter (of_shard j) (filter (λ h, ¬ of_shard i h) K)).*2) as E.
  { intros K. unfold held_of. rewrite list_filter_filter. f_equal.
    apply list_filter_iff. intros h. unfold of_shard. naive_solver. }
  rewrite !E. f_equiv. by rewrite HH.
Qed.

Lemma delete_insert {A} (l : list A) i x : delete i (<[i := x]> l) = delete i l.
Proof.
  revert i. induction l as [|y l IH]; intros [|i]; [done..|].
  change (y :: delete i (<[i := x]> l) = y :: delete i l). by rewrite IH.
Qed.
Lemma rest_of_update idles H H' P i idle' :
  filter (λ h, ¬ of_shard i h) H' ≡ₚ filter (λ h, ¬ of_shard i h) H →
  rest_of (<[i := idle']> idles) H' P i ≡ₚ rest_of idles H P i.
Proof.
  intros HH. unfold rest_of, held_elsewhere. f_equiv; [by rewrite delete_insert|by rewrite HH].
Qed.
Lemma owned_rest w l idles H P i idle :
  owned w l idles H P → idles !! i = Some idle →
  other_conns w (idle ++ held_of H i) = list_to_set (rest_of idles H P i).
Proof.
  intros [_ _ _ Hnd Hlive] Hidle. pose proof (owned_split idles H P i idle Hidle) as Hsplit.
  unfold other_conns. rewrite Hlive. rewrite Hsplit in Hnd. apply NoDup_app in Hnd as (_ & Hd & _).
  apply set_eq. intros c. rewrite elem_of_difference, !elem_of_list_to_set, Hsplit, elem_of_app.
  naive_solver.
Qed.
(** The connections of another pool are part of the rest. *)
Lemma other_pool_rest idles H P i j idle c :
  j ≠ i → idles !! j = Some idle → c ∈ idle ++ held_of H j → c ∈ rest_of idles H P i.
Proof.
  intros Hji Hidle [Hc|Hc]%elem_of_app; unfold rest_of; rewrite !elem_of_app.
  - left. apply list_elem_of_In, in_concat. exists idle. rewrite <- !list_elem_of_In. split; [|done].
    apply list_elem_of_lookup. destruct (decide (j < i)%nat).
    + exists j. by rewrite list_lookup_delete_lt.
    + exists (j - 1)%nat. rewrite list_lookup_delete_ge by lia. by replace (S (j - 1)) with j by lia.
  - right; left. unfold held_elsewhere, held_of in *.
    apply list_elem_of_fmap in Hc as (h & -> & [Hh1 Hh2]%list_elem_of_filter).
    apply list_elem_of_fmap. exists h. split; [done|]. apply list_elem_of_filter.
    split; [|done]. unfold of_shard in *. congruence.
Qed.

(** A pool operation: it may change the pool of shard [i] and what is held of it. *)
Lemma owned_update w w' l idles H H' P i s p' idle idle' :
  owned w l idles H P → l !! i = Some s → idles !! i = Some idle →
  pool_inv w' p' idle' (held_of H' i) →
  filter (λ h, ¬ of_shard i h) H' ≡ₚ filter (λ h, ¬ of_shard i h) H →
  other_conns w' (idle' ++ held_of H' i) = other_conns w (idle ++ held_of H i) →
  owned w' (<[i := set_pool p' s]> l) (<[i := idle']> idles) H' P.
Proof.
  intros Ho Hs Hidle Hp HH Hoc. pose proof (lookup_lt_Some _ _ _ Hs) as Hi.
  rewrite (owned_rest _ _ _ _ _ _ _ Ho Hidle) in Hoc.
  destruct Ho as [Hl Hpools Hix Hnd Hlive].
  assert (<[i:=idle']> idles !! i = Some idle') as Hidle' by (apply list_lookup_insert_eq; lia).
  pose proof (owned_split _ H' P i idle' Hidle') as Hsplit'.
  rewrite (rest_of_update idles H H' P i idle' HH) in Hsplit'.
  assert (pq_live w' = list_to_set ((idle' ++ held_of H' i) ++ rest_of idles H P i)) as Hlive'.
  { rewrite list_to_set_app_L, <- Hoc. unfold other_conns. apply set_eq. intros c.
    rewrite elem_of_union, elem_of_difference, elem_of_list_to_set.
    destruct (decide (c ∈ idle' ++ held_of H' i)) as [Hc|Hc]; [|tauto].
    pose proof (inv_live _ _ _ _ Hp c Hc). tauto. }
  split.
  - by rewrite !length_insert.
  - intros j s' id' Hj Hid'. destruct (decide (j = i)) as [->|Hji].
    + rewrite list_lookup_insert_eq in Hj by done. rewrite Hidle' in Hid'. by simplify_eq.
    + rewrite list_lookup_insert_ne in Hj by done. rewrite list_lookup_insert_ne in Hid' by done.
      apply (pool_inv_perm _ _ _ (held_of H j)); [symmetry; by eapply held_of_other|].
      eapply pool_inv_frame; [by apply Hpools|]. intros c Hc. rewrite Hlive'.
      apply elem_of_list_to_set, elem_of_app. right. by eapply other_pool_rest.
  - rewrite length_insert. apply Forall_forall. intros h Hh.
    destruct (decide (of_shard i h)) as [<-|Hhi]; [done|]. rewrite Forall_forall in Hix. apply Hix.
    assert (h ∈ filter (λ h, ¬ of_shard i h) H) as Hx
      by (rewrite <- HH; by apply list_elem_of_filter).
    by apply list_elem_of_filter in Hx as [_ ?].
  - rewrite Hsplit'. rewrite (owned_split _ H P i idle Hidle) in Hnd.
    apply NoDup_app in Hnd as (_ & _ & Hnd).
    apply NoDup_app. split_and!; [apply (inv_nodup _ _ _ _ Hp)| |done].
    intros c Hc Hcr. assert (c ∈ other_conns w' (idle' ++ held_of H' i)) as Hx
      by (rewrite Hoc; by apply elem_of_list_to_set).
    unfold other_conns in Hx. apply elem_of_difference in Hx as [_ Hx].
    by rewrite elem_of_list_to_set in Hx.
  - rewrite Hlive'. apply list_to_set_perm_L. by rewrite Hsplit'.
Qed.

(** ** Operations *)
#[export] Instance resources_proper w l :
  Proper ((≡ₚ) ==> (≡ₚ) ==> iff) (resources w l).
Proof.
  assert (∀ H H' P P', H ≡ₚ H' → P ≡ₚ P' → resources w l H P → resources w l H' P') as Hp.
  { intros H H' P P' HH HP (idles & [Hl Hpools Hix Hnd Hlive]). exists idles. split.
    - done.
    - intros i s idle Hi Hidle. eapply pool_inv_perm; [|by apply Hpools]. unfold held_of. by rewrite HH.
    - by rewrite <- HH.
    - by rewrite <- HH, <- HP.
    - rewrite Hlive. apply list_to_set_perm_L. by rewrite HH, HP. }
  intros H H' HH P P' HP. split; apply Hp; done.
Qed.

(** A change of the world that opens and closes nothing. *)
Lemma resources_frame w w' l H P :
  resources w l H P → pq_live w' = pq_live w → resources w' l H P.
Proof.
  intros (idles & [Hl Hpools Hix Hnd Hlive]) Hw. exists idles. split; try done; [|congruence].
  intros i s idle Hi Hidle. eapply pool_inv_frame; [by apply Hpools|].
  intros c Hc. rewrite Hw. by apply (inv_live _ _ _ _ (Hpools _ _ _ Hi Hidle)).
Qed.
Lemma resources_live w l H P c :
  resources w l H P → c ∈ H.*2 ++ P → c ∈ pq_live w.
Proof.
  intros (idles & [_ _ _ _ ->]) Hc. apply elem_of_list_to_set, elem_of_app. by right.
Qed.
Lemma owned_idle w l idles H P i s :
  owned w l idles H P → l !! i = Some s → ∃ idle, idles !! i = Some idle.
Proof.
  intros [Hl _ _ _ _] Hs%lookup_lt_Some. apply lookup_lt_is_Some. lia.
Qed.

Lemma held_of_cons_eq i c H : held_of ((i, c) :: H) i = c :: held_of H i.
Proof. unfold held_of. by rewrite filter_cons_True by done. Qed.
Lemma elsewhere_cons i c H :
  filter (λ h, ¬ of_shard i h) ((i, c) :: H) = filter (λ h, ¬ of_shard i h) H.
Proof. rewrite filter_cons_False; [done|]. intros Hn. by apply Hn. Qed.

Lemma resources_acquire w l H P i s :
  resources w l H P → l !! i = Some s →
  ∃ w' p' r, conn_pool_acquire w (shard_pool s) = Ret (w', p', r) ∧
    match r with
    | Some c => PQstatus w' c = CONNECTION_OK ∧
        resources w' (<[i := set_pool p' s]> l) ((i, c) :: H) P
    | None => resources w' (<[i := set_pool p' s]> l) H P
    end.
Proof.
  intros (idles & Ho) Hs. destruct (owned_idle _ _ _ _ _ _ _ Ho Hs) as [idle Hidle].
  destruct (conn_pool_acquire_spec w _ _ _ (owned_pools _ _ _ _ _ Ho i s idle Hs Hidle))
    as (w' & p' & r & idle' & -> & _ & _ & Hr).
  exists w', p', r. split; [done|]. destruct r as [c|].
  - destruct Hr as (Hst & Hp & Hoc). split; [done|]. exists (<[i := idle']> idles).
    eapply owned_update; [done..| | |].
    + by rewrite held_of_cons_eq.
    + by rewrite elsewhere_cons.
    + by rewrite held_of_cons_eq.
  - destruct Hr as (Hp & _ & Hoc). exists (<[i := []]> idles).
    by eapply owned_update.
Qed.

Lemma resources_release w l H P i s c :
  resources w l ((i, c) :: H) P → l !! i = Some s →
  ∃ w' p', conn_pool_release w (shard_pool s) (Some c) = Ret (w', p') ∧
    resources w' (<[i := set_pool p' s]> l) H P.
Proof.
  intros (idles & Ho) Hs. destruct (owned_idle _ _ _ _ _ _ _ Ho Hs) as [idle Hidle].
  pose proof (owned_pools _ _ _ _ _ Ho i s idle Hs Hidle) as Hp. rewrite held_of_cons_eq in Hp.
  destruct (conn_pool_release_spec w _ _ _ _ Hp) as (p' & _ & Hr).
  case_decide as Hok; destruct Hr as [-> Hp']; eexists _, p'; (split; [done|]).
  - exists (<[i := idle ++ [c]]> idles). eapply owned_update; [done..|by rewrite elsewhere_cons|].
    rewrite held_of_cons_eq. unfold other_conns. f_equal. apply list_to_set_perm_L. solve_Permutation.
  - exists (<[i := idle]> idles). eapply owned_update; [done..|by rewrite elsewhere_cons|].
    rewrite held_of_cons_eq. unfold other_conns. rewrite finish_live. apply set_eq. intros d.
    pose proof (inv_nodup _ _ _ _ Hp) as Hnd. set_solver.
Qed.

(** Private connections. *)
Lemma resources_open w l H P s :
  resources w l H P → resources (PQconnectdb w s).1 l H ((PQconnectdb w s).2 :: P).
Proof.
  intros (idles & [Hl Hpools Hix Hnd Hlive]).
  pose proof (connectdb_fresh w s) as Hf. pose proof (connectdb_live w s) as Hw.
  set (c := (PQconnectdb w s).2) in *. set (w' := (PQconnectdb w s).1) in *.
  assert (concat idles ++ H.*2 ++ c :: P ≡ₚ c :: (concat idles ++ H.*2 ++ P)) as Hperm
    by solve_Permutation.
  exists idles. split; [done| |done| |].
  - intros i sh idle Hi Hidle. eapply pool_inv_frame; [by apply Hpools|].
    intros d Hd. rewrite Hw. apply elem_of_union_r. by apply (inv_live _ _ _ _ (Hpools _ _ _ Hi Hidle)).
  - rewrite Hperm. constructor; [|done]. rewrite Hlive in Hf. by rewrite elem_of_list_to_set in Hf.
  - rewrite Hw, Hlive, (list_to_set_perm_L _ _ Hperm). by rewrite list_to_set_cons.
Qed.
Lemma resources_close w l H P c :
  resources w l H (c :: P) → resources (PQfinish w c) l H P.
Proof.
  intros (idles & [Hl Hpools Hix Hnd Hlive]). exists idles.
  assert (concat idles ++ H.*2 ++ c :: P ≡ₚ c :: (concat idles ++ H.*2 ++ P)) as Hperm
    by solve_Permutation.
  rewrite Hperm in Hnd. apply NoDup_cons in Hnd as [Hc Hnd].
  assert (pq_live (PQfinish w c) = list_to_set (concat idles ++ H.*2 ++ P)) as Hlive'.
  { rewrite finish_live, Hlive, (list_to_set_perm_L _ _ Hperm), list_to_set_cons. set_solver. }
  split; [done| |done|done|done].
  intros i s idle Hi Hidle. eapply pool_inv_frame; [by apply Hpools|].
  intros d Hd. rewrite Hlive'. apply elem_of_list_to_set.
  rewrite (owned_split _ _ _ _ _ Hidle). apply elem_of_app. by left.
Qed.

(** The health check. *)
Lemma resources_check w l H P i s :
  resources w l H P → l !! i = Some s →
  ∃ w' p', conn_pool_health_check w (shard_pool s) = Ret (w', p') ∧
    resources w' (<[i := set_pool p' s]> l) H P.
Proof.
  intros (idles & Ho) Hs. destruct (owned_idle _ _ _ _ _ _ _ Ho Hs) as [idle Hidle].
  pose proof (owned_pools _ _ _ _ _ Ho i s idle Hs Hidle) as Hp.
  destruct (conn_pool_health_check_spec w _ _ _ Hp) as (w' & p' & E & _ & Hp' & _ & Hoc).
  exists w', p'. split; [done|]. exists (<[i := filter (conn_ok w) idle]> idles).
  by eapply owned_update.
Qed.
Lemma resources_check_pools H P l :
  ∀ w done, resources w (done ++ l) H P →
  ∃ w' l', check_pools w l = Ret (w', l') ∧ resources w' (done ++ l') H P ∧
    Forall2 (λ s s', s' = set_pool (shard_pool s') s) l l'.
Proof.
  induction l as [|s l IH]; intros w done Hr; [by exists w, []|].
  destruct (resources_check _ _ _ _ (length done) s Hr) as (w1 & p1 & E & Hr1).
  { by rewrite lookup_app_r, Nat.sub_diag by lia. }
  rewrite insert_app_r_alt, Nat.sub_diag in Hr1 by lia. simpl in Hr1.
  destruct (IH w1 (done ++ [set_pool p1 s])) as (w' & l' & E' & Hr' & Hf); [by rewrite <- app_assoc|].
  exists w', (set_pool p1 s :: l'). simpl. rewrite E. cbn [mbind res_bind]. rewrite E'.
  split_and!; [done|by rewrite <- app_assoc in Hr'|by constructor].
Qed.

(** The start: no connection is open and all pools are empty. *)
Lemma resources_init w l :
  pq_live w = ∅ → pools_inv w l (replicate (length l) ([], [])) → resources w l [] [].
Proof.
  intros Hw [Hf _]. exists (replicate (length l) []). split.
  - by rewrite length_replicate.
  - intros i s idle Hs Hi. apply lookup_replicate in Hi as [-> Hi].
    apply (Forall2_lookup_lr _ _ _ _ _ ([], []) Hf Hs). by apply lookup_replicate.
  - constructor.
  - rewrite app_nil_r. simpl. clear. induction (length l) as [|n IH]; simpl; [constructor|done].
  - rewrite Hw. clear. induction (length l) as [|n IH]; simpl in *; done.
Qed.
(** The end: the idle connections of all pools are closed. *)
Lemma destroy_owned K l :
  ∀ w idles,
  length idles = length l →
  (∀ i s idle, l !! i = Some s → idles !! i = Some idle →
    ∃ held, pool_inv w (shard_pool s) idle held ∧ held ⊆ K) →
  NoDup (concat idles ++ K) →
  ∃ w', destroy_pools w l = Ret w' ∧ pq_live w' = pq_live w ∖ list_to_set (concat idles).
Proof.
  induction l as [|s l IH]; intros w [|idle idles] Hlen Hp Hnd; try done.
  { exists w. simpl. split; [done|set_solver]. }
  destruct (Hp 0%nat s idle eq_refl eq_refl) as (held & Hinv & _).
  simpl in Hnd. rewrite <- app_assoc in Hnd.
  apply NoDup_app in Hnd as (_ & Hd & Hnd).
  destruct (conn_pool_destroy_spec w _ _ _ Hinv) as (w1 & E & Hw1).
  destruct (IH w1 idles) as (w2 & E2 & Hw2); [simpl in Hlen; lia| |done|].
  - intros i s' idle' Hs Hi. destruct (Hp (S i) s' idle' Hs Hi) as (held' & Hinv' & Hsub).
    exists held'. split; [|done]. eapply pool_inv_frame; [exact Hinv'|].
    intros c Hc. rewrite Hw1. apply elem_of_difference. split; [by apply (inv_live _ _ _ _ Hinv')|].
    rewrite elem_of_list_to_set. intros Hc'. apply (Hd c Hc'). apply elem_of_app.
    apply elem_of_app in Hc as [Hc|Hc]; [left|right; by apply Hsub].
    apply list_elem_of_In, in_concat. exists idle'. split; apply list_elem_of_In; [|done].
    by eapply list_elem_of_lookup_2.
  - exists w2. simpl. rewrite E. cbn [mbind res_bind]. split; [done|].
    rewrite Hw2, Hw1, list_to_set_app_L. set_solver.
Qed.
Lemma resources_destroy w l H P :
  resources w l H P → ∃ w', destroy_pools w l = Ret w' ∧ pq_live w' = list_to_set (H.*2 ++ P).
Proof.
  intros (idles & [Hlen Hp _ Hnd Hlive]).
  destruct (destroy_owned (H.*2 ++ P) l w idles Hlen) as (w' & E & Hw); [|done|].
  - intros i s idle Hs Hi. exists (held_of H i). split; [by eapply Hp|].
    intros c Hc. apply elem_of_app. left. rewrite (held_split H i). apply elem_of_app. by left.
  - exists w'. split; [done|]. rewrite Hw, Hlive. apply NoDup_app in Hnd as (_ & Hd & _).
    rewrite list_to_set_app_L. set_solver.
Qed.
End resources.

(** ** What the pool operations leave alone

    They change the world only by opening and closing connections. *)
Section keeps.
Context {W : Type} {PQ : LibPQ W} (I : W → Prop).
Hypothesis open_keeps : ∀ w s, I w → I (PQconnectdb w s).1.
Hypothesis close_keeps : ∀ w c, I w → I (PQfinish w c).

Lemma pq_finish_keeps w c w' : pq_finish w c = Ret w' → I w → I w'.
Proof. unfold pq_finish, with_conn. case_decide; intros [= <-]; auto. Qed.
Lemma acquire_idle_keeps w p n w' p' r : acquire_idle w p n = Ret (w', p', r) → I w → I w'.
Proof.
  revert w p. induction n as [|n IH]; intros w p E Hw; simpl in E.
  { by injection E as <- <- <-. }
  apply bind_Ret_inv in E as (c & _ & E). apply bind_Ret_inv in E as (arr & _ & E).
  apply bind_Ret_inv in E as (st & _ & E). case_decide; [by injection E as <- <- <-|].
  apply bind_Ret_inv in E as (w1 & E1 & E). eauto using pq_finish_keeps.
Qed.
Lemma acquire_keeps w p w' p' r : conn_pool_acquire w p = Ret (w', p', r) → I w → I w'.
Proof.
  intros E Hw. apply bind_Ret_inv in E as ([[w1 p1] r1] & E1 & E).
  pose proof (acquire_idle_keeps _ _ _ _ _ _ E1 Hw) as Hw1.
  destruct r1 as [c|]; [by injection E as <- <- <-|]. case_decide; [by injection E as <- <- <-|].
  destruct (PQconnectdb w1 (pool_conninfo p1)) as [w2 c] eqn:E2.
  assert (I w2) by (change w2 with (w2, c).1; rewrite <- E2; auto).
  apply bind_Ret_inv in E as (st & _ & E). case_decide; [by injection E as <- <- <-|].
  apply bind_Ret_inv in E as (w3 & E3 & E). injection E as <- <- <-. eauto using pq_finish_keeps.
Qed.
Lemma release_keeps w p o w' p' : conn_pool_release w p o = Ret (w', p') → I w → I w'.
Proof.
  destruct o as [c|]; simpl; [|by intros [= <- <-]]. intros E Hw.
  apply bind_Ret_inv in E as (st & _ & E). case_decide.
  1: apply bind_Ret_inv in E as (txn & _ & E); case_decide; [case_decide|].
  1: by apply bind_Ret_inv in E as (arr & _ & [= <- <-]).
  all: apply bind_Ret_inv in E as (w1 & E1 & [= <- <-]); eauto using pq_finish_keeps.
Qed.
Lemma health_loop_keeps w p n w' p' : health_loop w p n = Ret (w', p') → I w → I w'.
Proof.
  revert w p. induction n as [|n IH]; intros w p E Hw; simpl in E; [by injection E as <- <-|].
  apply bind_Ret_inv in E as (c & _ & E). apply bind_Ret_inv in E as (x & _ & E).
  case_decide; [eauto|]. apply bind_Ret_inv in E as (w1 & E1 & E). apply bind_Ret_inv in E as (arr & _ & E).
  eauto using pq_finish_keeps.
Qed.
Lemma check_pools_keeps l w w' l' : check_pools w l = Ret (w', l') → I w → I w'.
Proof.
  revert w l'. induction l as [|sh l IH]; intros w l' E Hw; simpl in E; [by injection E as <- <-|].
  apply bind_Ret_inv in E as ([w1 p1] & E1 & E). apply bind_Ret_inv in E as ([w2 l2] & E2 & E).
  injection E as <- <-. eapply IH; [exact E2|]. by eapply health_loop_keeps.
Qed.
Lemma health_keeps w m w' m' : health_check_all w m = Ret (w', m') → I w → I w'.
Proof.
  intros E. apply bind_Ret_inv in E as ([w1 l1] & E1 & E). injection E as <- <-.
  by apply (check_pools_keeps _ _ _ _ E1).
Qed.
End keeps.
