(* ===== verification/Router.v ===== *)
(** * The router ([src/src/router/router.c]) *)
From S2P Require Import Prelude Json Parser LibPQ Pool ShardMap.
#[local] Set Warnings "-clear-no-such-hyp".

(** ** Data ([router.h]) *)
Inductive RouteType : Type := ROUTE_SINGLE | ROUTE_SCATTER | ROUTE_LOCAL | ROUTE_DEFAULT.
#[export] Instance RouteType_eq_dec : EqDecision RouteType.
Proof. solve_decision. Defined.

(** [target_shards] is the array the pointer points to: that of the rule, or the
    decision's own [_single_shard]. *)
Record RouteDecision : Type := mkRouteDecision {
  route_type : RouteType;
  target_shards : list nat;
  target_count : nat;
  route_rule : option TableRule;
  single_shard : option nat;
}.

(** [memset(decision, 0, ...)] and [decision->type = t]. *)
Definition only_type (t : RouteType) : RouteDecision := mkRouteDecision t [] 0 None None.
(** The three assignments of every scatter branch. *)
Definition scatter (rule : TableRule) : RouteDecision :=
  let '(count, l) := shard_map_get_all rule in
  mkRouteDecision ROUTE_SCATTER l count (Some rule) None.
Definition single (rule : TableRule) (target : nat) : RouteDecision :=
  mkRouteDecision ROUTE_SINGLE [target] 1 (Some rule) (Some target).

(** The choice of the target from the extracted key. *)
Definition key_target (map : ShardMap) (rule : TableRule) (parsed : ParseResult)
    : res (option nat) :=
  if shard_key_is_int parsed then shard_map_find_by_int map rule (shard_key_int parsed)
  else shard_map_find_by_str map rule (shard_key_str parsed).

(** [router_decide]: the query with what the INSERT pass added, and the decision. *)
Definition router_decide (map : ShardMap) (parsed : ParseResult)
    : res (ParseResult * RouteDecision) :=
  match stmt_type parsed with
  | STMT_SET | STMT_SHOW | STMT_DISCARD => Ret (parsed, only_type ROUTE_LOCAL)
  | STMT_TRANSACTION => Ret (parsed, only_type ROUTE_DEFAULT)
  | STMT_UNKNOWN => Ret (parsed, only_type ROUTE_DEFAULT)
  | _ =>
    match table_name parsed with
    | None => Ret (parsed, only_type ROUTE_DEFAULT)
    | Some _ =>
      r ← shard_map_find_rule map (table_name parsed);
      match r with
      | None => Ret (parsed, only_type ROUTE_DEFAULT)
      | Some rule =>
        if broadcast rule then Ret (parsed, scatter rule)
        else if decide (stmt_type parsed = STMT_DDL) then Ret (parsed, scatter rule)
        else
          parsed ←
            (if decide (stmt_type parsed = STMT_INSERT ∧ shard_key_found parsed = false)
             then parse_extract_insert_shard_key parsed (shard_column rule)
             else Ret parsed);
          match shard_key_found parsed, shard_key_column parsed with
          | true, Some col =>
            eq ← strcmp_eq (Some col) (shard_column rule);
            if eq : bool then
              target ← key_target map rule parsed;
              match target with
              | Some s => Ret (parsed, single rule s)
              | None => Ret (parsed, scatter rule)
              end
            else Ret (parsed, scatter rule)
          | _, _ => Ret (parsed, scatter rule)
          end
      end
    end
  end.

(** Parsing and routing, as [handle_query] composes them: [None] for a query that
    does not parse. *)
Definition route_sql (pg_query_parse : bytes → option bytes) (map : ShardMap) (sql : bytes)
    : res (option RouteDecision) :=
  '(rc, parsed) ← parse_query pg_query_parse sql;
  if decide (rc < 0)%Z then Ret None
  else
    '(_, decision) ← router_decide map parsed;
    Ret (Some decision).

(** ** Reference definition of the decision *)

Definition is_rule (t : bytes) (r : TableRule) : Prop := rule_table_name r = Some t.
#[export] Instance is_rule_dec t r : Decision (is_rule t r) :=
  decide (rule_table_name r = Some t).

(** The rule of a table: the first with its name. *)
Definition rule_of (map : ShardMap) (t : bytes) : option TableRule :=
  snd <$> list_find (is_rule t) (table_rules map).

Lemma find_rule_spec map t :
  map_wf map → shard_map_find_rule map (Some t) = Ret (rule_of map t).
Proof.
  unfold map_wf, rule_of. simpl. induction 1 as [|r l [[n Hn] _] Hl IH]; simpl; [done|].
  unfold strcmp_eq. rewrite Hn. simpl. destruct (decide (is_rule t r)) as [Hr|Hr];
    unfold is_rule in Hr.
  - rewrite bool_decide_true by congruence. done.
  - rewrite bool_decide_false by congruence.
    rewrite IH. by destruct (list_find _ l) as [[]|].
Qed.
Lemma rule_of_Some map t r :
  rule_of map t = Some r → r ∈ table_rules map ∧ rule_table_name r = Some t.
Proof.
  unfold rule_of. intros ([i r'] & H & ->)%fmap_Some.
  apply list_find_Some in H as (H & Hr & _). split; [|done]. by eapply list_elem_of_lookup_2.
Qed.
Lemma map_wf_rule map t r : map_wf map → rule_of map t = Some r → rule_wf map r.
Proof.
  intros Hwf [Hr _]%rule_of_Some. unfold map_wf in Hwf. rewrite Forall_forall in Hwf.
  by destruct (Hwf _ Hr).
Qed.

(** The 64-bit value a key is placed by. *)
Definition key_value (parsed : ParseResult) : option Z :=
  if shard_key_is_int parsed then Some (u64 (shard_key_int parsed))
  else hash_loop 5381 <$> shard_key_str parsed.

(** The shard of a query whose key, on column [col], has been found. *)
Definition routed_shard (map : ShardMap) (rule : TableRule) (parsed : ParseResult)
    : option nat :=
  if decide (shard_key_found parsed = true ∧ is_Some (shard_key_column parsed) ∧
             shard_key_column parsed = shard_column rule)
  then k ← key_value parsed; place map rule k
  else None.

Definition decide_rule (map : ShardMap) (rule : TableRule) (parsed : ParseResult)
    : RouteDecision :=
  match routed_shard map rule parsed with
  | Some s => single rule s
  | None => scatter rule
  end.

Lemma key_target_spec map rule parsed :
  rule_wf map rule →
  key_target map rule parsed = Ret (k ← key_value parsed; place map rule k).
Proof.
  intros Hwf. unfold key_target, key_value. destruct (shard_key_is_int parsed).
  - by rewrite find_by_int_place.
  - destruct (shard_key_str parsed); [by rewrite find_by_str_place|done].
Qed.

(** What the router looks at before the key. *)
Inductive class : Type := Local | Default | Scatter (rule : TableRule) | ByKey (rule : TableRule).
Definition classify (map : ShardMap) (parsed : ParseResult) : class :=
  match stmt_type parsed with
  | STMT_SET | STMT_SHOW | STMT_DISCARD => Local
  | STMT_TRANSACTION | STMT_UNKNOWN => Default
  | _ =>
    match t ← table_name parsed; rule_of map t with
    | None => Default
    | Some rule =>
      if broadcast rule || bool_decide (stmt_type parsed = STMT_DDL) then Scatter rule
      else ByKey rule
    end
  end.

(** The query after the INSERT pass. *)
Definition insert_pass (rule : TableRule) (parsed : ParseResult) : res ParseResult :=
  if decide (stmt_type parsed = STMT_INSERT ∧ shard_key_found parsed = false)
  then parse_extract_insert_shard_key parsed (shard_column rule)
  else Ret parsed.

Lemma by_key_spec map rule parsed :
  rule_wf map rule →
  match shard_key_found parsed, shard_key_column parsed with
  | true, Some col =>
    eq ← strcmp_eq (Some col) (shard_column rule);
    if eq : bool then
      target ← key_target map rule parsed;
      match target with
      | Some s => Ret (parsed, single rule s)
      | None => Ret (parsed, scatter rule)
      end
    else Ret (parsed, scatter rule)
  | _, _ => Ret (parsed, scatter rule)
  end =
  if decide (shard_column rule = None ∧ shard_key_found parsed = true ∧
             is_Some (shard_key_column parsed)) then Ub
  else Ret (parsed, decide_rule map rule parsed).
Proof.
  intros Hwf. unfold decide_rule, routed_shard.
  destruct (shard_key_found parsed); [|repeat case_decide; naive_solver].
  destruct (shard_key_column parsed) as [col|]; [|repeat case_decide; naive_solver].
  unfold strcmp_eq. destruct (shard_column rule) as [c|];
    cbn [mbind res_bind deref_opt].
  2: { rewrite decide_True by naive_solver. done. }
  rewrite (decide_False (P:=Some c = None ∧ _)) by naive_solver.
  case_bool_decide; [subst c|case_decide; naive_solver].
  rewrite key_target_spec by done. rewrite decide_True by naive_solver.
  by destruct (key_value parsed ≫= _).
Qed.

Lemma router_decide_class map parsed :
  map_wf map →
  router_decide map parsed =
  match classify map parsed with
  | Local => Ret (parsed, only_type ROUTE_LOCAL)
  | Default => Ret (parsed, only_type ROUTE_DEFAULT)
  | Scatter rule => Ret (parsed, scatter rule)
  | ByKey rule =>
    parsed ← insert_pass rule parsed;
    if decide (shard_column rule = None ∧ shard_key_found parsed = true ∧
               is_Some (shard_key_column parsed)) then Ub
    else Ret (parsed, decide_rule map rule parsed)
  end.
Proof.
  intros Hwf. unfold router_decide, classify.
  destruct (stmt_type parsed) eqn:Et; try done.
  all: destruct (table_name parsed) as [t|]; [|done]; rewrite find_rule_spec by done;
    cbn [mbind res_bind option_bind];
    destruct (rule_of map t) as [rule|] eqn:Er; [|done];
    apply map_wf_rule in Er; [|done];
    destruct (broadcast rule); [done|].
  5: done.
  all: rewrite bool_decide_false, (decide_False (P:=_ = STMT_DDL)) by done;
    unfold insert_pass; rewrite Et; cbn [orb];
    match goal with |- (?m ≫= _) = _ => destruct m as [parsed'| |] end; [|done..];
    by apply by_key_spec.
Qed.

(** ** Properties *)

(** C20: The decision table of [router_decide] on a well-formed map: SET, SHOW and
    DISCARD are local; transactions, unknown statements and statements without a
    table or a rule go to the default backend; broadcast tables and DDL to all
    shards of the rule; otherwise the key decides, after the second pass over an
    INSERT: one shard if a key on the rule's column was found, all of them if not.
    A rule without a shard column crashes the router as soon as a key is found. *)
Theorem router_decision_table map parsed :
  map_wf map →
  router_decide map parsed =
  match classify map parsed with
  | Local => Ret (parsed, only_type ROUTE_LOCAL)
  | Default => Ret (parsed, only_type ROUTE_DEFAULT)
  | Scatter rule => Ret (parsed, scatter rule)
  | ByKey rule =>
    parsed ← insert_pass rule parsed;
    if decide (shard_column rule = None ∧ shard_key_found parsed = true ∧
               is_Some (shard_key_column parsed)) then Ub
    else Ret (parsed, decide_rule map rule parsed)
  end.
Proof. apply router_decide_class. Qed.

Definition sample_query (col : bytes) (key : Z) : ParseResult :=
  set_int_key key (set_shard_key_column (Some col)
    (set_table_name (Some (bs "orders")) (set_stmt_type STMT_SELECT zero_result))).
Lemma router_decision_table_witness :
  router_decide sample_map (sample_query (bs "user_id") 42)
    = Ret (sample_query (bs "user_id") 42, single range_rule 0) ∧
  router_decide sample_map (sample_query (bs "item") 42)
    = Ret (sample_query (bs "item") 42, scatter range_rule).
Proof.
  split; rewrite (router_decision_table _ _ sample_map_wf); vm_compute; reflexivity.
Defined.

(** The shards a decision names are shards of the map. *)
Lemma scatter_targets map rule :
  rule_wf map rule →
  target_count (scatter rule) = length (target_shards (scatter rule)) ∧
  Forall (λ t, t < length (shards map)) (target_shards (scatter rule)).
Proof. by intros (Hc & _ & Hs). Qed.
Lemma decide_rule_targets map rule parsed :
  rule_wf map rule → let d := decide_rule map rule parsed in
  target_count d = length (target_shards d) ∧
  Forall (λ t, t < length (shards map)) (target_shards d) ∧
  (route_type d = ROUTE_SINGLE → ∃ t, target_shards d = [t] ∧ t ∈ rule_shards rule).
Proof.
  intros Hwf. unfold decide_rule. destruct (routed_shard map rule parsed) as [s|] eqn:E; simpl.
  - assert (s ∈ rule_shards rule) as Hs.
    { unfold routed_shard in E. case_decide; [|done].
      destruct (key_value parsed) as [k|]; simpl in E; [|done]. by apply place_in in E. }
    destruct Hwf as (_ & _ & Hb). rewrite Forall_forall in Hb.
    split_and!; [done|repeat constructor; by apply Hb|]. intros _. by exists s.
  - destruct (scatter_targets map rule Hwf) as [? ?]. split_and!; [done|done|done].
Qed.

Lemma router_targets map parsed parsed' d :
  map_wf map → router_decide map parsed = Ret (parsed', d) →
  target_count d = length (target_shards d) ∧
  Forall (λ t, t < length (shards map)) (target_shards d) ∧
  (route_type d = ROUTE_SINGLE → ∃ rule t, rule ∈ table_rules map ∧
     route_rule d = Some rule ∧ target_shards d = [t] ∧ t ∈ rule_shards rule).
Proof.
  intros Hm E. rewrite router_decide_class in E by done. unfold classify in E.
  assert (∀ t rule, rule_of map t = Some rule → rule_wf map rule ∧ rule ∈ table_rules map) as Hr.
  { intros t rule Ht. split; [by eapply map_wf_rule|]. by apply rule_of_Some in Ht as [? _]. }
  assert (∀ t rule, (t ≫= rule_of map) = Some rule → rule_wf map rule ∧ rule ∈ table_rules map) as Hr'.
  { intros [t|] rule Ht; [by eapply Hr|done]. }
  assert (∀ rule p, (t ← table_name parsed; rule_of map t) = Some rule →
    target_count (decide_rule map rule p) = length (target_shards (decide_rule map rule p)) ∧
    Forall (λ t, t < length (shards map)) (target_shards (decide_rule map rule p)) ∧
    (route_type (decide_rule map rule p) = ROUTE_SINGLE → ∃ r t, r ∈ table_rules map ∧
      route_rule (decide_rule map rule p) = Some r ∧
      target_shards (decide_rule map rule p) = [t] ∧ t ∈ rule_shards r)) as Hd.
  { intros rule p Ht. destruct (Hr' _ _ Ht) as [Hwf Hin].
    destruct (decide_rule_targets map rule p Hwf) as (? & ? & Hs). split_and!; [done|done|].
    intros Hsg. destruct (Hs Hsg) as (t & Ht1 & Ht2). exists rule, t.
    split_and!; [done| |done|done]. unfold decide_rule. by destruct (routed_shard map rule p). }
  destruct (stmt_type parsed); try (injection E as <- <-; split_and!; [done|constructor|done]).
  all: destruct (t ← table_name parsed; rule_of map t) as [rule|] eqn:Et;
    [|injection E as <- <-; split_and!; [done|constructor|done]].
  all: destruct (broadcast rule || _);
    [injection E as <- <-; destruct (Hr' _ _ Et) as [Hwf _];
      destruct (scatter_targets map rule Hwf); split_and!; [done|done|done]|].
  all: apply bind_Ret_inv in E as (p & _ & E); case_decide; [done|]; injection E as <- <-;
    by apply Hd.
Qed.

(** Every decision is well formed: [target_count] is the number of targets, each
    of them points into the shard array, and a decision for one shard names exactly
    one, which belongs to the rule of the table. *)
Theorem decision_targets_valid map parsed parsed' d :
  map_wf map → router_decide map parsed = Ret (parsed', d) →
  target_count d = length (target_shards d) ∧
  Forall (λ t, t < length (shards map)) (target_shards d) ∧
  (route_type d = ROUTE_SINGLE → ∃ rule t, rule ∈ table_rules map ∧
     route_rule d = Some rule ∧ target_shards d = [t] ∧ t ∈ rule_shards rule).
Proof. apply router_targets. Qed.

Lemma decision_targets_valid_witness :
  target_count (single range_rule 0) = length (target_shards (single range_rule 0)) ∧
  Forall (λ t, t < length (shards sample_map)) (target_shards (single range_rule 0)) ∧
  (route_type (single range_rule 0) = ROUTE_SINGLE → ∃ rule t, rule ∈ table_rules sample_map ∧
     route_rule (single range_rule 0) = Some rule ∧ target_shards (single range_rule 0) = [t] ∧
     t ∈ rule_shards rule).
Proof.
  apply (decision_targets_valid sample_map (sample_query (bs "user_id") 42)
    (sample_query (bs "user_id") 42)); [exact sample_map_wf|vm_compute; reflexivity].
Defined.
