(* ===== verification/Keys.v ===== *)
(** * Keys of statements

    The keys that the query parser finds, as values, and what the functions on trees leave
    alone: the facts that [Sql] and [Rows] share. *)
From S2P Require Import Prelude Json Parser LibPQ Pool ShardMap Router.
#[local] Set Warnings "-clear-no-such-hyp,-register-all".

(** ** Values

    A string is its text in the printed tree, which is how the code reads it. *)
Inductive value : Type := VInt (z : Z) | VStr (s : bytes).

Definition const_value (c : json) : option value :=
  match v ← jget (bs "ival") c; jget (bs "ival") v with
  | Some v => Some (VInt (jint v))
  | None =>
    v ← jget (bs "sval") c; v ← jget (bs "sval") v; s ← jstring v; Some (VStr s)
  end.

Definition key_of (r : ParseResult) : option value :=
  if shard_key_is_int r then Some (VInt (shard_key_int r)) else VStr <$> shard_key_str r.

Lemma const_tree_value c r k :
  const_value c = Some k →
  shard_key_found (const_tree id c r) = true ∧ key_of (const_tree id c r) = Some k ∧
  shard_key_column (const_tree id c r) = shard_key_column r.
Proof.
  unfold const_value, const_tree. intros H.
  destruct (jget (bs "ival") c ≫= _) as [v|].
  - injection H as <-. done.
  - destruct (jget (bs "sval") c) as [v|]; simpl in *; [|done].
    destruct (jget (bs "sval") v) as [v'|]; simpl in *; [|done].
    destruct (jstring v') as [s|]; simpl in *; [|done]. injection H as <-.
    done.
Qed.

Lemma column_tree_found fields r :
  shard_key_found (column_tree fields r) = shard_key_found r.
Proof. unfold column_tree, key_string_tree. by repeat case_match. Qed.

(** ** Statements *)

(** The number that is placed. *)
Definition value_hash (v : value) : Z :=
  match v with VInt z => u64 z | VStr s => hash_loop 5381 s end.
Lemma key_value_of r : key_value r = value_hash <$> key_of r.
Proof. unfold key_value, key_of. destruct (shard_key_is_int r); [done|]. by destruct (shard_key_str r). Qed.

(** The extractors only change the fields they fill. *)
Lemma key_string_stmt j key set r :
  (∀ o r, stmt_type (set o r) = stmt_type r ∧ shard_key_found (set o r) = shard_key_found r) →
  stmt_type (key_string_tree j key set r) = stmt_type r ∧
  shard_key_found (key_string_tree j key set r) = shard_key_found r.
Proof. intros H. unfold key_string_tree. case_match; [apply H|done]. Qed.
Lemma rangevar_stmt j r :
  stmt_type (rangevar_tree j r) = stmt_type r ∧
  shard_key_found (rangevar_tree j r) = shard_key_found r.
Proof.
  unfold rangevar_tree.
  destruct (key_string_stmt j (bs "relname") set_table_name r) as [H1 H2]; [done|].
  destruct (key_string_stmt j (bs "schemaname") set_schema_name
    (key_string_tree j (bs "relname") set_table_name r)) as [H3 H4]; [done|]. by rewrite H3, H4.
Qed.
Lemma where_levels_stmt n j r : stmt_type (where_levels n j r) = stmt_type r.
Proof.
  revert j r. induction n as [|n IH]; intros j r; simpl; [done|].
  destruct (jget _ j) as [a|].
  - unfold aexpr_tree, const_tree, column_tree, key_string_tree. by repeat (case_match || case_decide).
  - destruct (bool_args j) as [l|]; [|done]. revert r.
    induction l as [|e l IHl]; intros r; simpl; [done|]. case_match; [apply IH|]. by rewrite IHl, IH.
Qed.
