(* ===== verification/Sql.v ===== *)
(** * Routing of SQL statements

    The composition of libpg_query ([PgTree], [PgPrint], [PgQuery]), the query parser
    and the router, on the syntax trees of statements.  The grammar of PostgreSQL is a
    parameter. *)
From S2P Require Import Prelude Json PgTree PgPrint PgQuery Parser LibPQ Pool ShardMap Router Keys.
#[local] Set Warnings "-clear-no-such-hyp".

(** The grammar parses [sql] into statements of which [n] is the first. *)
Definition parses (raw : RawParser) (sql : bytes) (n : Node) : Prop :=
  ∃ location len rest,
    raw default_settings sql RAW_PARSE_DEFAULT = inr (mkRawStmt n location len :: rest).

(** The JSON text of a string. *)
Definition esc (s : bytes) : bytes := concat (map escape_char s).

Lemma obj_lookup_app k l1 l2 :
  obj_lookup k (l1 ++ l2) =
  match obj_lookup k l1 with Some v => Some v | None => obj_lookup k l2 end.
Proof. induction l1 as [|[k' v] l1 IH]; simpl; [done|]. by case_decide. Qed.

(** Evaluates the lookup of one field name in a list of other fields. *)
Lemma lookup_int k k' z : k' ≠ k → obj_lookup k (WRITE_INT_FIELD k' z) = None.
Proof. intros. unfold WRITE_INT_FIELD. case_decide; simpl; [done|]. by rewrite decide_False. Qed.
Lemma lookup_list_ne k k' l : k' ≠ k → obj_lookup k (WRITE_LIST_FIELD k' l) = None.
Proof. intros. destruct l; simpl; [done|]. by rewrite decide_False. Qed.
Lemma lookup_list k l : l ≠ [] → obj_lookup k (WRITE_LIST_FIELD k l) = Some (JArr l).
Proof. intros. destruct l; simpl; [done|]. by rewrite decide_True. Qed.
Lemma lookup_ptr_ne k k' o : k' ≠ k → obj_lookup k (WRITE_NODE_PTR_FIELD k' o) = None.
Proof. intros. destruct o; simpl; [|done]. by rewrite decide_False. Qed.
Lemma lookup_ptr k o : obj_lookup k (WRITE_NODE_PTR_FIELD k o) = o.
Proof. destruct o; simpl; [|done]. by rewrite decide_True. Qed.
Lemma lookup_string_ne k k' o : k' ≠ k → obj_lookup k (WRITE_STRING_FIELD k' o) = None.
Proof. intros. destruct o; simpl; [|done]. by rewrite decide_False. Qed.
Lemma lookup_string k o : obj_lookup k (WRITE_STRING_FIELD k o) = outToken <$> o.
Proof. destruct o; simpl; [|done]. by rewrite decide_True. Qed.
Lemma lookup_bool_ne k k' b : k' ≠ k → obj_lookup k (WRITE_BOOL_FIELD k' b) = None.
Proof. intros. destruct b; simpl; [|done]. by rewrite decide_False. Qed.
Lemma lookup_specific_ne k k' o :
  k' ≠ k → obj_lookup k (WRITE_SPECIFIC_NODE_PTR_FIELD k' o) = None.
Proof. intros. destruct o; simpl; [|done]. by rewrite decide_False. Qed.
Lemma lookup_one k v : obj_lookup k [(k, v)] = Some v.
Proof. simpl. by rewrite decide_True. Qed.
Lemma lookup_one_ne k k' v : k' ≠ k → obj_lookup k [(k', v)] = None.
Proof. intros. simpl. by rewrite decide_False. Qed.

Lemma lookup_first k v l : obj_lookup k ((k, v) :: l) = Some v.
Proof. simpl. by rewrite decide_True. Qed.

Ltac lookup :=
  repeat (progress (unfold OUT_NODE, WRITE_ENUM_FIELD, WRITE_SPECIFIC_NODE_FIELD;
    cbn [jget outNode mbind option_bind]; rewrite ?obj_lookup_app)
  || first
  [ rewrite lookup_ptr | rewrite lookup_string | rewrite lookup_one
  | rewrite lookup_list by done
  | rewrite lookup_int by done | rewrite lookup_list_ne by done
  | rewrite lookup_ptr_ne by done | rewrite lookup_bool_ne by done
  | rewrite lookup_specific_ne by done | rewrite lookup_string_ne by done
  | rewrite lookup_one_ne by done ]).

(** The table of a statement. *)
Lemma rangevar_table rv r t :
  rv_relname rv = Some t →
  table_name (rangevar_tree (JObj (outRangeVar rv)) r) = Some (esc t).
Proof.
  intros Ht. unfold rangevar_tree, key_string_tree, outRangeVar. cbn [jget].
  lookup. rewrite Ht. simpl. by case_match.
Qed.

(** ** Conditions with a key *)

(** [c = k].  The code looks neither at the kind of the expression nor, in a qualified name
    such as [t.c], at what follows the first part. *)
Definition eq_node (kind : A_Expr_Kind) (c : bytes) (more : list Node) (k : Const) (l1 l2 l3 : Z) : Node :=
  N_A_Expr kind [N_String (bs "=")] (Some (N_ColumnRef (N_String c :: more) l1))
    (Some (N_A_Const (Some k) l2)) l3.
(** The constants the code takes for keys: libpg_query does not print a zero. *)
Definition const_key (k : Const) : option value :=
  match k with
  | C_Integer z => if decide (z = 0%Z) then None else Some (VInt z)
  | C_String s => Some (VStr (esc s))
  | _ => None
  end.
Definition const_width (k : Const) : Prop :=
  match k with C_Integer z => (- 2 ^ 31 ≤ z < 2 ^ 31)%Z | _ => True end.

Lemma const_value_key k loc v :
  const_width k → const_key k = Some v → const_value (JObj (outAConst (Some k) loc)) = Some v.
Proof.
  intros Hw Hk. destruct k as [z| | |s|]; simpl in Hk; try done.
  case_decide as Hz; [done|]. injection Hk as <-. unfold const_value, outAConst, outInteger.
  cbn [jget app]. rewrite lookup_first. cbn [mbind option_bind jget].
  rewrite decide_False, lookup_one by done. unfold jint. cbn [json_text].
  rewrite <- (app_nil_r (dec z)), strtoll_dec; [done|simpl in Hw; lia|done].
Qed.

(** A name whose text has no backslash is written as it is. *)
Lemma esc_plain c : BSLASH ∉ esc c → esc c = c.
Proof.
  unfold esc. induction c as [|a c IH]; [done|]. cbn [List.map concat]. intros Hn.
  rewrite not_elem_of_app in Hn. destruct Hn as [Ha Hc]. rewrite IH by done.
  assert (escape_char a = [a]) as ->; [|done]. clear -Ha. revert Ha. unfold escape_char.
  repeat case_decide; intros Ha; try done; exfalso; apply Ha; left.
Qed.
Lemma esc_is_eq op : esc op = bs "=" ↔ op = bs "=".
Proof.
  split; [|by intros ->]. intros E. rewrite <- E. symmetry. apply esc_plain. rewrite E.
  by apply (bool_decide_unpack (BSLASH ∉ bs "=")).
Qed.

(** The key of a condition: that of its first equality [c = k] with a constant that can be
    a key, in the order of the text and whatever the operators around it. *)
Fixpoint key_in (n : Node) : option (bytes * value) :=
  match n with
  | N_A_Expr _ (N_String op :: _) (Some (N_ColumnRef (N_String c :: _) _)) (Some (N_A_Const (Some k) _)) _ =>
    if decide (op = bs "=") then pair c <$> const_key k else None
  | N_BoolExpr _ args _ =>
    foldr (λ n o, match key_in n with Some x => Some x | None => o end) None args
  | _ => None
  end.
(** The shape of the conditions that the grammar builds: an operator and a column name start
    with a string, an integer constant has 32 bits, and no other node has the tag of one
    that has a constructor. *)
Definition const_fits (k : Const) : bool :=
  match k with C_Integer z => bool_decide (- 2 ^ 31 ≤ z < 2 ^ 31)%Z | _ => true end.
Definition starts_with_name (l : list Node) : bool :=
  match l with [] | N_String _ :: _ => true | _ => false end.
Definition operand_ok (n : Node) : bool :=
  match n with
  | N_ColumnRef fields _ => starts_with_name fields
  | N_A_Const (Some k) _ => const_fits k
  | N_Other tag _ => bool_decide (tag ≠ bs "ColumnRef") && bool_decide (tag ≠ bs "A_Const")
  | _ => true
  end.
Fixpoint cond_ok (n : Node) : bool :=
  match n with
  | N_A_Expr _ name lexpr rexpr _ => starts_with_name name && opt_ok operand_ok lexpr && opt_ok operand_ok rexpr
  | N_BoolExpr _ args _ => forallb cond_ok args
  | N_Other tag _ => bool_decide (tag ≠ bs "A_Expr") && bool_decide (tag ≠ bs "BoolExpr")
  | _ => true
  end.

(** What the code finds in the text of the condition. *)
Definition yields (n : Node) (o : option (bytes * value)) : Prop :=
  ∀ r, shard_key_found r = false →
  let r' := where_tree (outNode n) r in
  match o with
  | Some (c, v) => shard_key_found r' = true ∧ shard_key_column r' = Some (esc c) ∧ key_of r' = Some v
  | None => shard_key_found r' = false
  end.
Lemma const_fits_width k : const_fits k = true → const_width k.
Proof. destruct k; simpl; [|done..]. by intros ?%bool_decide_eq_true. Qed.
Lemma const_tree_none k loc r :
  const_key k = None → const_tree id (JObj (outAConst (Some k) loc)) r = r.
Proof.
  intros Hk. unfold const_tree. destruct k as [z|s|b|s|s]; cbn [const_key] in Hk; try done.
  case_decide as Hz; [|done]. subst z. done.
Qed.
(** The parts of an [A_Expr] that the code looks at. *)
Lemma other_lookup k tag fields : tag ≠ k → jget k (OUT_NODE tag fields) = None.
Proof. intros Ht. unfold OUT_NODE. cbn [jget]. by apply lookup_one_ne. Qed.
Section aexpr.
Context (kind : A_Expr_Kind) (name : list Node) (lexpr rexpr : option Node) (loc : Z) (a : json).
#[local] Abbreviation node := (N_A_Expr kind name lexpr rexpr loc).
Context (Ha : jget (bs "A_Expr") (outNode node) = Some a).
Lemma operator_of :
  starts_with_name name = true →
  aexpr_op a = match name with N_String op :: _ => Some (esc op) | _ => None end.
Proof.
  revert Ha. lookup. intros <-%(inj Some) Hn. unfold aexpr_op. lookup.
  destruct name as [|n l]; [by cbn [map WRITE_LIST_FIELD obj_lookup]; lookup|].
  by destruct n.
Qed.
Lemma column_fields :
  opt_ok operand_ok lexpr = true →
  aexpr_fields a =
  match lexpr with
  | Some (N_ColumnRef (f :: fs) _) => Some (JArr (map outNode (f :: fs)))
  | _ => None
  end.
Proof.
  revert Ha. lookup. intros <-%(inj Some) Hl. unfold aexpr_fields. lookup.
  destruct lexpr as [n|]; [|done]. cbn [mbind option_bind].
  destruct n as [| | | | | | | | |fields l| | | | | | | | | | |tag fields]; try done.
  - cbn [outNode]. lookup. destruct fields; [by cbn [map WRITE_LIST_FIELD obj_lookup]; lookup|by lookup].
  - cbn [opt_ok operand_ok] in Hl. apply andb_prop in Hl as [Hl _]. apply bool_decide_eq_true in Hl.
    cbn [outNode]. by rewrite other_lookup.
Qed.
Lemma right_const :
  opt_ok operand_ok rexpr = true →
  aexpr_const a = match rexpr with Some (N_A_Const k l) => Some (JObj (outAConst k l)) | _ => None end.
Proof.
  revert Ha. lookup. intros <-%(inj Some) Hl. unfold aexpr_const. lookup.
  destruct rexpr as [n|]; [|done]. cbn [mbind option_bind].
  destruct n as [| | | | | | | | | |k l| | | | | | | | | |tag fields]; try done.
  cbn [opt_ok operand_ok] in Hl. apply andb_prop in Hl as [_ Hl]. apply bool_decide_eq_true in Hl.
  cbn [outNode]. by rewrite other_lookup.
Qed.
End aexpr.

Lemma first_name c fields : 
  tree_search (bs "String") (JArr (map outNode (N_String c :: fields))) = Some (JObj (outString c)).
Proof. done. Qed.
Lemma aexpr_yields kind name lexpr rexpr loc :
  let n := N_A_Expr kind name lexpr rexpr loc in cond_ok n = true → yields n (key_in n).
Proof.
  intros n Hok r Hr. cbn zeta. cbn [cond_ok n] in Hok. apply andb_prop in Hok as [[Hn Hl]%andb_prop Hx].
  rewrite where_tree_eq. assert (∃ a, jget (bs "A_Expr") (outNode n) = Some a) as [a Ha] by (by eexists).
  rewrite Ha. unfold aexpr_tree.
  rewrite (operator_of _ _ _ _ _ a Ha Hn), (column_fields _ _ _ _ _ a Ha Hl), (right_const _ _ _ _ _ a Ha Hx).
  clear a Ha. subst n. cbn [key_in].
  destruct name as [|[| | | | | | |op| | | | | | | | | | | | |] more]; try done.
  destruct lexpr as [[| | | | | | | | |[|f fs] l| | | | | | | | | | |]|]; try by case_decide.
  destruct f; try done.
  unfold column_tree. rewrite first_name. unfold key_string_tree, outString. lookup.
  change (jstring (outToken ?x)) with (Some (esc x)). cbn [shard_key_column set_shard_key_column].
  destruct rexpr as [[| | | | | | | | | |[k|] l2| | | | | | | | | |]|]; try by case_decide.
  destruct (decide (op = bs "=")) as [Ho|Ho].
  2: { rewrite decide_False; [done|]. intros E%(inj Some). by apply Ho, esc_is_eq. }
  rewrite decide_True by (by subst op). cbn [opt_ok operand_ok] in Hx. apply const_fits_width in Hx.
  destruct (const_key k) as [v|] eqn:Hk; cbn [fmap option_fmap option_map].
  - destruct (const_tree_value _ (set_shard_key_column (Some (esc sval)) r) v (const_value_key k l2 v Hx Hk))
      as (? & ? & ->). done.
  - by rewrite const_tree_none.
Qed.

Lemma bool_node_args op args loc :
  args ≠ [] → jget (bs "A_Expr") (outNode (N_BoolExpr op args loc)) = None ∧
  bool_args (outNode (N_BoolExpr op args loc)) = Some (map outNode args).
Proof.
  intros Ha. unfold bool_args. split; [done|]. lookup. cbn [mbind option_bind]. lookup.
  rewrite lookup_list; [done|]. by destruct args.
Qed.
Lemma bool_yields op args loc :
  Forall (λ n, yields n (key_in n)) args →
  let n := N_BoolExpr op args loc in yields n (key_in n).
Proof.
  intros Ha n. destruct (decide (args = [])) as [->|Hne].
  { intros r Hr. cbn zeta. rewrite where_tree_eq.
    by destruct op, (decide (loc = 0%Z)); cbn [n outNode]; unfold WRITE_INT_FIELD; case_decide. }
  intros r Hr. cbn zeta. rewrite where_tree_eq. destruct (bool_node_args op args loc Hne) as [E1 E2].
  unfold n. rewrite E1, E2. clear E1 E2 Hne n. cbn [key_in]. revert r Hr.
  induction Ha as [|n l Hn Hl IH]; intros r Hr; [done|]. cbn [map until_found foldr].
  specialize (Hn r Hr). cbn zeta in Hn. destruct (key_in n) as [[c v]|].
  - destruct Hn as (H1 & H2 & H3). rewrite H1. by split_and!.
  - rewrite Hn. by apply IH.
Qed.
Lemma where_tree_key n : cond_ok n = true → yields n (key_in n).
Proof.
  revert n. fix IH 1. intros n Hok.
  assert (∀ m, jget (bs "A_Expr") (outNode m) = None → bool_args (outNode m) = None → yields m None) as Hno.
  { intros m E1 E2 r Hr. cbn zeta. by rewrite where_tree_eq, E1, E2. }
  destruct n; try (by apply Hno).
  - by apply aexpr_yields.
  - apply bool_yields. cbn [cond_ok] in Hok. induction args as [|n l IHl]; [constructor|].
    cbn [forallb] in Hok. apply andb_prop in Hok as [Hn Hl]. constructor; [by apply IH|by apply IHl].
  - cbn [cond_ok] in Hok. apply andb_prop in Hok as [H1 H2]. apply bool_decide_eq_true in H1, H2.
    apply Hno; [by apply other_lookup|]. unfold bool_args. cbn [outNode]. by rewrite other_lookup.
Qed.

(** ** Statements on a table *)

(** SELECT, UPDATE and DELETE with any other clauses.  The table of a SELECT is the first
    item of its FROM clause. *)
Inductive table_stmt (t : bytes) (wh : option Node) : Node → Prop :=
| table_select s rv from :
    fromClause s = N_RangeVar rv :: from → rv_relname rv = Some t → sel_whereClause s = wh →
    table_stmt t wh (N_SelectStmt s)
| table_update s :
    rv_relname (upd_relation s) = Some t → upd_whereClause s = wh → table_stmt t wh (N_UpdateStmt s)
| table_delete s :
    rv_relname (del_relation s) = Some t → del_whereClause s = wh → table_stmt t wh (N_DeleteStmt s).

Definition row_stmt (t : StmtType) : Prop :=
  t = STMT_SELECT ∨ t = STMT_UPDATE ∨ t = STMT_DELETE.
Definition where_opt (wh : option Node) (r : ParseResult) : ParseResult :=
  match wh with Some wh => where_tree (outNode wh) r | None => r end.
Lemma select_stmt_tree s r :
  stmt_type r = STMT_SELECT →
  stmt_tree (outNode (N_SelectStmt s)) r = where_opt (sel_whereClause s)
    match fromClause s with [] => r | l => from_tree (JArr (map outNode l)) r end.
Proof.
  intros Hr. unfold stmt_tree. rewrite Hr. clear Hr. lookup. unfold select_tree, where_of. lookup.
  destruct (fromClause s) as [|n l]; cbn [map WRITE_LIST_FIELD obj_lookup]; lookup;
    by destruct (sel_whereClause s).
Qed.
Lemma table_stmt_tree t wh n r :
  table_stmt t wh n → stmt_type r = stmt_type_tree (outNode n) →
  row_stmt (stmt_type r) ∧
  ∃ r', stmt_tree (outNode n) r = where_opt wh r' ∧
    stmt_type r' = stmt_type r ∧ shard_key_found r' = shard_key_found r ∧
    table_name r' = Some (esc t).
Proof.
  intros Hn Ht.
  destruct Hn as [s rv from Hfrom Hrv <-|s Hrv <-|s Hrv <-].
  - change (stmt_type_tree _) with STMT_SELECT in Ht. rewrite (select_stmt_tree s r Ht), Hfrom, Ht.
    split; [by left|].
    exists (rangevar_tree (JObj (outRangeVar rv)) r).
    split; [done|].
    destruct (rangevar_stmt (JObj (outRangeVar rv)) r) as [-> ->].
    by rewrite (rangevar_table rv r t).
  - unfold stmt_tree. rewrite Ht. change (stmt_type_tree _) with STMT_UPDATE. split; [by right; left|].
    lookup. unfold rel_where_tree, where_of. lookup.
    exists (rangevar_tree (JObj (outRangeVar (upd_relation s))) r). split; [by destruct (upd_whereClause s)|].
    destruct (rangevar_stmt (JObj (outRangeVar (upd_relation s))) r) as [-> ->].
    by rewrite (rangevar_table _ r t).
  - unfold stmt_tree. rewrite Ht. change (stmt_type_tree _) with STMT_DELETE. split; [by right; right|].
    lookup. unfold rel_where_tree, where_of. lookup.
    exists (rangevar_tree (JObj (outRangeVar (del_relation s))) r). split; [by destruct (del_whereClause s)|].
    destruct (rangevar_stmt (JObj (outRangeVar (del_relation s))) r) as [-> ->].
    by rewrite (rangevar_table _ r t).
Qed.

Lemma where_tree_keeps j r :
  stmt_type (where_tree j r) = stmt_type r ∧ table_name (where_tree j r) = table_name r.
Proof.
  split; [apply where_levels_stmt|]. unfold where_tree. generalize (length (json_text j)) as n.
  intros n. revert j r. induction n as [|n IH]; intros j r; simpl; [done|].
  destruct (jget _ j) as [a|].
  - unfold aexpr_tree, const_tree, column_tree, key_string_tree. by repeat (case_match || case_decide).
  - destruct (bool_args j) as [l|]; [|done]. revert r.
    induction l as [|e l IHl]; intros r; simpl; [done|]. case_match; [apply IH|]. by rewrite IHl, IH.
Qed.

(** What [parse_query] returns for the statement; the ones that follow it are not looked
    at. *)
Definition parsed_of (raw : RawStmt) (rest : list RawStmt) : ParseResult :=
  let tree := nodes_to_json PG_VERSION_NUM (raw :: rest) in
  let stmt := outNode (raw_stmt raw) in
  stmt_tree stmt (set_stmt_type (stmt_type_tree stmt) (init_result (json_text tree))).

Lemma first_stmt_node version raw rest :
  first_stmt_of (nodes_to_json version (raw :: rest)) = FirstStmt (outNode (raw_stmt raw)).
Proof. by destruct raw. Qed.

Lemma route_sql_node raw map sql r rest :
  well_built raw → raw default_settings sql RAW_PARSE_DEFAULT = inr (r :: rest) →
  json_wf (nodes_to_json PG_VERSION_NUM (r :: rest)) ∧
  route_sql (query_tree raw) map sql = ('(_, d) ← router_decide map (parsed_of r rest); Ret (Some d)).
Proof.
  intros Hraw E. assert (json_wf (nodes_to_json PG_VERSION_NUM (r :: rest))) as Hwf
    by (by eapply nodes_to_json_wf, Hraw). split; [done|]. unfold route_sql.
  rewrite (parse_query_spec _ _ (nodes_to_json PG_VERSION_NUM (r :: rest)));
    [|done|unfold query_tree; rewrite E; f_equal; apply nodes_to_json_text].
  unfold parse_tree. rewrite first_stmt_node. cbn [mbind res_bind].
  rewrite decide_False by lia. done.
Qed.

(** The decision for a key [v] of column [c] of a table with a rule. *)
Definition by_key (map : ShardMap) (rule : TableRule) (v : value) : RouteDecision :=
  match place map rule (value_hash v) with Some s => single rule s | None => scatter rule end.

Lemma decide_rule_by_key map rule p c v :
  shard_key_found p = true → shard_key_column p = Some c → key_of p = Some v →
  shard_column rule = Some c → decide_rule map rule p = by_key map rule v.
Proof.
  intros Hf Hc Hk Hr. unfold decide_rule, routed_shard, by_key.
  rewrite decide_True by (rewrite Hc, Hr; naive_solver). by rewrite key_value_of, Hk.
Qed.

(** The decision for what the WHERE clause yields: a key of the shard column [col] is
    placed; anything else is sent to all shards of the table. *)
Definition by_where (map : ShardMap) (rule : TableRule) (col : bytes) (o : option (bytes * value))
    : RouteDecision :=
  match o with
  | Some (c, v) => if decide (esc c = col) then by_key map rule v else scatter rule
  | None => scatter rule
  end.
Lemma where_opt_key wh r :
  opt_ok cond_ok wh = true → shard_key_found r = false →
  match wh ≫= key_in with
  | Some (c, v) => shard_key_found (where_opt wh r) = true ∧
      shard_key_column (where_opt wh r) = Some (esc c) ∧ key_of (where_opt wh r) = Some v
  | None => shard_key_found (where_opt wh r) = false
  end.
Proof. intros Hok Hr. destruct wh as [wh|]; [|done]. by apply (where_tree_key wh Hok r). Qed.
Lemma decide_rule_where map rule col wh r :
  opt_ok cond_ok wh = true → shard_column rule = Some col → shard_key_found r = false →
  decide_rule map rule (where_opt wh r) = by_where map rule col (wh ≫= key_in).
Proof.
  intros Hok Hc Hr. pose proof (where_opt_key wh r Hok Hr) as Hk. unfold by_where.
  destruct (wh ≫= key_in) as [[c v]|].
  - destruct Hk as (Hf' & Hc' & Hv'). case_decide as E.
    + apply (decide_rule_by_key _ _ _ (esc c)); congruence.
    + unfold decide_rule, routed_shard. rewrite decide_False; [done|]. intros (_ & _ & Hx). congruence.
  - unfold decide_rule, routed_shard. rewrite decide_False; [done|]. intros [Hx _]. congruence.
Qed.
Lemma where_opt_keeps wh r :
  stmt_type (where_opt wh r) = stmt_type r ∧ table_name (where_opt wh r) = table_name r.
Proof. destruct wh; [apply where_tree_keeps|done]. Qed.

Lemma route_by_where raw map sql n t wh rule col :
  well_built raw → map_wf map → parses raw sql n → table_stmt t wh n → opt_ok cond_ok wh = true →
  rule_of map (esc t) = Some rule → broadcast rule = false → shard_column rule = Some col →
  route_sql (query_tree raw) map sql = Ret (Some (by_where map rule col (wh ≫= key_in))).
Proof.
  intros Hraw Hm (location & len & rest & E) Hn Ho Hr Hb Hc.
  destruct (route_sql_node raw map sql (mkRawStmt n location len) rest Hraw E) as [_ ->]. clear E. unfold parsed_of. cbn [raw_stmt].
  destruct (table_stmt_tree t wh n (set_stmt_type (stmt_type_tree (outNode n))
    (init_result (json_text (nodes_to_json PG_VERSION_NUM (mkRawStmt n location len :: rest))))) Hn eq_refl)
    as (Hrow & r & -> & Hst & Hf & Ht).
  destruct (where_opt_keeps wh r) as [Hst' Ht'].
  rewrite router_decide_class by done.
  assert (classify map (where_opt wh r) = ByKey rule) as ->.
  { unfold classify. rewrite Hst', Hst, Ht', Ht. simpl. rewrite Hr, Hb.
    unfold row_stmt in Hrow. simpl in Hrow. by destruct Hrow as [->|[->| ->]]. }
  assert (stmt_type (where_opt wh r) ≠ STMT_INSERT) as Hni.
  { rewrite Hst', Hst. unfold row_stmt in Hrow. by destruct Hrow as [->|[->| ->]]. }
  unfold insert_pass. rewrite decide_False by (intros [Hx _]; done). cbn [mbind res_bind].
  rewrite decide_False by (intros [Hx _]; congruence). cbn [mbind res_bind].
  by rewrite (decide_rule_where _ _ col).
Qed.

(** ** INSERT *)
Definition col_target (name : bytes) (loc : Z) : Node := N_ResTarget (Some name) [] None loc.
(** An INSERT into table [t] with the columns [cols] and the row [row] as the first of its
    VALUES, with any other clauses. *)
Record inserts (s : InsertStmt Node (list (bytes * Field))) (t : bytes) (cols : list (bytes * Z))
    (row : list Node) : Prop := mkInserts {
  inserts_table : rv_relname (ins_relation s) = Some t;
  inserts_cols : ins_cols s = map (λ c, col_target c.1 c.2) cols;
  inserts_row : ∃ sel rows, ins_selectStmt s = Some (N_SelectStmt sel) ∧ valuesLists sel = N_List row :: rows;
}.

Lemma collect_names cols :
  tree_collect (bs "name") (JArr (map outNode (map (λ c : bytes * Z, col_target c.1 c.2) cols)))
  = map (λ c, outToken c.1) cols.
Proof.
  cbn [tree_collect]. induction cols as [|[c loc] cols IH]; [done|]. cbn [map concat].
  rewrite IH. simpl. unfold WRITE_INT_FIELD. by case_decide.
Qed.

Lemma const_tree_insert c r k col :
  const_value c = Some k →
  let r' := const_tree (set_shard_key_column (Some col)) c r in
  shard_key_found r' = true ∧ shard_key_column r' = Some col ∧ key_of r' = Some k.
Proof.
  unfold const_value, const_tree. intros H.
  destruct (jget (bs "ival") c ≫= _) as [v|]; [by injection H as <-|].
  destruct (jget (bs "sval") c) as [v|]; simpl in *; [|done].
  destruct (jget (bs "sval") v) as [v'|]; simpl in *; [|done].
  destruct (jstring v') as [s|]; simpl in *; [|done]. by injection H as <-.
Qed.

Lemma index_of_app x l1 l2 i : index_of x l1 = Some i → index_of x (l1 ++ l2) = Some i.
Proof.
  revert i. induction l1 as [|y l1 IH]; intros i; simpl; [done|]. case_decide; [done|].
  intros (k & Hk & ->)%fmap_Some. by rewrite (IH k).
Qed.

(** The names of the columns of an INSERT, and the values of its first row. *)
Definition insert_obj (s : InsertStmt Node (list (bytes * Field))) : option json :=
  jget (bs "InsertStmt") (outNode (N_InsertStmt s)).
Lemma insert_obj_names s t cols row n :
  inserts s t cols row → cols ≠ [] → insert_obj s = Some n →
  insert_names n = Some (map (λ c, Some (esc c.1)) cols).
Proof.
  intros [_ Hcols _] Hc. unfold insert_obj. lookup. intros Hn%(inj Some). subst n.
  unfold insert_names. lookup. rewrite Hcols, lookup_list by (by destruct cols). lookup.
  rewrite collect_names, map_map. done.
Qed.
Lemma insert_obj_row s t cols row n :
  inserts s t cols row → insert_obj s = Some n → insert_row n = Some (map outNode row).
Proof.
  intros [_ _ (sel & rows & Hsel & Hv)]. unfold insert_obj. lookup. intros Hn%(inj Some). subst n.
  unfold insert_row. lookup. rewrite Hsel. lookup. rewrite Hv. cbn [map]. lookup. done.
Qed.

(** The first constant in the text of an expression, which the code takes for its value. *)
Definition first_const (e : Node) (k : Const) (loc : Z) : Prop :=
  tree_search (bs "A_Const") (outNode e) = Some (JObj (outAConst (Some k) loc)).
Lemma first_const_self k loc : first_const (N_A_Const (Some k) loc) k loc.
Proof. done. Qed.
Lemma first_const_left kind op e r loc' k loc :
  first_const e k loc → first_const (N_A_Expr kind [N_String op] (Some e) r loc') k loc.
Proof.
  unfold first_const. intros He.
  assert (∃ l, tree_search (bs "A_Const") (outNode (N_A_Expr kind [N_String op] (Some e) r loc'))
    = first_some [first_some (None :: None :: tree_search (bs "A_Const") (outNode e) :: l)]) as [l ->];
    [|by rewrite He].
  cbn [outNode]. unfold WRITE_INT_FIELD. destruct r, (decide (loc' = 0%Z)); eexists; reflexivity.
Qed.

Lemma insert_at_key s t cols row n i e k v loc col r :
  inserts s t cols row → insert_obj s = Some n → row !! i = Some e → first_const e k loc →
  const_width k → const_key k = Some v →
  let r' := insert_at n col i r in
  shard_key_found r' = true ∧ shard_key_column r' = Some col ∧ key_of r' = Some v.
Proof.
  intros Hs Hn Hi He Hw Hk. unfold insert_at. rewrite (insert_obj_row _ _ _ _ _ Hs Hn).
  cbn [mbind option_bind]. rewrite list_lookup_fmap, Hi. cbn [fmap option_fmap option_map].
  unfold row_value_tree. rewrite He. apply const_tree_insert. by apply const_value_key.
Qed.

Lemma rangevar_keeps j r :
  parse_tree_json (rangevar_tree j r) = parse_tree_json r ∧
  shard_key_column (rangevar_tree j r) = shard_key_column r.
Proof. unfold rangevar_tree, key_string_tree. by repeat case_match. Qed.

(** The part of the routing of an INSERT that does not depend on the value. *)
Lemma insert_decision map p root s t cols row c i rule :
  map_wf map → json_wf root → first_stmt_of root = FirstStmt (outNode (N_InsertStmt s)) →
  inserts s t cols row → stmt_type p = STMT_INSERT → parse_tree_json p = Some (json_text root) →
  table_name p = Some (esc t) → shard_key_found p = false →
  index_of (Some (esc c)) (List.map (λ c, Some (esc c.1)) cols) = Some i →
  rule_of map (esc t) = Some rule → broadcast rule = false → shard_column rule = Some (esc c) →
  ∃ n p', insert_obj s = Some n ∧
    router_decide map p = Ret (p', decide_rule map rule (insert_at n (esc c) i p)).
Proof.
  intros Hm Hwf Hroot Hs Hst Hj Ht Hf Hi Hr Hb Hc. rewrite router_decide_class by done.
  assert (classify map p = ByKey rule) as ->.
  { unfold classify. rewrite Hst, Ht. simpl. by rewrite Hr, Hb. }
  unfold insert_pass. rewrite decide_True, Hc by (by split).
  assert (∃ n, insert_obj s = Some n) as [n En] by (eexists; reflexivity).
  destruct (parse_extract_insert_spec root p (esc c) (outNode (N_InsertStmt s)) Hwf Hst Hj Hroot) as (extra & ->).
  exists n. eexists. split; [exact En|]. unfold insert_obj in En. rewrite En. cbn [mbind option_bind].
  rewrite (insert_obj_names s t cols row n Hs); [|by intros ->|exact En].
  cbn [mbind res_bind option_bind]. unfold insert_tree. rewrite (index_of_app _ _ _ i) by exact Hi.
  rewrite decide_False by (intros [Hx _]; congruence). reflexivity.
Qed.
Lemma insert_stmt_tree s r :
  stmt_type r = STMT_INSERT →
  stmt_tree (outNode (N_InsertStmt s)) r = rangevar_tree (JObj (outRangeVar (ins_relation s))) r.
Proof. intros Hr. unfold stmt_tree. rewrite Hr. clear Hr. lookup. done. Qed.
Lemma route_insert_pass raw map sql s cols row t c i rule :
  well_built raw → map_wf map → parses raw sql (N_InsertStmt s) → inserts s t cols row →
  index_of (Some (esc c)) (List.map (λ c, Some (esc c.1)) cols) = Some i →
  rule_of map (esc t) = Some rule → broadcast rule = false → shard_column rule = Some (esc c) →
  ∃ n p, insert_obj s = Some n ∧ shard_key_found p = false ∧
    route_sql (query_tree raw) map sql = Ret (Some (decide_rule map rule (insert_at n (esc c) i p))).
Proof.
  intros Hraw Hm (location & len & rest & E) Hs Hi Hr Hb Hc.
  destruct (route_sql_node raw map sql (mkRawStmt (N_InsertStmt s) location len) rest Hraw E) as [Hwf ->]. clear E.
  unfold parsed_of. cbn [raw_stmt]. change (stmt_type_tree (outNode (N_InsertStmt s))) with STMT_INSERT.
  pose proof (first_stmt_node PG_VERSION_NUM (mkRawStmt (N_InsertStmt s) location len) rest) as Hroot.
  set (root := nodes_to_json _ _) in *. clearbody root. set (r0 := set_stmt_type STMT_INSERT (init_result (json_text root))).
  rewrite (insert_stmt_tree s r0 eq_refl). set (j := JObj (outRangeVar (ins_relation s))).
  destruct (rangevar_stmt j r0) as [Hst Hf]. destruct (rangevar_keeps j r0) as [Hj _].
  pose proof (rangevar_table (ins_relation s) r0 t (inserts_table _ _ _ _ Hs)) as Htn. fold j in Htn.
  set (p := rangevar_tree j r0) in *. clearbody p.
  destruct (insert_decision map p root s t cols row c i rule Hm Hwf Hroot Hs Hst Hj Htn Hf Hi Hr Hb Hc)
    as (n & p' & En & ->).
  exists n, p. split; [exact En|]. split; [exact Hf|]. reflexivity.
Qed.

Lemma route_insert raw map sql s cols row t c e k v loc i rule :
  well_built raw → map_wf map → parses raw sql (N_InsertStmt s) → inserts s t cols row →
  index_of (Some (esc c)) (List.map (λ c, Some (esc c.1)) cols) = Some i →
  row !! i = Some e → first_const e k loc → const_width k → const_key k = Some v →
  rule_of map (esc t) = Some rule → broadcast rule = false → shard_column rule = Some (esc c) →
  route_sql (query_tree raw) map sql = Ret (Some (by_key map rule v)).
Proof.
  intros Hraw Hm Hp Hs Hi Hrow He Hw Hk Hr Hb Hc.
  destruct (route_insert_pass raw map sql s cols row t c i rule) as (n & p & En & Hf & ->); [done..|].
  destruct (insert_at_key s t cols row n i e k v loc (esc c) p) as (Hf' & Hc' & Hv'); [done..|].
  by rewrite (decide_rule_by_key _ _ _ (esc c) v).
Qed.

(** A zero is printed without its value, so no key is found. *)
Lemma route_insert_zero raw map sql s cols row t c loc i rule :
  well_built raw → map_wf map → parses raw sql (N_InsertStmt s) → inserts s t cols row →
  index_of (Some (esc c)) (List.map (λ c, Some (esc c.1)) cols) = Some i →
  row !! i = Some (N_A_Const (Some (C_Integer 0)) loc) →
  rule_of map (esc t) = Some rule → broadcast rule = false → shard_column rule = Some (esc c) →
  route_sql (query_tree raw) map sql = Ret (Some (scatter rule)).
Proof.
  intros Hraw Hm Hp Hs Hi Hrow Hr Hb Hc.
  destruct (route_insert_pass raw map sql s cols row t c i rule) as (n & p & En & Hf & ->); [done..|].
  assert (insert_at n (esc c) i p = p) as ->.
  { unfold insert_at. rewrite (insert_obj_row _ _ _ _ _ Hs En). cbn [mbind option_bind].
    by rewrite list_lookup_fmap, Hrow. }
  unfold decide_rule, routed_shard. rewrite decide_False; [done|]. intros [Hx _]. congruence.
Qed.

(** A SELECT without a FROM clause has no table for the code.  The operands of a UNION,
    INTERSECT or EXCEPT are in [larg] and [rarg]. *)
Lemma route_no_from raw map sql s :
  well_built raw → map_wf map → parses raw sql (N_SelectStmt s) → fromClause s = [] →
  route_sql (query_tree raw) map sql = Ret (Some (only_type ROUTE_DEFAULT)).
Proof.
  intros Hraw Hm (location & len & rest & E) Hfrom.
  destruct (route_sql_node raw map sql (mkRawStmt (N_SelectStmt s) location len) rest Hraw E) as [_ ->]. clear E.
  unfold parsed_of. cbn [raw_stmt]. set (r0 := init_result _).
  change (stmt_type_tree (outNode (N_SelectStmt s))) with STMT_SELECT.
  rewrite (select_stmt_tree s (set_stmt_type STMT_SELECT r0) eq_refl), Hfrom, router_decide_class by done.
  unfold classify.
  destruct (where_opt_keeps (sel_whereClause s) (set_stmt_type STMT_SELECT r0)) as [-> ->]. done.
Qed.

(** ** Every statement *)

(** The text of a well-formed tree, or a failure: what the parts of the proxy that run
    queries rely on. *)
Definition prints_trees (pg : bytes → option bytes) : Prop :=
  ∀ sql txt, pg sql = Some txt → ∃ root, json_wf root ∧ txt = json_text root.
Lemma query_tree_prints raw : well_built raw → prints_trees (query_tree raw).
Proof.
  intros Hr sql txt. unfold query_tree. destruct (raw _ _ _) as [|tree] eqn:E; [done|]. intros [= <-].
  exists (nodes_to_json PG_VERSION_NUM tree). split; [by eapply nodes_to_json_wf, Hr|apply nodes_to_json_text].
Qed.
(** Every rule of a table that is not broadcast has a shard column. *)
Definition columns_set (map : ShardMap) : Prop :=
  Forall (λ r, broadcast r = false → is_Some (shard_column r)) (table_rules map).

Lemma from_tree_stmt f r : stmt_type (from_tree f r) = stmt_type r.
Proof.
  unfold from_tree. destruct (tree_search _ f); [apply rangevar_stmt|]. by destruct (tree_search _ f).
Qed.
Lemma where_of_stmt n r : stmt_type (where_of n r) = stmt_type r.
Proof. unfold where_of. destruct (jget _ n); [apply where_tree_keeps|done]. Qed.
Lemma stmt_tree_stmt s r : stmt_type (stmt_tree s r) = stmt_type r.
Proof.
  unfold stmt_tree, select_tree, rel_where_tree.
  destruct (stmt_type r) eqn:E; try done;
    repeat (match goal with |- context [match jget ?k ?j with _ => _ end] => destruct (jget k j) end);
    repeat (match goal with |- context [match tree_search ?k ?j with _ => _ end] =>
              destruct (tree_search k j) end);
    rewrite ?where_of_stmt, ?from_tree_stmt; try done; by rewrite (proj1 (rangevar_stmt _ _)).
Qed.
Lemma insert_stmt_json s r :
  stmt_type r = STMT_INSERT → parse_tree_json (stmt_tree s r) = parse_tree_json r.
Proof.
  intros E. unfold stmt_tree. rewrite E. destruct (jget _ s) as [n|]; [|done].
  destruct (jget _ n); [apply rangevar_keeps|done].
Qed.
Lemma insert_pass_total root rule s :
  json_wf root → first_stmt_of root = FirstStmt s → is_Some (shard_column rule) →
  let p := stmt_tree s (set_stmt_type (stmt_type_tree s) (init_result (json_text root))) in
  ∃ p', insert_pass rule p = Ret p'.
Proof.
  intros Hwf Hs [c Hc] p. unfold insert_pass. case_decide as Hd; [|by eexists].
  destruct Hd as [Hi _]. unfold p in Hi. rewrite stmt_tree_stmt in Hi. rewrite Hc.
  destruct (parse_extract_insert_spec root p c s Hwf) as [extra ->]; [..|by eexists].
  - unfold p. by rewrite stmt_tree_stmt.
  - unfold p. by rewrite insert_stmt_json.
  - done.
Qed.
Lemma classify_by_key map parsed rule :
  classify map parsed = ByKey rule → rule ∈ table_rules map ∧ broadcast rule = false.
Proof.
  unfold classify. destruct (stmt_type parsed); try done;
    destruct (t ← table_name parsed; rule_of map t) as [r'|] eqn:Er; try done;
    destruct (table_name parsed) as [t|]; try done; cbn [mbind option_bind] in Er;
    apply rule_of_Some in Er as [? _]; destruct (broadcast r') eqn:?; try done; intros [= <-]; done.
Qed.
(** The router decides when the second pass over an INSERT does. *)
Definition passes map parsed : Prop :=
  ∀ rule, rule ∈ table_rules map → broadcast rule = false → ∃ p', insert_pass rule parsed = Ret p'.
Lemma router_total map parsed :
  map_wf map → columns_set map → passes map parsed → ∃ d p', router_decide map parsed = Ret (p', d).
Proof.
  intros Hm Hcol Hip. rewrite router_decide_class by done.
  destruct (classify map parsed) as [| | |rule] eqn:Ec; [by eexists _, _..|].
  apply classify_by_key in Ec as [Hin Hb]. destruct (Hip rule Hin Hb) as [p' ->]. cbn [mbind res_bind].
  unfold columns_set in Hcol. rewrite Forall_forall in Hcol. destruct (Hcol _ Hin Hb) as [c Hc].
  rewrite decide_False by (rewrite Hc; naive_solver). by eexists _, _.
Qed.
Definition decision_ok map (d : RouteDecision) : Prop :=
  target_count d = length (target_shards d) ∧
  Forall (λ t, (t < length (shards map))%nat) (target_shards d) ∧
  (route_type d = ROUTE_SINGLE → ∃ t, target_shards d = [t]).
Lemma decide_total map parsed :
  map_wf map → columns_set map → passes map parsed →
  ∃ o, ('(_, d) ← router_decide map parsed; Ret (Some d)) = Ret o ∧ ∀ d, o = Some d → decision_ok map d.
Proof.
  intros Hm Hcol Hip. destruct (router_total map parsed Hm Hcol Hip) as (d & p' & E). rewrite E.
  exists (Some d). split; [done|]. intros d' [= <-]. destruct (router_targets _ _ _ _ Hm E) as (? & ? & Hs).
  split_and!; [done|done|]. intros Ht. destruct (Hs Ht) as (? & t & ? & ? & ? & ?). by exists t.
Qed.
(** Whatever the client sends, the statement gets a decision or a syntax error. *)
Lemma route_sql_total pg map sql :
  prints_trees pg → map_wf map → columns_set map →
  ∃ o, route_sql pg map sql = Ret o ∧ ∀ d, o = Some d → decision_ok map d.
Proof.
  intros Hpg Hm Hcol. unfold route_sql. destruct (pg sql) as [txt|] eqn:Ep.
  2: { unfold parse_query. rewrite Ep. cbn [mbind res_bind]. by exists None. }
  destruct (Hpg _ _ Ep) as (root & Hwf & ->). rewrite (parse_query_spec pg sql root Hwf Ep).
  unfold parse_tree. cbn [mbind res_bind].
  destruct (first_stmt_of root) as [| |s] eqn:Ef; cbn [mbind res_bind].
  - by exists None.
  - rewrite decide_False by lia. apply decide_total; [done|done|]. intros rule Hr Hb. by eexists.
  - rewrite decide_False by lia. apply decide_total; [done|done|]. intros rule Hr Hb.
    apply insert_pass_total; [done|done|].
    unfold columns_set in Hcol. rewrite Forall_forall in Hcol. by apply Hcol.
Qed.

(** ** Properties *)

(** C9: A SELECT, UPDATE or DELETE on a sharded table, with any other clauses and whatever
    statements follow it, is routed by its WHERE clause: from the syntax tree over the text
    that libpg_query prints to the decision of the router.  What counts is the first
    equality, in the order of the text and whatever operators are around it, of a column with
    a constant that is a string or an integer other than 0 ([key_in]).  If the column, by the
    first part of its name, is the shard column of the table's rule, the statement goes to
    the shard of the constant.  If it is another column, or if there is no such equality, the
    statement goes to all shards of the table. *)
Theorem statement_routed_by_key raw map sql n t wh rule col :
  well_built raw → map_wf map → parses raw sql n → table_stmt t wh n → opt_ok cond_ok wh = true →
  rule_of map (esc t) = Some rule → broadcast rule = false → shard_column rule = Some col →
  route_sql (query_tree raw) map sql = Ret (Some (by_where map rule col (wh ≫= key_in))).
Proof. apply route_by_where. Qed.

(** An INSERT whose shard key is the integer 0 is sent to all shards: libpg_query
    omits the field [ival] of a zero, and the parser then finds no key. *)
Theorem insert_of_key_zero_scatters raw map sql s cols row t c loc i rule :
  well_built raw → map_wf map → parses raw sql (N_InsertStmt s) → inserts s t cols row →
  index_of (Some (esc c)) (List.map (λ c, Some (esc c.1)) cols) = Some i →
  row !! i = Some (N_A_Const (Some (C_Integer 0)) loc) →
  rule_of map (esc t) = Some rule → broadcast rule = false → shard_column rule = Some (esc c) →
  route_sql (query_tree raw) map sql = Ret (Some (scatter rule)).
Proof. apply route_insert_zero. Qed.

(** An INSERT whose value for the shard column is a sum [a + b] of integer constants, with
    [a] other than 0, is sent to the shard of [a], because the code takes the first
    constant it finds below the value.  A SELECT, UPDATE or DELETE that looks for the sum,
    [c = k] with [k] the value of [a + b], goes to the shard of [k]. *)
Theorem insert_expression_misplaced raw map sql s cols row t c a b la lb loc i rule sql' n l1 l2 l3 :
  let int z := N_A_Const (Some (C_Integer z)) in
  well_built raw → map_wf map → rule_of map (esc t) = Some rule → broadcast rule = false →
  shard_column rule = Some (esc c) → rule_shards rule ≠ [] →
  parses raw sql (N_InsertStmt s) → inserts s t cols row →
  index_of (Some (esc c)) (List.map (λ c, Some (esc c.1)) cols) = Some i →
  row !! i = Some (N_A_Expr AEXPR_OP [N_String (bs "+")] (Some (int a la)) (Some (int b lb)) loc) →
  (- 2 ^ 31 ≤ a < 2 ^ 31)%Z → (- 2 ^ 31 ≤ a + b < 2 ^ 31)%Z → a ≠ 0%Z → (a + b ≠ 0)%Z →
  parses raw sql' n → table_stmt t (Some (eq_node AEXPR_OP c [] (C_Integer (a + b)) l1 l2 l3)) n →
  ∃ stored sought, place map rule (u64 a) = Some stored ∧ place map rule (u64 (a + b)) = Some sought ∧
    route_sql (query_tree raw) map sql = Ret (Some (single rule stored)) ∧
    route_sql (query_tree raw) map sql' = Ret (Some (single rule sought)).
Proof.
  intros int Hraw Hm Hr Hb Hc Hne Hp Hs Hi Hrow Ha Hab Ha0 Hab0 Hp' Hn.
  destruct (place_total map rule (u64 a) Hne) as [x Hx], (place_total map rule (u64 (a + b)) Hne) as [y Hy].
  exists x, y. split_and!; [done|done|..].
  - rewrite (route_insert raw map sql s cols row t c _ (C_Integer a) (VInt a) la i rule Hraw Hm Hp Hs Hi Hrow
      (first_const_left _ _ _ _ _ _ _ (first_const_self _ la))); [|done| |done..].
    + unfold by_key. cbn [value_hash]. by rewrite Hx.
    + cbn [const_key]. by rewrite decide_False.
  - rewrite (route_by_where raw map sql' n t _ rule (esc c) Hraw Hm Hp' Hn); [|cbn; by rewrite bool_decide_eq_true_2|done..].
    cbn [mbind option_bind key_in eq_node]. rewrite decide_True by done. cbn [const_key].
    rewrite decide_False by done. cbn [fmap option_fmap option_map by_where]. rewrite decide_True by done.
    unfold by_key. cbn [value_hash]. by rewrite Hy.
Qed.

(** C40: A SELECT that has no FROM clause of its own is sent to the default backend.  That
    is so for every UNION, INTERSECT and EXCEPT, whatever tables its operands read and
    whatever shards hold them. *)
Theorem set_operation_goes_to_default raw map sql s :
  well_built raw → map_wf map → parses raw sql (N_SelectStmt s) →
  fromClause s = [] →
  route_sql (query_tree raw) map sql = Ret (Some (only_type ROUTE_DEFAULT)).
Proof. apply route_no_from. Qed.


(** Statements for the witnesses. *)
Definition sample_table (t : bytes) : RangeVar :=
  mkRangeVar None None (Some t) true "p"%byte None 12.
Definition sample_from (t : bytes) : list (bytes * Field) :=
  [(bs "targetList", F_LIST [N_ResTarget None [] (Some (N_ColumnRef [N_A_Star] 7)) 7]);
   (bs "fromClause", F_LIST [N_RangeVar (sample_table t)]);
   (bs "limitOption", F_ENUM (bs "LIMIT_OPTION_DEFAULT")); (bs "op", F_ENUM (bs "SETOP_NONE"))].
(** [SELECT * FROM t WHERE wh ORDER BY item LIMIT 3] *)
Definition select_stmt (t : bytes) (wh : Node) : SelectStmt Node (list (bytes * Field)) :=
  mkSelectStmt [] None [N_ResTarget None [] (Some (N_ColumnRef [N_A_Star] 7)) 7]
    [N_RangeVar (sample_table t)] (Some wh) [] false None [] []
    [N_Other (bs "SortBy") [(bs "node", F_NODE_PTR (Some (N_ColumnRef [N_String (bs "item")] 70)));
                            (bs "sortby_dir", F_ENUM (bs "SORTBY_DEFAULT"))]]
    None (Some (N_A_Const (Some (C_Integer 3)) 82)) LIMIT_OPTION_COUNT [] None SETOP_NONE false None None.
Definition select_node (t : bytes) (wh : Node) : Node := N_SelectStmt (select_stmt t wh).
(** [SELECT * FROM orders UNION ALL SELECT * FROM items] *)
Definition sample_union : SelectStmt Node (list (bytes * Field)) :=
  mkSelectStmt [] None [] [] None [] false None [] [] [] None None LIMIT_OPTION_DEFAULT [] None
    SETOP_UNION true (Some (sample_from (bs "orders"))) (Some (sample_from (bs "items"))).
(** [total > 5 AND user_id = 1234567] *)
Definition sample_and : Node :=
  N_BoolExpr AND_EXPR
    [N_A_Expr AEXPR_OP [N_String (bs ">")] (Some (N_ColumnRef [N_String (bs "total")] 30))
       (Some (N_A_Const (Some (C_Integer 5)) 38)) 36;
     eq_node AEXPR_OP (bs "user_id") [] (C_Integer 1234567) 44 54 52] 40.
(** [user_id = 42] *)
Definition sample_eq : Node := eq_node AEXPR_OP (bs "user_id") [] (C_Integer 42) 44 54 52.
(** [user_id = 1234567] *)
Definition sample_found : Node := eq_node AEXPR_OP (bs "user_id") [] (C_Integer 1234567) 44 54 52.
(** [orders.user_id = 1234567] *)
Definition sample_qualified : Node :=
  eq_node AEXPR_OP (bs "orders") [N_String (bs "user_id")] (C_Integer 1234567) 44 54 52.
(** [INSERT INTO orders (item, user_id) VALUES ('pen', e) RETURNING item] *)
Definition sample_insert (e : Node) : InsertStmt Node (list (bytes * Field)) :=
  mkInsertStmt (sample_table (bs "orders"))
    [col_target (bs "item") 20; col_target (bs "user_id") 26]
    (Some (N_SelectStmt (mkSelectStmt [] None [] [] None [] false None []
      [N_List [N_A_Const (Some (C_String (bs "pen"))) 44; e]] [] None None LIMIT_OPTION_DEFAULT [] None
      SETOP_NONE false None None)))
    None [N_ResTarget None [] (Some (N_ColumnRef [N_String (bs "item")] 70)) 70] None OVERRIDING_NOT_SET.
Definition sample_key (z : Z) : Node := N_A_Const (Some (C_Integer z)) 51.
(** [1 + 1234566] *)
Definition sample_sum : Node :=
  N_A_Expr AEXPR_OP [N_String (bs "+")] (Some (sample_key 1)) (Some (sample_key 1234566)) 53.
(** A parser that knows the statements above. *)
Definition sample_stmt (sql : bytes) : option Node :=
  if decide (sql = bs "select") then Some (select_node (bs "orders") sample_and)
  else if decide (sql = bs "q") then Some (select_node (bs "orders") sample_eq)
  else if decide (sql = bs "sum") then Some (select_node (bs "orders") sample_found)
  else if decide (sql = bs "qualified") then Some (select_node (bs "orders") sample_qualified)
  else if decide (sql = bs "union") then Some (N_SelectStmt sample_union)
  else if decide (sql = bs "insert") then Some (N_InsertStmt (sample_insert (sample_key 1234567)))
  else if decide (sql = bs "insert zero") then Some (N_InsertStmt (sample_insert (sample_key 0)))
  else if decide (sql = bs "insert sum") then Some (N_InsertStmt (sample_insert sample_sum))
  else None.
Definition sample_parser : RawParser := λ _ sql _,
  match sample_stmt sql with
  | Some n => inr [mkRawStmt n 0 0]
  | None => inl (mkErrorData (bs "syntax error") (bs "scan.l") (bs "scanner_yyerror") 1242 1)
  end.
Definition sample_pg : bytes → option bytes := query_tree sample_parser.

Lemma sample_well_built : well_built sample_parser.
Proof.
  intros g sql mode tree. unfold sample_parser, sample_stmt.
  repeat case_decide; intros E; (apply (inj inr) in E || discriminate E); subst tree; reflexivity.
Qed.
Lemma sample_pg_prints : prints_trees sample_pg.
Proof. apply query_tree_prints, sample_well_built. Qed.
Lemma sample_inserts e :
  inserts (sample_insert e) (bs "orders") [(bs "item", 20%Z); (bs "user_id", 26%Z)]
    [N_A_Const (Some (C_String (bs "pen"))) 44; e].
Proof. split; [done|done|]. by eexists _, []. Qed.

Lemma statement_routed_by_key_witness :
  route_sql sample_pg sample_map (bs "select") = Ret (Some (single range_rule 1)) ∧
  route_sql sample_pg sample_map (bs "qualified") = Ret (Some (scatter range_rule)).
Proof.
  split.
  - apply (statement_routed_by_key sample_parser sample_map (bs "select")
      (select_node (bs "orders") sample_and) (bs "orders") (Some sample_and)
      range_rule (bs "user_id") sample_well_built sample_map_wf);
      [exists 0%Z, 0%Z, []; reflexivity|by eapply table_select|vm_compute; reflexivity..].
  - apply (statement_routed_by_key sample_parser sample_map (bs "qualified")
      (select_node (bs "orders") sample_qualified) (bs "orders") (Some sample_qualified)
      range_rule (bs "user_id") sample_well_built sample_map_wf);
      [exists 0%Z, 0%Z, []; reflexivity|by eapply table_select|vm_compute; reflexivity..].
Defined.
Lemma insert_of_key_zero_scatters_witness :
  route_sql sample_pg sample_map (bs "insert zero") = Ret (Some (scatter range_rule)).
Proof.
  apply (insert_of_key_zero_scatters sample_parser sample_map (bs "insert zero") (sample_insert (sample_key 0))
    [(bs "item", 20%Z); (bs "user_id", 26%Z)]
    [N_A_Const (Some (C_String (bs "pen"))) 44; sample_key 0]
    (bs "orders") (bs "user_id") 51 1 range_rule sample_well_built sample_map_wf);
    [exists 0%Z, 0%Z, []; reflexivity|apply sample_inserts|vm_compute; reflexivity|
     reflexivity|vm_compute; reflexivity|reflexivity|reflexivity].
Defined.
(** The row of key 1234567 is stored on shard 0 and looked for on shard 1. *)
Lemma insert_expression_misplaced_witness :
  route_sql sample_pg sample_map (bs "insert sum") = Ret (Some (single range_rule 0)) ∧
  route_sql sample_pg sample_map (bs "sum") = Ret (Some (single range_rule 1)).
Proof.
  destruct (insert_expression_misplaced sample_parser sample_map (bs "insert sum") (sample_insert sample_sum)
    [(bs "item", 20%Z); (bs "user_id", 26%Z)]
    [N_A_Const (Some (C_String (bs "pen"))) 44; sample_sum]
    (bs "orders") (bs "user_id") 1 1234566 51 51 53 1 range_rule (bs "sum")
    (select_node (bs "orders") sample_found) 44 54 52 sample_well_built sample_map_wf)
    as (x & y & Hx & Hy & E1 & E2);
    [vm_compute; reflexivity|reflexivity|reflexivity|discriminate|exists 0%Z, 0%Z, []; reflexivity|
     apply sample_inserts|vm_compute; reflexivity|reflexivity|lia|lia|lia|lia|
     exists 0%Z, 0%Z, []; reflexivity|by eapply table_select|].
  assert (place sample_map range_rule (u64 1) = Some 0) as Hx' by (vm_compute; reflexivity).
  assert (place sample_map range_rule (u64 (1 + 1234566)) = Some 1) as Hy' by (vm_compute; reflexivity).
  rewrite Hx in Hx'. rewrite Hy in Hy'. injection Hx' as ->. injection Hy' as ->. split; [exact E1|exact E2].
Defined.
Lemma set_operation_goes_to_default_witness :
  route_sql sample_pg sample_map (bs "union") = Ret (Some (only_type ROUTE_DEFAULT)) ∧
  rule_of sample_map (bs "orders") = Some range_rule.
Proof.
  split; [|vm_compute; reflexivity].
  apply (set_operation_goes_to_default sample_parser sample_map (bs "union") sample_union
    sample_well_built sample_map_wf); [exists 0%Z, 0%Z, []; reflexivity|reflexivity].
Defined.
