(* ===== verification/Rows.v ===== *)
(** * Statements and rows

    How PostgreSQL evaluates conditions on rows is a parameter with its documented laws
    ([pg_conditions]); routing respects it: the shards a statement is sent to include the
    shard of every row it accepts, if the constants are written in the type of the shard
    column. *)
From S2P Require Import Prelude Json PgTree PgPrint PgQuery Parser LibPQ Pool ShardMap Router Keys Sql.
#[local] Set Warnings "-clear-no-such-hyp".

(** ** Conditions *)

(** True, false or unknown. *)
Abbreviation truth := (option bool).
Definition and3 (a b : truth) : truth :=
  match a, b with
  | Some false, _ | _, Some false => Some false
  | Some true, Some true => Some true
  | _, _ => None
  end.
Definition not3 (a : truth) : truth := negb <$> a.
Definition or3 (a b : truth) : truth := not3 (and3 (not3 a) (not3 b)).

(** A row: the values of its columns, [None] is NULL.  A column holds integers or texts. *)
Definition Row : Type := bytes → option value.
Inductive coltype : Type := TInteger | TText.
(** The value that a constant stands for next to a column of the type: a quoted constant is
    read as a value of the column's type. *)
Inductive reads : coltype → Const → value → Prop :=
| reads_integer z : reads TInteger (C_Integer z) (VInt z)
| reads_text s : reads TText (C_String s) (VStr s)
| reads_quoted z : reads TInteger (C_String (dec z)) (VInt z).
(** The constant is written in the type of the column. *)
Definition direct (ty : coltype) (k : Const) : Prop :=
  match ty, k with TInteger, C_Integer _ | TText, C_String _ => True | _, _ => False end.
#[export] Instance value_eq_dec : EqDecision value.
Proof. solve_decision. Defined.

(** What PostgreSQL documents of a condition's truth on a row: equality with a constant, and
    the three-valued AND, OR and NOT. *)
Record pg_conditions (types : bytes → option coltype) (holds : Row → Node → truth) : Prop := mkPgConditions {
  pg_equals r c ty k v l1 l2 l3 :
    types c = Some ty → reads ty k v →
    holds r (eq_node AEXPR_OP c [] k l1 l2 l3) = (w ← r c; Some (bool_decide (w = v)));
  pg_and r args loc :
    args ≠ [] → holds r (N_BoolExpr AND_EXPR args loc) = foldr and3 (Some true) (map (holds r) args);
  pg_or r args loc :
    args ≠ [] → holds r (N_BoolExpr OR_EXPR args loc) = foldr or3 (Some false) (map (holds r) args);
  pg_not r a loc : holds r (N_BoolExpr NOT_EXPR [a] loc) = not3 (holds r a);
}.
(** A statement without a WHERE clause accepts every row. *)
Definition accepts (holds : Row → Node → truth) (wh : option Node) (r : Row) : Prop :=
  match wh with Some wh => holds r wh = Some true | None => True end.

Lemma and3_true a b : and3 a b = Some true → a = Some true ∧ b = Some true.
Proof. by destruct a as [[]|], b as [[]|]. Qed.
Lemma and_true (f : Node → truth) args :
  foldr and3 (Some true) (map f args) = Some true → Forall (λ n, f n = Some true) args.
Proof. induction args as [|n l IH]; [done|]. cbn [map foldr]. intros [? ?]%and3_true. constructor; auto. Qed.
Lemma or_true (f : Node → truth) args e :
  e ∈ args → f e = Some true → foldr or3 (Some false) (map f args) = Some true.
Proof.
  intros He Ht. induction args as [|x l IH]; [by apply elem_of_nil in He|]. cbn [map foldr].
  apply elem_of_cons in He as [<-|He].
  - rewrite Ht. by destruct (foldr _ _ _) as [[]|].
  - rewrite IH by exact He. by destruct (f x) as [[]|].
Qed.

(** ** Clauses that are routed well *)

(** How a value is written in the text of the tree: the code hashes that text. *)
Definition as_key (v : value) : value := match v with VInt z => VInt z | VStr s => VStr (esc s) end.

(** Conjunctions of equalities [c = k] with a constant of the column's type, of conditions
    without a key, and of conditions whose key is on another column than [col]. *)
Unset Elimination Schemes.
Inductive plain (types : bytes → option coltype) (col : bytes) : Node → Prop :=
| plain_equality c ty k l1 l2 l3 :
    types c = Some ty → direct ty k → const_fits k = true → plain types col (eq_node AEXPR_OP c [] k l1 l2 l3)
| plain_no_key n : cond_ok n = true → key_in n = None → plain types col n
| plain_elsewhere n c v : cond_ok n = true → key_in n = Some (c, v) → esc c ≠ col → plain types col n
| plain_and args loc : args ≠ [] → Forall (plain types col) args → plain types col (N_BoolExpr AND_EXPR args loc).
Set Elimination Schemes.
Lemma plain_nested_ind types col (P : Node → Prop) :
  (∀ c ty k l1 l2 l3, types c = Some ty → direct ty k → const_fits k = true → P (eq_node AEXPR_OP c [] k l1 l2 l3)) →
  (∀ n, cond_ok n = true → key_in n = None → P n) →
  (∀ n c v, cond_ok n = true → key_in n = Some (c, v) → esc c ≠ col → P n) →
  (∀ args loc, args ≠ [] → Forall P args → P (N_BoolExpr AND_EXPR args loc)) →
  ∀ n, plain types col n → P n.
Proof.
  intros He Hn Ho Ha. fix IH 2. intros n Hp. destruct Hp as [| | |args loc Hne Hl]; [eauto..|].
  apply Ha; [done|]. clear Hne. induction Hl; constructor; auto.
Qed.

Section sound.
Context (types : bytes → option coltype) (holds : Row → Node → truth) (Hpg : pg_conditions types holds).
Context (col : bytes).

(** The key of the shard column that the code finds is the value that the column has in
    every row the condition accepts. *)
Definition key_sound (wh : Node) : Prop :=
  cond_ok wh = true ∧
  ∀ c v, key_in wh = Some (c, v) → esc c = col → ∀ row, holds row wh = Some true → as_key <$> row c = Some v.
Lemma direct_reads ty k : direct ty k → ∃ v, reads ty k v ∧ (const_key k = Some (as_key v) ∨ const_key k = None).
Proof.
  destruct ty, k as [z| | |s|]; cbn [direct const_key]; try done; intros _.
  - exists (VInt z). split; [constructor|]. case_decide; [by right|by left].
  - exists (VStr s). split; [constructor|by left].
Qed.
Lemma equality_sound c ty k l1 l2 l3 :
  types c = Some ty → direct ty k → const_fits k = true → key_sound (eq_node AEXPR_OP c [] k l1 l2 l3).
Proof.
  intros Hty Hd Hf. destruct (direct_reads ty k Hd) as (w & Hw & Hk). split; [cbn; by rewrite Hf|].
  intros c' v Hin _ row. assert (c' = c ∧ v = as_key w) as [-> ->].
  { cbn [key_in eq_node] in Hin. rewrite decide_True in Hin by done. destruct Hk as [E|E]; rewrite E in Hin; [|done].
    cbn [fmap option_fmap option_map] in Hin. by injection Hin as -> ->. }
  rewrite (pg_equals _ _ Hpg row c ty k w l1 l2 l3 Hty Hw).
  destruct (row c) as [u|]; [|done]. cbn [mbind option_bind]. by intros [= ->%bool_decide_eq_true].
Qed.
(** The key of a conjunction is that of one of its arguments. *)
Lemma and_key args c v :
  foldr (λ n o, match key_in n with Some x => Some x | None => o end) None args = Some (c, v) →
  ∃ e, e ∈ args ∧ key_in e = Some (c, v).
Proof.
  induction args as [|n l IH]; [done|]. cbn [foldr]. destruct (key_in n) as [x|] eqn:E.
  - intros [= ->]. exists n. split; [left|done].
  - intros Hf. destruct (IH Hf) as (e & He & Hk). exists e. split; [by right|done].
Qed.
Lemma plain_sound wh : plain types col wh → key_sound wh.
Proof.
  revert wh. apply plain_nested_ind.
  - intros. by eapply equality_sound.
  - intros n Hok Hn. split; [done|]. congruence.
  - intros n c v Hok Hn Hne. split; [done|]. congruence.
  - intros args loc Hne Ha. split.
    { cbn [cond_ok]. apply forallb_forall. intros n Hin%list_elem_of_In. rewrite Forall_forall in Ha. by apply Ha. }
    intros c v Hk Hc row. cbn [key_in] in Hk. destruct (and_key _ _ _ Hk) as (e & He & Hke).
    rewrite (pg_and _ _ Hpg) by done. intros Ht%and_true. rewrite Forall_forall in Ha, Ht.
    destruct (Ha e He) as [_ Hs]. by apply (Hs c v Hke Hc row), Ht.
Qed.
Lemma plain_where wh :
  opt_prop (plain types col) wh →
  opt_ok cond_ok wh = true ∧
  ∀ c v, wh ≫= key_in = Some (c, v) → esc c = col → ∀ row, accepts holds wh row → as_key <$> row c = Some v.
Proof. destruct wh as [wh|]; [|done]. by intros [Hok Hs]%plain_sound. Qed.
End sound.

(** ** Where rows live *)

(** The shard of a row: that of the value of its shard column. *)
Definition lives_on (map : ShardMap) (rule : TableRule) (row : Row) (d : nat) : Prop :=
  ∃ col v, shard_column rule = Some col ∧ row col = Some v ∧ place map rule (value_hash (as_key v)) = Some d.

(** A table with a rule: not broadcast, with a shard column whose name needs no escapes and
    at least one shard. *)
Record sharded (map : ShardMap) (t : bytes) (rule : TableRule) (col : bytes) : Prop := mkSharded {
  sharded_rule : rule_of map (esc t) = Some rule;
  sharded_broadcast : broadcast rule = false;
  sharded_column : shard_column rule = Some col;
  sharded_name : BSLASH ∉ col;
  sharded_shards : rule_shards rule ≠ [];
}.

Section reaches.
Context (types : bytes → option coltype) (holds : Row → Node → truth) (Hpg : pg_conditions types holds).
Lemma by_where_reaches map rule col wh row s :
  shard_column rule = Some col → BSLASH ∉ col → opt_prop (plain types col) wh →
  accepts holds wh row → lives_on map rule row s →
  s ∈ target_shards (by_where map rule col (wh ≫= key_in)).
Proof.
  intros Hc Hn Hwh Ha (col' & w & Hc' & Hw & Hp). rewrite Hc in Hc'. injection Hc' as <-.
  assert (s ∈ rule_shards rule) as Hs by (by eapply place_in).
  destruct (plain_where types holds Hpg col wh Hwh) as [_ Hk].
  destruct (wh ≫= key_in) as [[c v]|]; [|done]. cbn [by_where]. case_decide as E; [|done].
  specialize (Hk c v eq_refl E row Ha). assert (c = col) as -> by (rewrite <- E; symmetry; apply esc_plain; by rewrite E).
  rewrite Hw in Hk. injection Hk as <-. unfold by_key. rewrite Hp. by left.
Qed.
Lemma statement_reaches raw map sql n t wh rule col :
  well_built raw → map_wf map → parses raw sql n → table_stmt t wh n → sharded map t rule col →
  opt_prop (plain types col) wh →
  route_sql (query_tree raw) map sql = Ret (Some (by_where map rule col (wh ≫= key_in))) ∧
  ∀ row s, accepts holds wh row → lives_on map rule row s →
    s ∈ target_shards (by_where map rule col (wh ≫= key_in)).
Proof.
  intros Hraw Hm Hp Hn [Hr Hb Hc Hs Hne] Hwh. split.
  - apply (route_by_where raw map sql n t wh rule col); try done. by apply (plain_where types holds Hpg col).
  - intros row s. by apply by_where_reaches.
Qed.
End reaches.

(** ** Properties *)

(** C8: No row is missed.  Let PostgreSQL evaluate conditions as it documents, and take a
    SELECT, UPDATE or DELETE on a sharded table, with any other clauses.  The router
    decides on it.  If its WHERE clause is a conjunction of equalities with constants written
    in the type of their column, of conditions without a key, and of conditions whose key is
    on another column than the shard column, then the shards it is sent to include the
    shard of every row that the clause accepts; so a statement that is sent to one shard is
    sent to the only shard that has rows for it. *)
Theorem statement_reaches_its_rows types holds raw map sql n t wh rule col :
  pg_conditions types holds →
  well_built raw → map_wf map → parses raw sql n → table_stmt t wh n → sharded map t rule col →
  opt_prop (plain types col) wh →
  ∃ d, route_sql (query_tree raw) map sql = Ret (Some d) ∧ route_rule d = Some rule ∧
    ∀ row s, accepts holds wh row → lives_on map rule row s →
      s ∈ target_shards d ∧ (route_type d = ROUTE_SINGLE → target_shards d = [s]).
Proof.
  intros Hpg Hraw Hm Hp Hn Hs Hwh.
  destruct (statement_reaches types holds Hpg raw map sql n t wh rule col Hraw Hm Hp Hn Hs Hwh) as [E Ho].
  eexists. split; [exact E|]. split.
  { destruct (wh ≫= key_in) as [[c v]|]; [|done]. cbn [by_where]. case_decide; [|done]. unfold by_key. by case_match. }
  intros row s Ha Hl. pose proof (Ho row s Ha Hl) as Hin. split; [done|]. revert Hin.
  destruct (wh ≫= key_in) as [[c v]|]; [|done]. cbn [by_where]. case_decide; [|done]. unfold by_key. case_match; [|done].
  cbn. intros ->%list_elem_of_singleton. done.
Qed.

(** C32: Disjunctions and negations are routed like conjunctions.  A WHERE clause that is
    [c = k OR ...] or [NOT c = k], with [c] the shard column, sends the statement to the
    shard of [k] alone.  By what PostgreSQL documents, the disjunction also accepts every row
    that one of its other conditions accepts, and the negation every row with another value
    for [c], wherever they live. *)
Theorem or_and_not_miss_rows raw map sql n t c k v l1 l2 l3 op args loc rule :
  let wh := N_BoolExpr op (eq_node AEXPR_OP c [] k l1 l2 l3 :: args) loc in
  well_built raw → map_wf map → parses raw sql n → table_stmt t (Some wh) n → sharded map t rule (esc c) →
  forallb cond_ok args = true → const_fits k = true → const_key k = Some v →
  route_sql (query_tree raw) map sql = Ret (Some (by_key map rule v)) ∧
  ∀ types holds, pg_conditions types holds →
    (∀ row e, op = OR_EXPR → e ∈ args → holds row e = Some true → accepts holds (Some wh) row) ∧
    (∀ row ty u w, op = NOT_EXPR → args = [] → types c = Some ty → reads ty k u → row c = Some w → w ≠ u →
       accepts holds (Some wh) row).
Proof.
  intros wh Hraw Hm Hp Hn [Hr Hb Hc _ _] Hargs Hw Hk. split.
  - rewrite (route_by_where raw map sql n t (Some wh) rule (esc c)); [|try done..].
    + cbn [mbind option_bind key_in wh foldr eq_node]. rewrite decide_True by done. rewrite Hk.
      cbn [fmap option_fmap option_map by_where]. by rewrite decide_True.
    + subst wh. cbn [opt_ok cond_ok forallb eq_node starts_with_name operand_ok andb]. by rewrite Hw, Hargs.
  - intros types holds Hpg. split.
    + intros row e -> He Ht. subst wh. cbn [accepts]. rewrite (pg_or _ _ Hpg) by done.
      apply (or_true _ (_ :: args) e); [by right|done].
    + intros row ty u w -> -> Hty Hu Hrow Hne. subst wh. cbn [accepts].
      rewrite (pg_not _ _ Hpg), (pg_equals _ _ Hpg row c ty k u) by done. rewrite Hrow.
      cbn [mbind option_bind]. by rewrite bool_decide_eq_false_2.
Qed.

(** The text of an integer needs no escapes. *)
Lemma esc_dec z : esc (dec z) = dec z.
Proof.
  assert (∀ l, Forall (λ c, isdigit c = true) l → esc l = l) as Hd.
  { unfold esc. induction 1 as [|c l Hc Hl IH]; [done|]. cbn [map concat]. rewrite IH.
    assert (escape_char c = [c]) as ->; [|done]. clear -Hc. revert Hc. by destruct c. }
  unfold dec. case_decide; [|apply Hd, dec_digits_isdigit; lia].
  unfold esc. cbn [map concat]. unfold esc in Hd. by rewrite Hd by (apply dec_digits_isdigit; lia).
Qed.
(** C33: A quoted key misses its rows.  If the shard column holds integers, the condition
    [c = 'z'] with an integer [z] in quotes accepts the rows with [z] in that column, because
    PostgreSQL reads the constant as an integer; these rows live on the shard of the number
    [z].  The statement is sent to the shard that the hash of the characters of [z] gives. *)
Theorem quoted_key_misses_rows types holds raw map sql n t c z l1 l2 l3 rule :
  let wh := eq_node AEXPR_OP c [] (C_String (dec z)) l1 l2 l3 in
  pg_conditions types holds → types c = Some TInteger →
  well_built raw → map_wf map → parses raw sql n → table_stmt t (Some wh) n → sharded map t rule (esc c) →
  ∃ sent home, place map rule (hash_loop 5381 (dec z)) = Some sent ∧ place map rule (u64 z) = Some home ∧
    route_sql (query_tree raw) map sql = Ret (Some (single rule sent)) ∧
    ∀ row, row c = Some (VInt z) → accepts holds (Some wh) row ∧ lives_on map rule row home.
Proof.
  intros wh Hpg Hty Hraw Hm Hp Hn [Hr Hb Hc Hname Hne].
  destruct (place_total map rule (hash_loop 5381 (dec z)) Hne) as [x Hx], (place_total map rule (u64 z) Hne) as [y Hy].
  exists x, y. split_and!; [done|done|..].
  - rewrite (route_by_where raw map sql n t (Some wh) rule (esc c)) by done.
    cbn [mbind option_bind key_in wh eq_node]. rewrite decide_True by done.
    cbn [const_key fmap option_fmap option_map by_where]. rewrite decide_True, esc_dec by done.
    unfold by_key. cbn [value_hash]. by rewrite Hx.
  - intros row Hrow. split.
    + subst wh. cbn [accepts]. rewrite (pg_equals _ _ Hpg row c TInteger _ (VInt z)) by (done || constructor).
      rewrite Hrow. cbn [mbind option_bind]. by rewrite bool_decide_eq_true_2.
    + exists (esc c), (VInt z). split_and!; [done| |done]. by rewrite esc_plain.
Qed.

(** ** A database for the witnesses

    The column [user_id] holds integers and [item] texts; conditions that are not interpreted
    are true. *)
Definition sample_types (c : bytes) : option coltype :=
  if decide (c = bs "user_id") then Some TInteger else if decide (c = bs "item") then Some TText else None.
Definition parse_dec (s : bytes) : Z :=
  match s with "-"%byte :: s => (- digits_val 0 s)%Z | _ => digits_val 0 s end.
Lemma parse_dec_dec z : parse_dec (dec z) = z.
Proof.
  unfold dec. case_decide as Hz.
  - cbn [parse_dec]. rewrite dec_digits_val; [lia|]. apply dec_fuel. lia.
  - destruct (dec_digits_cons (Z.to_nat (Z.log2 z)) z) as (c & l & E & Hc); [lia|].
    pose proof (dec_digits_val (S (Z.to_nat (Z.log2 z))) z (dec_fuel z ltac:(lia))) as Hv.
    rewrite E in *. destruct c; done.
Qed.
Definition sample_read (ty : coltype) (k : Const) : option value :=
  match ty, k with
  | TInteger, C_Integer z => Some (VInt z)
  | TInteger, C_String s => Some (VInt (parse_dec s))
  | TText, C_String s => Some (VStr s)
  | _, _ => None
  end.
Fixpoint sample_holds (r : Row) (n : Node) : truth :=
  match n with
  | N_A_Expr AEXPR_OP [N_String o] (Some (N_ColumnRef [N_String c] _)) (Some (N_A_Const (Some k) _)) _ =>
    if decide (o = bs "=") then ty ← sample_types c; v ← sample_read ty k; w ← r c; Some (bool_decide (w = v))
    else Some true
  | N_BoolExpr AND_EXPR args _ => foldr and3 (Some true) (map (sample_holds r) args)
  | N_BoolExpr OR_EXPR args _ => foldr or3 (Some false) (map (sample_holds r) args)
  | N_BoolExpr NOT_EXPR [a] _ => not3 (sample_holds r a)
  | _ => Some true
  end.
Lemma sample_conditions : pg_conditions sample_types sample_holds.
Proof.
  split; [|done..]. intros r c ty k v l1 l2 l3 Hty Hr. cbn [sample_holds eq_node].
  rewrite decide_True by done. rewrite Hty. cbn [mbind option_bind].
  destruct Hr; cbn [sample_read mbind option_bind]; [done|done|by rewrite parse_dec_dec].
Qed.

(** Statements for the witnesses. *)
Lemma sample_sharded : sharded sample_map (bs "orders") range_rule (bs "user_id").
Proof.
  split; [vm_compute; reflexivity|reflexivity|reflexivity|by apply (bool_decide_unpack (BSLASH ∉ bs "user_id"))|done].
Qed.
Lemma key_plain z l1 l2 l3 :
  const_fits (C_Integer z) = true →
  plain sample_types (bs "user_id") (eq_node AEXPR_OP (bs "user_id") [] (C_Integer z) l1 l2 l3).
Proof. by apply (plain_equality _ _ _ TInteger). Qed.
Lemma sample_and_plain : plain sample_types (bs "user_id") sample_and.
Proof.
  apply plain_and; [done|]. constructor; [by apply plain_no_key; vm_compute|].
  constructor; [by apply key_plain|constructor].
Qed.
Definition sample_row_of (z : Z) : Row := λ c,
  if decide (c = bs "user_id") then Some (VInt z) else Some (VStr (bs "pen")).
Lemma sample_lives : lives_on sample_map range_rule (sample_row_of 1234567) 1.
Proof. exists (bs "user_id"), (VInt 1234567). repeat split; vm_compute; reflexivity. Qed.
Lemma sample_accepts : accepts sample_holds (Some sample_and) (sample_row_of 1234567).
Proof. reflexivity. Qed.
Lemma statement_reaches_its_rows_witness :
  ∃ d, route_sql sample_pg sample_map (bs "select") = Ret (Some d) ∧
    lives_on sample_map range_rule (sample_row_of 1234567) 1 ∧ target_shards d = [1].
Proof.
  destruct (statement_reaches_its_rows sample_types sample_holds sample_parser sample_map (bs "select")
    (select_node (bs "orders") sample_and) (bs "orders") (Some sample_and) range_rule (bs "user_id")
    sample_conditions sample_well_built sample_map_wf) as (d & E & _ & Hd);
    [exists 0%Z, 0%Z, []; reflexivity|by eapply table_select|exact sample_sharded|exact sample_and_plain|].
  exists d. split; [exact E|]. split; [exact sample_lives|]. apply (Hd _ 1 sample_accepts sample_lives).
  assert (route_sql sample_pg sample_map (bs "select") = Ret (Some (single range_rule 1))) as E'
    by (vm_compute; reflexivity).
  unfold sample_pg in E'. rewrite E in E'. injection E' as ->. reflexivity.
Defined.
(** [user_id = 42 OR user_id = 1234567] is sent to shard 0 alone. *)
Definition sample_or : Node := N_BoolExpr OR_EXPR [sample_eq; sample_found] 50.
Lemma or_and_not_miss_rows_witness :
  let raw : RawParser := λ _ _ _, inr [mkRawStmt (select_node (bs "orders") sample_or) 0 0] in
  route_sql (query_tree raw) sample_map (bs "or") = Ret (Some (single range_rule 0)) ∧
  accepts sample_holds (Some sample_or) (sample_row_of 1234567) ∧
  lives_on sample_map range_rule (sample_row_of 1234567) 1.
Proof.
  intros raw.
  destruct (or_and_not_miss_rows raw sample_map (bs "or") (select_node (bs "orders") sample_or) (bs "orders")
      (bs "user_id") (C_Integer 42) (VInt 42) 44 54 52 OR_EXPR [sample_found] 50 range_rule) as [E Ho];
    [intros g q m tree [= <-]; reflexivity|exact sample_map_wf|exists 0%Z, 0%Z, []; reflexivity|
     by eapply table_select|exact sample_sharded|reflexivity|reflexivity|reflexivity|].
  split; [exact E|]. split; [|exact sample_lives].
  destruct (Ho sample_types sample_holds sample_conditions) as [Hor _].
  apply (Hor (sample_row_of 1234567) sample_found); [reflexivity|left|reflexivity].
Defined.
(** [user_id = '1234567'] is sent to shard 0. *)
Definition sample_quoted : Node :=
  eq_node AEXPR_OP (bs "user_id") [] (C_String (dec 1234567)) 44 54 52.
Lemma quoted_key_misses_rows_witness :
  let raw : RawParser := λ _ _ _, inr [mkRawStmt (select_node (bs "orders") sample_quoted) 0 0] in
  route_sql (query_tree raw) sample_map (bs "quoted") = Ret (Some (single range_rule 0)) ∧
  accepts sample_holds (Some sample_quoted) (sample_row_of 1234567) ∧
  lives_on sample_map range_rule (sample_row_of 1234567) 1.
Proof.
  intros raw.
  destruct (quoted_key_misses_rows sample_types sample_holds raw sample_map (bs "quoted")
    (select_node (bs "orders") sample_quoted) (bs "orders") (bs "user_id") 1234567 44 54 52 range_rule)
    as (x & y & Hx & Hy & E & Hrow);
    [exact sample_conditions|reflexivity|intros g q m tree [= <-]; reflexivity|exact sample_map_wf|
     exists 0%Z, 0%Z, []; reflexivity|by eapply table_select|exact sample_sharded|].
  assert (place sample_map range_rule (hash_loop 5381 (dec 1234567)) = Some 0) as Hx' by (vm_compute; reflexivity).
  rewrite Hx in Hx'. injection Hx' as ->. split; [exact E|]. split; [|exact sample_lives].
  apply (Hrow (sample_row_of 1234567)). reflexivity.
Defined.
