(* ===== verification/Store.v ===== *)
(** * The shards as one table

    The databases are not part of the program: what a shard does with a statement is a
    parameter, a relation of which only the documented contract of simple SQL statements is
    assumed ([sql_contract]).  If every shard keeps this contract for its rows, then the
    shards together keep it for all the rows of the table, when each statement is executed on
    the shards that the router picks. *)
From S2P Require Import Prelude Json PgTree PgPrint PgQuery Parser LibPQ Pool ShardMap Router Keys Sql Rows.

(** The rows that each shard has of the table. *)
Definition Store : Type := nat → list Row.
(** A row as a SELECT returns it: the texts of its columns. *)
Definition Answer : Type := list (option bytes).

(** ** Simple statements *)

Definition column_target (n : Node) : Prop :=
  match n with N_ResTarget _ _ (Some (N_ColumnRef _ _)) _ => True | _ => False end.
(** One row in VALUES, without the other clauses that change what an INSERT writes. *)
Record one_row (s : InsertStmt Node (list (bytes * Field))) (vals : list Node) : Prop := mkOneRow {
  one_row_values : ∃ sel, ins_selectStmt s = Some (N_SelectStmt sel) ∧ valuesLists sel = [N_List vals];
  one_row_conflict : onConflictClause s = None;
  one_row_with : ins_withClause s = None;
  one_row_returning : ins_returningList s = [];
}.
(** A SELECT of columns of the table alone, without clauses that look at several rows at
    once; an UPDATE or a DELETE without other tables. *)
Inductive simple (t : bytes) (wh : option Node) : Node → Prop :=
| simple_select s rv :
    fromClause s = [N_RangeVar rv] → rv_relname rv = Some t → sel_whereClause s = wh →
    Forall column_target (sel_targetList s) →
    distinctClause s = [] → intoClause s = None → groupClause s = [] → havingClause s = None →
    windowClause s = [] → limitOffset s = None → limitCount s = None → sel_withClause s = None →
    sel_op s = SETOP_NONE → simple t wh (N_SelectStmt s)
| simple_update s :
    rv_relname (upd_relation s) = Some t → upd_whereClause s = wh →
    upd_fromClause s = [] → upd_returningList s = [] → upd_withClause s = None →
    simple t wh (N_UpdateStmt s)
| simple_delete s :
    rv_relname (del_relation s) = Some t → del_whereClause s = wh →
    usingClause s = [] → del_returningList s = [] → del_withClause s = None →
    simple t wh (N_DeleteStmt s).
Inductive simple_on (t : bytes) : Node → Prop :=
| simple_on_rows wh n : simple t wh n → simple_on t n
| simple_on_insert s vals :
    rv_relname (ins_relation s) = Some t → one_row s vals → simple_on t (N_InsertStmt s).
Lemma simple_table t wh n : simple t wh n → table_stmt t wh n.
Proof. destruct 1; [by eapply table_select|by apply table_update|by apply table_delete]. Qed.

Definition target_name (n : Node) : option bytes :=
  match n with N_ResTarget name _ _ _ => name | _ => None end.
Definition assigned (n : Node) : list Node :=
  match n with N_UpdateStmt s => upd_targetList s | _ => [] end.

(** ** What SQL documents of them *)
Section contract.
Context (types : bytes → option coltype) (holds : Row → Node → truth).
(** The text of a row in the answer to a SELECT, and the statements whose expressions depend
    on the row alone. *)
Context (show : Node → Row → Answer) (stable : Node → Prop).

#[export] Instance accepts_dec wh r : Decision (accepts holds wh r).
Proof. destruct wh; unfold accepts; apply _. Defined.
(** An UPDATE leaves alone the rows that it does not accept and the columns that it does not
    assign; a row of an INSERT has the constants that are written for its columns. *)
Definition updated (wh : option Node) (targets : list Node) (r r' : Row) : Prop :=
  if decide (accepts holds wh r) then ∀ c, Forall (λ n, target_name n ≠ Some c) targets → r' c = r c
  else r' = r.
Definition inserted (s : InsertStmt Node (list (bytes * Field))) (r : Row) : Prop :=
  ∀ vals c i k loc ty v, one_row s vals →
    index_of (Some c) (List.map target_name (ins_cols s)) = Some i →
    vals !! i = Some (N_A_Const (Some k) loc) → types c = Some ty → reads ty k v → r c = Some v.
(** [effect n l l' rs]: on a table with the rows [l] the statement [n] may leave the rows [l']
    and return [rs].  Tables have no order. *)
Definition effect (n : Node) (l l' : list Row) (rs : list Answer) : Prop :=
  match n with
  | N_SelectStmt s => l' ≡ₚ l ∧ rs ≡ₚ show n <$> filter (accepts holds (sel_whereClause s)) l
  | N_UpdateStmt s =>
    rs = [] ∧ ∃ l2, l' ≡ₚ l2 ∧ Forall2 (updated (upd_whereClause s) (upd_targetList s)) l l2
  | N_DeleteStmt s => rs = [] ∧ l' ≡ₚ filter (λ r, ¬ accepts holds (del_whereClause s) r) l
  | N_InsertStmt s => rs = [] ∧ ∃ r, l' ≡ₚ r :: l ∧ inserted s r
  | _ => True
  end.
(** A database that executes statements by the relation [run] keeps the contract. *)
Definition sql_contract (t : bytes) (run : Node → list Row → list Row → list Answer → Prop) : Prop :=
  ∀ n l l' rs, simple_on t n → stable n → run n l l' rs → effect n l l' rs.
(** A sequence of statements on one table. *)
Inductive effects : list Node → list Row → list (list Answer) → list Row → Prop :=
| effects_nil l : effects [] l [] l
| effects_cons n ns l l1 l2 rs rss :
    effect n l l1 rs → effects ns l1 rss l2 → effects (n :: ns) l (rs :: rss) l2.

Lemma effect_perm_rows n l l1 l' rs : l ≡ₚ l1 → effect n l1 l' rs → effect n l l' rs.
Proof.
  intros E. destruct n; cbn [effect]; try done.
  - by rewrite E.
  - intros (-> & r & ? & ?). split; [done|]. exists r. by rewrite E.
  - intros (-> & l2 & ? & Hl). split; [done|]. symmetry in E.
    destruct (Permutation_Forall2 E Hl) as (l3 & ? & ?). exists l3. split; [by etrans|done].
  - by rewrite E.
Qed.
Lemma effect_perm_left n l l' l1 rs : l' ≡ₚ l1 → effect n l l1 rs → effect n l l' rs.
Proof.
  intros E. destruct n; cbn [effect]; try done.
  - by rewrite E.
  - intros (-> & r & ? & ?). split; [done|]. exists r. by rewrite E.
  - intros (-> & l2 & ? & Hl). split; [done|]. exists l2. by rewrite E.
  - by rewrite E.
Qed.
Lemma effect_perm_answer n l l' rs rs1 : rs ≡ₚ rs1 → effect n l l' rs1 → effect n l l' rs.
Proof.
  intros E. destruct n; cbn [effect]; try done; [by rewrite E|..];
    intros [-> ?]; (split; [by apply Permutation_nil_r in E|done]).
Qed.

(** Only INSERT does not treat the rows one by one. *)
Definition row_wise (n : Node) : Prop := match n with N_InsertStmt _ => False | _ => True end.
Lemma effect_app n l1 l2 l1' l2' r1 r2 :
  row_wise n → effect n l1 l1' r1 → effect n l2 l2' r2 → effect n (l1 ++ l2) (l1' ++ l2') (r1 ++ r2).
Proof.
  destruct n; cbn [effect row_wise]; try done; intros _.
  - intros [-> ->] [-> ->]. by rewrite filter_app, fmap_app.
  - intros (-> & x & E1 & H1) (-> & y & E2 & H2). split; [done|]. exists (x ++ y). split; [by rewrite E1, E2|by apply Forall2_app].
  - intros [-> ->] [-> ->]. by rewrite filter_app.
Qed.
Lemma effect_nil n : row_wise n → effect n [] [] [].
Proof. destruct n; cbn [effect row_wise]; try done. intros _. split; [done|]. exists []. split; [done|constructor]. Qed.
Lemma effect_concat {A} n (f g : A → list Row) (h : A → list Answer) l :
  row_wise n → (∀ x, x ∈ l → effect n (f x) (g x) (h x)) →
  effect n (concat (f <$> l)) (concat (g <$> l)) (concat (h <$> l)).
Proof.
  intros Hn He. induction l as [|x l IH]; [by apply effect_nil|]. cbn [fmap list_fmap concat].
  apply effect_app; [done|apply He; left|]. apply IH. intros y Hy. apply He. by right.
Qed.
(** Rows that the WHERE clause does not accept are left alone. *)
Lemma effect_no_match t wh n l :
  simple t wh n → Forall (λ r, ¬ accepts holds wh r) l → effect n l l [].
Proof.
  intros Hn Hl. assert (filter (accepts holds wh) l = []) as Hf by (by induction Hl; [|rewrite filter_cons_False]).
  destruct Hn as [s rv _ _ <-|s _ <-|s _ <-]; cbn [effect].
  - by rewrite Hf.
  - split; [done|]. exists l. split; [done|]. clear Hf. induction Hl; constructor; [|done].
    unfold updated. by rewrite decide_False.
  - split; [done|]. clear Hf. induction Hl as [|r l Hr Hl IH]; [done|]. rewrite filter_cons_True by done. by constructor.
Qed.
End contract.

(** ** Statements on the shards *)
Section cluster.
Context (raw : RawParser) (map : ShardMap).
(** What each shard may do with a statement: the rows it had, those it has afterwards, and
    what it returns. *)
Context (run_on : nat → Node → list Row → list Row → list Answer → Prop).

Definition single_stmt (sql : bytes) (n : Node) : Prop :=
  ∃ location len, raw default_settings sql RAW_PARSE_DEFAULT = inr [mkRawStmt n location len].
Lemma single_parses sql n : single_stmt sql n → parses raw sql n.
Proof. intros (location & len & E). by exists location, len, []. Qed.
(** The statement of the text is sent to the shards of the decision. *)
Definition sent_to (sql : bytes) (d : RouteDecision) : Prop :=
  route_sql (query_tree raw) map sql = Ret (Some d) ∧
  (route_type d = ROUTE_SINGLE ∨ route_type d = ROUTE_SCATTER).
(** The shards [ts] execute the statement, each with the answer [f]; the others do nothing. *)
Definition shards_run (ts : list nat) (n : Node) (st st' : Store) (f : nat → list Answer) : Prop :=
  (∀ s, s ∈ ts → run_on s n (st s) (st' s) (f s)) ∧ (∀ s, s ∉ ts → st' s = st s).
(** A sequence of statements; the answer to each is what its shards return, together. *)
Inductive cluster_runs : list bytes → Store → list (list Answer) → Store → Prop :=
| cluster_nil st : cluster_runs [] st [] st
| cluster_cons sql sqls n d f st st1 st2 rss :
    single_stmt sql n → sent_to sql d → shards_run (target_shards d) n st st1 f →
    cluster_runs sqls st1 rss st2 →
    cluster_runs (sql :: sqls) st (concat (f <$> target_shards d) :: rss) st2.
End cluster.

(** The statements that a table sharded by [col] supports: the WHERE clause is routed well
    and the shard column is not assigned; an INSERT has one row, with a constant of the type
    of the shard column that the code finds for it. *)
Inductive supported (types : bytes → option coltype) (t col : bytes) : Node → Prop :=
| supported_rows wh n :
    simple t wh n → opt_prop (plain types col) wh → Forall (λ n, target_name n ≠ Some col) (assigned n) →
    supported types t col n
| supported_insert s cols vals i k ty v loc :
    inserts s t cols vals → one_row s vals →
    index_of (Some col) (List.map (λ c, Some (esc c.1)) cols) = Some i →
    vals !! i = Some (N_A_Const (Some k) loc) → types col = Some ty → direct ty k →
    const_width k → const_key k = Some v →
    supported types t col (N_InsertStmt s).
Lemma supported_simple types t col n : supported types t col n → simple_on t n.
Proof.
  destruct 1 as [|s cols vals i k ty v loc Hi]; [by eapply simple_on_rows|].
  eapply simple_on_insert; [apply Hi|done].
Qed.

(** ** The refinement *)

(** Looking up a name without escapes in the printed names. *)
Lemma index_of_esc col cols i :
  BSLASH ∉ col →
  index_of (Some col) (List.map (λ c : bytes * Z, Some (esc c.1)) cols) = Some i →
  index_of (Some col) (List.map target_name (List.map (λ c, col_target c.1 c.2) cols)) = Some i ∧ esc col = col.
Proof.
  intros Hn. revert i. induction cols as [|[c loc] cols IH]; intros i; [done|].
  cbn [List.map index_of target_name col_target fst snd]. case_decide as E.
  - injection E as E. intros [= <-]. assert (c = col) as -> by (rewrite <- E; symmetry; apply esc_plain; by rewrite E).
    by rewrite decide_True.
  - rewrite fmap_Some. intros (j & Hj & ->). destruct (IH j Hj) as [-> Hcol]. split; [|done].
    rewrite decide_False; [done|]. congruence.
Qed.
(** A sublist of the shards outside of which a function gives nothing. *)
Lemma shards_split (ts l : list nat) :
  NoDup ts → NoDup l → ts ⊆ l → ∃ rest, l ≡ₚ ts ++ rest ∧ ∀ s, s ∈ rest → s ∉ ts.
Proof.
  intros Ht Hl Hs. destruct (submseteq_Permutation ts l) as [rest E]; [by apply NoDup_submseteq|].
  exists rest. split; [done|]. rewrite E in Hl. apply NoDup_app in Hl as (_ & Hd & _). naive_solver.
Qed.
Lemma concat_perm {A B} (f : A → list B) l l' : l ≡ₚ l' → concat (f <$> l) ≡ₚ concat (f <$> l').
Proof. intros E. by rewrite E. Qed.
Lemma concat_on {A} (ts l : list nat) (f : nat → list A) :
  NoDup ts → NoDup l → ts ⊆ l →
  concat ((λ s, if decide (s ∈ ts) then f s else []) <$> l) ≡ₚ concat (f <$> ts).
Proof.
  intros Ht Hl Hsub. destruct (shards_split ts l Ht Hl Hsub) as (rest & E & Hrest).
  rewrite (concat_perm _ _ _ E), fmap_app, concat_app. clear E Hl Hsub.
  assert (concat ((λ s, if decide (s ∈ ts) then f s else []) <$> rest) = []) as ->.
  { induction rest as [|s rest IH]; [done|]. cbn [fmap list_fmap concat].
    rewrite decide_False by (apply Hrest; left). apply IH. intros x Hx. apply Hrest. by right. }
  rewrite app_nil_r. assert ((λ s, if decide (s ∈ ts) then f s else []) <$> ts = f <$> ts) as ->; [|done].
  apply list_fmap_ext. intros i s Hs. rewrite decide_True; [done|]. by eapply list_elem_of_lookup_2.
Qed.

Section refinement.
Context (types : bytes → option coltype) (holds : Row → Node → truth)
  (show : Node → Row → Answer) (stable : Node → Prop)
  (run_on : nat → Node → list Row → list Row → list Answer → Prop)
  (raw : RawParser) (map : ShardMap) (t : bytes) (rule : TableRule) (col : bytes).

(** Each row is on its shard, and the rows of all shards of the table. *)
Definition placed (st : Store) : Prop := ∀ s, Forall (λ r, lives_on map rule r s) (st s).
Definition rows_of (st : Store) : list Row := concat (st <$> rule_shards rule).

Context (Hpg : pg_conditions types holds) (Hraw : well_built raw) (Hm : map_wf map)
  (Hs : sharded map t rule col) (Hd : NoDup (rule_shards rule))
  (Hrun : ∀ s, sql_contract types holds show stable t (run_on s)).
#[local] Abbreviation effect := (effect types holds show).

Lemma lives_on_same r r' s : r' col = r col → lives_on map rule r s → lives_on map rule r' s.
Proof.
  intros E (c & v & Hc & Hv & Hp). rewrite (sharded_column _ _ _ _ Hs) in Hc. injection Hc as <-.
  exists col, v. split; [apply Hs|]. by rewrite E.
Qed.
Lemma effect_lives wh n l l' rs s :
  simple t wh n → Forall (λ n, target_name n ≠ Some col) (assigned n) → effect n l l' rs →
  Forall (λ r, lives_on map rule r s) l → Forall (λ r, lives_on map rule r s) l'.
Proof.
  intros Hn Ht He Hl. destruct Hn; cbn [Store.effect assigned] in *.
  - destruct He as [-> _]. done.
  - destruct He as (_ & l2 & -> & Hu). induction Hu as [|r r' l l2 Hr Hu IH]; [constructor|].
    apply Forall_cons in Hl as [Hlr Hl]. constructor; [|by apply IH].
    unfold updated in Hr. case_decide; [|by subst r']. by apply (lives_on_same r); [apply Hr|].
  - destruct He as [_ ->]. apply Forall_forall. intros r [_ Hr]%list_elem_of_filter. by eapply Forall_forall in Hl.
Qed.
(** A statement whose rows are all on the shards [ts] can be executed there alone. *)
Lemma shards_effect wh n ts st st' f :
  simple t wh n → stable n → NoDup ts → ts ⊆ rule_shards rule → shards_run run_on ts n st st' f →
  (∀ s, s ∉ ts → Forall (λ r, ¬ accepts holds wh r) (st s)) →
  effect n (rows_of st) (rows_of st') (concat (f <$> ts)).
Proof.
  intros Hn Hst Hts Hsub [Hr Hno] Hacc.
  eapply effect_perm_answer; [symmetry; by apply (concat_on ts (rule_shards rule) f)|].
  apply effect_concat; [by destruct Hn|]. intros s _. case_decide as Hin.
  - apply (Hrun s); [by eapply simple_on_rows|done|by apply Hr].
  - rewrite (Hno s Hin). by apply (effect_no_match _ _ _ t wh), Hacc.
Qed.
Lemma by_where_targets o :
  let d := by_where map rule col o in
  NoDup (target_shards d) ∧ target_shards d ⊆ rule_shards rule ∧
  (route_type d = ROUTE_SINGLE ∨ route_type d = ROUTE_SCATTER).
Proof.
  assert (∀ d, d = scatter rule → NoDup (target_shards d) ∧ target_shards d ⊆ rule_shards rule ∧
    (route_type d = ROUTE_SINGLE ∨ route_type d = ROUTE_SCATTER)) as Hsc by (intros ? ->; cbn; auto).
  destruct o as [[c v]|]; cbn [by_where]; [|by apply Hsc]. case_decide; [|by apply Hsc].
  unfold by_key. destruct (place map rule (value_hash v)) as [s|] eqn:E; [|by apply Hsc]. cbn.
  split_and!; [apply NoDup_singleton| |by left]. intros x ->%list_elem_of_singleton. by eapply place_in.
Qed.

(** What each statement has to do for the simulation: it is routed, and its runs on the
    shards are a run on the whole table. *)
Definition step_ok (sql : bytes) (n : Node) : Prop :=
  ∃ d, sent_to raw map sql d ∧
  ∀ st st' f, placed st → shards_run run_on (target_shards d) n st st' f →
    placed st' ∧ effect n (rows_of st) (rows_of st') (concat (f <$> target_shards d)).
Lemma row_wise_step sql wh n :
  single_stmt raw sql n → stable n → simple t wh n → opt_prop (plain types col) wh →
  Forall (λ n, target_name n ≠ Some col) (assigned n) → step_ok sql n.
Proof.
  intros Hp Hst Hn Hwh Has.
  destruct (statement_reaches types holds Hpg raw map sql n t wh rule col Hraw Hm (single_parses _ _ _ Hp)
    (simple_table _ _ _ Hn) Hs Hwh) as [Er Ho].
  destruct (by_where_targets (wh ≫= key_in)) as (Hnd & Hsub & Hty).
  eexists. split; [by split; [exact Er|]|]. intros st st' f Hpl Hsr. split.
  - intros s. destruct (decide (s ∈ target_shards (by_where map rule col (wh ≫= key_in)))) as [Hin|Hin].
    + eapply (effect_lives wh n); [done|done| |apply Hpl].
      apply (Hrun s); [by eapply simple_on_rows|done|by apply Hsr].
    + by rewrite (proj2 Hsr s Hin).
  - apply (shards_effect wh n _ st st' f Hn Hst Hnd Hsub Hsr).
    intros s Hin. apply (Forall_impl _ _ _ (Hpl s)). intros r Hr Ha. by apply Hin, (Ho r s).
Qed.

Lemma direct_key ty k v : direct ty k → const_key k = Some v → ∃ w, reads ty k w ∧ as_key w = v.
Proof. intros Hk Hv. destruct (direct_reads ty k Hk) as (w & Hw & [E|E]); [|congruence]. exists w. split; [done|congruence]. Qed.
(** An INSERT on one shard adds its row to the table. *)
Lemma insert_effect s d st st' f :
  d ∈ rule_shards rule → shards_run run_on [d] (N_InsertStmt s) st st' f →
  effect (N_InsertStmt s) (st d) (st' d) (f d) →
  effect (N_InsertStmt s) (rows_of st) (rows_of st') (concat (f <$> [d])).
Proof.
  intros Hin [_ Hno] (Hf & r & Er & Hr). unfold rows_of.
  destruct (shards_split [d] (rule_shards rule)) as (rest & E & Hrest);
    [apply NoDup_singleton|exact Hd|by intros x ->%list_elem_of_singleton|].
  assert (st' <$> rest = st <$> rest) as Erest.
  { apply list_fmap_ext. intros i x Hx. by apply Hno, Hrest, list_elem_of_lookup_2 with i. }
  split; [cbn; by rewrite Hf|]. exists r. split; [|done].
  rewrite !(concat_perm _ _ _ E). cbn [app]. rewrite !fmap_cons, Erest. cbn [concat]. by rewrite Er.
Qed.
Lemma insert_step sql s cols vals i k ty v loc :
  single_stmt raw sql (N_InsertStmt s) → stable (N_InsertStmt s) → inserts s t cols vals → one_row s vals →
  index_of (Some col) (List.map (λ c, Some (esc c.1)) cols) = Some i →
  vals !! i = Some (N_A_Const (Some k) loc) → types col = Some ty → direct ty k → const_width k →
  const_key k = Some v → step_ok sql (N_InsertStmt s).
Proof.
  intros Hp Hst Hins Hone Hi Hval Hty Hdir Hw Hk.
  pose proof Hs as [Hr Hb Hc Hname Hne]. destruct (place_total map rule (value_hash v) Hne) as [d Hpl].
  destruct (index_of_esc col cols i Hname Hi) as [Hi' Hesc].
  assert (route_sql (query_tree raw) map sql = Ret (Some (single rule d))) as Er.
  { rewrite (route_insert raw map sql s cols vals t col (N_A_Const (Some k) loc) k v loc i rule);
      [unfold by_key; by rewrite Hpl|try (done || by rewrite Hesc)..].
    by apply single_parses. }
  exists (single rule d). split; [by split; [|left]|]. cbn [target_shards single]. intros st st' f Hst1 Hsr.
  assert (effect (N_InsertStmt s) (st d) (st' d) (f d)) as He.
  { apply (Hrun d); [by eapply simple_on_insert; [apply Hins|]|done|apply Hsr; by left]. }
  split; [|apply insert_effect; [by eapply place_in|done..]].
  intros x. destruct (decide (x ∈ [d])) as [->%list_elem_of_singleton|Hx]; [|by rewrite (proj2 Hsr x Hx)].
  destruct He as (_ & r & -> & Hrow). constructor; [|apply Hst1].
  destruct (direct_key ty k v Hdir Hk) as (w & Hrd & <-). exists col, w. split; [done|]. split; [|done].
  apply (Hrow vals col i k loc ty w); try done. by rewrite (inserts_cols _ _ _ _ Hins).
Qed.
Lemma supported_step sql n : single_stmt raw sql n → stable n → supported types t col n → step_ok sql n.
Proof. intros Hp Hst Hn. destruct Hn as [wh n Hn Hwh Has|]; [by apply (row_wise_step sql wh)|by eapply insert_step]. Qed.

Lemma run_refines sqls ns :
  Forall2 (λ sql n, single_stmt raw sql n ∧ stable n ∧ supported types t col n) sqls ns →
  Forall (λ sql, ∃ d, sent_to raw map sql d) sqls ∧
  ∀ st rss st', placed st → cluster_runs raw map run_on sqls st rss st' →
    placed st' ∧ effects types holds show ns (rows_of st) rss (rows_of st').
Proof.
  induction 1 as [|sql n sqls ns (Hp & Hst & Hn) _ [IHr IH]].
  { split; [constructor|]. intros st rss st' Hpl Hc. inversion Hc; subst. split; [done|constructor]. }
  destruct (supported_step sql n Hp Hst Hn) as (d & Hd1 & Hstep). split; [constructor; [by exists d|done]|].
  intros st rss st' Hpl Hc. inversion Hc as [|? ? n' d' f ? st1 ? rss' Hp' Hd' Hsr Hc']; subst.
  assert (n' = n) as ->.
  { destruct Hp as (? & ? & E1), Hp' as (? & ? & E2). rewrite E1 in E2. by injection E2. }
  assert (d' = d) as -> by (destruct Hd1 as [E1 _], Hd' as [E2 _]; rewrite E1 in E2; by injection E2).
  destruct (Hstep st st1 f Hpl Hsr) as [Hpl1 He]. destruct (IH st1 rss' st' Hpl1 Hc') as [Hpl2 Hes].
  split; [done|]. by econstructor.
Qed.
End refinement.

(** ** Broadcast tables *)

Lemma simple_on_tree t n r :
  simple_on t n → stmt_type r = stmt_type_tree (outNode n) →
  let p := stmt_tree (outNode n) r in
  (row_stmt (stmt_type p) ∨ stmt_type p = STMT_INSERT) ∧ table_name p = Some (esc t).
Proof.
  intros Hn Hr. cbn zeta. destruct Hn as [wh n Hn%simple_table|s vals Ht Hone].
  - destruct (table_stmt_tree t wh n r Hn Hr) as (Hrow & r' & -> & Hst & _ & Htn).
    destruct (where_opt_keeps wh r') as [-> ->]. rewrite Hst. auto.
  - rewrite (insert_stmt_tree s r Hr).
    destruct (rangevar_stmt (JObj (outRangeVar (ins_relation s))) r) as [-> _].
    rewrite Hr, (rangevar_table _ _ t Ht). by auto.
Qed.
Lemma route_broadcast raw map sql n t rule :
  well_built raw → map_wf map → parses raw sql n → simple_on t n →
  rule_of map (esc t) = Some rule → broadcast rule = true →
  route_sql (query_tree raw) map sql = Ret (Some (scatter rule)).
Proof.
  intros Hraw Hm (location & len & rest & E) Hn Hr Hb.
  destruct (route_sql_node raw map sql (mkRawStmt n location len) rest Hraw E) as [_ ->]. clear E.
  unfold parsed_of. cbn [raw_stmt].
  edestruct (simple_on_tree t n) as [Hrow Htn]; [exact Hn| |]; cycle 1.
  - rewrite router_decide_class by done.
    assert (∀ p, row_stmt (stmt_type p) ∨ stmt_type p = STMT_INSERT → table_name p = Some (esc t) →
      classify map p = Scatter rule) as Hcl.
    { intros p Hp Hpt. unfold classify. rewrite Hpt. cbn [mbind option_bind]. rewrite Hr, Hb.
      unfold row_stmt in Hp. by destruct Hp as [[->|[->| ->]]| ->]. }
    by rewrite Hcl.
  - done.
Qed.

(** ** Properties *)


(** ** A database for the witnesses *)

Definition sample_new (s : InsertStmt Node (list (bytes * Field))) (vals : list Node) : Row := λ c,
  i ← index_of (Some c) (List.map target_name (ins_cols s));
  match vals !! i with
  | Some (N_A_Const (Some k) _) => ty ← sample_types c; sample_read ty k
  | _ => None
  end.
Fixpoint sample_assign (l : list Node) (r : Row) : Row := λ c,
  match l with
  | [] => r c
  | N_ResTarget (Some d) _ (Some (N_A_Const (Some k) _)) _ :: l =>
    if decide (d = c) then ty ← sample_types c; sample_read ty k else sample_assign l r c
  | _ :: l => sample_assign l r c
  end.
Definition sample_show (n : Node) (r : Row) : Answer :=
  List.map (λ c, v ← r c; Some (match v with VInt z => dec z | VStr x => x end)) [bs "user_id"; bs "item"].
Definition sample_exec (n : Node) (l : list Row) : list Row * list Answer :=
  match n with
  | N_SelectStmt s => (l, sample_show n <$> filter (accepts sample_holds (sel_whereClause s)) l)
  | N_UpdateStmt s =>
    ((λ r, if decide (accepts sample_holds (upd_whereClause s) r) then sample_assign (upd_targetList s) r else r)
       <$> l, [])
  | N_DeleteStmt s => (filter (λ r, ¬ accepts sample_holds (del_whereClause s) r) l, [])
  | N_InsertStmt s =>
    match ins_selectStmt s with
    | Some (N_SelectStmt sel) =>
      match valuesLists sel with [N_List vals] => (sample_new s vals :: l, []) | _ => (l, []) end
    | _ => (l, [])
    end
  | _ => (l, [])
  end.
Definition sample_run (s : nat) (n : Node) (l l' : list Row) (rs : list Answer) : Prop :=
  sample_exec n l = (l', rs).
Lemma reads_sample ty k v : reads ty k v → sample_read ty k = Some v.
Proof. destruct 1; cbn [sample_read]; [done|done|by rewrite parse_dec_dec]. Qed.
Lemma sample_assign_named l r c :
  Forall (λ n, target_name n ≠ Some c) l → sample_assign l r c = r c.
Proof.
  intros Hl. induction Hl as [|n l Hn Hl IH]; [done|]. cbn [sample_assign].
  destruct n; try done. repeat case_match; try done. cbn in Hn. congruence.
Qed.
Lemma sample_contract t s :
  sql_contract sample_types sample_holds sample_show (λ _, True) t (sample_run s).
Proof.
  intros n l l' rs Hn _. unfold sample_run. destruct Hn as [wh n Hn|i vals Ht Hone].
  - destruct Hn; cbn [sample_exec effect]; intros [= <- <-]; [done| |done]. split; [done|]. eexists. split; [reflexivity|].
    apply Forall2_fmap_r. apply Forall_Forall2_diag, Forall_true. intros r. unfold updated.
    unfold compose. destruct (decide _); [|done]. intros c. apply sample_assign_named.
  - destruct Hone as [(sel & Es & Ev) Hc Hw Hr]. cbn [sample_exec effect]. rewrite Es, Ev.
    intros [= <- <-]. split; [done|]. eexists. split; [reflexivity|].
    intros vals' c j k loc ty v [(sel' & Es' & Ev') _ _ _] Hj Hk Hty Hv.
    assert (vals' = vals) as -> by congruence. unfold sample_new. rewrite Hj. cbn [mbind option_bind].
    rewrite Hk, Hty. by apply reads_sample.
Qed.
(** [INSERT INTO orders (item, user_id) VALUES ('pen', 1234567)],
    [SELECT * FROM t WHERE wh], [UPDATE orders SET item = 'cup' WHERE user_id = 1234567] and
    [DELETE FROM orders WHERE user_id = 42]. *)
Definition row_insert : InsertStmt Node (list (bytes * Field)) :=
  mkInsertStmt (sample_table (bs "orders")) [col_target (bs "item") 20; col_target (bs "user_id") 26]
    (Some (N_SelectStmt (mkSelectStmt [] None [] [] None [] false None []
      [N_List [N_A_Const (Some (C_String (bs "pen"))) 44; sample_key 1234567]] [] None None
      LIMIT_OPTION_DEFAULT [] None SETOP_NONE false None None)))
    None [] None OVERRIDING_NOT_SET.
Definition row_select (t : bytes) (wh : option Node) : Node :=
  N_SelectStmt (mkSelectStmt [] None [N_ResTarget None [] (Some (N_ColumnRef [N_A_Star] 7)) 7]
    [N_RangeVar (sample_table t)] wh [] false None [] [] [] None None LIMIT_OPTION_DEFAULT [] None
    SETOP_NONE false None None).
Definition key_eq (z : Z) : Node := eq_node AEXPR_OP (bs "user_id") [] (C_Integer z) 44 54 52.
Definition row_update : Node :=
  N_UpdateStmt (mkUpdateStmt (sample_table (bs "orders"))
    [N_ResTarget (Some (bs "item")) [] (Some (N_A_Const (Some (C_String (bs "cup"))) 25)) 18]
    (Some (key_eq 1234567)) [] [] None).
Definition row_delete : Node :=
  N_DeleteStmt (mkDeleteStmt (sample_table (bs "orders")) [] (Some (key_eq 42)) [] None).
Definition row_stmts : list (bytes * Node) :=
  [(bs "insert", N_InsertStmt row_insert); (bs "one", row_select (bs "orders") (Some (key_eq 1234567)));
   (bs "update", row_update); (bs "all", row_select (bs "orders") None); (bs "delete", row_delete);
   (bs "countries", row_select (bs "countries") None)].
Definition row_parser : RawParser := λ _ sql _,
  match list_find (λ p : bytes * Node, p.1 = sql) row_stmts with
  | Some (_, (_, n)) => inr [mkRawStmt n 0 0]
  | None => inl (mkErrorData (bs "syntax error") (bs "scan.l") (bs "scanner_yyerror") 1242 1)
  end.
Lemma row_parser_well_built : well_built row_parser.
Proof.
  intros g sql mode tree. unfold row_parser. cbn [list_find row_stmts fst].
  repeat case_decide; intros E; (apply (inj inr) in E || discriminate E); subst tree; reflexivity.
Qed.
Lemma row_single sql n : (sql, n) ∈ row_stmts → single_stmt row_parser sql n.
Proof.
  intros Hin. exists 0%Z, 0%Z. repeat (apply elem_of_cons in Hin as [[= -> ->]|Hin]; [reflexivity|]).
  by apply elem_of_nil in Hin.
Qed.
Lemma row_select_simple t wh : simple t wh (row_select t wh).
Proof. eapply simple_select; repeat constructor. Qed.

Lemma row_supported n :
  n ∈ [N_InsertStmt row_insert; row_select (bs "orders") (Some (key_eq 1234567)); row_update;
       row_select (bs "orders") None; row_delete] →
  supported sample_types (bs "orders") (bs "user_id") n.
Proof.
  intros Hin. repeat (apply elem_of_cons in Hin as [->|Hin]); [| | | | |by apply elem_of_nil in Hin].
  - apply (supported_insert _ _ _ _ [(bs "item", 20%Z); (bs "user_id", 26%Z)]
      [N_A_Const (Some (C_String (bs "pen"))) 44; sample_key 1234567] 1 (C_Integer 1234567) TInteger (VInt 1234567) 51);
      [split; [done|done|by eexists _, []]|split; [by eexists|done..]|vm_compute; reflexivity|done|done|done|
       simpl; lia|done].
  - eapply supported_rows; [apply row_select_simple|by apply key_plain|constructor].
  - eapply supported_rows; [by apply simple_update|by apply key_plain|].
    repeat constructor. vm_compute. discriminate.
  - eapply supported_rows; [apply row_select_simple|done|constructor].
  - eapply supported_rows; [by apply simple_delete|by apply key_plain|constructor].
Qed.
Definition row_store : Store := λ s, if decide (s = 0) then [sample_row_of 42] else [].
Lemma row_store_placed : placed sample_map range_rule row_store.
Proof.
  intros s. unfold row_store. case_decide as E; [|constructor]. subst s. apply Forall_singleton.
  exists (bs "user_id"), (VInt 42). repeat split; vm_compute; reflexivity.
Qed.
Definition row_run : list bytes := [bs "insert"; bs "one"; bs "update"; bs "all"; bs "delete"].
Lemma row_run_ok :
  Forall2 (λ sql n, single_stmt row_parser sql n ∧ True ∧ supported sample_types (bs "orders") (bs "user_id") n)
    row_run (take 5 row_stmts).*2.
Proof.
  apply Forall2_cons_2; [split_and!; [apply row_single; left|done|apply row_supported; left]|].
  apply Forall2_cons_2; [split_and!; [apply row_single; do 1 right; left|done|apply row_supported; do 1 right; left]|].
  apply Forall2_cons_2; [split_and!; [apply row_single; do 2 right; left|done|apply row_supported; do 2 right; left]|].
  apply Forall2_cons_2; [split_and!; [apply row_single; do 3 right; left|done|apply row_supported; do 3 right; left]|].
  apply Forall2_cons_2; [split_and!; [apply row_single; do 4 right; left|done|apply row_supported; do 4 right; left]|].
  constructor.
Qed.
(** The statements are routed and executed one after the other. *)
Lemma cluster_step sql n sqls d st rss st2 :
  single_stmt row_parser sql n → sent_to row_parser sample_map sql d →
  cluster_runs row_parser sample_map sample_run sqls
    (λ s, if decide (s ∈ target_shards d) then (sample_exec n (st s)).1 else st s) rss st2 →
  cluster_runs row_parser sample_map sample_run (sql :: sqls) st
    (concat ((λ s, (sample_exec n (st s)).2) <$> target_shards d) :: rss) st2.
Proof.
  intros Hp Hd. apply cluster_cons with n; [done|done|]. split; intros s Hin.
  - rewrite decide_True by done. unfold sample_run. by destruct (sample_exec n (st s)).
  - by rewrite decide_False.
Qed.
