(* ===== verification/Log.v ===== *)
(** * Logging ([src/src/log.h], [log.c])

    [log_msg] as the bytes it writes to the standard error stream and whether it ends the
    process.  The time of day in the local time zone is an argument. *)
From S2P Require Import Prelude.
#[local] Open Scope Z_scope.

Inductive LogLevel : Type := LOG_DEBUG | LOG_INFO | LOG_WARN | LOG_ERROR | LOG_FATAL.
#[export] Instance LogLevel_eq_dec : EqDecision LogLevel.
Proof. solve_decision. Defined.
(** The values of the enumeration. *)
Definition level_number (l : LogLevel) : Z :=
  match l with LOG_DEBUG => 0 | LOG_INFO => 1 | LOG_WARN => 2 | LOG_ERROR => 3 | LOG_FATAL => 4 end.
Definition level_names (l : LogLevel) : bytes :=
  match l with
  | LOG_DEBUG => bs "DEBUG"
  | LOG_INFO => bs "INFO"
  | LOG_WARN => bs "WARN"
  | LOG_ERROR => bs "ERROR"
  | LOG_FATAL => bs "FATAL"
  end.
(** [g_log_level = level]: the level is passed to [log_msg]. *)
Definition log_init (level : LogLevel) : LogLevel := level.

Record tm : Type := mkTm {
  tm_sec : Z; tm_min : Z; tm_hour : Z; tm_mday : Z; tm_mon : Z; tm_year : Z
}.
Definition two_digits (z : Z) : bytes := if decide (z < 10) then "0"%byte :: dec z else dec z.
(** [strftime] with [%Y-%m-%d %H:%M:%S] *)
Definition timebuf (t : tm) : bytes :=
  dec (1900 + tm_year t) ++ bs "-" ++ two_digits (1 + tm_mon t) ++ bs "-" ++ two_digits (tm_mday t) ++
  bs " " ++ two_digits (tm_hour t) ++ bs ":" ++ two_digits (tm_min t) ++ bs ":" ++ two_digits (tm_sec t).

(** [msg] is the text that the format and its arguments give. *)
Definition log_msg (g_log_level : LogLevel) (now : tm) (level : LogLevel) (file : bytes) (line : Z)
    (msg : bytes) : bytes * bool :=
  if decide (level_number level < level_number g_log_level) then ([], false)
  else
    (timebuf now ++ bs " [" ++ level_names level ++ bs "] " ++ file ++ bs ":" ++ dec line ++ bs ": " ++
       msg ++ ["010"%byte],
     bool_decide (level = LOG_FATAL)).

(** No level hides a fatal message: it always ends the process. *)
Lemma log_fatal_exits g now file line msg : (log_msg g now LOG_FATAL file line msg).2 = true.
Proof. by destruct g. Qed.
Lemma log_fatal_only g now level file line msg :
  (log_msg g now level file line msg).2 = true → level = LOG_FATAL.
Proof. by destruct level, g. Qed.
(** The line of a message. *)
Lemma log_msg_sample :
  log_msg LOG_INFO (mkTm 5 4 13 9 0 126) LOG_WARN (bs "src/main.c") 89 (bs "text") =
  (bs "2026-01-09 13:04:05 [WARN] src/main.c:89: text" ++ ["010"%byte], false).
Proof. vm_compute. reflexivity. Qed.
