(* ===== verification/Config.v ===== *)
(** * The configuration loader ([src/src/config.c])

    [config_load] reads an INI file into a [ShagresCfg] whose shard map the router
    uses.  The file is its bytes; [fopen], [fgets], [strtok] and the string
    functions of the C library are modelled. *)
From S2P Require Import Prelude LibPQ Pool ShardMap Log.
#[local] Set Warnings "-clear-no-such-hyp".
#[local] Open Scope Z_scope.

(** ** Data ([config.h]) *)
Definition MAX_SHARDS : nat := 64.
Definition MAX_TABLES : nat := 64.

Record ShagresCfg : Type := mkCfg {
  listen_addr : bytes;
  listen_port : Z;
  max_clients : Z;
  log_level : LogLevel;
  auth_method : Z;
  default_pool_size : Z;
  max_pool_size : Z;
  idle_timeout : Z;
  backend_conninfo : bytes;
  shard_map : ShardMap;
}.

(** The [TmpTableRule] of [config_load]; the character arrays hold C strings. *)
Record TmpTableRule : Type := mkTmpRule {
  tmp_table_name : bytes;
  tmp_shard_column : bytes;
  tmp_method : bytes;
  tmp_shard_list : bytes;
  tmp_broadcast : bool;
}.

(** ** String functions *)

(** [trim]: white space is removed at both ends.  (The loop at the end stops at
    the first character, which is not a space.) *)
Fixpoint drop_spaces (s : bytes) : bytes :=
  match s with c :: t => if isspace c then drop_spaces t else s | [] => [] end.
Definition trim (s : bytes) : bytes := reverse (drop_spaces (reverse (drop_spaces s))).

(** [strchr(s, c)]: what is before the first [c] and what is after it. *)
Fixpoint strchr (s : bytes) (c : byte) : option (bytes * bytes) :=
  match s with
  | [] => None
  | d :: t =>
    if decide (d = c) then Some ([], t)
    else '(a, b) ← strchr t c; Some (d :: a, b)
  end.

(** [strncpy(dst, src, n)] into a zeroed array of [n + 1] characters. *)
Definition strncpy (n : nat) (src : bytes) : bytes := take n src.

(** The tokens of [strtok(s, ",")]. *)
Fixpoint tokens_from (s cur : bytes) : list bytes :=
  match s with
  | [] => match cur with [] => [] | _ => [reverse cur] end
  | c :: t =>
    if decide (c = ","%byte) then
      match cur with [] => tokens_from t [] | _ => reverse cur :: tokens_from t [] end
    else tokens_from t (c :: cur)
  end.
Definition strtok_all (s : bytes) : list bytes := tokens_from s [].

(** The lines [fgets] returns with a buffer of [n + 1] characters: [room] more fit
    into the current one, [cur] is what it holds, in reverse. *)
Abbreviation NEWLINE := ("010"%byte).
Fixpoint fgets_from (n room : nat) (file cur : bytes) : list bytes :=
  match file with
  | [] => match cur with [] => [] | _ => [reverse cur] end
  | c :: file =>
    match room with
    | O | S O => reverse (c :: cur) :: fgets_from n n file []
    | S room =>
      if decide (c = NEWLINE) then reverse (c :: cur) :: fgets_from n n file []
      else fgets_from n room file (c :: cur)
    end
  end.
Definition fgets_all (n : nat) (file : bytes) : list bytes := fgets_from n n file [].
(** The buffer is used as a C string: it ends at the first NUL. *)
Fixpoint until_nul (s : bytes) : bytes :=
  match s with c :: t => if decide (c = NUL) then [] else c :: until_nul t | [] => [] end.

(** ** The loader *)
Definition empty_map : ShardMap := mkShardMap [] [] 0.
Definition config_default : ShagresCfg :=
  mkCfg (bs "0.0.0.0") 15432 1024 LOG_INFO 0 20 100 300
    (bs "host=127.0.0.1 port=5432 dbname=postgres") empty_map.

(** The local variables of [config_load] during the loop. *)
Record loading : Type := mkLoading {
  ld_cfg : ShagresCfg;
  tmp_shards : list Shard;
  tmp_rules : list TmpTableRule;
  current_section : bytes;
  current_section_arg : bytes;
}.
Definition zero_pool : ConnPool := mkConnPool [] [] 0 0 0.
Definition new_shard (name : bytes) : Shard := mkShard (Some name) None 0 0 zero_pool.
Definition new_rule (name : bytes) : TmpTableRule := mkTmpRule name [] [] [] false.

(** [find_shard_index] on shards whose names are not NULL. *)
Fixpoint find_shard_index (l : list Shard) (name : bytes) : option nat :=
  match l with
  | [] => None
  | s :: l =>
    if decide (shard_name s = Some name) then Some 0%nat else S <$> find_shard_index l name
  end.
Fixpoint find_rule_index (l : list TmpTableRule) (name : bytes) : option nat :=
  match l with
  | [] => None
  | r :: l => if decide (tmp_table_name r = name) then Some 0%nat else S <$> find_rule_index l name
  end.

Definition set_map (m : ShardMap) (c : ShagresCfg) : ShagresCfg :=
  mkCfg (listen_addr c) (listen_port c) (max_clients c) (log_level c) (auth_method c)
    (default_pool_size c) (max_pool_size c) (idle_timeout c) (backend_conninfo c) m.
Definition set_cfg (f : ShagresCfg → ShagresCfg) (st : loading) : loading :=
  mkLoading (f (ld_cfg st)) (tmp_shards st) (tmp_rules st) (current_section st)
    (current_section_arg st).

(** The assignments of the sections. *)
Definition global_key (key val : bytes) (c : ShagresCfg) : ShagresCfg :=
  if decide (key = bs "listen_addr") then
    mkCfg val (listen_port c) (max_clients c) (log_level c) (auth_method c)
      (default_pool_size c) (max_pool_size c) (idle_timeout c) (backend_conninfo c) (shard_map c)
  else if decide (key = bs "listen_port") then
    mkCfg (listen_addr c) (atoi val) (max_clients c) (log_level c) (auth_method c)
      (default_pool_size c) (max_pool_size c) (idle_timeout c) (backend_conninfo c) (shard_map c)
  else if decide (key = bs "max_clients") then
    mkCfg (listen_addr c) (listen_port c) (atoi val) (log_level c) (auth_method c)
      (default_pool_size c) (max_pool_size c) (idle_timeout c) (backend_conninfo c) (shard_map c)
  else if decide (key = bs "log_level") then
    let level :=
      if decide (val = bs "debug") then LOG_DEBUG
      else if decide (val = bs "info") then LOG_INFO
      else if decide (val = bs "warn") then LOG_WARN
      else if decide (val = bs "error") then LOG_ERROR
      else log_level c in
    mkCfg (listen_addr c) (listen_port c) (max_clients c) level (auth_method c)
      (default_pool_size c) (max_pool_size c) (idle_timeout c) (backend_conninfo c) (shard_map c)
  else c.
Definition auth_key (key val : bytes) (c : ShagresCfg) : ShagresCfg :=
  if decide (key = bs "method" ∧ val = bs "trust") then
    mkCfg (listen_addr c) (listen_port c) (max_clients c) (log_level c) 0
      (default_pool_size c) (max_pool_size c) (idle_timeout c) (backend_conninfo c) (shard_map c)
  else c.
Definition pool_key (key val : bytes) (c : ShagresCfg) : ShagresCfg :=
  if decide (key = bs "default_pool_size") then
    mkCfg (listen_addr c) (listen_port c) (max_clients c) (log_level c) (auth_method c)
      (atoi val) (max_pool_size c) (idle_timeout c) (backend_conninfo c) (shard_map c)
  else if decide (key = bs "max_pool_size") then
    mkCfg (listen_addr c) (listen_port c) (max_clients c) (log_level c) (auth_method c)
      (default_pool_size c) (atoi val) (idle_timeout c) (backend_conninfo c) (shard_map c)
  else if decide (key = bs "idle_timeout") then
    mkCfg (listen_addr c) (listen_port c) (max_clients c) (log_level c) (auth_method c)
      (default_pool_size c) (max_pool_size c) (atoi val) (backend_conninfo c) (shard_map c)
  else c.
Definition set_backend (val : bytes) (c : ShagresCfg) : ShagresCfg :=
  mkCfg (listen_addr c) (listen_port c) (max_clients c) (log_level c) (auth_method c)
    (default_pool_size c) (max_pool_size c) (idle_timeout c) val (shard_map c).
Definition backend_key (key val : bytes) (c : ShagresCfg) : ShagresCfg :=
  if decide (key = bs "conninfo") then set_backend val c else c.

Definition shard_key (key val : bytes) (s : Shard) : Shard :=
  if decide (key = bs "conninfo") then
    mkShard (shard_name s) (Some val) (key_range_start s) (key_range_end s) (shard_pool s)
  else if decide (key = bs "key_range_start") then
    mkShard (shard_name s) (shard_conninfo s) (strtoull val) (key_range_end s) (shard_pool s)
  else if decide (key = bs "key_range_end") then
    mkShard (shard_name s) (shard_conninfo s) (key_range_start s) (strtoull val) (shard_pool s)
  else s.
Definition table_key (key val : bytes) (r : TmpTableRule) : TmpTableRule :=
  if decide (key = bs "shard_column") then
    mkTmpRule (tmp_table_name r) (strncpy 127 val) (tmp_method r) (tmp_shard_list r) (tmp_broadcast r)
  else if decide (key = bs "method") then
    mkTmpRule (tmp_table_name r) (tmp_shard_column r) (strncpy 15 val) (tmp_shard_list r) (tmp_broadcast r)
  else if decide (key = bs "shards") then
    mkTmpRule (tmp_table_name r) (tmp_shard_column r) (tmp_method r) (strncpy 1023 val) (tmp_broadcast r)
  else if decide (key = bs "broadcast") then
    mkTmpRule (tmp_table_name r) (tmp_shard_column r) (tmp_method r) (tmp_shard_list r)
      (bool_decide (val = bs "true"))
  else r.

(** [shard] and [table] sections: find or create the entry, then assign. *)
Definition shard_section (key val name : bytes) (l : list Shard) : list Shard :=
  if decide (MAX_SHARDS ≤ length l)%nat then l
  else
    match find_shard_index l name with
    | Some idx => alter (shard_key key val) idx l
    | None => l ++ [shard_key key val (new_shard name)]
    end.
Definition table_section (key val name : bytes) (l : list TmpTableRule) : list TmpTableRule :=
  if decide (MAX_TABLES ≤ length l)%nat then l
  else
    match find_rule_index l name with
    | Some idx => alter (table_key key val) idx l
    | None => l ++ [table_key key val (new_rule name)]
    end.

(** [key = val] in the current section. *)
Definition key_value_line (key val : bytes) (st : loading) : loading :=
  let section := current_section st in
  let arg := current_section_arg st in
  if decide (section = bs "global") then set_cfg (global_key key val) st
  else if decide (section = bs "auth") then set_cfg (auth_key key val) st
  else if decide (section = bs "pool") then set_cfg (pool_key key val) st
  else if decide (section = bs "backend") then set_cfg (backend_key key val) st
  else if decide (section = bs "shard" ∧ arg ≠ []) then
    mkLoading (ld_cfg st) (shard_section key val arg (tmp_shards st)) (tmp_rules st) section arg
  else if decide (section = bs "table" ∧ arg ≠ []) then
    mkLoading (ld_cfg st) (tmp_shards st) (table_section key val arg (tmp_rules st)) section arg
  else st.

(** [section] header: the text between the brackets. *)
Definition section_line (header : bytes) (st : loading) : loading :=
  match strchr header ":"%byte with
  | Some (section, arg) =>
    mkLoading (ld_cfg st) (tmp_shards st) (tmp_rules st) (strncpy 127 section) (strncpy 127 arg)
  | None => mkLoading (ld_cfg st) (tmp_shards st) (tmp_rules st) (strncpy 127 header) []
  end.

(** One iteration of the loop. *)
Definition load_line (st : loading) (line : bytes) : loading :=
  let p := trim (until_nul line) in
  match p with
  | [] => st
  | c :: rest =>
    if decide (c = "#"%byte ∨ c = ";"%byte) then st
    else if decide (c = "["%byte) then
      match strchr rest "]"%byte with
      | Some (header, _) => section_line header st
      | None => st
      end
    else
      match strchr p "="%byte with
      | None => st
      | Some (key, val) => key_value_line (trim key) (trim val) st
      end
  end.

(** *** Building the shard map *)

(** The [while] loop over the tokens of a shard list: [room] more pointers fit. *)
Fixpoint resolve_shards (l : list Shard) (toks : list bytes) (room : nat) : list nat :=
  match toks, room with
  | tok :: toks, S room' =>
    match find_shard_index l (trim tok) with
    | Some idx => idx :: resolve_shards l toks room'
    | None => resolve_shards l toks room
    end
  | _, _ => []
  end.
Definition build_rule (l : list Shard) (t : TmpTableRule) : TableRule :=
  let idxs :=
    if decide (tmp_shard_list t ≠ [] ∧ l ≠ []) then
      resolve_shards l (strtok_all (tmp_shard_list t)) (length l)
    else if decide (tmp_broadcast t = true ∧ l ≠ []) then seq 0 (length l)
    else [] in
  mkTableRule (Some (tmp_table_name t))
    (if decide (tmp_shard_column t = []) then None else Some (tmp_shard_column t))
    (if decide (tmp_method t = bs "hash") then SHARD_HASH else SHARD_RANGE)
    (tmp_broadcast t) (length idxs) idxs.
Definition copy_shard (s : Shard) : Shard :=
  mkShard (shard_name s) (shard_conninfo s) (key_range_start s) (key_range_end s) zero_pool.
Definition build_map (cfg : ShagresCfg) (l : list Shard) (rules : list TmpTableRule) : ShagresCfg :=
  let l := copy_shard <$> l in
  set_map (mkShardMap l (build_rule l <$> rules) (default_pool_size cfg)) cfg.

(** [config_load]: [None] when the file cannot be opened. *)
Definition load_file (file : bytes) : loading :=
  foldl load_line (mkLoading config_default [] [] [] []) (fgets_all 1023 file).
Definition config_load (file : option bytes) : option ShagresCfg :=
  f ← file;
  let st := load_file f in
  Some (build_map (ld_cfg st) (tmp_shards st) (tmp_rules st)).

Section free.
Context {W : Type} {PQ : LibPQ W}.
(** [config_free] *)
Definition config_free (w : W) (cfg : option ShagresCfg) : res W :=
  match cfg with None => Ret w | Some cfg => shard_map_destroy w (shard_map cfg) end.
End free.

(** ** What the loader guarantees *)

Lemma find_shard_index_Some l name i :
  find_shard_index l name = Some i →
  ∃ s, l !! i = Some s ∧ shard_name s = Some name ∧ (i < length l)%nat.
Proof.
  revert i. induction l as [|s l IH]; intros i; simpl; [done|]. case_decide.
  - intros [= <-]. exists s. split_and!; [done|done|simpl; lia].
  - intros (j & Hj & ->)%fmap_Some. destruct (IH _ Hj) as (s' & ? & ? & ?).
    exists s'. split_and!; [done|done|lia].
Qed.
Lemma find_shard_index_None l name :
  find_shard_index l name = None → Some name ∉ shard_name <$> l.
Proof.
  induction l as [|s l IH]; simpl; [set_solver|]. case_decide; [done|].
  intros Hn%fmap_None. apply IH in Hn. set_solver.
Qed.
Lemma find_rule_index_None l name :
  find_rule_index l name = None → name ∉ tmp_table_name <$> l.
Proof.
  induction l as [|s l IH]; simpl; [set_solver|]. case_decide; [done|].
  intros Hn%fmap_None. apply IH in Hn. set_solver.
Qed.

(** Assignments do not rename entries. *)
Lemma shard_key_name key val s : shard_name (shard_key key val s) = shard_name s.
Proof. unfold shard_key. by repeat case_decide. Qed.
Lemma table_key_name key val r : tmp_table_name (table_key key val r) = tmp_table_name r.
Proof. unfold table_key. by repeat case_decide. Qed.

Lemma fmap_alter_same {A B} (f : A → B) (g : A → A) (i : nat) (l : list A) :
  (∀ x, f (g x) = f x) → f <$> alter g i l = f <$> l.
Proof.
  intros H. revert i. induction l as [|x l IH]; intros [|i]; [done..| |].
  - change (f (g x) :: (f <$> l) = f x :: (f <$> l)). by rewrite H.
  - change (f x :: (f <$> alter g i l) = f x :: (f <$> l)). by rewrite IH.
Qed.

(** The tables of the loader: at most 64 entries with pairwise distinct names. *)
Definition names_ok (names : list (option bytes)) : Prop :=
  NoDup names ∧ Forall is_Some names ∧ (length names ≤ 64)%nat.
Record loading_ok (st : loading) : Prop := {
  ok_shards : names_ok (shard_name <$> tmp_shards st);
  ok_rules : names_ok (Some ∘ tmp_table_name <$> tmp_rules st);
}.

Lemma names_ok_snoc names n :
  names_ok names → Some n ∉ names → (length names < 64)%nat → names_ok (names ++ [Some n]).
Proof.
  intros (Hnd & Hs & Hl) Hn Hlt. split_and!.
  - apply NoDup_app. split_and!; [done|set_solver|by apply NoDup_singleton].
  - apply Forall_app. split; [done|]. by constructor.
  - rewrite length_app. simpl. lia.
Qed.
Lemma shard_section_ok key val name l :
  names_ok (shard_name <$> l) → names_ok (shard_name <$> shard_section key val name l).
Proof.
  intros Hok. unfold shard_section. case_decide as Hlen; [done|].
  destruct (find_shard_index l name) as [i|] eqn:E.
  - rewrite fmap_alter_same by apply shard_key_name. done.
  - rewrite fmap_app. simpl. rewrite shard_key_name.
    apply names_ok_snoc; [done|by apply find_shard_index_None|].
    rewrite length_fmap. unfold MAX_SHARDS in Hlen. lia.
Qed.
Lemma table_section_ok key val name l :
  names_ok (Some ∘ tmp_table_name <$> l) →
  names_ok (Some ∘ tmp_table_name <$> table_section key val name l).
Proof.
  intros Hok. unfold table_section. case_decide as Hlen; [done|].
  destruct (find_rule_index l name) as [i|] eqn:E.
  - rewrite fmap_alter_same; [done|]. intros r. simpl. by rewrite table_key_name.
  - rewrite fmap_app. simpl. rewrite table_key_name.
    apply names_ok_snoc; [done| |].
    + apply find_rule_index_None in E. rewrite list_fmap_compose.
      intros (n & [= ->] & Hn)%list_elem_of_fmap. done.
    + rewrite length_fmap. unfold MAX_TABLES in Hlen. lia.
Qed.
Lemma section_line_keeps header st : loading_ok st → loading_ok (section_line header st).
Proof. intros [Hs Hr]. unfold section_line. by repeat case_match. Qed.
Lemma key_value_line_keeps key val st : loading_ok st → loading_ok (key_value_line key val st).
Proof.
  intros [Hs Hr]. unfold key_value_line, set_cfg.
  repeat case_decide; split; simpl; auto using shard_section_ok, table_section_ok.
Qed.
Lemma load_line_ok st line : loading_ok st → loading_ok (load_line st line).
Proof.
  intros Hst. unfold load_line.
  repeat (case_match || case_decide); auto using section_line_keeps, key_value_line_keeps.
Qed.
Lemma load_file_ok file : loading_ok (load_file file).
Proof.
  unfold load_file. generalize (fgets_all 1023 file) as lines.
  assert (loading_ok (mkLoading config_default [] [] [] [])) as Hst.
  { split; (split_and!; simpl; [constructor|constructor|lia]). }
  revert Hst. generalize (mkLoading config_default [] [] [] []) as st.
  intros st Hst lines. revert st Hst. induction lines as [|line lines IH]; intros st Hst; [done|].
  simpl. auto using load_line_ok.
Qed.

Lemma resolve_shards_spec l toks room :
  (length (resolve_shards l toks room) ≤ room)%nat ∧
  Forall (λ i, (i < length l)%nat) (resolve_shards l toks room).
Proof.
  revert room. induction toks as [|tok toks IH]; intros [|room]; simpl; [auto with lia..|].
  destruct (find_shard_index l (trim tok)) as [i|] eqn:E; [|apply IH].
  apply find_shard_index_Some in E as (_ & _ & _ & ?). destruct (IH room). simpl.
  split; [lia|by constructor].
Qed.
Lemma build_rule_spec l t :
  (length (rule_shards (build_rule l t)) ≤ length l)%nat ∧
  Forall (λ i, (i < length l)%nat) (rule_shards (build_rule l t)).
Proof.
  unfold build_rule. simpl. repeat case_decide.
  - apply resolve_shards_spec.
  - rewrite length_seq. split; [lia|]. apply Forall_forall. intros i Hi%elem_of_seq. lia.
  - split; [simpl; lia|done].
Qed.

(** The loaded map is well formed, whatever the file holds. *)
Lemma build_map_wf cfg l rules :
  (length l ≤ 64)%nat → map_wf (shard_map (build_map cfg l rules)).
Proof.
  intros Hl. unfold build_map, map_wf. simpl. apply Forall_fmap, Forall_forall. intros t _.
  simpl. split; [done|]. destruct (build_rule_spec (copy_shard <$> l) t) as [H1 H2].
  split_and!; [done| |done]. rewrite length_fmap in H1.
  change (rule_shard_count _) with (length (rule_shards (build_rule (copy_shard <$> l) t))). lia.
Qed.

(** C26: whatever bytes the configuration file holds, [config_load] returns a
    configuration (and NULL only when the file cannot be opened).  Its shard map is well
    formed: every rule has a table name and names only shards of the map, and there are
    at most 64 shards and 64 rules, with pairwise distinct names. *)
Theorem config_load_wf (file : bytes) :
  config_load None = None ∧
  ∃ cfg, config_load (Some file) = Some cfg ∧ map_wf (shard_map cfg) ∧
    names_ok (shard_name <$> shards (shard_map cfg)) ∧
    names_ok (rule_table_name <$> table_rules (shard_map cfg)) ∧
    Forall (λ s, shard_pool s = zero_pool) (shards (shard_map cfg)).
Proof.
  split; [done|]. eexists. split; [done|]. destruct (load_file_ok file) as [Hs Hr]. split_and!.
  - apply build_map_wf. rewrite <- (length_fmap shard_name). apply Hs.
  - simpl. by rewrite <- list_fmap_compose.
  - simpl. by rewrite <- list_fmap_compose.
  - simpl. by apply Forall_fmap, Forall_true.
Qed.
