(* ===== verification/ConfigText.v ===== *)
(** * Configuration files as text

    A description of shards and tables is printed as an INI file; loading the file
    gives the description back ([config_round_trip]). *)
From S2P Require Import Prelude LibPQ Pool ShardMap Config.
#[local] Set Warnings "-clear-no-such-hyp".
#[local] Open Scope Z_scope.

(** ** Reading back a printed file

    A file is a list of section headers and of [key = value] lines. *)
Inductive item : Type :=
| Header (section : bytes) (arg : option bytes)
| KeyVal (key val : bytes).
Definition item_text (i : item) : bytes :=
  match i with
  | Header s None => "["%byte :: s ++ ["]"%byte]
  | Header s (Some a) => "["%byte :: (s ++ ":"%byte :: a) ++ ["]"%byte]
  | KeyVal k v => k ++ bs " = " ++ v
  end.
Definition print_items (l : list item) : bytes := concat (map (λ i, item_text i ++ [NEWLINE]) l).

(** The effect of a line. *)
Definition apply_item (st : loading) (i : item) : loading :=
  match i with
  | Header s a =>
    mkLoading (ld_cfg st) (tmp_shards st) (tmp_rules st) s (default [] a)
  | KeyVal k v => key_value_line k v st
  end.

(** Text without white space at its ends. *)
Definition tight (s : bytes) : bool :=
  match s with [] => true | c :: _ => negb (isspace c) && negb (isspace (List.last s c)) end.
Definition avoids (l : list byte) (s : bytes) : bool := forallb (λ c, bool_decide (c ∉ l)) s.
Definition item_ok (i : item) : bool :=
  bool_decide (length (item_text i) < 1023)%nat &&
  match i with
  | Header s a =>
    avoids [NEWLINE; NUL; "]"%byte; ":"%byte] s && bool_decide (length s ≤ 127)%nat &&
    match a with
    | None => true
    | Some a => avoids [NEWLINE; NUL; "]"%byte] a && bool_decide (length a ≤ 127)%nat
    end
  | KeyVal k v =>
    bool_decide (k ≠ []) && tight k && tight v &&
    avoids [NEWLINE; NUL; "="%byte] k && avoids [NEWLINE; NUL] v &&
    bool_decide (deref k ∉ ["#"%byte; ";"%byte; "["%byte])
  end.

Lemma avoids_app l s t : avoids l (s ++ t) = avoids l s && avoids l t.
Proof. unfold avoids. apply forallb_app. Qed.
Lemma avoids_elem l s c : avoids l s → c ∈ l → c ∉ s.
Proof.
  unfold avoids. rewrite forallb_True, Forall_forall. intros H Hc Hs.
  apply H in Hs. by apply bool_decide_unpack in Hs.
Qed.

(** *** [fgets] returns the lines *)
Lemma fgets_line n room s rest cur :
  NEWLINE ∉ s → (length s < room)%nat →
  fgets_from n room (s ++ NEWLINE :: rest) cur
  = (reverse cur ++ s ++ [NEWLINE]) :: fgets_from n n rest [].
Proof.
  revert room cur. induction s as [|c s IH]; intros room cur Hs Hr.
  - destruct room as [|[|room]]; [simpl in *; lia|..]; simpl; by rewrite reverse_cons.
  - destruct room as [|[|room]]; [simpl in *; lia..|]. cbn [app fgets_from].
    rewrite decide_False by set_solver. rewrite IH; [|set_solver|simpl in *; lia].
    by rewrite reverse_cons, <- app_assoc.
Qed.
Lemma fgets_items l :
  Forall (λ s, (NEWLINE ∉ s) ∧ (length s < 1023)%nat) l →
  fgets_all 1023 (concat (map (λ s, s ++ [NEWLINE]) l)) = map (λ s, s ++ [NEWLINE]) l.
Proof.
  unfold fgets_all. induction 1 as [|s l [Hs Hn] Hl IH]; [done|]. cbn [map concat].
  rewrite <- app_assoc. cbn [app]. rewrite fgets_line by done. by rewrite IH.
Qed.
Lemma until_nul_id s : NUL ∉ s → until_nul s = s.
Proof.
  induction s as [|c s IH]; intros Hs; simpl; [done|].
  rewrite decide_False by set_solver. by rewrite IH by set_solver.
Qed.

(** *** [trim] *)
Lemma drop_spaces_skip ws s :
  Forall (λ c, isspace c = true) ws → drop_spaces (ws ++ s) = drop_spaces s.
Proof. induction 1 as [|c ws Hc Hws IH]; simpl; [done|]. by rewrite Hc. Qed.
Lemma drop_spaces_stop c s : isspace c = false → drop_spaces (c :: s) = c :: s.
Proof. intros H. simpl. by rewrite H. Qed.
Lemma tight_reverse s c t :
  tight (c :: s) → reverse (c :: s) = t → ∃ d u, t = d :: u ∧ isspace d = false.
Proof.
  intros Ht <-. unfold tight in Ht. apply andb_prop_elim in Ht as [_ Hl].
  destruct (exists_last (l := c :: s)) as (u & d & E); [done|]. rewrite E in *.
  rewrite List.last_last in Hl. exists d, (reverse u).
  rewrite reverse_app. split; [done|]. by destruct (isspace d).
Qed.
Lemma trim_tight ws1 s ws2 :
  Forall (λ c, isspace c = true) ws1 → Forall (λ c, isspace c = true) ws2 → tight s →
  trim (ws1 ++ s ++ ws2) = s.
Proof.
  intros H1 H2 Hs. unfold trim. rewrite drop_spaces_skip by done.
  destruct s as [|c s].
  - cbn [app]. rewrite <- (app_nil_r ws2), drop_spaces_skip by done. done.
  - cbn [app]. rewrite drop_spaces_stop.
    2: { unfold tight in Hs. apply andb_prop_elim in Hs as [Hc _]. by destruct (isspace c). }
    rewrite app_comm_cons, reverse_app, drop_spaces_skip.
    2: { by apply Forall_reverse. }
    destruct (tight_reverse s c _ Hs eq_refl) as (d & u & E & Hd).
    rewrite E, drop_spaces_stop by done. rewrite <- E. apply reverse_involutive.
Qed.
Lemma trim_right s ws : Forall (λ c, isspace c = true) ws → tight s → trim (s ++ ws) = s.
Proof. intros. by apply (trim_tight [] s ws). Qed.

Lemma strchr_app s c t : c ∉ s → strchr (s ++ c :: t) c = Some (s, t).
Proof.
  induction s as [|d s IH]; intros Hs; simpl; [by rewrite decide_True|].
  rewrite decide_False by set_solver. by rewrite IH by set_solver.
Qed.
Lemma strchr_None s c : c ∉ s → strchr s c = None.
Proof.
  induction s as [|d s IH]; intros Hs; simpl; [done|].
  rewrite decide_False by set_solver. by rewrite IH by set_solver.
Qed.

(** *** One line *)
Lemma tight_app_last c s d : isspace c = false → isspace d = false → tight (c :: s ++ [d]).
Proof.
  intros Hc Hd. unfold tight. rewrite Hc. rewrite app_comm_cons, List.last_last, Hd. done.
Qed.
Lemma section_line_ok s a st :
  ":"%byte ∉ s → (length s ≤ 127)%nat → (length (default [] a) ≤ 127)%nat →
  section_line match a with Some a => s ++ ":"%byte :: a | None => s end st
  = apply_item st (Header s a).
Proof.
  intros Hs Hl Ha. unfold section_line, strncpy. destruct a as [a|]; simpl in *.
  - rewrite strchr_app by done. by rewrite !take_ge by lia.
  - rewrite strchr_None by done. by rewrite take_ge by lia.
Qed.
Lemma load_header st s a :
  item_ok (Header s a) → load_line st (item_text (Header s a) ++ [NEWLINE]) = apply_item st (Header s a).
Proof.
  unfold item_ok. rewrite !andb_True. intros (_ & (Hs & Hl%bool_decide_unpack) & Ha).
  set (h := match a with Some a => s ++ ":"%byte :: a | None => s end).
  assert (item_text (Header s a) = "["%byte :: h ++ ["]"%byte]) as -> by (by destruct a).
  assert (":"%byte ∉ s) by (by eapply avoids_elem; [done|set_solver]).
  assert (("]"%byte ∉ h) ∧ (NUL ∉ h)) as [Hh1 Hh2].
  { subst h. pose proof (avoids_elem _ _ "]"%byte Hs). pose proof (avoids_elem _ _ NUL Hs).
    destruct a as [a|]; [|set_solver]. apply andb_True in Ha as [Ha _].
    pose proof (avoids_elem _ _ "]"%byte Ha). pose proof (avoids_elem _ _ NUL Ha). set_solver. }
  unfold load_line. rewrite until_nul_id by set_solver.
  rewrite trim_right by (repeat constructor || by apply tight_app_last).
  rewrite decide_False by (by intros [|]). rewrite decide_True by done.
  rewrite strchr_app by done. apply section_line_ok; [done|done|].
  destruct a as [a|]; simpl; [|lia]. by apply andb_True in Ha as [_ Ha%bool_decide_unpack].
Qed.
Lemma load_key_val st k v :
  item_ok (KeyVal k v) → load_line st (item_text (KeyVal k v) ++ [NEWLINE]) = apply_item st (KeyVal k v).
Proof.
  unfold item_ok. rewrite !andb_True.
  intros (_ & ((((Hne%bool_decide_unpack & Hk) & Hv) & Hka) & Hva) & Hd%bool_decide_unpack).
  destruct k as [|c k]; [done|]. simpl in Hd.
  pose proof Hk as Hc. unfold tight in Hc. apply andb_prop_elim in Hc as [Hc _].
  assert (isspace c = false) as Hc' by (by destruct (isspace c)).
  unfold load_line. rewrite until_nul_id.
  2: { pose proof (avoids_elem _ _ NUL Hka). pose proof (avoids_elem _ _ NUL Hva).
       simpl. rewrite !elem_of_cons, !elem_of_app. simpl. set_solver. }
  assert (∃ v', trim (item_text (KeyVal (c :: k) v) ++ [NEWLINE]) =
    ((c :: k) ++ [" "%byte]) ++ "="%byte :: v' ∧ trim v' = v) as (v' & E & Ev).
  { destruct v as [|d v].
    - exists []. split; [|done].
      replace (item_text (KeyVal (c :: k) []) ++ [NEWLINE])
        with ((c :: (k ++ [" "%byte]) ++ ["="%byte]) ++ [" "%byte; NEWLINE])
        by (simpl; by rewrite <- !app_assoc).
      rewrite trim_right; [done|repeat constructor|by apply tight_app_last].
    - exists (" "%byte :: d :: v). split.
      + rewrite trim_right; [|repeat constructor|].
        * simpl. by rewrite <- !app_assoc.
        * destruct (exists_last (l := d :: v)) as (u & e & Ee); [done|]. rewrite Ee in *.
          replace (item_text (KeyVal (c :: k) (u ++ [e]))) with (c :: (k ++ bs " = " ++ u) ++ [e])
            by (unfold item_text; simpl app; by rewrite <- !app_assoc).
          apply tight_app_last; [done|].
          unfold tight in Hv. destruct (u ++ [e]) as [|x y] eqn:Ex; [by destruct u|].
          apply andb_prop_elim in Hv as [_ Hv]. rewrite <- Ex, List.last_last in Hv.
          by destruct (isspace e).
      + rewrite <- (app_nil_r (d :: v)) at 1.
        apply (trim_tight [" "%byte] (d :: v) []); [repeat constructor|constructor|done]. }
  rewrite E. cbn [app]. rewrite decide_False by set_solver. rewrite decide_False by set_solver.
  rewrite app_comm_cons, strchr_app.
  2: { pose proof (avoids_elem _ _ "="%byte Hka). set_solver. }
  rewrite Ev. change (c :: k ++ [" "%byte]) with ((c :: k) ++ [" "%byte]).
  rewrite trim_right; [done|repeat constructor|done].
Qed.

Lemma item_ok_newline i : item_ok i → NEWLINE ∉ item_text i.
Proof.
  unfold item_ok. rewrite andb_True. intros [_ Hi]. destruct i as [s a|k v].
  - rewrite !andb_True in Hi. destruct Hi as ((Hs & _) & Ha).
    pose proof (avoids_elem _ _ NEWLINE Hs). destruct a as [a|]; simpl.
    + apply andb_True in Ha as [Ha _]. pose proof (avoids_elem _ _ NEWLINE Ha).
      rewrite elem_of_cons, !elem_of_app, elem_of_cons. set_solver.
    + set_solver.
  - rewrite !andb_True in Hi. destruct Hi as (((_ & Hk) & Hv) & _).
    pose proof (avoids_elem _ _ NEWLINE Hk). pose proof (avoids_elem _ _ NEWLINE Hv).
    simpl. rewrite !elem_of_app. change (bs " = ") with [" "%byte; "="%byte; " "%byte]. set_solver.
Qed.

(** *** The whole file *)
Lemma load_items l :
  forallb item_ok l →
  load_file (print_items l) = foldl apply_item (mkLoading config_default [] [] [] []) l.
Proof.
  intros Hl. unfold load_file, print_items.
  assert (Forall (λ s, (NEWLINE ∉ s) ∧ (length s < 1023)%nat) (map item_text l)) as Hf.
  { apply Forall_fmap. apply forallb_True in Hl. eapply Forall_impl; [exact Hl|].
    intros i Hi. split; [by apply item_ok_newline|]. apply andb_True in Hi as [Hi _].
    by apply bool_decide_unpack in Hi. }
  rewrite <- (map_map item_text (λ s, s ++ [NEWLINE])), fgets_items by done.
  rewrite map_map. clear Hf. generalize (mkLoading config_default [] [] [] []) as st.
  induction l as [|i l IH]; intros st; [done|]. simpl in Hl. apply andb_True in Hl as [Hi Hl].
  cbn [map foldl]. rewrite IH by done. f_equal.
  destruct i; [by apply load_header|by apply load_key_val].
Qed.

(** ** Printing a configuration and loading it *)
Record ShardDesc : Type := mkShardDesc {
  sd_name : bytes;
  sd_conninfo : bytes;
  sd_start : Z;
  sd_end : Z;
}.
Record TableDesc : Type := mkTableDesc {
  td_name : bytes;
  td_column : bytes;
  td_method : ShardMethod;
  td_shards : list bytes;
  td_broadcast : bool;
}.
(** [a, b, c] *)
Fixpoint names_text (l : list bytes) : bytes :=
  match l with
  | [] => []
  | [n] => n
  | n :: l => n ++ ","%byte :: " "%byte :: names_text l
  end.
Definition shard_items (d : ShardDesc) : list item :=
  [Header (bs "shard") (Some (sd_name d)); KeyVal (bs "conninfo") (sd_conninfo d);
   KeyVal (bs "key_range_start") (dec (sd_start d)); KeyVal (bs "key_range_end") (dec (sd_end d))].
Definition table_items (d : TableDesc) : list item :=
  [Header (bs "table") (Some (td_name d)); KeyVal (bs "shard_column") (td_column d);
   KeyVal (bs "method") (match td_method d with SHARD_HASH => bs "hash" | SHARD_RANGE => bs "range" end);
   KeyVal (bs "shards") (names_text (td_shards d));
   KeyVal (bs "broadcast") (if td_broadcast d then bs "true" else bs "false")].
Definition print_config (sds : list ShardDesc) (tds : list TableDesc) : bytes :=
  print_items (concat (map shard_items sds) ++ concat (map table_items tds)).

(** What loading should give. *)
Definition shard_of (d : ShardDesc) : Shard :=
  mkShard (Some (sd_name d)) (Some (sd_conninfo d)) (sd_start d) (sd_end d) zero_pool.
Definition rule_of_desc (sds : list ShardDesc) (d : TableDesc) : TableRule :=
  let idxs := omap (find_shard_index (map shard_of sds)) (td_shards d) in
  mkTableRule (Some (td_name d)) (Some (td_column d)) (td_method d) (td_broadcast d)
    (length idxs) idxs.

Definition shard_name_ok (n : bytes) : bool :=
  bool_decide (n ≠ []) && tight n && avoids [","%byte] n.
Definition shard_desc_ok (d : ShardDesc) : bool :=
  forallb item_ok (shard_items d) && shard_name_ok (sd_name d) &&
  bool_decide (0 ≤ sd_start d < 2 ^ 64) && bool_decide (0 ≤ sd_end d < 2 ^ 64).
Definition table_desc_ok (n : nat) (d : TableDesc) : bool :=
  forallb item_ok (table_items d) && bool_decide (td_name d ≠ []) &&
  bool_decide (td_column d ≠ []) && bool_decide (length (td_column d) ≤ 127)%nat &&
  bool_decide (td_shards d ≠ []) && bool_decide (length (td_shards d) ≤ n)%nat &&
  forallb shard_name_ok (td_shards d).

(** *** Sections *)
Lemma shard_line k v st :
  current_section st = bs "shard" → current_section_arg st ≠ [] →
  key_value_line k v st =
  mkLoading (ld_cfg st) (shard_section k v (current_section_arg st) (tmp_shards st))
    (tmp_rules st) (bs "shard") (current_section_arg st).
Proof.
  intros Hs Ha. unfold key_value_line. rewrite Hs.
  rewrite !(decide_False (P:=bs "shard" = _)) by done. by rewrite decide_True.
Qed.
Lemma table_line k v st :
  current_section st = bs "table" → current_section_arg st ≠ [] →
  key_value_line k v st =
  mkLoading (ld_cfg st) (tmp_shards st)
    (table_section k v (current_section_arg st) (tmp_rules st))
    (bs "table") (current_section_arg st).
Proof.
  intros Hs Ha. unfold key_value_line. rewrite Hs.
  rewrite !(decide_False (P:=bs "table" = _)) by done.
  rewrite decide_False by (by intros [? _]). by rewrite decide_True.
Qed.

Lemma find_shard_last l s :
  Some (default [] (shard_name s)) = shard_name s → shard_name s ∉ shard_name <$> l →
  find_shard_index (l ++ [s]) (default [] (shard_name s)) = Some (length l).
Proof.
  intros Hs. induction l as [|x l IH]; intros Hn; simpl.
  - by rewrite decide_True.
  - rewrite decide_False by (rewrite Hs; set_solver). by rewrite IH by set_solver.
Qed.
Lemma find_rule_last l r :
  tmp_table_name r ∉ tmp_table_name <$> l →
  find_rule_index (l ++ [r]) (tmp_table_name r) = Some (length l).
Proof.
  induction l as [|x l IH]; intros Hn; simpl; [by rewrite decide_True|].
  rewrite decide_False by set_solver. by rewrite IH by set_solver.
Qed.
Lemma find_shard_absent l n : Some n ∉ shard_name <$> l → find_shard_index l n = None.
Proof.
  induction l as [|x l IH]; intros Hn; simpl; [done|].
  rewrite decide_False by set_solver. by rewrite IH by set_solver.
Qed.
Lemma find_rule_absent l n : n ∉ tmp_table_name <$> l → find_rule_index l n = None.
Proof.
  induction l as [|x l IH]; intros Hn; simpl; [done|].
  rewrite decide_False by set_solver. by rewrite IH by set_solver.
Qed.

(** The first line of a section creates the entry, the others change it. *)
Lemma shard_section_new k v n l :
  (length l < 64)%nat → Some n ∉ shard_name <$> l →
  shard_section k v n l = l ++ [shard_key k v (new_shard n)].
Proof.
  intros Hl Hn. unfold shard_section. rewrite decide_False by (unfold MAX_SHARDS; lia).
  by rewrite find_shard_absent.
Qed.
Lemma shard_section_last k v n l s :
  (length l < 63)%nat → shard_name s = Some n → Some n ∉ shard_name <$> l →
  shard_section k v n (l ++ [s]) = l ++ [shard_key k v s].
Proof.
  intros Hl Hs Hn. unfold shard_section.
  rewrite decide_False by (rewrite length_app; unfold MAX_SHARDS; simpl; lia).
  pose proof (find_shard_last l s) as Hf. rewrite Hs in Hf. simpl in Hf.
  rewrite Hf by done. clear. induction l as [|x l IH]; simpl; [done|]. f_equal. exact IH.
Qed.
Lemma table_section_new k v n l :
  (length l < 64)%nat → n ∉ tmp_table_name <$> l →
  table_section k v n l = l ++ [table_key k v (new_rule n)].
Proof.
  intros Hl Hn. unfold table_section. rewrite decide_False by (unfold MAX_TABLES; lia).
  by rewrite find_rule_absent.
Qed.
Lemma table_section_last k v l r :
  (length l < 63)%nat → tmp_table_name r ∉ tmp_table_name <$> l →
  table_section k v (tmp_table_name r) (l ++ [r]) = l ++ [table_key k v r].
Proof.
  intros Hl Hn. unfold table_section.
  rewrite decide_False by (rewrite length_app; unfold MAX_TABLES; simpl; lia).
  rewrite find_rule_last by done. clear. induction l as [|x l IH]; simpl; [done|]. f_equal. exact IH.
Qed.

Lemma load_shard st d :
  shard_desc_ok d → (length (tmp_shards st) < 63)%nat →
  Some (sd_name d) ∉ shard_name <$> tmp_shards st →
  foldl apply_item st (shard_items d) =
  mkLoading (ld_cfg st) (tmp_shards st ++ [shard_of d]) (tmp_rules st) (bs "shard") (sd_name d).
Proof.
  unfold shard_desc_ok, shard_name_ok. rewrite !andb_True.
  intros (((_ & ((Hn%bool_decide_unpack & _) & _)) & Hs%bool_decide_unpack) & He%bool_decide_unpack) Hl Hni.
  unfold shard_items. cbn [foldl apply_item default].
  rewrite (shard_line (bs "conninfo")) by done. cbn [current_section_arg tmp_shards tmp_rules ld_cfg].
  rewrite shard_section_new by (assumption || lia).
  rewrite (shard_line (bs "key_range_start")) by done. cbn [current_section_arg tmp_shards tmp_rules ld_cfg].
  rewrite shard_section_last by done.
  rewrite (shard_line (bs "key_range_end")) by done. cbn [current_section_arg tmp_shards tmp_rules ld_cfg].
  rewrite shard_section_last by done. unfold shard_of. do 3 f_equal.
  unfold shard_key. simpl. 
  rewrite <- (app_nil_r (dec (sd_start d))), <- (app_nil_r (dec (sd_end d))), !strtoull_dec by done. done.
Qed.

Definition method_text (m : ShardMethod) : bytes :=
  match m with SHARD_HASH => bs "hash" | SHARD_RANGE => bs "range" end.
Definition tmp_of (d : TableDesc) : TmpTableRule :=
  mkTmpRule (td_name d) (td_column d) (method_text (td_method d)) (names_text (td_shards d))
    (td_broadcast d).
Lemma table_section_last' k v n l r :
  (length l < 63)%nat → tmp_table_name r = n → n ∉ tmp_table_name <$> l →
  table_section k v n (l ++ [r]) = l ++ [table_key k v r].
Proof. intros Hl <-. by apply table_section_last. Qed.
Lemma table_key_column v n c m l b :
  table_key (bs "shard_column") v (mkTmpRule n c m l b) = mkTmpRule n (strncpy 127 v) m l b.
Proof. done. Qed.
Lemma table_key_method v n c m l b :
  table_key (bs "method") v (mkTmpRule n c m l b) = mkTmpRule n c (strncpy 15 v) l b.
Proof. done. Qed.
Lemma table_key_shards v n c m l b :
  table_key (bs "shards") v (mkTmpRule n c m l b) = mkTmpRule n c m (strncpy 1023 v) b.
Proof. done. Qed.
Lemma table_key_broadcast v n c m l b :
  table_key (bs "broadcast") v (mkTmpRule n c m l b) = mkTmpRule n c m l (bool_decide (v = bs "true")).
Proof. done. Qed.
Lemma item_ok_length i : item_ok i → (length (item_text i) < 1023)%nat.
Proof. unfold item_ok. rewrite andb_True. by intros [?%bool_decide_unpack _]. Qed.
Lemma load_table st n d :
  table_desc_ok n d → (length (tmp_rules st) < 63)%nat →
  td_name d ∉ tmp_table_name <$> tmp_rules st →
  foldl apply_item st (table_items d) =
  mkLoading (ld_cfg st) (tmp_shards st) (tmp_rules st ++ [tmp_of d]) (bs "table") (td_name d).
Proof.
  unfold table_desc_ok. rewrite !andb_True.
  intros ((((((Hi & Hn%bool_decide_unpack) & _) & Hc%bool_decide_unpack) & _) & _) & _) Hl Hni.
  assert (length (names_text (td_shards d)) ≤ 1023)%nat as Hlen.
  { assert (item_ok (KeyVal (bs "shards") (names_text (td_shards d)))) as Hs.
    { apply forallb_True in Hi. rewrite Forall_forall in Hi. apply Hi. unfold table_items. set_solver. }
    apply item_ok_length in Hs. unfold item_text in Hs. rewrite !length_app in Hs. lia. }
  unfold table_items. cbn [foldl apply_item default].
  rewrite (table_line (bs "shard_column")) by done. cbn [current_section_arg tmp_shards tmp_rules ld_cfg].
  rewrite table_section_new by (assumption || lia).
  rewrite (table_line (bs "method")) by done. cbn [current_section_arg tmp_shards tmp_rules ld_cfg].
  rewrite table_section_last' by (done || by rewrite table_key_name).
  rewrite (table_line (bs "shards")) by done. cbn [current_section_arg tmp_shards tmp_rules ld_cfg].
  rewrite table_section_last' by (done || by rewrite !table_key_name).
  rewrite (table_line (bs "broadcast")) by done. cbn [current_section_arg tmp_shards tmp_rules ld_cfg].
  rewrite table_section_last' by (done || by rewrite !table_key_name).
  do 3 f_equal.
  unfold new_rule. rewrite table_key_column, table_key_method, table_key_shards, table_key_broadcast.
  unfold tmp_of, strncpy.
  rewrite (take_ge (td_column d)), (take_ge (names_text _)) by lia.
  by destruct (td_method d), (td_broadcast d).
Qed.

(** *** The list of shards of a table *)
Lemma tokens_name n t cur :
  ","%byte ∉ n → n ≠ [] ∨ cur ≠ [] →
  tokens_from (n ++ ","%byte :: t) cur = (reverse cur ++ n) :: tokens_from t [] ∧
  tokens_from n cur = [reverse cur ++ n].
Proof.
  revert cur. induction n as [|c n IH]; intros cur Hn Hne; simpl.
  - destruct cur as [|c cur]; [by destruct Hne|]. by rewrite app_nil_r.
  - rewrite !decide_False by set_solver.
    destruct (IH (c :: cur)) as [-> ->]; [set_solver|by right|].
    by rewrite reverse_cons, <- app_assoc.
Qed.
Lemma tokens_names ws l :
  Forall (λ c, isspace c = true) ws → ","%byte ∉ ws → forallb shard_name_ok l → l ≠ [] →
  map trim (strtok_all (ws ++ names_text l)) = l.
Proof.
  revert ws. induction l as [|n l IH]; intros ws Hws Hc Hl Hne; [done|].
  simpl in Hl. apply andb_True in Hl as [Hn Hl]. unfold shard_name_ok in Hn.
  rewrite !andb_True in Hn. destruct Hn as ((Hn%bool_decide_unpack & Ht) & Ha).
  pose proof (avoids_elem _ _ ","%byte Ha). assert (","%byte ∉ ws ++ n) as Hwn by set_solver.
  assert (trim (ws ++ n) = n) as Htr.
  { rewrite <- (app_nil_r n) at 1. by apply trim_tight. }
  unfold strtok_all. destruct l as [|n' l].
  - cbn [names_text]. destruct (tokens_name (ws ++ n) [] []) as [_ ->]; [done|left; by destruct ws|].
    change (reverse (A:=byte) []) with (@nil byte). cbn [map]. rewrite app_nil_l. by rewrite Htr.
  - change (names_text (n :: n' :: l)) with (n ++ ","%byte :: " "%byte :: names_text (n' :: l)).
    rewrite app_assoc. destruct (tokens_name (ws ++ n) (" "%byte :: names_text (n' :: l)) []) as [-> _];
      [done|left; by destruct ws|].
    change (reverse (A:=byte) []) with (@nil byte). cbn [map]. rewrite app_nil_l, Htr. f_equal. apply (IH [" "%byte]); [by repeat constructor|set_solver|done|done].
Qed.
Lemma resolve_names l toks room :
  (length toks ≤ room)%nat →
  resolve_shards l toks room = omap (find_shard_index l) (map trim toks).
Proof.
  revert room. induction toks as [|tok toks IH]; intros [|room] Hr; simpl in *; [done|done|lia|].
  destruct (find_shard_index l (trim tok)); rewrite IH by lia; done.
Qed.
Lemma build_rule_desc sds d :
  table_desc_ok (length sds) d → build_rule (map shard_of sds) (tmp_of d) = rule_of_desc sds d.
Proof.
  unfold table_desc_ok. rewrite !andb_True.
  intros ((((((_ & _) & Hc%bool_decide_unpack) & _) & Hs%bool_decide_unpack) & Hl%bool_decide_unpack) & Hn).
  pose proof (tokens_names [] (td_shards d)) as Htok. cbn [app] in Htok.
  specialize (Htok ltac:(constructor) ltac:(set_solver) Hn Hs).
  assert (length (strtok_all (names_text (td_shards d))) = length (td_shards d)) as Hlen.
  { apply (f_equal length) in Htok. by rewrite length_map in Htok. }
  unfold build_rule, rule_of_desc, tmp_of.
  cbn [tmp_table_name tmp_shard_column tmp_method tmp_shard_list tmp_broadcast].
  rewrite (decide_False (P:=td_column d = [])) by done.
  rewrite (decide_True (P:=names_text (td_shards d) ≠ [] ∧ map shard_of sds ≠ [])).
  2: { split.
       - intros E. rewrite E in Hlen. simpl in Hlen. destruct (td_shards d); done.
       - destruct sds; [|done]. destruct (td_shards d); simpl in *; [done|lia]. }
  rewrite resolve_names by (rewrite length_map; lia). rewrite Htok.
  by destruct (td_method d).
Qed.

(** *** The whole configuration *)
Lemma load_shards st sds :
  forallb shard_desc_ok sds → NoDup (shard_name <$> tmp_shards st ++ map shard_of sds) →
  (length (tmp_shards st) + length sds ≤ 63)%nat →
  let st' := foldl apply_item st (concat (map shard_items sds)) in
  ld_cfg st' = ld_cfg st ∧ tmp_shards st' = tmp_shards st ++ map shard_of sds ∧
  tmp_rules st' = tmp_rules st.
Proof.
  revert st. induction sds as [|d sds IH]; intros st Hok Hnd Hl.
  - simpl. by rewrite app_nil_r.
  - apply andb_True in Hok as [Hd Hok]. cbn [map concat length] in *. rewrite foldl_app, load_shard; [|done|lia|].
    2: { rewrite fmap_app in Hnd. apply NoDup_app in Hnd as (_ & Hnd & _).
         intros Hx. apply (Hnd _ Hx). apply elem_of_cons. by left. }
    match goal with |- context [foldl apply_item ?s _] => destruct (IH s Hok) as (-> & -> & ->) end.
    + simpl. by rewrite <- app_assoc.
    + simpl. rewrite length_app. simpl. lia.
    + split_and!; cbn [ld_cfg tmp_shards tmp_rules]; rewrite <- ?app_assoc; reflexivity.
Qed.
Lemma load_tables n st tds :
  forallb (table_desc_ok n) tds → NoDup (tmp_table_name <$> tmp_rules st ++ map tmp_of tds) →
  (length (tmp_rules st) + length tds ≤ 63)%nat →
  let st' := foldl apply_item st (concat (map table_items tds)) in
  ld_cfg st' = ld_cfg st ∧ tmp_shards st' = tmp_shards st ∧
  tmp_rules st' = tmp_rules st ++ map tmp_of tds.
Proof.
  revert st. induction tds as [|d tds IH]; intros st Hok Hnd Hl.
  - simpl. by rewrite app_nil_r.
  - apply andb_True in Hok as [Hd Hok]. cbn [map concat length] in *. rewrite foldl_app, (load_table _ n); [|done|lia|].
    2: { rewrite fmap_app in Hnd. apply NoDup_app in Hnd as (_ & Hnd & _).
         intros Hx. apply (Hnd _ Hx). apply elem_of_cons. by left. }
    match goal with |- context [foldl apply_item ?s _] => destruct (IH s Hok) as (-> & -> & ->) end.
    + simpl. by rewrite <- app_assoc.
    + simpl. rewrite length_app. simpl. lia.
    + split_and!; cbn [ld_cfg tmp_shards tmp_rules]; rewrite <- ?app_assoc; reflexivity.
Qed.

Lemma shard_items_ok sds :
  forallb shard_desc_ok sds → forallb item_ok (concat (map shard_items sds)).
Proof.
  intros Hs. apply forallb_True, Forall_concat, Forall_fmap. apply forallb_True in Hs.
  eapply Forall_impl; [exact Hs|]. intros d Hd. simpl.
  unfold shard_desc_ok in Hd. rewrite !andb_True in Hd. apply forallb_True. tauto.
Qed.
Lemma table_items_ok n tds :
  forallb (table_desc_ok n) tds → forallb item_ok (concat (map table_items tds)).
Proof.
  intros Hs. apply forallb_True, Forall_concat, Forall_fmap. apply forallb_True in Hs.
  eapply Forall_impl; [exact Hs|]. intros d Hd. simpl.
  unfold table_desc_ok in Hd. rewrite !andb_True in Hd. apply forallb_True. tauto.
Qed.
Lemma names_of_descs sds :
  NoDup (map sd_name sds) → NoDup (shard_name <$> map shard_of sds).
Proof.
  intros Hns. apply (NoDup_fmap_2 Some) in Hns.
  rewrite <- list_fmap_compose. by rewrite <- list_fmap_compose in Hns.
Qed.
Lemma copy_shard_of sds : copy_shard <$> map shard_of sds = map shard_of sds.
Proof. by induction sds; f_equal/=. Qed.
Lemma config_load_print sds tds :
  forallb shard_desc_ok sds → forallb (table_desc_ok (length sds)) tds →
  NoDup (map sd_name sds) → NoDup (map td_name tds) →
  (length sds ≤ 63)%nat → (length tds ≤ 63)%nat →
  config_load (Some (print_config sds tds)) =
  Some (set_map (mkShardMap (map shard_of sds) (map (rule_of_desc sds) tds) 20) config_default).
Proof.
  intros Hs Ht Hns Hnt Hls Hlt. unfold config_load, print_config. cbn [mbind option_bind].
  rewrite load_items.
  2: { rewrite forallb_app. apply andb_True. eauto using shard_items_ok, table_items_ok. }
  rewrite foldl_app.
  destruct (load_shards (mkLoading config_default [] [] [] []) sds) as (Hc1 & Hs1 & Hr1);
    [done|by apply names_of_descs|simpl; lia|].
  set (st1 := foldl _ _ (concat (map shard_items sds))) in *.
  destruct (load_tables (length sds) st1 tds) as (Hc2 & Hs2 & Hr2); [done| |rewrite Hr1; simpl; lia|].
  { rewrite Hr1. simpl. by rewrite <- list_fmap_compose. }
  rewrite Hc2, Hs2, Hr2, Hc1, Hs1, Hr1. cbn [ld_cfg tmp_shards tmp_rules app].
  unfold build_map. rewrite copy_shard_of. do 3 f_equal.
  clear -Ht. apply forallb_True in Ht. induction Ht as [|d tds Hd Ht IH]; [done|].
  simpl. rewrite build_rule_desc by done. f_equal. exact IH.
Qed.

(** A table of 64 shards is full, and a full table takes no more keys. *)
Lemma shard_section_full k v n l : (64 ≤ length l)%nat → shard_section k v n l = l.
Proof. intros Hl. unfold shard_section. by rewrite decide_True by (unfold MAX_SHARDS; lia). Qed.
Lemma load_last_shard st d :
  shard_desc_ok d → length (tmp_shards st) = 63%nat →
  Some (sd_name d) ∉ shard_name <$> tmp_shards st →
  foldl apply_item st (shard_items d) =
  mkLoading (ld_cfg st)
    (tmp_shards st ++ [mkShard (Some (sd_name d)) (Some (sd_conninfo d)) 0 0 zero_pool])
    (tmp_rules st) (bs "shard") (sd_name d).
Proof.
  unfold shard_desc_ok, shard_name_ok. rewrite !andb_True.
  intros (((_ & ((Hn%bool_decide_unpack & _) & _)) & _) & _) Hl Hni.
  unfold shard_items. cbn [foldl apply_item default].
  rewrite (shard_line (bs "conninfo")) by done. cbn [current_section_arg tmp_shards tmp_rules ld_cfg].
  rewrite shard_section_new by (assumption || lia).
  rewrite (shard_line (bs "key_range_start")) by done. cbn [current_section_arg tmp_shards tmp_rules ld_cfg].
  rewrite shard_section_full by (rewrite length_app; simpl; lia).
  rewrite (shard_line (bs "key_range_end")) by done. cbn [current_section_arg tmp_shards tmp_rules ld_cfg].
  rewrite shard_section_full by (rewrite length_app; simpl; lia). done.
Qed.
Lemma config_load_print_64 sds d :
  forallb shard_desc_ok (sds ++ [d]) → NoDup (map sd_name (sds ++ [d])) → length sds = 63%nat →
  config_load (Some (print_config (sds ++ [d]) [])) =
  Some (set_map (mkShardMap (map shard_of sds ++
                 [mkShard (Some (sd_name d)) (Some (sd_conninfo d)) 0 0 zero_pool]) [] 20)
          config_default).
Proof.
  intros Hs Hns Hl. unfold config_load, print_config. cbn [mbind option_bind map concat].
  rewrite app_nil_r, load_items by (by apply shard_items_ok).
  pose proof (names_of_descs _ Hns) as Hnd. rewrite map_app in *.
  rewrite forallb_app in Hs. apply andb_True in Hs as [Hs Hd].
  rewrite concat_app, foldl_app. rewrite fmap_app in Hnd.
  apply NoDup_app in Hnd as (Hnd & Hni & _).
  destruct (load_shards (mkLoading config_default [] [] [] []) sds) as (Hc1 & Hs1 & Hr1);
    [done|done|simpl; lia|].
  set (st1 := foldl _ _ (concat (map shard_items sds))) in *.
  cbn [map concat]. rewrite app_nil_r. cbn [forallb] in Hd. apply andb_True in Hd as [Hd _].
  rewrite load_last_shard; [|done|rewrite Hs1; simpl; by rewrite length_map|].
  - rewrite Hc1, Hs1, Hr1. cbn [ld_cfg tmp_shards tmp_rules app].
    unfold build_map. rewrite fmap_app, copy_shard_of. done.
  - rewrite Hs1. intros Hx. apply (Hni _ Hx). apply elem_of_cons. by left.
Qed.

(** ** The claims *)

Definition sample_shards : list ShardDesc :=
  [mkShardDesc (bs "s0") (bs "host=a port=1") 0 100;
   mkShardDesc (bs "s1") (bs "host=b port=2") 100 18446744073709551615].
Definition sample_tables : list TableDesc :=
  [mkTableDesc (bs "orders") (bs "user_id") SHARD_RANGE [bs "s1"; bs "s0"] false;
   mkTableDesc (bs "users") (bs "id") SHARD_HASH [bs "s0"; bs "s1"] false;
   mkTableDesc (bs "countries") (bs "code") SHARD_HASH [bs "s0"] true].
Definition many_shards (n : nat) : list ShardDesc :=
  map (λ i, mkShardDesc (bs "s" ++ dec (Z.of_nat i)) (bs "host=a") (Z.of_nat i) (Z.of_nat i + 1)) (seq 0 n).

(** C23: printing up to 63 shards and 63 tables as a configuration file and loading it
    gives the shard map they describe: names, connection strings, key ranges over the
    whole of uint64_t, and for each table its column, method, broadcast flag and the
    indices of the shards its list names, in the order of the list. *)
Theorem config_round_trip (sds : list ShardDesc) (tds : list TableDesc) :
  forallb shard_desc_ok sds → forallb (table_desc_ok (length sds)) tds →
  NoDup (map sd_name sds) → NoDup (map td_name tds) →
  (length sds ≤ 63)%nat → (length tds ≤ 63)%nat →
  config_load (Some (print_config sds tds)) =
  Some (set_map (mkShardMap (map shard_of sds) (map (rule_of_desc sds) tds) 20) config_default).
Proof. apply config_load_print. Qed.
Lemma config_round_trip_witness :
  config_load (Some (print_config sample_shards sample_tables)) =
  Some (set_map (mkShardMap (map shard_of sample_shards)
                  (map (rule_of_desc sample_shards) sample_tables) 20) config_default).
Proof.
  refine (config_round_trip sample_shards sample_tables _ _ _ _ _ _);
    [vm_compute; exact I|vm_compute; exact I| | | |].
  all: apply (bool_decide_unpack _); vm_compute; exact I.
Defined.

(** The 64th shard of a configuration file keeps its name and the first key of its
    section; the keys after it are ignored, so that its key range stays [0, 0) and no
    range rule ever selects it. *)
Theorem last_shard_loses_its_range (sds : list ShardDesc) (d : ShardDesc) :
  forallb shard_desc_ok (sds ++ [d]) → NoDup (map sd_name (sds ++ [d])) → length sds = 63%nat →
  config_load (Some (print_config (sds ++ [d]) [])) =
  Some (set_map (mkShardMap (map shard_of sds ++
                 [mkShard (Some (sd_name d)) (Some (sd_conninfo d)) 0 0 zero_pool]) [] 20)
          config_default).
Proof. apply config_load_print_64. Qed.
Lemma last_shard_loses_its_range_witness :
  config_load (Some (print_config (many_shards 63 ++
                       [mkShardDesc (bs "last") (bs "host=z") 63 64]) [])) =
  Some (set_map (mkShardMap (map shard_of (many_shards 63) ++
                 [mkShard (Some (bs "last")) (Some (bs "host=z")) 0 0 zero_pool]) [] 20)
          config_default).
Proof.
  refine (last_shard_loses_its_range (many_shards 63) (mkShardDesc (bs "last") (bs "host=z") 63 64) _ _ _);
    [vm_compute; exact I| |reflexivity].
  apply (bool_decide_unpack _). vm_compute. exact I.
Defined.
