(* ===== verification/Message.v ===== *)
(** * Wire protocol messages ([src/src/protocol/message.c]) *)
From S2P Require Import Prelude Memory.
#[local] Set Warnings "-clear-no-such-hyp".
#[local] Open Scope Z_scope.
#[local] Arguments be_encode : simpl never.

(** ** Data ([message.h]) *)
Definition MSG_QUERY : byte := "Q".
Definition MSG_PARSE : byte := "P".
Definition MSG_BIND : byte := "B".
Definition MSG_DESCRIBE : byte := "D".
Definition MSG_EXECUTE : byte := "E".
Definition MSG_SYNC : byte := "S".
Definition MSG_CLOSE : byte := "C".
Definition MSG_TERMINATE : byte := "X".
Definition MSG_COPY_DATA : byte := "d".
Definition MSG_COPY_DONE : byte := "c".
Definition MSG_COPY_FAIL : byte := "f".
Definition MSG_PASSWORD : byte := "p".
Definition MSG_AUTH_REQUEST : byte := "R".
Definition MSG_PARAM_STATUS : byte := "S".
Definition MSG_BACKEND_KEY : byte := "K".
Definition MSG_READY_FOR_QUERY : byte := "Z".
Definition MSG_ROW_DESCRIPTION : byte := "T".
Definition MSG_DATA_ROW : byte := "D".
Definition MSG_CMD_COMPLETE : byte := "C".
Definition MSG_ERROR_RESPONSE : byte := "E".
Definition MSG_EMPTY_QUERY : byte := "I".
Definition MSG_COPY_IN_RESP : byte := "G".
Definition MSG_COPY_OUT_RESP : byte := "H".
Definition PG_PROTOCOL_VERSION : Z := Z.lor (Z.shiftl 3 16) 0.
Definition PG_SSL_REQUEST : Z := 80877103.
Definition PG_CANCEL_REQUEST : Z := 80877102.
Definition AUTH_OK : Z := 0.
Definition TXN_IDLE : byte := "I".

Record MsgBuf : Type := mkMsgBuf {
  buf_data : mem;
  buf_len : Z;
  buf_cap : Z;
  buf_pos : Z;
}.

(** ** Operations *)
Definition msgbuf_init (initial_cap : Z) : MsgBuf :=
  mkMsgBuf (malloc initial_cap) 0 initial_cap 0.
Definition msgbuf_reset (buf : MsgBuf) : MsgBuf :=
  mkMsgBuf (buf_data buf) 0 (buf_cap buf) 0.
Definition msgbuf_free (buf : MsgBuf) : MsgBuf := mkMsgBuf [] 0 0 0.

Definition msgbuf_ensure (buf : MsgBuf) (additional : Z) : res MsgBuf :=
  if decide (u64 (buf_len buf + additional) ≤ buf_cap buf) then Ret buf
  else
    new_cap ← grow grow_fuel (u64 (buf_cap buf * 2)) (u64 (buf_len buf + additional));
    Ret (mkMsgBuf (realloc (buf_data buf) new_cap) (buf_len buf) new_cap (buf_pos buf)).

(** [msgbuf_put_bytes]; the other writers copy the bytes of their argument. *)
Definition msgbuf_put_bytes (buf : MsgBuf) (data : bytes) : res MsgBuf :=
  buf ← msgbuf_ensure buf (Z.of_nat (length data));
  m ← write_at (buf_data buf) (buf_len buf) data;
  Ret (mkMsgBuf m (buf_len buf + Z.of_nat (length data)) (buf_cap buf) (buf_pos buf)).
Definition msgbuf_put_byte (buf : MsgBuf) (val : byte) : res MsgBuf :=
  buf ← msgbuf_ensure buf 1;
  m ← write_at (buf_data buf) (buf_len buf) [val];
  Ret (mkMsgBuf m (buf_len buf + 1) (buf_cap buf) (buf_pos buf)).
Definition msgbuf_put_int16 (buf : MsgBuf) (val : Z) : res MsgBuf :=
  buf ← msgbuf_ensure buf 2;
  m ← write_at (buf_data buf) (buf_len buf) (be_encode 2 val);
  Ret (mkMsgBuf m (buf_len buf + 2) (buf_cap buf) (buf_pos buf)).
Definition msgbuf_put_int32 (buf : MsgBuf) (val : Z) : res MsgBuf :=
  buf ← msgbuf_ensure buf 4;
  m ← write_at (buf_data buf) (buf_len buf) (be_encode 4 val);
  Ret (mkMsgBuf m (buf_len buf + 4) (buf_cap buf) (buf_pos buf)).
(** [str] is the C string without its terminator. *)
Definition msgbuf_put_string (buf : MsgBuf) (str : bytes) : res MsgBuf :=
  let slen := Z.of_nat (length str) + 1 in
  buf ← msgbuf_ensure buf slen;
  m ← write_at (buf_data buf) (buf_len buf) (str ++ [NUL]);
  Ret (mkMsgBuf m (buf_len buf + slen) (buf_cap buf) (buf_pos buf)).

Definition move_pos (buf : MsgBuf) (n : Z) : MsgBuf :=
  mkMsgBuf (buf_data buf) (buf_len buf) (buf_cap buf) (buf_pos buf + n).
Definition msgbuf_get_byte (buf : MsgBuf) : res (MsgBuf * byte) :=
  l ← read_at (buf_data buf) (buf_pos buf) 1;
  b ← deref_opt (head l);
  Ret (move_pos buf 1, b).
(** [ntohs] yields an unsigned value that is returned as [int16_t]. *)
Definition msgbuf_get_int16 (buf : MsgBuf) : res (MsgBuf * Z) :=
  l ← read_at (buf_data buf) (buf_pos buf) 2; Ret (move_pos buf 2, i16 (be_decode l)).
Definition msgbuf_get_int32 (buf : MsgBuf) : res (MsgBuf * Z) :=
  l ← read_at (buf_data buf) (buf_pos buf) 4; Ret (move_pos buf 4, i32 (be_decode l)).
Definition msgbuf_get_string (buf : MsgBuf) : res (MsgBuf * bytes) :=
  s ← cstr_at (buf_data buf) (buf_pos buf);
  Ret (move_pos buf (Z.of_nat (length s) + 1), s).

(** ** Messages *)
Definition msg_begin (buf : MsgBuf) (type : byte) : res (MsgBuf * Z) :=
  buf ← msgbuf_put_byte buf type;
  let len_offset := buf_len buf in
  buf ← msgbuf_put_int32 buf 0;
  Ret (buf, len_offset).
Definition msg_end (buf : MsgBuf) (len_offset : Z) : res MsgBuf :=
  let len := i32 (buf_len buf - len_offset) in
  m ← write_at (buf_data buf) len_offset (be_encode 4 len);
  Ret (mkMsgBuf m (buf_len buf) (buf_cap buf) (buf_pos buf)).

Definition msg_write_auth_ok (buf : MsgBuf) : res MsgBuf :=
  '(buf, off) ← msg_begin buf MSG_AUTH_REQUEST;
  buf ← msgbuf_put_int32 buf AUTH_OK;
  msg_end buf off.
Definition msg_write_param_status (buf : MsgBuf) (name value : bytes) : res MsgBuf :=
  '(buf, off) ← msg_begin buf MSG_PARAM_STATUS;
  buf ← msgbuf_put_string buf name;
  buf ← msgbuf_put_string buf value;
  msg_end buf off.
Definition msg_write_backend_key (buf : MsgBuf) (pid key : Z) : res MsgBuf :=
  '(buf, off) ← msg_begin buf MSG_BACKEND_KEY;
  buf ← msgbuf_put_int32 buf pid;
  buf ← msgbuf_put_int32 buf key;
  msg_end buf off.
Definition msg_write_ready_for_query (buf : MsgBuf) (txn_status : byte) : res MsgBuf :=
  '(buf, off) ← msg_begin buf MSG_READY_FOR_QUERY;
  buf ← msgbuf_put_byte buf txn_status;
  msg_end buf off.
Definition msg_write_error (buf : MsgBuf) (severity code message : bytes) : res MsgBuf :=
  '(buf, off) ← msg_begin buf MSG_ERROR_RESPONSE;
  buf ← msgbuf_put_byte buf "S";
  buf ← msgbuf_put_string buf severity;
  buf ← msgbuf_put_byte buf "C";
  buf ← msgbuf_put_string buf code;
  buf ← msgbuf_put_byte buf "M";
  buf ← msgbuf_put_string buf message;
  buf ← msgbuf_put_byte buf NUL;
  msg_end buf off.
Definition msg_write_command_complete (buf : MsgBuf) (tag : bytes) : res MsgBuf :=
  '(buf, off) ← msg_begin buf MSG_CMD_COMPLETE;
  buf ← msgbuf_put_string buf tag;
  msg_end buf off.

(** ** What the buffer holds *)

(** The bytes written so far are [l]. *)
Record holds (buf : MsgBuf) (l : bytes) : Prop := {
  holds_cap : buf_cap buf = Z.of_nat (length (buf_data buf));
  holds_pos : 0 < buf_cap buf < 2 ^ 64;
  holds_len : buf_len buf = Z.of_nat (length l);
  holds_data : starts_with (buf_data buf) l;
}.

(** An append operation: [f] adds [x], as long as the buffer stays below 2^62
    bytes, and leaves the read position alone. *)
Definition appends (f : MsgBuf → res MsgBuf) (x : bytes) : Prop :=
  ∀ buf l, holds buf l → Z.of_nat (length l + length x) ≤ 2 ^ 62 →
  ∃ buf', f buf = Ret buf' ∧ holds buf' (l ++ x) ∧ buf_pos buf' = buf_pos buf.

Lemma msgbuf_init_holds n : 0 < n < 2 ^ 64 → holds (msgbuf_init n) [].
Proof.
  intros. unfold msgbuf_init, malloc.
  split; simpl; [rewrite length_replicate; lia|done|done|done].
Qed.
Lemma msgbuf_reset_holds buf l : holds buf l → holds (msgbuf_reset buf) [].
Proof. intros [? ? ? ?]. by split. Qed.

Lemma msgbuf_ensure_spec buf l n :
  holds buf l → 0 ≤ n → Z.of_nat (length l) + n ≤ 2 ^ 62 →
  ∃ buf', msgbuf_ensure buf n = Ret buf' ∧ holds buf' l ∧ buf_pos buf' = buf_pos buf ∧
    buf_len buf' = buf_len buf ∧ Z.of_nat (length l) + n ≤ buf_cap buf' ∧
    (buf_cap buf' = buf_cap buf ∨ buf_cap buf' < 4 * (Z.of_nat (length l) + n)).
Proof.
  intros [Hc Hp Hl Hd] Hn Hb. unfold msgbuf_ensure. rewrite Hl, (uwrap_small 64 (_ + n)) by lia.
  case_decide as Hle.
  - exists buf. split_and!; [done|by split|done|done|lia|by left].
  - pose proof (starts_with_length _ _ Hd). rewrite uwrap_small by lia.
    destruct (grow_enough (buf_cap buf * 2) (Z.of_nat (length l) + n)) as (c & -> & ? & ? & ?); [lia..|].
    eexists. split; [done|]. simpl. split_and!; [|done|done|lia|lia].
    split; simpl; [by rewrite length_realloc by lia|lia|done|].
    apply realloc_starts; [done|lia].
Qed.

Lemma write_appends n x :
  n = Z.of_nat (length x) →
  appends (λ buf, buf ← msgbuf_ensure buf n;
    m ← write_at (buf_data buf) (buf_len buf) x;
    Ret (mkMsgBuf m (buf_len buf + n) (buf_cap buf) (buf_pos buf))) x.
Proof.
  intros -> buf l Hh Hb.
  destruct (msgbuf_ensure_spec buf l (Z.of_nat (length x))) as (b1 & -> & [Hc Hp Hl Hd] & Hps & _ & Hcap & _);
    [done|lia|lia|].
  cbn [mbind res_bind]. rewrite Hl.
  destruct (write_at_spec (buf_data b1) l x) as (m & -> & Hm & Hst); [done|lia|].
  eexists. split; [done|]. split; [|done].
  split; simpl; [congruence|done|rewrite length_app; lia|done].
Qed.

(** A string with its terminator. *)
Definition cstr (s : bytes) : bytes := s ++ [NUL].

Lemma put_bytes_appends x : appends (λ b, msgbuf_put_bytes b x) x.
Proof. by apply write_appends. Qed.
Lemma put_byte_appends c : appends (λ b, msgbuf_put_byte b c) [c].
Proof. by apply write_appends. Qed.
Lemma put_int16_appends z : appends (λ b, msgbuf_put_int16 b z) (be_encode 2 z).
Proof. by apply write_appends. Qed.
Lemma put_int32_appends z : appends (λ b, msgbuf_put_int32 b z) (be_encode 4 z).
Proof. by apply write_appends. Qed.
Lemma put_string_appends s : appends (λ b, msgbuf_put_string b s) (cstr s).
Proof. apply write_appends. unfold cstr. rewrite length_app. simpl. lia. Qed.

Lemma appends_seq f g x y : appends f x → appends g y → appends (λ b, f b ≫= g) (x ++ y).
Proof.
  intros Hf Hg buf l Hh Hb. rewrite length_app in Hb.
  destruct (Hf buf l Hh) as (b1 & -> & H1 & P1); [lia|]. simpl.
  destruct (Hg b1 (l ++ x) H1) as (b2 & -> & H2 & P2); [rewrite length_app; lia|].
  exists b2. rewrite app_assoc, <- P1. done.
Qed.
#[export] Hint Resolve put_bytes_appends put_byte_appends put_int16_appends put_int32_appends
  put_string_appends : sharegres.

(** A framed message: type, length (which counts itself, modulo 2^32), payload. *)
Definition frame (t : byte) (payload : bytes) : bytes :=
  t :: be_encode 4 (4 + Z.of_nat (length payload)) ++ payload.

Lemma length_frame t p : length (frame t p) = (5 + length p)%nat.
Proof. unfold frame. rewrite length_cons, length_app, length_be_encode. lia. Qed.

Lemma msg_begin_spec buf l t :
  holds buf l → Z.of_nat (length l) + 5 ≤ 2 ^ 62 →
  ∃ buf', msg_begin buf t = Ret (buf', Z.of_nat (length l + 1)) ∧
    holds buf' (l ++ [t] ++ be_encode 4 0) ∧ buf_pos buf' = buf_pos buf.
Proof.
  intros Hh Hb. unfold msg_begin.
  destruct (put_byte_appends t buf l Hh) as (b1 & -> & H1 & P1); [simpl; lia|]. simpl.
  destruct (put_int32_appends 0 b1 _ H1) as (b2 & -> & H2 & P2).
  { rewrite length_app, length_be_encode. simpl. lia. }
  exists b2. rewrite (holds_len _ _ H1), length_app. split_and!; [done| |congruence].
  by rewrite <- app_assoc in H2.
Qed.

Lemma be_encode_i32 z : be_encode 4 (i32 z) = be_encode 4 z.
Proof.
  rewrite <- (be_encode_mod 4 (i32 z)), <- (be_encode_mod 4 z). f_equal.
  change (8 * Z.of_nat 4) with 32. unfold swrap.
  change (2 ^ (32 - 1)) with 2147483648. change (2 ^ 32) with 4294967296.
  rewrite Zminus_mod_idemp_l. f_equal. lia.
Qed.
Lemma framed body t p :
  appends body p →
  appends (λ b, '(b, off) ← msg_begin b t; b ← body b; msg_end b off) (frame t p).
Proof.
  intros Hbody buf l Hh Hb. rewrite length_frame in Hb.
  destruct (msg_begin_spec buf l t Hh) as (b1 & -> & H1 & P1); [lia|].
  cbn [mbind res_bind]. destruct (Hbody b1 _ H1) as (b2 & -> & H2 & P2).
  { rewrite !length_app, length_be_encode. simpl. lia. }
  cbn [mbind res_bind]. unfold msg_end. rewrite (holds_len _ _ H2), !length_app, length_be_encode.
  replace (Z.of_nat (length l + (length [t] + 4) + length p) - Z.of_nat (length l + 1))
    with (4 + Z.of_nat (length p)) by (simpl; lia).
  rewrite be_encode_i32. destruct H2 as [Hc Hcp Hl Hd].
  rewrite <- !app_assoc, (app_assoc l) in Hd.
  destruct (write_at_inside _ (l ++ [t]) (be_encode 4 0) p
    (be_encode 4 (4 + Z.of_nat (length p))) Hd) as (m & E & Hm & Hst); [done|].
  rewrite length_app in E. change (length [t]) with 1%nat in E. rewrite E. eexists. split; [done|]. simpl. split; [|congruence].
  rewrite <- app_assoc in Hst.
  split; simpl; [congruence|done| |exact Hst].
  rewrite length_app, length_frame. simpl. lia.
Qed.

(** The payloads of the message writers. *)
Definition error_payload (severity code message : bytes) : bytes :=
  "S"%byte :: cstr severity ++ "C"%byte :: cstr code ++ "M"%byte :: cstr message ++ [NUL].

Lemma appends_ext f g x : (∀ b, f b = g b) → appends f x → appends g x.
Proof. intros E Hf buf l. rewrite <- E. apply Hf. Qed.

Lemma bind_ext {A B} (m : res A) (f g : A → res B) : (∀ a, f a = g a) → (m ≫= f) = (m ≫= g).
Proof. intros E. destruct m; simpl; auto. Qed.

(** Sequencing is associative: step through the writes. *)
Ltac same_steps :=
  intros b; unfold msg_write_auth_ok, msg_write_ready_for_query, msg_write_command_complete,
    msg_write_param_status, msg_write_backend_key, msg_write_error;
  apply bind_ext; intros [b1 off];
  repeat (rewrite <- bind_assoc; apply bind_ext; intros ?); reflexivity.
(** A sequence of writes [body] between [msg_begin] and [msg_end] is one frame. *)
Ltac framed_writes t body :=
  intros; eapply (appends_ext (λ b, '(b, off) ← msg_begin b t; b ← body b; msg_end b off));
  [same_steps|apply (framed body t)];
  repeat (apply appends_seq; [by eauto with sharegres|]); by eauto with sharegres.

Lemma write_auth_ok_appends :
  appends msg_write_auth_ok (frame MSG_AUTH_REQUEST (be_encode 4 AUTH_OK)).
Proof. framed_writes MSG_AUTH_REQUEST (λ b, msgbuf_put_int32 b AUTH_OK). Qed.
Lemma write_ready_appends c :
  appends (λ b, msg_write_ready_for_query b c) (frame MSG_READY_FOR_QUERY [c]).
Proof. framed_writes MSG_READY_FOR_QUERY (λ b, msgbuf_put_byte b c). Qed.
Lemma write_command_complete_appends tag :
  appends (λ b, msg_write_command_complete b tag) (frame MSG_CMD_COMPLETE (cstr tag)).
Proof. framed_writes MSG_CMD_COMPLETE (λ b, msgbuf_put_string b tag). Qed.
Lemma write_param_status_appends name value :
  appends (λ b, msg_write_param_status b name value)
    (frame MSG_PARAM_STATUS (cstr name ++ cstr value)).
Proof. framed_writes MSG_PARAM_STATUS (λ b, b ← msgbuf_put_string b name; msgbuf_put_string b value). Qed.
Lemma write_backend_key_appends pid key :
  appends (λ b, msg_write_backend_key b pid key)
    (frame MSG_BACKEND_KEY (be_encode 4 pid ++ be_encode 4 key)).
Proof. framed_writes MSG_BACKEND_KEY (λ b, b ← msgbuf_put_int32 b pid; msgbuf_put_int32 b key). Qed.
Lemma write_error_appends severity code message :
  appends (λ b, msg_write_error b severity code message)
    (frame MSG_ERROR_RESPONSE (error_payload severity code message)).
Proof.
  intros. apply (appends_ext (λ b, '(b, off) ← msg_begin b MSG_ERROR_RESPONSE;
    b ← (b ← msgbuf_put_byte b "S"; b ← msgbuf_put_string b severity;
         b ← msgbuf_put_byte b "C"; b ← msgbuf_put_string b code;
         b ← msgbuf_put_byte b "M"; b ← msgbuf_put_string b message;
         msgbuf_put_byte b NUL); msg_end b off)); [same_steps|apply (framed (λ b, _))].
  apply (appends_seq _ _ [_] (cstr severity ++ [_] ++ cstr code ++ [_] ++ cstr message ++ [_]));
    [eauto with sharegres|].
  repeat (apply appends_seq; [by eauto with sharegres|]); by eauto with sharegres.
Qed.

(** ** Reading back *)

Lemma get_int32_spec buf l1 z l2 :
  holds buf (l1 ++ be_encode 4 z ++ l2) → buf_pos buf = Z.of_nat (length l1) →
  - 2 ^ 31 ≤ z < 2 ^ 31 →
  msgbuf_get_int32 buf = Ret (move_pos buf 4, z).
Proof.
  intros [_ _ _ Hd] Hp Hz. unfold msgbuf_get_int32. rewrite Hp.
  rewrite (read_at_spec _ l1 (be_encode 4 z) l2 Hd : read_at _ _ 4 = _). cbn [mbind res_bind].
  rewrite be_decode_encode. change (2 ^ (8 * Z.of_nat 4)) with (2 ^ 32).
  change (z `mod` 2 ^ 32) with (uwrap 32 z). rewrite swrap_uwrap, swrap_small by lia. done.
Qed.
Lemma get_int16_spec buf l1 z l2 :
  holds buf (l1 ++ be_encode 2 z ++ l2) → buf_pos buf = Z.of_nat (length l1) →
  - 2 ^ 15 ≤ z < 2 ^ 15 →
  msgbuf_get_int16 buf = Ret (move_pos buf 2, z).
Proof.
  intros [_ _ _ Hd] Hp Hz. unfold msgbuf_get_int16. rewrite Hp.
  rewrite (read_at_spec _ l1 (be_encode 2 z) l2 Hd : read_at _ _ 2 = _). cbn [mbind res_bind].
  rewrite be_decode_encode. change (2 ^ (8 * Z.of_nat 2)) with (2 ^ 16).
  change (z `mod` 2 ^ 16) with (uwrap 16 z). rewrite swrap_uwrap, swrap_small by lia. done.
Qed.
Lemma get_string_spec buf l1 s l2 :
  holds buf (l1 ++ cstr s ++ l2) → buf_pos buf = Z.of_nat (length l1) → cstring s →
  msgbuf_get_string buf = Ret (move_pos buf (Z.of_nat (length s) + 1), s).
Proof.
  intros [_ _ _ Hd] Hp Hs. unfold msgbuf_get_string. rewrite Hp.
  unfold cstr in Hd. rewrite <- (app_assoc s) in Hd.
  by rewrite (cstr_at_spec _ l1 s l2 Hd Hs).
Qed.

(** A client splits the byte stream into messages by the length fields. *)
Fixpoint split_frames (fuel : nat) (l : bytes) : option (list (byte * bytes)) :=
  match fuel, l with
  | _, [] => Some []
  | O, _ => None
  | S fuel, t :: l =>
    let n := Z.to_nat (be_decode (take 4 l) - 4) in
    if decide ((4 ≤ length l)%nat ∧ (n ≤ length l - 4)%nat ∧ 4 ≤ be_decode (take 4 l)) then
      ms ← split_frames fuel (drop (4 + n) l);
      Some ((t, take n (drop 4 l)) :: ms)
    else None
  end.
Definition frames (ms : list (byte * bytes)) : bytes := concat (map (λ m, frame m.1 m.2) ms).
Definition small (p : bytes) : Prop := 4 + Z.of_nat (length p) < 2 ^ 31.

Lemma split_frames_spec fuel ms :
  Forall (λ m, small m.2) ms → (length ms ≤ fuel)%nat → split_frames fuel (frames ms) = Some ms.
Proof.
  intros Hs. revert fuel. induction Hs as [|[t p] ms Hp Hs IH]; intros fuel Hf; [by destruct fuel|].
  destruct fuel as [|fuel]; simpl in Hf; [lia|]. unfold small in Hp. simpl in Hp.
  unfold frames. cbn [map concat]. unfold frame. cbn [fst snd app].
  fold (frames ms). rewrite <- app_assoc.
  cbn [split_frames]. rewrite take_app_length' by (by rewrite length_be_encode).
  rewrite be_decode_encode. change (2 ^ (8 * Z.of_nat 4)) with (2 ^ 32). rewrite Z.mod_small by lia.
  replace (Z.to_nat (4 + Z.of_nat (length p) - 4)) with (length p) by lia.
  rewrite decide_True by (rewrite !length_app, length_be_encode; lia).
  rewrite (drop_app_add' _ _ 4), drop_app_length by (by rewrite length_be_encode).
  rewrite (drop_app_length' _ _ 4) by (by rewrite length_be_encode).
  rewrite take_app_length, IH by lia. done.
Qed.

(** ** Properties *)

(** The message each writer appends. *)
Inductive writer : (MsgBuf → res MsgBuf) → byte * bytes → Prop :=
| w_auth_ok : writer msg_write_auth_ok (MSG_AUTH_REQUEST, be_encode 4 0)
| w_param name value :
    writer (λ b, msg_write_param_status b name value) (MSG_PARAM_STATUS, cstr name ++ cstr value)
| w_key pid key :
    writer (λ b, msg_write_backend_key b pid key) (MSG_BACKEND_KEY, be_encode 4 pid ++ be_encode 4 key)
| w_ready c : writer (λ b, msg_write_ready_for_query b c) (MSG_READY_FOR_QUERY, [c])
| w_error severity code message :
    writer (λ b, msg_write_error b severity code message)
      (MSG_ERROR_RESPONSE, error_payload severity code message)
| w_complete tag : writer (λ b, msg_write_command_complete b tag) (MSG_CMD_COMPLETE, cstr tag).

Lemma writer_appends f m : writer f m → appends f (frame m.1 m.2).
Proof.
  destruct 1; simpl; intros;
    auto using write_auth_ok_appends, write_param_status_appends, write_backend_key_appends,
      write_ready_appends, write_error_appends, write_command_complete_appends.
Qed.

(** The writers [fs], called one after the other. *)
Definition write_all (fs : list (MsgBuf → res MsgBuf)) (buf : MsgBuf) : res MsgBuf :=
  foldl (λ r f, r ≫= f) (Ret buf) fs.
(** The bytes written so far, if all of them are initialised. *)
Definition contents (buf : MsgBuf) : option bytes :=
  mapM id (take (Z.to_nat (buf_len buf)) (buf_data buf)).
Lemma holds_contents buf l : holds buf l → contents buf = Some l.
Proof.
  intros [_ _ Hl Hd]. unfold contents. rewrite Hl, Nat2Z.id, (Hd : take _ _ = _).
  apply mapM_fmap_Some. done.
Qed.
Lemma write_all_appends fs ms : Forall2 writer fs ms → appends (write_all fs) (frames ms).
Proof.
  intros Hw. revert ms Hw. induction fs as [|f fs IH] using rev_ind; intros ms Hw.
  - apply Forall2_nil_inv_l in Hw as ->. intros buf l Hh _. exists buf. by rewrite app_nil_r.
  - apply Forall2_app_inv_l in Hw as (ms1 & ms2 & H1 & H2 & ->).
    apply Forall2_cons_inv_l in H2 as (m & ms3 & Hm & ->%Forall2_nil_inv_l & ->).
    apply (appends_ext (λ b, write_all fs b ≫= f)).
    { intros b. unfold write_all. by rewrite foldl_app. }
    unfold frames. rewrite map_app, concat_app. simpl. rewrite app_nil_r.
    apply appends_seq; [by apply IH|by apply writer_appends].
Qed.


(** C24: The messages the writers put in a buffer can be taken apart again. Called one
    after the other on a new buffer of any size, which grows as needed, the writers never
    write out of bounds and leave a buffer from which a reader that follows the length
    fields recovers every message in order, its type and its payload; and a value that
    [msgbuf_put_int32], [msgbuf_put_int16] or [msgbuf_put_string] adds to a buffer is the
    one that the matching getter reads at that place. *)
Theorem messages_round_trip fs ms cap buf l z s :
  Forall2 writer fs ms → Forall (λ m, small m.2) ms → 0 < cap < 2 ^ 64 →
  Z.of_nat (length (frames ms)) ≤ 2 ^ 62 →
  holds buf l → buf_pos buf = buf_len buf → Z.of_nat (length l + length s + 4) ≤ 2 ^ 62 →
  (∃ buf', write_all fs (msgbuf_init cap) = Ret buf' ∧
     (contents buf' ≫= split_frames (length ms)) = Some ms) ∧
  (- 2 ^ 31 ≤ z < 2 ^ 31 → ∃ buf', msgbuf_put_int32 buf z = Ret buf' ∧
     msgbuf_get_int32 buf' = Ret (move_pos buf' 4, z)) ∧
  (- 2 ^ 15 ≤ z < 2 ^ 15 → ∃ buf', msgbuf_put_int16 buf z = Ret buf' ∧
     msgbuf_get_int16 buf' = Ret (move_pos buf' 2, z)) ∧
  (cstring s → ∃ buf', msgbuf_put_string buf s = Ret buf' ∧
     msgbuf_get_string buf' = Ret (move_pos buf' (Z.of_nat (length s) + 1), s)).
Proof.
  intros Hw Hs Hc Hb Hh Hp Hl. pose proof (holds_len _ _ Hh) as El. split_and!.
  - destruct (write_all_appends fs ms Hw (msgbuf_init cap) []) as (buf' & E & Hh' & _);
      [by apply msgbuf_init_holds|done|].
    exists buf'. rewrite (holds_contents _ _ Hh'). split; [done|]. by apply split_frames_spec.
  - intros Hz. destruct (put_int32_appends z buf l Hh) as (b & E & H & P); [rewrite length_be_encode; lia|].
    exists b. split; [done|]. apply (get_int32_spec b l z []); [by rewrite app_nil_r|congruence|done].
  - intros Hz. destruct (put_int16_appends z buf l Hh) as (b & E & H & P); [rewrite length_be_encode; lia|].
    exists b. split; [done|]. apply (get_int16_spec b l z []); [by rewrite app_nil_r|congruence|done].
  - intros Hz. destruct (put_string_appends s buf l Hh) as (b & E & H & P);
      [unfold cstr; rewrite length_app; simpl; lia|].
    exists b. split; [done|]. apply (get_string_spec b l s []); [by rewrite app_nil_r|congruence|done].
Qed.
Lemma messages_round_trip_witness :
  (∃ buf', write_all [λ b, msg_write_error b (bs "ERROR") (bs "42P01") (bs "no such table");
      λ b, msg_write_ready_for_query b TXN_IDLE] (msgbuf_init 1) = Ret buf' ∧
    (contents buf' ≫= split_frames 2) =
      Some [(MSG_ERROR_RESPONSE, error_payload (bs "ERROR") (bs "42P01") (bs "no such table"));
        (MSG_READY_FOR_QUERY, [TXN_IDLE])]) ∧
  ∃ buf', msgbuf_put_string (msgbuf_init 1) (bs "SET") = Ret buf' ∧
    msgbuf_get_string buf' = Ret (move_pos buf' 4, bs "SET").
Proof.
  destruct (messages_round_trip [λ b, msg_write_error b (bs "ERROR") (bs "42P01") (bs "no such table");
      λ b, msg_write_ready_for_query b TXN_IDLE]
    [(MSG_ERROR_RESPONSE, error_payload (bs "ERROR") (bs "42P01") (bs "no such table"));
     (MSG_READY_FOR_QUERY, [TXN_IDLE])] 1 (msgbuf_init 1) [] 0 (bs "SET")) as (H & _ & _ & Hs);
    [repeat constructor|repeat constructor|lia|vm_compute; discriminate|by apply msgbuf_init_holds|
     done|vm_compute; discriminate|].
  split; [exact H|]. apply Hs. by apply (bool_decide_unpack (cstring (bs "SET"))).
Defined.

(** [msgbuf_ensure] makes room for the requested bytes, keeps the contents and at
    most doubles what is needed plus the old capacity; but on a buffer of capacity
    0, such as one that [msgbuf_free] has been called on, it never returns. *)
Theorem ensure_grows buf l n :
  holds buf l → 0 ≤ n → Z.of_nat (length l) + n ≤ 2 ^ 62 →
  (∃ buf', msgbuf_ensure buf n = Ret buf' ∧ holds buf' l ∧
    Z.of_nat (length l) + n ≤ buf_cap buf' ∧
    (buf_cap buf' = buf_cap buf ∨ buf_cap buf' < 4 * (Z.of_nat (length l) + n))) ∧
  (0 < n → msgbuf_ensure (msgbuf_free buf) n = Hang).
Proof.
  intros Hh Hn Hb. split.
  - destruct (msgbuf_ensure_spec buf l n Hh Hn Hb) as (buf' & ? & ? & _ & _ & ? & ?). eauto 10.
  - intros Hpos. unfold msgbuf_ensure, msgbuf_free. simpl buf_len. simpl buf_cap.
    rewrite (uwrap_small 64 (0 + n)) by lia. rewrite decide_False by lia.
    change (u64 (0 * 2)) with 0. by rewrite grow_stuck by lia.
Qed.
Lemma ensure_grows_witness :
  msgbuf_ensure (msgbuf_init 4) 9 = Ret (mkMsgBuf (replicate 16 None) 0 16 0) ∧
  msgbuf_ensure (msgbuf_free (msgbuf_init 4)) 9 = Hang.
Proof.
  split; [vm_compute; reflexivity|].
  apply (ensure_grows (msgbuf_init 4) [] 9); [by apply msgbuf_init_holds|lia|simpl; lia|lia].
Defined.
