(* ===== verification/Event.v ===== *)
(** * Event handlers and their registration
    ([src/src/event/event_loop.h], [event_loop.c])

    A handler is the record that epoll gives back with an event.  Its [data] pointer
    leads to the session or scatter entry the handler is a member of; here the
    handler is found through its owner, so the pointer is not a field. *)
From S2P Require Import Prelude LibPQ.
#[local] Set Warnings "-clear-no-such-hyp".
#[local] Open Scope Z_scope.

Definition EPOLLIN : Z := 1.
Definition EPOLLOUT : Z := 4.
Definition EPOLLERR : Z := 8.
Definition EPOLLHUP : Z := 16.
(** [events & (EPOLLERR | EPOLLHUP)] *)
Definition has_error (events : Z) : bool :=
  negb (Z.eqb (Z.land events (Z.lor EPOLLERR EPOLLHUP)) 0).

(** The functions that are stored as callbacks. *)
Inductive callback : Type :=
| session_on_client_readable_cb | session_on_client_writable_cb
| session_on_backend_readable_cb | session_on_scatter_readable_cb | on_accept_cb.
#[export] Instance callback_eq_dec : EqDecision callback.
Proof. solve_decision. Defined.

Record EventHandler : Type := mkEventHandler {
  ev_fd : Z;
  ev_events : Z;
  ev_callback : option callback;
}.
Definition zero_handler : EventHandler := mkEventHandler 0 0 None.
Definition set_events (e : Z) (h : EventHandler) : EventHandler :=
  mkEventHandler (ev_fd h) e (ev_callback h).
Definition set_callback (cb : callback) (h : EventHandler) : EventHandler :=
  mkEventHandler (ev_fd h) (ev_events h) (Some cb).

Section registration.
Context {W : Type} {Os : OS W}.

Definition event_loop_add (w : W) (h : EventHandler) (events : Z) : W * (EventHandler * Z) :=
  let h := set_events events h in
  let '(w, ok) := epoll_ctl w EPOLL_CTL_ADD (ev_fd h) events in
  (w, (h, if ok : bool then 0 else -1)).
Definition event_loop_mod (w : W) (h : EventHandler) (events : Z) : W * (EventHandler * Z) :=
  let h := set_events events h in
  let '(w, ok) := epoll_ctl w EPOLL_CTL_MOD (ev_fd h) events in
  (w, (h, if ok : bool then 0 else -1)).
Definition event_loop_del (w : W) (h : EventHandler) : W * Z :=
  let '(w, ok) := epoll_ctl w EPOLL_CTL_DEL (ev_fd h) 0 in
  (w, if ok : bool then 0 else -1).
End registration.
