(* ===== verification/Session.v ===== *)
(** * Client sessions: state and elementary operations
    ([src/src/session/session.h], [session.c])

    One session per client: its socket, its receive and send buffers, the backend
    connection of a single-shard query and the connections of a scatter query.  The
    operations run in the monad [M]: they read and write the world, the shard map
    (whose pools they share) and the session.  A session that has been freed is
    [None], and touching it is undefined behaviour. *)
From S2P Require Import Prelude Memory LibPQ Pool ShardMap Message Event.
#[local] Set Warnings "-clear-no-such-hyp".
#[local] Open Scope Z_scope.

(** ** Data ([session.h]) *)
Inductive SessionState : Type :=
| SESSION_STATE_INIT | SESSION_STATE_AUTH | SESSION_STATE_READY | SESSION_STATE_QUERY
| SESSION_STATE_SCATTER | SESSION_STATE_COPY_IN | SESSION_STATE_COPY_OUT
| SESSION_STATE_CLOSING.
#[export] Instance SessionState_eq_dec : EqDecision SessionState.
Proof. solve_decision. Defined.
Inductive TxnState : Type := TXN_STATE_IDLE | TXN_STATE_IN_TRANSACTION | TXN_STATE_FAILED.

Record RecvBuf : Type := mkRecvBuf {
  rb_data : mem;
  rb_len : Z;
  rb_cap : Z;
}.

Definition MAX_SCATTER_SHARDS : nat := 64.

(** The back pointer to the session is not a field: an entry is found through its
    session.  A shard pointer is an index into the shard map. *)
Record ScatterConn : Type := mkScatterConn {
  sc_shard : option nat;
  sc_conn : option PGconn;
  sc_ev : EventHandler;
  sc_done : bool;
  sc_from_pool : bool;
}.
Definition zero_scatter : ScatterConn := mkScatterConn None None zero_handler false false.
Definition set_sc_conn (c : option PGconn) (sc : ScatterConn) : ScatterConn :=
  mkScatterConn (sc_shard sc) c (sc_ev sc) (sc_done sc) (sc_from_pool sc).
Definition set_sc_ev (ev : EventHandler) (sc : ScatterConn) : ScatterConn :=
  mkScatterConn (sc_shard sc) (sc_conn sc) ev (sc_done sc) (sc_from_pool sc).
Definition set_sc_done (d : bool) (sc : ScatterConn) : ScatterConn :=
  mkScatterConn (sc_shard sc) (sc_conn sc) (sc_ev sc) d (sc_from_pool sc).
Definition set_sc_from_pool (b : bool) (sc : ScatterConn) : ScatterConn :=
  mkScatterConn (sc_shard sc) (sc_conn sc) (sc_ev sc) (sc_done sc) b.

(** [loop] is the only event loop; [shard_map] is the only shard map or NULL. *)
Record ClientSession : Type := mkClientSession {
  client_fd : Z;
  state : SessionState;
  txn_state : TxnState;
  ev_handler : EventHandler;
  recv_buf : RecvBuf;
  send_buf : MsgBuf;
  send_pos : Z;
  backend_conn : option PGconn;
  backend_ev : EventHandler;
  backend_busy : bool;
  backend_shard : option nat;
  scatter : list ScatterConn;
  scatter_count : nat;
  scatter_done : nat;
  scatter_header_sent : bool;
  user : option bytes;
  database : option bytes;
  pid : Z;
  secret_key : Z;
  has_shard_map : bool;
  backend_conninfo : option bytes;
}.

Definition set_state (x : SessionState) (s : ClientSession) : ClientSession :=
  mkClientSession (client_fd s) x (txn_state s) (ev_handler s) (recv_buf s) (send_buf s)
    (send_pos s) (backend_conn s) (backend_ev s) (backend_busy s) (backend_shard s) (scatter s)
    (scatter_count s) (scatter_done s) (scatter_header_sent s) (user s) (database s) (pid s)
    (secret_key s) (has_shard_map s) (backend_conninfo s).
Definition set_ev_handler (x : EventHandler) (s : ClientSession) : ClientSession :=
  mkClientSession (client_fd s) (state s) (txn_state s) x (recv_buf s) (send_buf s) (send_pos s)
    (backend_conn s) (backend_ev s) (backend_busy s) (backend_shard s) (scatter s)
    (scatter_count s) (scatter_done s) (scatter_header_sent s) (user s) (database s) (pid s)
    (secret_key s) (has_shard_map s) (backend_conninfo s).
Definition set_recv_buf (x : RecvBuf) (s : ClientSession) : ClientSession :=
  mkClientSession (client_fd s) (state s) (txn_state s) (ev_handler s) x (send_buf s)
    (send_pos s) (backend_conn s) (backend_ev s) (backend_busy s) (backend_shard s) (scatter s)
    (scatter_count s) (scatter_done s) (scatter_header_sent s) (user s) (database s) (pid s)
    (secret_key s) (has_shard_map s) (backend_conninfo s).
Definition set_send_buf (x : MsgBuf) (s : ClientSession) : ClientSession :=
  mkClientSession (client_fd s) (state s) (txn_state s) (ev_handler s) (recv_buf s) x
    (send_pos s) (backend_conn s) (backend_ev s) (backend_busy s) (backend_shard s) (scatter s)
    (scatter_count s) (scatter_done s) (scatter_header_sent s) (user s) (database s) (pid s)
    (secret_key s) (has_shard_map s) (backend_conninfo s).
Definition set_send_pos (x : Z) (s : ClientSession) : ClientSession :=
  mkClientSession (client_fd s) (state s) (txn_state s) (ev_handler s) (recv_buf s) (send_buf s)
    x (backend_conn s) (backend_ev s) (backend_busy s) (backend_shard s) (scatter s)
    (scatter_count s) (scatter_done s) (scatter_header_sent s) (user s) (database s) (pid s)
    (secret_key s) (has_shard_map s) (backend_conninfo s).
Definition set_backend_conn (x : option PGconn) (s : ClientSession) : ClientSession :=
  mkClientSession (client_fd s) (state s) (txn_state s) (ev_handler s) (recv_buf s) (send_buf s)
    (send_pos s) x (backend_ev s) (backend_busy s) (backend_shard s) (scatter s)
    (scatter_count s) (scatter_done s) (scatter_header_sent s) (user s) (database s) (pid s)
    (secret_key s) (has_shard_map s) (backend_conninfo s).
Definition set_backend_ev (x : EventHandler) (s : ClientSession) : ClientSession :=
  mkClientSession (client_fd s) (state s) (txn_state s) (ev_handler s) (recv_buf s) (send_buf s)
    (send_pos s) (backend_conn s) x (backend_busy s) (backend_shard s) (scatter s)
    (scatter_count s) (scatter_done s) (scatter_header_sent s) (user s) (database s) (pid s)
    (secret_key s) (has_shard_map s) (backend_conninfo s).
Definition set_backend_busy (x : bool) (s : ClientSession) : ClientSession :=
  mkClientSession (client_fd s) (state s) (txn_state s) (ev_handler s) (recv_buf s) (send_buf s)
    (send_pos s) (backend_conn s) (backend_ev s) x (backend_shard s) (scatter s)
    (scatter_count s) (scatter_done s) (scatter_header_sent s) (user s) (database s) (pid s)
    (secret_key s) (has_shard_map s) (backend_conninfo s).
Definition set_backend_shard (x : option nat) (s : ClientSession) : ClientSession :=
  mkClientSession (client_fd s) (state s) (txn_state s) (ev_handler s) (recv_buf s) (send_buf s)
    (send_pos s) (backend_conn s) (backend_ev s) (backend_busy s) x (scatter s)
    (scatter_count s) (scatter_done s) (scatter_header_sent s) (user s) (database s) (pid s)
    (secret_key s) (has_shard_map s) (backend_conninfo s).
Definition set_scatter (x : list ScatterConn) (s : ClientSession) : ClientSession :=
  mkClientSession (client_fd s) (state s) (txn_state s) (ev_handler s) (recv_buf s) (send_buf s)
    (send_pos s) (backend_conn s) (backend_ev s) (backend_busy s) (backend_shard s) x
    (scatter_count s) (scatter_done s) (scatter_header_sent s) (user s) (database s) (pid s)
    (secret_key s) (has_shard_map s) (backend_conninfo s).
Definition set_scatter_count (x : nat) (s : ClientSession) : ClientSession :=
  mkClientSession (client_fd s) (state s) (txn_state s) (ev_handler s) (recv_buf s) (send_buf s)
    (send_pos s) (backend_conn s) (backend_ev s) (backend_busy s) (backend_shard s) (scatter s)
    x (scatter_done s) (scatter_header_sent s) (user s) (database s) (pid s) (secret_key s)
    (has_shard_map s) (backend_conninfo s).
Definition set_scatter_done (x : nat) (s : ClientSession) : ClientSession :=
  mkClientSession (client_fd s) (state s) (txn_state s) (ev_handler s) (recv_buf s) (send_buf s)
    (send_pos s) (backend_conn s) (backend_ev s) (backend_busy s) (backend_shard s) (scatter s)
    (scatter_count s) x (scatter_header_sent s) (user s) (database s) (pid s) (secret_key s)
    (has_shard_map s) (backend_conninfo s).
Definition set_scatter_header_sent (x : bool) (s : ClientSession) : ClientSession :=
  mkClientSession (client_fd s) (state s) (txn_state s) (ev_handler s) (recv_buf s) (send_buf s)
    (send_pos s) (backend_conn s) (backend_ev s) (backend_busy s) (backend_shard s) (scatter s)
    (scatter_count s) (scatter_done s) x (user s) (database s) (pid s) (secret_key s)
    (has_shard_map s) (backend_conninfo s).
Definition set_user (x : option bytes) (s : ClientSession) : ClientSession :=
  mkClientSession (client_fd s) (state s) (txn_state s) (ev_handler s) (recv_buf s) (send_buf s)
    (send_pos s) (backend_conn s) (backend_ev s) (backend_busy s) (backend_shard s) (scatter s)
    (scatter_count s) (scatter_done s) (scatter_header_sent s) x (database s) (pid s)
    (secret_key s) (has_shard_map s) (backend_conninfo s).
Definition set_database (x : option bytes) (s : ClientSession) : ClientSession :=
  mkClientSession (client_fd s) (state s) (txn_state s) (ev_handler s) (recv_buf s) (send_buf s)
    (send_pos s) (backend_conn s) (backend_ev s) (backend_busy s) (backend_shard s) (scatter s)
    (scatter_count s) (scatter_done s) (scatter_header_sent s) (user s) x (pid s) (secret_key s)
    (has_shard_map s) (backend_conninfo s).

Definition RECV_BUF_INITIAL : Z := 8192.
Definition SEND_BUF_INITIAL : Z := 8192.

(** ** The receive buffer *)
Definition recvbuf_init (cap : Z) : RecvBuf := mkRecvBuf (malloc cap) 0 cap.
Definition recvbuf_free (rb : RecvBuf) : RecvBuf := mkRecvBuf [] 0 0.
Definition recvbuf_ensure (rb : RecvBuf) (additional : Z) : res RecvBuf :=
  if decide (u64 (rb_len rb + additional) ≤ rb_cap rb) then Ret rb
  else
    new_cap ← grow grow_fuel (u64 (rb_cap rb * 2)) (u64 (rb_len rb + additional));
    Ret (mkRecvBuf (realloc (rb_data rb) new_cap) (rb_len rb) new_cap).
(** [memmove(data, data + n, len - n); len -= n], as the protocol code drops a
    message. *)
Definition recvbuf_consume (n : Z) (rb : RecvBuf) : res RecvBuf :=
  rest ← read_at (rb_data rb) n (Z.to_nat (rb_len rb - n));
  data ← write_at (rb_data rb) 0 rest;
  Ret (mkRecvBuf data (rb_len rb - n) (rb_cap rb)).

(** ** The monad *)
Record St (W : Type) : Type := mkSt {
  st_world : W;
  st_map : ShardMap;
  st_session : option ClientSession;
}.
Arguments mkSt {W}.
Arguments st_world {W}.
Arguments st_map {W}.
Arguments st_session {W}.

Definition M (W A : Type) : Type := St W → res (A * St W).
#[export] Instance M_ret W : MRet (M W) := λ A a st, Ret (a, st).
#[export] Instance M_bind W : MBind (M W) := λ A B k m st,
  match m st with Ret (a, st) => k a st | Ub => Ub | Hang => Hang end.

Section primitives.
Context {W : Type} {PQ : LibPQ W}.

Definition lift {A} (r : res A) : M W A := λ st, a ← r; Ret (a, st).
(** Reading and writing the session. *)
Definition the_session : M W ClientSession := λ st,
  match st_session st with Some s => Ret (s, st) | None => Ub end.
Definition modify (f : ClientSession → ClientSession) : M W () := λ st,
  match st_session st with
  | Some s => Ret (tt, mkSt (st_world st) (st_map st) (Some (f s)))
  | None => Ub
  end.
(** [free(session)] *)
Definition free_session : M W () := λ st,
  match st_session st with
  | Some _ => Ret (tt, mkSt (st_world st) (st_map st) None)
  | None => Ub
  end.
(** A session that [calloc] has returned. *)
Definition new_session (s : ClientSession) : M W () := λ st,
  Ret (tt, mkSt (st_world st) (st_map st) (Some s)).
(** System calls, and libpq calls on a connection. *)
Definition sys {A} (f : W → W * A) : M W A := λ st,
  let '(w, a) := f (st_world st) in Ret (a, mkSt w (st_map st) (st_session st)).
Definition pq {A} (c : PGconn) (f : W → W * A) : M W A := λ st,
  if decide (c ∈ pq_live (st_world st)) then sys f st else Ub.
Definition pq_get {A} (c : PGconn) (f : W → A) : M W A := pq c (λ w, (w, f w)).
Definition pq_do (c : PGconn) (f : W → W) : M W () := pq c (λ w, (f w, tt)).
Definition the_map : M W ShardMap := λ st, Ret (st_map st, st).
(** A call of a pool operation on [&shard->pool]. *)
Definition on_pool {A} (i : nat) (f : W → ConnPool → res (W * ConnPool * A)) : M W A := λ st,
  s ← deref_opt (shards (st_map st) !! i);
  '(w, p, a) ← f (st_world st) (shard_pool s);
  Ret (a, mkSt w (mkShardMap (<[i := set_pool p s]> (shards (st_map st)))
                    (table_rules (st_map st)) (pool_size (st_map st))) (st_session st)).
Definition pool_acquire (i : nat) : M W (option PGconn) := on_pool i conn_pool_acquire.
Definition pool_release (i : nat) (c : PGconn) : M W () :=
  on_pool i (λ w p, '(w, p) ← conn_pool_release w p (Some c); Ret (w, p, tt)).
End primitives.

(** ** Operations *)
Section session.
Context {W : Type} {PQ : LibPQ W} {Os : OS W}.

Definition O_NONBLOCK : Z := 2048.
Definition set_nonblocking (fd : Z) : W → W * Z := λ w,
  let flags := fcntl_getfl w fd in
  if decide (flags < 0) then (w, -1) else fcntl_setfl w fd (Z.lor flags O_NONBLOCK).

(** [session_create]: [addr] is the address that [calloc] returns.  The session is
    stored as the state's session. *)
Definition session_create (fd addr : Z) (conninfo : option bytes) (with_map : bool) : M W () :=
  _ ← sys (set_nonblocking fd);
  let ev := mkEventHandler fd 0 (Some session_on_client_readable_cb) in
  '(ev, _) ← sys (λ w, event_loop_add w ev EPOLLIN);
  pid ← sys (λ w, (w, os_getpid w));
  new_session
    (mkClientSession fd SESSION_STATE_INIT TXN_STATE_IDLE ev (recvbuf_init RECV_BUF_INITIAL)
       (msgbuf_init SEND_BUF_INITIAL) 0 None zero_handler false None
       (replicate MAX_SCATTER_SHARDS zero_scatter) 0 0 false None None pid
       (i32 (Z.land addr 2147483647)) with_map conninfo).

(** Gives a backend connection back: to its pool, or by closing it. *)
Definition give_back (shard : option nat) (c : PGconn) : M W () :=
  match shard with Some i => pool_release i c | None => pq_do c (λ w, PQfinish w c) end.

(** [session_release_scatter] *)
Fixpoint release_scatter_from (i n : nat) : M W () :=
  match n with
  | O => mret tt
  | S n =>
    s ← the_session;
    sc ← lift (deref_opt (scatter s !! i));
    _ ← match sc_conn sc with
        | Some c =>
          _ ← sys (λ w, event_loop_del w (sc_ev sc));
          _ ← give_back (if sc_from_pool sc then sc_shard sc else None) c;
          modify (λ s, set_scatter (alter (set_sc_conn None) i (scatter s)) s)
        | None => mret tt
        end;
    release_scatter_from (S i) n
  end.
Definition session_release_scatter : M W () :=
  s ← the_session;
  _ ← release_scatter_from 0 (scatter_count s);
  modify (λ s, set_scatter_header_sent false (set_scatter_done 0 (set_scatter_count 0 s))).

(** [event_loop_del] on the backend's handler, then the connection is given back. *)
Definition drop_backend (c : PGconn) : M W () :=
  s ← the_session;
  _ ← sys (λ w, event_loop_del w (backend_ev s));
  give_back (backend_shard s) c.

Definition session_destroy : M W () :=
  s ← the_session;
  _ ← sys (λ w, event_loop_del w (ev_handler s));
  _ ← sys (λ w, (sock_close w (client_fd s), tt));
  _ ← match backend_conn s with
      | Some c => _ ← drop_backend c; modify (set_backend_conn None)
      | None => mret tt
      end;
  _ ← session_release_scatter;
  free_session.

Definition session_queue_send (data : bytes) : M W () :=
  s ← the_session;
  b ← lift (msgbuf_put_bytes (send_buf s) data);
  modify (set_send_buf b).
(** [session_queue_send(session, msg.data, msg.len)] *)
Definition queue_msg (msg : MsgBuf) : M W () :=
  data ← lift (read_at (buf_data msg) 0 (Z.to_nat (buf_len msg)));
  session_queue_send data.

(** The loop of [session_send]: [Some rc] when it returns from the function. *)
Fixpoint send_loop (fuel : nat) : M W (option Z) :=
  match fuel with
  | O => lift Hang
  | S fuel =>
    s ← the_session;
    if decide (send_pos s < buf_len (send_buf s)) then
      data ← lift (read_at (buf_data (send_buf s)) (send_pos s)
                     (Z.to_nat (buf_len (send_buf s) - send_pos s)));
      n ← sys (λ w, sock_send w (client_fd s) data);
      match n with
      | Sent n => _ ← modify (set_send_pos (send_pos s + Z.of_nat n)); send_loop fuel
      | SendAgain =>
        let ev := set_callback session_on_client_writable_cb (ev_handler s) in
        '(ev, _) ← sys (λ w, event_loop_mod w ev EPOLLOUT);
        _ ← modify (set_ev_handler ev);
        mret (Some 0)
      | SendError => mret (Some (-1))
      end
    else mret None
  end.
(** Every round sends a byte, so that the number of queued bytes bounds the loop. *)
Definition session_send : M W Z :=
  s ← the_session;
  r ← send_loop (S (Z.to_nat (buf_len (send_buf s) - send_pos s)));
  match r with
  | Some rc => mret rc
  | None =>
    _ ← modify (λ s, set_send_pos 0 (set_send_buf (msgbuf_reset (send_buf s)) s));
    let ev := set_callback session_on_client_readable_cb (ev_handler s) in
    '(ev, _) ← sys (λ w, event_loop_mod w ev EPOLLIN);
    _ ← modify (set_ev_handler ev);
    mret 0
  end.

Definition session_on_client_writable (events : Z) : M W () :=
  if has_error events then session_destroy
  else
    rc ← session_send;
    if decide (rc < 0) then session_destroy else mret tt.
End session.
