(* ===== verification/Wp.v ===== *)
(** * Reasoning about session code

    [wp ub m Q st]: run in [st], [m] returns a result that satisfies [Q]; undefined
    behaviour is possible only if [ub] holds, and the code always returns. *)
From S2P Require Import Prelude Memory LibPQ Pool ShardMap Message Event Session.
#[local] Set Warnings "-clear-no-such-hyp".

Definition wp {W A} (ub : Prop) (m : M W A) (Q : A → St W → Prop) (st : St W) : Prop :=
  match m st with Ret (a, st) => Q a st | Ub => ub | Hang => False end.

Section rules.
Context {W : Type} {PQ : LibPQ W}.
Implicit Types (ub : Prop) (st : St W).

Lemma wp_ret {A} ub (a : A) (Q : A → St W → Prop) st : Q a st → wp ub (mret a) Q st.
Proof. done. Qed.
Lemma wp_bind {A B} ub (m : M W A) (k : A → M W B) Q st :
  wp ub m (λ a, wp ub (k a) Q) st → wp ub (m ≫= k) Q st.
Proof. unfold wp, mbind, M_bind. by destruct (m st) as [[a st']| |]. Qed.
Lemma wp_skip {A B} ub (a : A) (k : A → M W B) Q st :
  wp ub (mret a ≫= k) Q st → wp ub (k a) Q st.
Proof. done. Qed.
Lemma wp_assoc {A B C} ub (m : M W A) (k : A → M W B) (h : B → M W C) Q st :
  wp ub ((m ≫= k) ≫= h) Q st ↔ wp ub (m ≫= λ a, k a ≫= h) Q st.
Proof. unfold wp, mbind, M_bind. by destruct (m st) as [[a st']| |]. Qed.
Lemma wp_mono {A} ub ub' (m : M W A) (Q R : A → St W → Prop) st :
  wp ub m Q st → (ub → ub') → (∀ a st', Q a st' → R a st') → wp ub' m R st.
Proof. unfold wp. destruct (m st) as [[a st']| |]; auto. Qed.
(** Without undefined behaviour, the code returns. *)
Lemma wp_total {A} (m : M W A) Q st :
  wp False m Q st → ∃ a st', m st = Ret (a, st') ∧ Q a st'.
Proof. unfold wp. destruct (m st) as [[a st']| |]; [eauto|done..]. Qed.
(** The result can be named. *)
Lemma wp_eq {A} ub (m : M W A) (Q : A → St W → Prop) st :
  wp ub m (λ a st', m st = Ret (a, st') → Q a st') st → wp ub m Q st.
Proof. unfold wp. destruct (m st) as [[a st']| |]; auto. Qed.
(** Running the code step by step. *)
Lemma run_session {B} (k : ClientSession → M W B) w m s :
  (the_session ≫= k) (mkSt w m (Some s)) = k s (mkSt w m (Some s)).
Proof. done. Qed.
Lemma run_lift {A B} (r : res A) (k : A → M W B) a st : r = Ret a → (lift r ≫= k) st = k a st.
Proof. by intros ->. Qed.
Lemma run_pq {A B} c (f : W → W * A) (k : A → M W B) w m ss :
  c ∈ pq_live w → (pq c f ≫= k) (mkSt w m ss) = k (f w).2 (mkSt (f w).1 m ss).
Proof.
  intros Hc. unfold mbind, M_bind, pq, sys. cbn [st_world st_map st_session]. rewrite decide_True by done.
  by destruct (f w).
Qed.
Lemma wp_elim {A} (m : M W A) Q st a st' : m st = Ret (a, st') → wp False m Q st → Q a st'.
Proof. unfold wp. by intros ->. Qed.
Lemma wp_lift {A} ub (r : res A) a Q st :
  r = Ret a → Q a st → wp ub (lift r) Q st.
Proof. by intros ->. Qed.
Lemma wp_session ub s Q st : st_session st = Some s → Q s st → wp ub the_session Q st.
Proof. unfold wp, the_session. by intros ->. Qed.
Lemma wp_modify ub f s Q st :
  st_session st = Some s → Q tt (mkSt (st_world st) (st_map st) (Some (f s))) →
  wp ub (modify f) Q st.
Proof. unfold wp, modify. by intros ->. Qed.
Lemma wp_free ub s Q st :
  st_session st = Some s → Q tt (mkSt (st_world st) (st_map st) None) → wp ub free_session Q st.
Proof. unfold wp, free_session. by intros ->. Qed.
Lemma wp_sys {A} ub (f : W → W * A) Q st :
  Q (f (st_world st)).2 (mkSt (f (st_world st)).1 (st_map st) (st_session st)) →
  wp ub (sys f) Q st.
Proof. unfold wp, sys. by destruct (f (st_world st)). Qed.
Lemma wp_pq {A} ub c (f : W → W * A) Q st :
  c ∈ pq_live (st_world st) →
  Q (f (st_world st)).2 (mkSt (f (st_world st)).1 (st_map st) (st_session st)) →
  wp ub (pq c f) Q st.
Proof. intros Hc HQ. unfold wp, pq. rewrite decide_True by done. by apply wp_sys. Qed.
Lemma wp_the_map ub Q st : Q (st_map st) st → wp ub the_map Q st.
Proof. done. Qed.
Lemma wp_Ret {A} ub (m : M W A) Q st :
  wp ub m Q st → ¬ ub → ∃ a st', m st = Ret (a, st') ∧ Q a st'.
Proof. unfold wp. destruct (m st) as [[a st']| |]; [eauto|done|done]. Qed.
End rules.
