(* ===== verification/SessionSpec.v ===== *)
(** * What session operations do

    [live m0 H P st s o n] describes a state between two operations of a session [s]:
    the connections of [s], the ones of other sessions ([H] and [P]) and the idle ones
    account for every open connection ([resources]); [o] is the stream of bytes for the
    client, sent or still queued; the send buffer has room for [n] more bytes; the shard
    map is [m0] up to its pools.  The rules say how the operations change it. *)
From S2P Require Import Prelude Memory LibPQ Pool ShardMap Resources Message Event Session Wp.
#[local] Set Warnings "-clear-no-such-hyp".

(** ** The connections of a session *)
Definition conn_held (s : ClientSession) : list (nat * PGconn) :=
  match backend_conn s, backend_shard s with Some c, Some i => [(i, c)] | _, _ => [] end.
Definition priv (s : ClientSession) : list PGconn :=
  match backend_conn s, backend_shard s with Some c, None => [c] | _, _ => [] end.
Definition sc_held (sc : ScatterConn) : option (nat * PGconn) :=
  c ← sc_conn sc; i ← sc_shard sc; Some (i, c).
Definition scatter_held (s : ClientSession) : list (nat * PGconn) := omap sc_held (scatter s).
Definition held (s : ClientSession) : list (nat * PGconn) := conn_held s ++ scatter_held s.

(** No scatter query is going on. *)
Definition scatter_free (s : ClientSession) : Prop := Forall (λ sc, sc_conn sc = None) (scatter s).

Record scatter_wf (s : ClientSession) : Prop := {
  wf_length : length (scatter s) = MAX_SCATTER_SHARDS;
  wf_count : scatter_count s ≤ MAX_SCATTER_SHARDS;
  wf_entries i sc c : scatter s !! i = Some sc → sc_conn sc = Some c →
    i < scatter_count s ∧ is_Some (sc_shard sc) ∧ sc_from_pool sc = true;
}.
Record sess_wf (s : ClientSession) : Prop := {
  wf_backend : backend_conn s = None → backend_shard s = None;
  wf_scatter : scatter_wf s;
}.

(** The same map, up to the pools of its shards. *)
Definition same_shard (s s' : Shard) : Prop := s' = set_pool (shard_pool s') s.
Record map_like (m m' : ShardMap) : Prop := {
  like_rules : table_rules m' = table_rules m;
  like_size : pool_size m' = pool_size m;
  like_shards : Forall2 same_shard (shards m) (shards m');
}.

Lemma same_shard_refl s : same_shard s s.
Proof. by destruct s. Qed.
Lemma same_shard_trans a b c : same_shard a b → same_shard b c → same_shard a c.
Proof. unfold same_shard. intros -> ->. done. Qed.
#[export] Instance map_like_preorder : PreOrder map_like.
Proof.
  split.
  - intros m. split; [done|done|]. apply Forall_Forall2_diag, Forall_true, same_shard_refl.
  - intros a b c [? ? Hab] [? ? Hbc]. split; [congruence|congruence|].
    revert Hbc. generalize (shards c) as lc.
    induction Hab as [|x y la lb Hxy Hab IH]; intros lc Hbc; [done|].
    apply Forall2_cons_inv_l in Hbc as (z & lc' & Hyz & Hbc & ->).
    constructor; eauto using same_shard_trans.
Qed.
Lemma map_like_insert m i s p :
  shards m !! i = Some s →
  map_like m (mkShardMap (<[i := set_pool p s]> (shards m)) (table_rules m) (pool_size m)).
Proof.
  intros Hs. split; [done|done|]. simpl. apply Forall2_same_length_lookup. split.
  - by rewrite length_insert.
  - intros j x y Hx Hy. destruct (decide (j = i)) as [->|Hj].
    + rewrite list_lookup_insert_eq in Hy by (by eapply lookup_lt_Some). by simplify_eq.
    + rewrite list_lookup_insert_ne in Hy by done. simplify_eq. apply same_shard_refl.
Qed.
Lemma map_like_length m m' : map_like m m' → length (shards m') = length (shards m).
Proof. intros [_ _ Hf]. symmetry. by eapply Forall2_length. Qed.

(** ** Quiet changes of the world: no connection is opened or closed, nothing is sent *)
Section quiet.
Context {W : Type} {PQ : LibPQ W} {Os : OS W} {Laws : LibPQLaws W} {OLaws : OSLaws W}.
#[local] Open Scope Z_scope.

Lemma quiet_refl w : quiet w w.
Proof. done. Qed.
Lemma quiet_trans w1 w2 w3 : quiet w1 w2 → quiet w2 w3 → quiet w1 w3.
Proof. intros (? & ? & H1) (? & ? & H2). split_and!; [congruence..|]. intros fd. by rewrite H2, H1. Qed.
Lemma quiet_add w h ev : quiet w (event_loop_add w h ev).1.
Proof.
  unfold event_loop_add. simpl. pose proof (quiet_epoll w EPOLL_CTL_ADD (ev_fd h) ev) as Hq.
  by destruct (epoll_ctl w _ _ _).
Qed.
Lemma quiet_mod w h ev : quiet w (event_loop_mod w h ev).1.
Proof.
  unfold event_loop_mod. simpl. pose proof (quiet_epoll w EPOLL_CTL_MOD (ev_fd h) ev) as Hq.
  by destruct (epoll_ctl w _ _ _).
Qed.
Lemma quiet_del w h : quiet w (event_loop_del w h).1.
Proof.
  unfold event_loop_del. simpl. pose proof (quiet_epoll w EPOLL_CTL_DEL (ev_fd h) 0) as Hq.
  by destruct (epoll_ctl w _ _ _).
Qed.

(** Connections may be opened or closed, nothing else is observable. *)
Definition unseen (w w' : W) : Prop :=
  pq_log w' = pq_log w ∧ ∀ fd, sock_sent w' fd = sock_sent w fd.
Lemma unseen_trans w1 w2 w3 : unseen w1 w2 → unseen w2 w3 → unseen w1 w3.
Proof. intros (? & H1) (? & H2). split; [congruence|]. intros fd. by rewrite H2, H1. Qed.
Lemma quiet_unseen w w' : quiet w w' → unseen w w'.
Proof. by intros (? & ? & ?). Qed.
End quiet.
#[export] Hint Resolve quiet_refl quiet_epoll quiet_add quiet_mod quiet_del quiet_close quiet_recv
  quiet_setnonblocking quiet_fcntl quiet_flush quiet_consume quiet_busy quiet_result
  quiet_copy_row quiet_put_copy quiet_put_end : sharegres.

Lemma event_loop_mod_handler {W} {Os : OS W} w h ev :
  (event_loop_mod w h ev).2.1 = set_events ev h.
Proof. unfold event_loop_mod. by destruct (epoll_ctl _ _ _ _). Qed.
Lemma event_loop_add_handler {W} {Os : OS W} w h ev :
  (event_loop_add w h ev).2.1 = set_events ev h.
Proof. unfold event_loop_add. by destruct (epoll_ctl _ _ _ _). Qed.

(** ** The state of a session between operations *)
Section spec.
Context {W : Type} {PQ : LibPQ W} {Os : OS W} {Laws : LibPQLaws W} {OLaws : OSLaws W}.
Context (m0 : ShardMap) (H : list (nat * PGconn)) (P : list PGconn) (L : list (PGconn * bytes)).
#[local] Open Scope Z_scope.
Implicit Types (st : St W) (s : ClientSession) (o : bytes) (n : Z) (ub : Prop).

Record live st s o n : Prop := {
  lv_session : st_session st = Some s;
  lv_wf : sess_wf s;
  lv_map : map_like m0 (st_map st);
  lv_res : resources (st_world st) (shards (st_map st)) (held s ++ H) (priv s ++ P);
  lv_log : pq_log (st_world st) = L;
  lv_out : ∃ l, holds (send_buf s) l ∧ 0 ≤ send_pos s ≤ Z.of_nat (length l) ∧
    Z.of_nat (length l) + n ≤ 2 ^ 62 ∧
    o = sock_sent (st_world st) (client_fd s) ++ drop (Z.to_nat (send_pos s)) l;
}.

Lemma live_room st s o n n' : live st s o n → n' ≤ n → live st s o n'.
Proof.
  intros [? ? ? ? ? (l & ? & ? & ? & ?)] Hn. split; [done..|]. exists l. split_and!; try done; lia.
Qed.
Lemma live_quiet st s o n w' :
  live st s o n → quiet (st_world st) w' → live (mkSt w' (st_map st) (st_session st)) s o n.
Proof.
  intros [? ? ? Hr Hlog (l & ? & ? & ? & Ho)] (Hl & Hg & Hs). split; simpl; [done|done|done| | |].
  - by eapply resources_frame.
  - by rewrite Hg.
  - exists l. split_and!; try done; try lia. by rewrite Hs.
Qed.
(** A change of fields that concern neither connections nor output. *)
Lemma live_set st s s' o n :
  live st s o n → sess_wf s' → held s' = held s → priv s' = priv s →
  client_fd s' = client_fd s → send_buf s' = send_buf s → send_pos s' = send_pos s →
  live (mkSt (st_world st) (st_map st) (Some s')) s' o n.
Proof.
  intros [? ? ? Hr ? (l & ? & ? & ? & Ho)] Hwf Hh Hp Hf Hb Hpos. split; simpl; [done|done|done| |done|].
  - by rewrite Hh, Hp.
  - exists l. rewrite Hf, Hb, Hpos. split_and!; try done; lia.
Qed.
Lemma live_conn st s o n c : live st s o n → c ∈ (held s).*2 ++ priv s → c ∈ pq_live (st_world st).
Proof.
  intros Hlv Hc. eapply resources_live; [by apply (lv_res _ _ _ _ Hlv)|].
  rewrite fmap_app. set_solver.
Qed.
Lemma backend_in s c : backend_conn s = Some c → c ∈ (held s).*2 ++ priv s.
Proof.
  unfold held, conn_held, priv. intros ->. destruct (backend_shard s); set_solver.
Qed.

(** ** Rules *)
Lemma wp_sys_live {A} ub (f : W → W * A) Q st s o n :
  live st s o n → quiet (st_world st) (f (st_world st)).1 →
  (live (mkSt (f (st_world st)).1 (st_map st) (st_session st)) s o n →
   Q (f (st_world st)).2 (mkSt (f (st_world st)).1 (st_map st) (st_session st))) →
  wp ub (sys f) Q st.
Proof. intros Hlv Hq HQ. apply wp_sys, HQ. by apply live_quiet. Qed.
Lemma wp_pq_live {A} ub c (f : W → W * A) Q st s o n :
  live st s o n → c ∈ (held s).*2 ++ priv s → quiet (st_world st) (f (st_world st)).1 →
  (live (mkSt (f (st_world st)).1 (st_map st) (st_session st)) s o n →
   Q (f (st_world st)).2 (mkSt (f (st_world st)).1 (st_map st) (st_session st))) →
  wp ub (pq c f) Q st.
Proof. intros Hlv Hc Hq HQ. apply wp_pq; [by eapply live_conn|]. apply HQ. by apply live_quiet. Qed.
Lemma wp_session_live ub Q st s o n :
  live st s o n → Q s st → wp ub the_session Q st.
Proof. intros Hlv HQ. eapply wp_session; [apply (lv_session _ _ _ _ Hlv)|done]. Qed.
Lemma wp_modify_live ub f Q st s o n :
  live st s o n → sess_wf (f s) → held (f s) = held s → priv (f s) = priv s →
  client_fd (f s) = client_fd s → send_buf (f s) = send_buf s → send_pos (f s) = send_pos s →
  (live (mkSt (st_world st) (st_map st) (Some (f s))) (f s) o n →
   Q tt (mkSt (st_world st) (st_map st) (Some (f s)))) →
  wp ub (modify f) Q st.
Proof.
  intros Hlv ? ? ? ? ? ? HQ. eapply wp_modify; [apply (lv_session _ _ _ _ Hlv)|].
  apply HQ. by eapply live_set.
Qed.

(** [s'] differs from [s] neither in connections nor in output. *)
Definition alike s s' : Prop :=
  backend_conn s' = backend_conn s ∧ backend_shard s' = backend_shard s ∧ scatter s' = scatter s ∧
  scatter_count s' = scatter_count s ∧ client_fd s' = client_fd s ∧ send_buf s' = send_buf s ∧
  send_pos s' = send_pos s.
Lemma alike_wf s s' : alike s s' → sess_wf s → sess_wf s'.
Proof.
  intros (Hc & Hs & Hsc & Hn & _) [Hb [H1 H2 H3]]. split; [by rewrite Hc, Hs|].
  split; rewrite ?Hsc, ?Hn; done.
Qed.
Lemma alike_state x s : alike s (set_state x s).
Proof. by destruct s. Qed.
Lemma alike_ready x s : alike s (set_state x (set_backend_busy false s)).
Proof. by destruct s. Qed.
Lemma alike_querying x s : alike s (set_backend_busy true (set_state x s)).
Proof. by destruct s. Qed.
Lemma alike_header x s : alike s (set_scatter_header_sent x s).
Proof. by destruct s. Qed.
Lemma alike_done x s : alike s (set_scatter_done x s).
Proof. by destruct s. Qed.
Lemma live_alike st s s' o n :
  live st s o n → alike s s' → live (mkSt (st_world st) (st_map st) (Some s')) s' o n.
Proof.
  intros Hlv Ha. pose proof (alike_wf _ _ Ha (lv_wf _ _ _ _ Hlv)) as Hwf.
  destruct Ha as (Hc & Hs & Hsc & Hn & Hf & Hb & Hp).
  eapply live_set; [done|done|unfold held, conn_held, scatter_held|unfold priv|done..];
    by rewrite ?Hc, ?Hs, ?Hsc.
Qed.
Lemma wp_modify_alike ub f Q st s o n :
  live st s o n → alike s (f s) →
  (live (mkSt (st_world st) (st_map st) (Some (f s))) (f s) o n →
   Q tt (mkSt (st_world st) (st_map st) (Some (f s)))) →
  wp ub (modify f) Q st.
Proof.
  intros Hlv Ha HQ. eapply wp_modify; [apply (lv_session _ _ _ _ Hlv)|]. apply HQ. by eapply live_alike.
Qed.
Lemma set_send_buf_id s : set_send_buf (send_buf s) s = s.
Proof. by destruct s. Qed.

(** Queueing bytes for the client. *)
Lemma wp_append_to ub (f : MsgBuf → res MsgBuf) x Q st s o n :
  appends f x → live st s o (n + Z.of_nat (length x)) → 0 ≤ n →
  (∀ b, live (mkSt (st_world st) (st_map st) (Some (set_send_buf b s))) (set_send_buf b s) (o ++ x) n →
    Q tt (mkSt (st_world st) (st_map st) (Some (set_send_buf b s)))) →
  wp ub (b ← lift (f (send_buf s)); modify (set_send_buf b)) Q st.
Proof.
  intros Hf Hlv Hn HQ. apply wp_bind.
  destruct Hlv as [Hs Hwf Hm Hr Hg (l & Hl & Hp & Hb & Ho)].
  destruct (Hf (send_buf s) l Hl) as (b & E & Hb' & _); [lia|].
  eapply wp_lift; [exact E|]. eapply wp_modify; [done|]. apply HQ.
  split; simpl; [done|by destruct Hwf as [? []]|done|done|done|]. exists (l ++ x).
  rewrite length_app. split_and!; [done|lia|lia|lia|].
  rewrite drop_app_le by lia. by rewrite Ho, app_assoc.
Qed.
Lemma wp_append ub (f : MsgBuf → res MsgBuf) x Q st s o n :
  appends f x → live st s o (n + Z.of_nat (length x)) → 0 ≤ n →
  (∀ b, live (mkSt (st_world st) (st_map st) (Some (set_send_buf b s))) (set_send_buf b s) (o ++ x) n →
    Q tt (mkSt (st_world st) (st_map st) (Some (set_send_buf b s)))) →
  wp ub (s ← the_session; b ← lift (f (send_buf s)); modify (set_send_buf b)) Q st.
Proof.
  intros Hf Hlv Hn HQ. apply wp_bind. eapply wp_session_live; [done|]. by eapply wp_append_to.
Qed.
Lemma wp_queue ub x Q st s o n :
  live st s o (n + Z.of_nat (length x)) → 0 ≤ n →
  (∀ b, live (mkSt (st_world st) (st_map st) (Some (set_send_buf b s))) (set_send_buf b s) (o ++ x) n →
    Q tt (mkSt (st_world st) (st_map st) (Some (set_send_buf b s)))) →
  wp ub (session_queue_send x) Q st.
Proof. apply (wp_append ub (λ b, msgbuf_put_bytes b x) x). apply put_bytes_appends. Qed.
Lemma wp_queue_msg ub msg x Q st s o n :
  holds msg x → live st s o (n + Z.of_nat (length x)) → 0 ≤ n →
  (∀ b, live (mkSt (st_world st) (st_map st) (Some (set_send_buf b s))) (set_send_buf b s) (o ++ x) n →
    Q tt (mkSt (st_world st) (st_map st) (Some (set_send_buf b s)))) →
  wp ub (queue_msg msg) Q st.
Proof.
  intros [_ _ Hl Hd] Hlv Hn HQ. apply wp_bind. eapply wp_lift; [|by eapply wp_queue].
  rewrite Hl, Nat2Z.id. apply (read_at_spec _ [] x []). by rewrite app_nil_r.
Qed.

(** ** Giving connections back *)
Lemma unseen_keeps (w0 : W) :
  (∀ w c, unseen w0 w → unseen w0 (PQconnectdb w c).1) ∧
  (∀ w c, unseen w0 w → unseen w0 (PQfinish w c)).
Proof.
  split; intros w c [Hl Hs]; (split; [by rewrite ?connectdb_log, ?finish_log|]); intros fd;
    by rewrite ?connectdb_sent, ?finish_sent.
Qed.

(** What remains when the connection [c] (of shard [i], or private) is given back. *)
Definition with_held (i : option nat) (c : PGconn) (l : list (nat * PGconn)) : list (nat * PGconn) :=
  match i with Some i => (i, c) :: l | None => l end.
Definition with_priv (i : option nat) (c : PGconn) (l : list PGconn) : list PGconn :=
  match i with Some _ => l | None => c :: l end.

Lemma wp_give_back ub i c h p Q st :
  resources (st_world st) (shards (st_map st)) (with_held i c h) (with_priv i c p) →
  (∀ w' m', map_like (st_map st) m' → resources w' (shards m') h p →
     unseen (st_world st) w' →
     Q tt (mkSt w' m' (st_session st))) →
  wp ub (give_back i c) Q st.
Proof.
  intros Hr HQ. destruct i as [i|]; simpl in *.
  - assert (∃ sh, shards (st_map st) !! i = Some sh) as [sh Hsh].
    { apply lookup_lt_is_Some. destruct Hr as (idles & [_ _ Hix _ _]).
      by apply Forall_cons in Hix as [? _]. }
    destruct (resources_release _ _ _ _ _ _ _ Hr Hsh) as (w' & p' & E & Hr').
    unfold wp, pool_release, on_pool. rewrite Hsh. cbn [deref_opt mbind res_bind]. rewrite E.
    cbn [mbind res_bind]. apply HQ; [by apply map_like_insert|done|].
    destruct (unseen_keeps (st_world st)) as [Ho Hc].
    eapply (release_keeps (unseen (st_world st))); eauto. done.
  - unfold pq_do. apply wp_pq; [eapply resources_live; [done|set_solver]|]. simpl.
    apply HQ; [done|by apply resources_close|].
    by apply (unseen_keeps (st_world st)).
Qed.

(** The state while a session gives its connections back: [live] without the buffers. *)
Record holding st s (h : list (nat * PGconn)) (p : list PGconn) : Prop := {
  hd_session : st_session st = Some s;
  hd_map : map_like m0 (st_map st);
  hd_res : resources (st_world st) (shards (st_map st)) (h ++ H) (p ++ P);
}.
Lemma live_holding st s o n : live st s o n → holding st s (held s) (priv s).
Proof. by intros [? ? ? ? ? ?]. Qed.
Lemma holding_world st s h p w' :
  holding st s h p → pq_live w' = pq_live (st_world st) →
  holding (mkSt w' (st_map st) (st_session st)) s h p.
Proof. intros [? ? Hr] Hl. split; [done|done|]. by eapply resources_frame. Qed.

Lemma wp_drop_backend ub c Q st s h p :
  holding st s (with_held (backend_shard s) c h) (with_priv (backend_shard s) c p) →
  (∀ w' m', holding (mkSt w' m' (Some s)) s h p →
     unseen (st_world st) w' → Q tt (mkSt w' m' (Some s))) →
  wp ub (drop_backend c) Q st.
Proof.
  intros Hh HQ. apply wp_bind. eapply wp_session; [apply (hd_session _ _ _ _ Hh)|].
  apply wp_bind, wp_sys. set (w1 := (event_loop_del (st_world st) (backend_ev s)).1).
  destruct (quiet_del (st_world st) (backend_ev s)) as [Hl Hs]. fold w1 in Hl, Hs.
  pose proof (holding_world _ _ _ _ w1 Hh Hl) as [Hs1 Hm1 Hr1]. simpl in *.
  eapply (wp_give_back ub (backend_shard s) c (h ++ H) (p ++ P)).
  - by destruct (backend_shard s).
  - intros w' m' Hm Hr Hfd. simpl in *. rewrite Hs1. apply HQ.
    + split; [done|by etrans|done].
    + by eapply unseen_trans; [exact Hs|].
Qed.

(** ** The connections of a scatter query *)
Lemma alter_Some {A} (f : A → A) (l : list A) i x : l !! i = Some x → alter f i l = <[i := f x]> l.
Proof.
  revert i. induction l as [|y l IH]; intros [|i] E; simplify_eq/=; [done|].
  change (y :: alter f i l = y :: <[i := f x]> l). by rewrite (IH i).
Qed.
Lemma alter_None {A} (f : A → A) (l : list A) i : l !! i = None → alter f i l = l.
Proof.
  revert i. induction l as [|y l IH]; intros [|i] E; simplify_eq/=; [done..|].
  change (y :: alter f i l = y :: l). by rewrite IH.
Qed.
Lemma omap_insert {A B} (f : A → option B) (l : list A) i x y :
  l !! i = Some x →
  option_list (f y) ++ omap f l ≡ₚ option_list (f x) ++ omap f (<[i := y]> l).
Proof.
  intros Hx. rewrite <- (take_drop_middle l i x Hx) at 1.
  rewrite (insert_take_drop l i y) by (by eapply lookup_lt_Some).
  rewrite !omap_app. simpl. destruct (f x), (f y); simpl; solve_Permutation.
Qed.
(** Entry [i] loses its connection. *)
Lemma scatter_held_alter s i sc sh c :
  scatter s !! i = Some sc → sc_conn sc = Some c → sc_shard sc = Some sh →
  scatter_held s ≡ₚ
  (sh, c) :: scatter_held (set_scatter (alter (set_sc_conn None) i (scatter s)) s).
Proof.
  intros Hsc Hc Hsh. unfold scatter_held. simpl. rewrite (alter_Some _ _ _ _ Hsc).
  pose proof (omap_insert sc_held _ _ _ (set_sc_conn None sc) Hsc) as Hp.
  assert (sc_held sc = Some (sh, c)) as E by (unfold sc_held; by rewrite Hc, Hsh).
  by rewrite E in Hp.
Qed.

Lemma wp_release_scatter_from ub k i Q st s h p :
  holding st s (h ++ scatter_held s) p →
  (i + k ≤ length (scatter s))%nat →
  (∀ j sc c, scatter s !! j = Some sc → sc_conn sc = Some c →
     (i ≤ j < i + k)%nat ∧ is_Some (sc_shard sc) ∧ sc_from_pool sc = true) →
  (∀ w' m' l, holding (mkSt w' m' (Some (set_scatter l s))) (set_scatter l s) h p →
     length l = length (scatter s) → Forall (λ sc, sc_conn sc = None) l →
     unseen (st_world st) w' →
     Q tt (mkSt w' m' (Some (set_scatter l s)))) →
  wp ub (release_scatter_from i k) Q st.
Proof.
  revert i st s h. induction k as [|k IH]; intros i st s h Hh Hlen He HQ.
  - assert (Forall (λ sc, sc_conn sc = None) (scatter s)) as Hn.
    { apply Forall_lookup. intros j sc Hj. destruct (sc_conn sc) as [c|] eqn:Ec; [|done].
      destruct (He _ _ _ Hj Ec) as [? _]. lia. }
    assert (scatter_held s = []) as E0.
    { unfold scatter_held. clear -Hn. induction Hn as [|sc l Hsc Hn IH]; [done|].
      simpl. unfold sc_held at 1. by rewrite Hsc. }
    apply wp_ret. destruct Hh as [Hs Hm Hr]. destruct st as [w m ss]. simpl in *. subst ss.
    specialize (HQ w m (scatter s)).
    assert (set_scatter (scatter s) s = s) as E1 by (by destruct s). rewrite E1 in HQ.
    apply HQ; [|done|done|done]. split; [done|done|]. by rewrite E0, app_nil_r in Hr.
  - simpl. apply wp_bind. eapply wp_session; [apply (hd_session _ _ _ _ Hh)|]. apply wp_bind.
    destruct (lookup_lt_is_Some_2 (scatter s) i) as [sc Hsc]; [lia|].
    eapply wp_lift; [by rewrite Hsc|]. apply wp_bind. destruct (sc_conn sc) as [c|] eqn:Ec.
    + destruct (He _ _ _ Hsc Ec) as (_ & [sh Hsh] & Hfp). rewrite Hfp, Hsh.
      apply wp_bind, wp_sys. set (w1 := (event_loop_del (st_world st) (sc_ev sc)).1).
      destruct (quiet_del (st_world st) (sc_ev sc)) as [Hl Hs]. fold w1 in Hl, Hs.
      pose proof (holding_world _ _ _ _ w1 Hh Hl) as [Hs1 Hm1 Hr1]. simpl in *.
      set (s1 := set_scatter (alter (set_sc_conn None) i (scatter s)) s).
      apply wp_bind. eapply (wp_give_back ub (Some sh) c (h ++ scatter_held s1 ++ H) (p ++ P)).
      { simpl. eapply resources_proper; [|reflexivity|exact Hr1].
        rewrite (scatter_held_alter s i sc sh c Hsc Ec Hsh). fold s1. solve_Permutation. }
      intros w2 m2 Hm2 Hr2 Hfd2. simpl in *. eapply wp_modify; [done|]. simpl. fold s1.
      apply (IH (S i) _ s1 h).
      * split; simpl; [done|by etrans|]. by rewrite <- app_assoc.
      * simpl. rewrite length_alter. lia.
      * intros j sc' c' Hj Hc'. simpl in Hj. rewrite (alter_Some _ _ _ _ Hsc) in Hj.
        destruct (decide (j = i)) as [->|Hji].
        { rewrite list_lookup_insert_eq in Hj by lia. by simplify_eq/=. }
        rewrite list_lookup_insert_ne in Hj by done. destruct (He _ _ _ Hj Hc') as (? & ? & ?).
        split_and!; [lia|lia|done|done].
      * intros w' m' l Hh' Hl' Hn Hfd'. apply (HQ w' m' l); [done| |done|].
        { simpl in Hl'. by rewrite length_alter in Hl'. }
        eapply unseen_trans; [exact Hs|]. by eapply unseen_trans; [exact Hfd2|].
    + apply wp_ret. apply (IH (S i) st s h); [done|lia| |done].
      intros j sc' c' Hj Hc'. destruct (He _ _ _ Hj Hc') as (? & ? & ?).
      split_and!; [|lia|done|done]. destruct (decide (j = i)) as [->|]; [congruence|lia].
Qed.

Lemma scatter_free_held s : scatter_free s → scatter_held s = [].
Proof.
  unfold scatter_free, scatter_held. intros Hn. induction Hn as [|sc l Hsc Hn IH]; [done|].
  simpl. unfold sc_held at 1. by rewrite Hsc.
Qed.
(** [s] after [session_release_scatter]. *)
Definition released (l : list ScatterConn) s : ClientSession :=
  set_scatter_header_sent false (set_scatter_done 0 (set_scatter_count 0 (set_scatter l s))).

Lemma wp_release_scatter ub Q st s h p :
  holding st s (h ++ scatter_held s) p → scatter_wf s →
  (∀ w' m' l, holding (mkSt w' m' (Some (released l s))) (released l s) h p →
     length l = MAX_SCATTER_SHARDS → Forall (λ sc, sc_conn sc = None) l →
     unseen (st_world st) w' →
     Q tt (mkSt w' m' (Some (released l s)))) →
  wp ub session_release_scatter Q st.
Proof.
  intros Hh Hwf HQ. apply wp_bind. eapply wp_session; [apply (hd_session _ _ _ _ Hh)|].
  apply wp_bind. destruct Hwf as [Hlen Hcnt He].
  apply (wp_release_scatter_from ub (scatter_count s) 0 _ st s h p Hh); [lia| |].
  { intros j sc c Hj Hc. destruct (He _ _ _ Hj Hc) as (? & ? & ?). split_and!; [lia|lia|done|done]. }
  intros w' m' l [Hs Hm Hr] Hl Hn Hfd. eapply wp_modify; [exact Hs|].
  apply HQ; [|congruence|done|done]. by split.
Qed.
Lemma wp_release_scatter_live ub Q st s o n :
  live st s o n →
  (∀ w' m' l, live (mkSt w' m' (Some (released l s))) (released l s) o n →
     scatter_free (released l s) → Q tt (mkSt w' m' (Some (released l s)))) →
  wp ub session_release_scatter Q st.
Proof.
  intros Hlv HQ. pose proof (live_holding _ _ _ _ Hlv) as Hh.
  destruct Hlv as [_ Hwf _ _ Hg (b & Hb & Hp & Hn & Ho)].
  eapply wp_release_scatter; [exact Hh|apply Hwf|]. intros w' m' l [Hs Hm Hr] Hl Hf [Hg' Hfd].
  apply HQ; [|done]. split; [done| |done| |simpl; by rewrite Hg'|].
  - split; simpl; [apply Hwf|split; simpl; [done|lia|]]. intros i sc c Hi Hc.
    rewrite Forall_lookup in Hf. by rewrite (Hf _ _ Hi) in Hc.
  - simpl. unfold held. rewrite (scatter_free_held (released l s)) by done. by rewrite app_nil_r.
  - exists b. simpl. rewrite Hfd. done.
Qed.

(** The end of a session: everything it held is given back. *)
Lemma wp_destroy_holding ub Q st s :
  holding st s (held s) (priv s) → scatter_wf s →
  (∀ w' m', map_like m0 m' → resources w' (shards m') H P → unseen (st_world st) w' →
     Q tt (mkSt w' m' None)) →
  wp ub session_destroy Q st.
Proof.
  intros Hh Hwf HQ. apply wp_bind. eapply wp_session; [apply (hd_session _ _ _ _ Hh)|].
  apply wp_bind, wp_sys. apply wp_bind, wp_sys. cbn [st_world st_map st_session fst snd].
  pose proof (quiet_trans _ _ _ (quiet_del (st_world st) (ev_handler s)) (quiet_close _ (client_fd s))) as Hq.
  revert Hq. generalize (sock_close (event_loop_del (st_world st) (ev_handler s)).1 (client_fd s)) as w2.
  intros w2 [Hl2 Hu2]. apply (holding_world _ _ _ _ _ Hh) in Hl2 as Hh2.
  assert (∀ s' w m, scatter_wf s' → holding (mkSt w m (Some s')) s' (scatter_held s') [] →
    unseen (st_world st) w →
    wp ub (_ ← session_release_scatter; free_session) Q (mkSt w m (Some s'))) as Hend.
  { intros s' w m Hwf' Hh' Hu. apply wp_bind.
    eapply (wp_release_scatter ub _ _ s' [] []); [exact Hh'|done|].
    intros w' m' l [_ Hm Hr] _ _ Hu'. eapply wp_free; [done|]. apply HQ; [done|done|].
    by eapply unseen_trans. }
  apply wp_bind. unfold held, conn_held, priv in Hh2. destruct (backend_conn s) as [c|] eqn:Ec.
  - apply wp_bind. eapply (wp_drop_backend ub c _ _ s (scatter_held s) []).
    { destruct (backend_shard s); exact Hh2. }
    intros w' m' Hh' Hu'. eapply wp_modify; [done|]. simpl. apply Hend.
    + by destruct Hwf.
    + destruct Hh' as [_ ? ?]. by split.
    + by eapply unseen_trans.
  - apply wp_ret. pose proof (hd_session _ _ _ _ Hh2) as Es. simpl in Es. rewrite Es in *. by apply Hend.
Qed.
Lemma wp_destroy ub Q st s o n :
  live st s o n →
  (∀ w' m', map_like m0 m' → resources w' (shards m') H P → unseen (st_world st) w' →
     Q tt (mkSt w' m' None)) →
  wp ub session_destroy Q st.
Proof.
  intros Hlv. apply (wp_destroy_holding ub Q st s); [by eapply live_holding|].
  apply (wf_scatter _ (lv_wf _ _ _ _ Hlv)).
Qed.

(** ** Sending *)

(** Where [session_send] leaves the handler: waiting for input when everything is sent,
    for room in the socket otherwise. *)
Definition waits_for (cb : callback) (events : Z) (ev : EventHandler) : Prop :=
  ev_callback ev = Some cb ∧ ev_events ev = events.
Definition sent_state b pos ev s : ClientSession :=
  set_ev_handler ev (set_send_pos pos (set_send_buf b s)).
Lemma sent_state_id s : sent_state (send_buf s) (send_pos s) (ev_handler s) s = s.
Proof. by destruct s. Qed.

(** One call of [send] moves bytes from the buffer to the socket. *)
Lemma live_sent st s o n l k :
  live st s o n → holds (send_buf s) l → send_pos s < Z.of_nat (length l) →
  let u := drop (Z.to_nat (send_pos s)) l in
  (sock_send (st_world st) (client_fd s) u).2 = Sent k →
  live (mkSt (sock_send (st_world st) (client_fd s) u).1 (st_map st)
          (Some (set_send_pos (send_pos s + Z.of_nat k) s)))
    (set_send_pos (send_pos s + Z.of_nat k) s) o n ∧ (0 < k)%nat.
Proof.
  intros [Hs Hwf Hm Hr Hg (l' & Hl' & Hp & Hn & Ho)] Hl Hpos u Hk.
  assert (l' = l) as ->.
  { destruct Hl' as [_ _ Hlen Hd], Hl as [_ _ Hlen' Hd']. unfold starts_with in *.
    assert (length l' = length l) as E by lia. rewrite E, Hd' in Hd. symmetry.
    by apply (inj (fmap Some)) in Hd. }
  assert (length u = (length l - Z.to_nat (send_pos s))%nat) as Hu by apply length_drop.
  destruct (send_count (st_world st) (client_fd s) u k Hk) as [Hk0 Hk1].
  { intros E. rewrite E in Hu. simpl in Hu. lia. }
  split; [|done]. split; simpl; [done|by destruct Hwf as [? []]|done| |by rewrite send_log|].
  - eapply resources_frame; [exact Hr|]. apply send_live.
  - exists l. split_and!; [done|lia|lia|lia|]. rewrite send_sent, Hk, decide_True, Ho, <- app_assoc by done. f_equal.
    change (drop (Z.to_nat (send_pos s)) l) with u.
    transitivity (take k u ++ drop k u); [by rewrite take_drop|]. f_equal. unfold u.
    rewrite drop_drop. f_equal. lia.
Qed.

(** [sends fd w w']: a [send] on [fd] took some bytes.  [ends_with fd w r]: after some
    such calls, one ends in [r]. *)
Definition sends (fd : Z) (w w' : W) : Prop :=
  ∃ u k, u ≠ [] ∧ (sock_send w fd u).2 = Sent k ∧ w' = (sock_send w fd u).1.
Definition ends_with (fd : Z) (w : W) (r : send_result) : Prop :=
  ∃ w' u, rtc (sends fd) w w' ∧ u ≠ [] ∧ (sock_send w' fd u).2 = r.

(** [refused fd r u w]: the last bytes given to a socket are [u], to [send] on [fd], which
    returned [r]; in [w], since then, nothing has been sent to a client or a shard. *)
Definition refused (fd : Z) (r : send_result) (u : bytes) (w : W) : Prop :=
  ∃ w0, u ≠ [] ∧ (sock_send w0 fd u).2 = r ∧ unseen (sock_send w0 fd u).1 w.
Lemma ends_with_after fd w w' r : sends fd w w' → ends_with fd w' r → ends_with fd w r.
Proof. intros Hs (w2 & u & Hr & Hu). exists w2, u. split; [|done]. by eapply rtc_l. Qed.
(** The part of the buffer that [send] is given. *)
Lemma read_unsent b l pos :
  holds b l → 0 ≤ pos ≤ Z.of_nat (length l) →
  read_at (buf_data b) pos (Z.to_nat (buf_len b - pos)) = Ret (drop (Z.to_nat pos) l).
Proof.
  intros Hl Hp. pose proof (holds_len _ _ Hl) as Hlen.
  pose proof (read_at_spec (buf_data b) (take (Z.to_nat pos) l) (drop (Z.to_nat pos) l) []) as Hrd.
  rewrite app_nil_r, take_drop, length_take, length_drop in Hrd.
  replace (Z.of_nat (Z.to_nat pos `min` length l)) with pos in Hrd by lia.
  rewrite Hlen. rewrite <- Hrd by apply (holds_data _ _ Hl). f_equal. lia.
Qed.
Lemma quiet_unsent w fd d :
  (∀ k, (sock_send w fd d).2 ≠ Sent k) → quiet w (sock_send w fd d).1.
Proof.
  intros Hk. split_and!; [apply send_live|apply send_log|]. intros fd'. rewrite send_sent.
  destruct (sock_send w fd d).2 as [k| |]; [by destruct (Hk k)|by rewrite app_nil_r..].
Qed.
Lemma wp_send_loop ub fuel Q st s o n :
  live st s o n → buf_len (send_buf s) - send_pos s < Z.of_nat fuel →
  (∀ w' pos, live (mkSt w' (st_map st) (Some (set_send_pos pos s))) (set_send_pos pos s) o n →
     buf_len (send_buf s) ≤ pos →
     Q None (mkSt w' (st_map st) (Some (set_send_pos pos s)))) →
  (∀ w' pos ev, let s' := sent_state (send_buf s) pos ev s in
     live (mkSt w' (st_map st) (Some s')) s' o n →
     ev_fd ev = ev_fd (ev_handler s) → waits_for session_on_client_writable_cb EPOLLOUT ev →
     ends_with (client_fd s) (st_world st) SendAgain →
     (∃ u, sock_sent w' (client_fd s) ++ u = o ∧ refused (client_fd s) SendAgain u w') →
     Q (Some 0) (mkSt w' (st_map st) (Some s'))) →
  (∀ w' pos, live (mkSt w' (st_map st) (Some (set_send_pos pos s))) (set_send_pos pos s) o n →
     ends_with (client_fd s) (st_world st) SendError →
     (∃ u, refused (client_fd s) SendError u w') →
     Q (Some (-1)) (mkSt w' (st_map st) (Some (set_send_pos pos s)))) →
  wp ub (send_loop fuel) Q st.
Proof.
  revert st s. induction fuel as [|fuel IH]; intros st s Hlv Hf HN HA HE.
  { destruct (lv_out _ _ _ _ Hlv) as (l & [_ _ Hl _] & ? & _). lia. }
  simpl. apply wp_bind. eapply wp_session_live; [done|].
  assert (st = mkSt (st_world st) (st_map st) (Some (set_send_pos (send_pos s) s))) as Est.
  { destruct st as [w m ss]. pose proof (lv_session _ _ _ _ Hlv) as E. simpl in E. subst ss.
    by destruct s. }
  case_decide as Hd.
  2: { apply wp_ret. rewrite Est. apply HN; [|lia]. rewrite <- Est. by destruct s. }
  destruct (lv_out _ _ _ _ Hlv) as (l & Hl & Hp & _ & Ho). pose proof (holds_len _ _ Hl) as Hlen.
  apply wp_bind. eapply (wp_lift _ _ (drop (Z.to_nat (send_pos s)) l)); [by apply read_unsent|].
  set (u := drop (Z.to_nat (send_pos s)) l).
  assert (u ≠ []) as Hu.
  { intros E. apply (f_equal length) in E. unfold u in E. rewrite length_drop in E. simpl in E. lia. }
  apply wp_bind, wp_sys.
  destruct (sock_send (st_world st) (client_fd s) u).2 as [k| |] eqn:Ek.
  - destruct (live_sent st s o n l k Hlv Hl) as [Hlv' Hk]; [lia|done|].
    apply wp_bind. eapply wp_modify; [apply (lv_session _ _ _ _ Hlv)|]. simpl. fold u in Hlv'.
    eapply IH; [exact Hlv'|simpl; lia| | |]; simpl.
    + intros w' pos. apply (HN w' pos).
    + intros w' pos ev Hl' Hfd Hw He. apply (HA w' pos ev); [done|done|done|].
      eapply ends_with_after; [|exact He]. by exists u, k.
    + intros w' pos Hl' He. apply (HE w' pos); [done|]. eapply ends_with_after; [|exact He]. by exists u, k.
  - assert (quiet (st_world st) (sock_send (st_world st) (client_fd s) u).1) as Hq by (apply quiet_unsent; by rewrite Ek).
    apply wp_bind. eapply wp_sys_live; [by apply live_quiet|apply quiet_mod|]. simpl. intros Hlv1.
    set (ev := set_callback session_on_client_writable_cb (ev_handler s)) in *.
    pose proof (event_loop_mod_handler (sock_send (st_world st) (client_fd s) u).1 ev EPOLLOUT) as Hev.
    pose proof (quiet_unseen _ _ (quiet_mod (sock_send (st_world st) (client_fd s) u).1 ev EPOLLOUT)) as Hun.
    destruct (event_loop_mod _ ev EPOLLOUT) as [w2 [ev' rc]]. simpl in *. subst ev'.
    apply wp_bind. eapply wp_modify; [apply (lv_session _ _ _ _ Hlv)|]. simpl. apply wp_ret.
    change (set_ev_handler (set_events EPOLLOUT ev) s) with
      (sent_state (send_buf s) (send_pos s) (set_events EPOLLOUT ev) s).
    apply HA; [|done|done|by exists (st_world st), u|].
    { eapply (live_set (mkSt w2 _ _)); [exact Hlv1|by destruct (lv_wf _ _ _ _ Hlv) as [? []]|done..]. }
    exists u. split; [|by exists (st_world st)].
    rewrite (proj2 Hun). destruct Hq as (_ & _ & ->). by rewrite Ho.
  - assert (quiet (st_world st) (sock_send (st_world st) (client_fd s) u).1) as Hq by (apply quiet_unsent; by rewrite Ek).
    apply wp_ret. pose proof (live_quiet _ _ _ _ _ Hlv Hq) as Hlv1.
    rewrite (lv_session _ _ _ _ Hlv) in Hlv1 |- *. specialize (HE (sock_send (st_world st) (client_fd s) u).1 (send_pos s)).
    assert (set_send_pos (send_pos s) s = s) as Es by (by destruct s). rewrite Es in HE.
    apply HE; [done|by exists (st_world st), u|by exists u, (st_world st)].
Qed.

(** [session_send]: the stream for the client is unchanged, it has only moved towards
    the socket.  When the function returns 0, either everything is sent and the session
    waits for input, or the rest is queued and it waits for room. *)
Lemma wp_send_how ub Q st s o n :
  live st s o n →
  (∀ w' b pos ev, let s' := sent_state b pos ev s in
     live (mkSt w' (st_map st) (Some s')) s' o n → ev_fd ev = ev_fd (ev_handler s) →
     (sock_sent w' (client_fd s) = o ∧ waits_for session_on_client_readable_cb EPOLLIN ev) ∨
     (waits_for session_on_client_writable_cb EPOLLOUT ev ∧
      ends_with (client_fd s) (st_world st) SendAgain ∧
      ∃ u, sock_sent w' (client_fd s) ++ u = o ∧ refused (client_fd s) SendAgain u w') →
     Q 0 (mkSt w' (st_map st) (Some s'))) →
  (∀ w' b pos ev, let s' := sent_state b pos ev s in
     live (mkSt w' (st_map st) (Some s')) s' o n →
     ends_with (client_fd s) (st_world st) SendError →
     (∃ u, refused (client_fd s) SendError u w') → Q (-1) (mkSt w' (st_map st) (Some s'))) →
  wp ub session_send Q st.
Proof.
  intros Hlv H0 H1. apply wp_bind. eapply wp_session_live; [done|]. apply wp_bind.
  eapply wp_send_loop; [done|lia| | |].
  - intros w' pos Hlv' Hpos. apply wp_bind. eapply wp_modify; [done|]. simpl.
    set (s1 := set_send_pos 0 (set_send_buf (msgbuf_reset (send_buf s)) (set_send_pos pos s))).
    destruct Hlv' as [_ Hwf Hm Hr Hg (l & Hl & Hp & Hn & Ho)]. simpl in *.
    assert (drop (Z.to_nat pos) l = []) as Ed.
    { apply drop_ge. pose proof (holds_len _ _ Hl). lia. }
    rewrite Ed, app_nil_r in Ho.
    assert (live (mkSt w' (st_map st) (Some s1)) s1 o n) as Hlv1.
    { split; simpl; [done|by destruct Hwf as [? []]|done|done|done|]. exists []. simpl.
      rewrite app_nil_r. split_and!; [by eapply msgbuf_reset_holds|lia|lia|lia|done]. }
    apply wp_bind. eapply wp_sys_live; [exact Hlv1|apply quiet_mod|]. simpl. intros Hlv2.
    set (ev := set_callback session_on_client_readable_cb (ev_handler s)) in *.
    pose proof (event_loop_mod_handler w' ev EPOLLIN) as Hev.
    destruct (quiet_mod w' ev EPOLLIN) as (_ & _ & Hq).
    destruct (event_loop_mod w' ev EPOLLIN) as [w2 [ev' rc]]. simpl in *. subst ev'.
    apply wp_bind. eapply wp_modify; [done|]. simpl. apply wp_ret.
    apply (H0 w2 (msgbuf_reset (send_buf s)) 0 (set_events EPOLLIN ev)); [|done|].
    + eapply (live_set (mkSt w2 _ _) s1); [exact Hlv2|by destruct (lv_wf _ _ _ _ Hlv2) as [? []]|done..].
    + left. split; [|done]. by rewrite Hq.
  - intros w' pos ev s' Hlv' Hfd Hw Hb Hu. apply wp_ret. apply H0; [done|done|by right].
  - intros w' pos Hlv' Hb Hu. apply wp_ret. specialize (H1 w' (send_buf s) pos (ev_handler s)).
    assert (sent_state (send_buf s) pos (ev_handler s) s = set_send_pos pos s) as E by (by destruct s).
    rewrite E in H1. by apply H1.
Qed.
Lemma wp_send ub Q st s o n :
  live st s o n →
  (∀ w' b pos ev, let s' := sent_state b pos ev s in
     live (mkSt w' (st_map st) (Some s')) s' o n → ev_fd ev = ev_fd (ev_handler s) →
     (sock_sent w' (client_fd s) = o ∧ waits_for session_on_client_readable_cb EPOLLIN ev) ∨
     (waits_for session_on_client_writable_cb EPOLLOUT ev ∧
      ∃ u, sock_sent w' (client_fd s) ++ u = o ∧ refused (client_fd s) SendAgain u w') →
     Q 0 (mkSt w' (st_map st) (Some s'))) →
  (∀ w' b pos ev, let s' := sent_state b pos ev s in
     live (mkSt w' (st_map st) (Some s')) s' o n →
     (∃ u, refused (client_fd s) SendError u w') → Q (-1) (mkSt w' (st_map st) (Some s'))) →
  wp ub session_send Q st.
Proof.
  intros Hlv H0 H1. eapply wp_send_how; [exact Hlv| |].
  - intros w' b pos ev s' Hlv' Hfd Hd. apply H0; [done|done|]. destruct Hd as [|(? & _ & ?)]; auto.
  - intros w' b pos ev s' Hlv' _. by apply H1.
Qed.
End spec.
#[export] Hint Resolve alike_state alike_ready alike_querying alike_header alike_done : sharegres.

(** ** A new session *)
#[local] Open Scope Z_scope.
Definition fresh_session fd ev (p addr : Z) (ci : option bytes) (hm : bool) : ClientSession :=
  mkClientSession fd SESSION_STATE_INIT TXN_STATE_IDLE ev (recvbuf_init RECV_BUF_INITIAL)
    (msgbuf_init SEND_BUF_INITIAL) 0 None zero_handler false None
    (replicate MAX_SCATTER_SHARDS zero_scatter) 0 0 false None None p
    (i32 (Z.land addr 2147483647)) hm ci.
Lemma fresh_free fd ev p addr ci hm : scatter_free (fresh_session fd ev p addr ci hm).
Proof. unfold scatter_free. apply Forall_replicate. done. Qed.
Lemma fresh_live {W} {PQ : LibPQ W} {Os : OS W} m0 H P w m fd ev p addr ci hm :
  map_like m0 m → resources w (shards m) H P →
  let s := fresh_session fd ev p addr ci hm in
  live m0 H P (pq_log w) (mkSt w m (Some s)) s (sock_sent w fd) (2 ^ 62).
Proof.
  intros Hm Hr s. pose proof (fresh_free fd ev p addr ci hm) as Hfree. fold s in Hfree.
  split; [done| |done| |done|].
  - split; [done|]. split; [apply length_replicate|unfold s, MAX_SCATTER_SHARDS; cbn; lia|].
    intros i sc c Hi Hc. unfold scatter_free in Hfree. rewrite Forall_lookup in Hfree.
    by rewrite (Hfree _ _ Hi) in Hc.
  - unfold held. by rewrite (scatter_free_held s Hfree).
  - exists []. split_and!; [apply msgbuf_init_holds; unfold SEND_BUF_INITIAL; lia|done|done|done|].
    by rewrite drop_nil, app_nil_r.
Qed.

(** ** What [session_send] promises *)
Section claims.
Context {W : Type} {PQ : LibPQ W} {Os : OS W} {Laws : LibPQLaws W} {OLaws : OSLaws W}.

(** C22: [session_send] always returns and keeps the stream of bytes for the client: none
    is lost, repeated or reordered, whatever [send] takes of each piece.  It returns 0
    when everything is sent and the session waits for input again, or when the socket is
    full and the session waits for room; it returns -1 when [send] fails.  If [send] takes
    something whenever it is called, the client has received the whole stream. *)
Theorem session_send_delivers m0 H P L (st : St W) s o n :
  live m0 H P L st s o n →
  ∃ rc st', session_send st = Ret (rc, st') ∧ ∃ s', live m0 H P L st' s' o n ∧
    client_fd s' = client_fd s ∧
    ((rc = 0 ∧ sock_sent (st_world st') (client_fd s) = o ∧
      waits_for session_on_client_readable_cb EPOLLIN (ev_handler s')) ∨
     (rc = 0 ∧ waits_for session_on_client_writable_cb EPOLLOUT (ev_handler s') ∧
      ends_with (client_fd s) (st_world st) SendAgain) ∨
     (rc = -1 ∧ ends_with (client_fd s) (st_world st) SendError)) ∧
    ((∀ w u, rtc (sends (client_fd s)) (st_world st) w → u ≠ [] →
        ∃ k, (sock_send w (client_fd s) u).2 = Sent k) →
     rc = 0 ∧ sock_sent (st_world st') (client_fd s) = o).
Proof.
  intros Hlv. assert (∀ r, r = SendAgain ∨ r = SendError →
    (∀ w u, rtc (sends (client_fd s)) (st_world st) w → u ≠ [] →
        ∃ k, (sock_send w (client_fd s) u).2 = Sent k) →
    ends_with (client_fd s) (st_world st) r → False) as Hopen.
  { intros r Hr Ho (w & u & Hw & Hu & E). destruct (Ho w u Hw Hu) as [k E'].
    rewrite E' in E. subst r. by destruct Hr. }
  apply wp_total.
  eapply wp_send_how; [exact Hlv| |]; intros w' b pos ev s' Hlv'.
  - intros _ Hd. exists s'. split; [done|]. split; [done|]. simpl. destruct Hd as [[E Hw]|(Hw & He & _)].
    + split; [by left|done].
    + split; [by right; left|]. intros Ho. destruct (Hopen SendAgain); auto.
  - intros He _. exists s'. split; [done|]. split; [done|]. simpl.
    split; [by right; right|]. intros Ho. destruct (Hopen SendError); auto.
Qed.
End claims.

(** A client for which five bytes are queued, the first two of them already sent. *)
Definition sample_session : ClientSession :=
  fresh_session 7 zero_handler 4242 0 (Some (bs "host=d")) false.
Definition sample_queued : ClientSession :=
  set_send_pos 2 (set_send_buf
    (mkMsgBuf ((Some <$> bs "hello") ++ replicate 3 None) 5 8 0) sample_session).
Definition sample_halfway : SimWorld :=
  mkSimWorld ∅ true (λ _, []) [] false {[7 := bs "he"]} [].
Lemma sample_queued_live :
  live (mkShardMap [] [] 0) [] [] [] (mkSt sample_halfway (mkShardMap [] [] 0) (Some sample_queued))
    sample_queued (bs "hello") 0.
Proof.
  assert (resources sample_halfway (shards (mkShardMap [] [] 0)) [] []) as Hr.
  { apply resources_init; [done|]. split; constructor. }
  pose proof (fresh_live (mkShardMap [] [] 0) [] [] sample_halfway (mkShardMap [] [] 0) 7 zero_handler
    4242 0 (Some (bs "host=d")) false (reflexivity _) Hr) as [_ [Hb Hs] ? ? ? _].
  split; [done|by split; [|destruct Hs]|done|done|done|].
  exists (bs "hello"). by split_and!.
Qed.
Lemma session_send_delivers_witness :
  ∃ st', session_send (mkSt sample_halfway (mkShardMap [] [] 0) (Some sample_queued)) = Ret (0, st') ∧
    sock_sent (st_world st') 7 = bs "hello".
Proof.
  destruct (session_send_delivers _ _ _ _ _ _ _ _ sample_queued_live)
    as (rc & st' & E & s' & _ & _ & _ & Hopen).
  destruct Hopen as [-> Hs]; [|by exists st'].
  intros w u Hw Hu. exists (length u). simpl.
  assert (sim_blocked w = false) as ->; [|done].
  assert (sim_blocked sample_halfway = false) as Hb by done. revert Hb.
  change (st_world _) with sample_halfway in Hw. clear E.
  induction Hw as [w|w1 w2 w3 (d & k & _ & _ & ->) _ IH]; [done|].
  intros Hb. apply IH. simpl. by rewrite Hb.
Defined.
