(* ===== verification/Backend.v ===== *)
(** * Results from the backends ([src/src/session/session.c], second half)

    Forwarding of results to the client, and the callbacks of the backend
    connections of a single-shard query and of a scatter query. *)
From S2P Require Import Prelude Memory LibPQ Pool ShardMap Message Event Session.
#[local] Set Warnings "-clear-no-such-hyp".
#[local] Open Scope Z_scope.

Definition TXN_IN_TRANSACTION : byte := "T".
Definition TXN_FAILED : byte := "E".

(** ** Building messages

    The length field is written as 0 and patched at the end, which is what
    [msg_begin] and [msg_end] do. *)
Definition PQnfields (r : PGresult) : Z := Z.of_nat (length (res_fields r)).
Definition PQntuples (r : PGresult) : Z := Z.of_nat (length (res_rows r)).

(** The loop over the columns of a RowDescription. *)
Fixpoint put_fields (msg : MsgBuf) (l : list PGfield) : res MsgBuf :=
  match l with
  | [] => Ret msg
  | f :: l =>
    msg ← msgbuf_put_string msg (PQfname f);
    msg ← msgbuf_put_int32 msg 0;
    msg ← msgbuf_put_int16 msg 0;
    msg ← msgbuf_put_int32 msg (i32 (PQftype f));
    msg ← msgbuf_put_int16 msg (i16 (PQfsize f));
    msg ← msgbuf_put_int32 msg (i32 (PQfmod f));
    msg ← msgbuf_put_int16 msg 0;
    put_fields msg l
  end.
Definition write_row_description (msg : MsgBuf) (r : PGresult) : res MsgBuf :=
  '(msg, len_off) ← msg_begin msg MSG_ROW_DESCRIPTION;
  msg ← msgbuf_put_int16 msg (i16 (PQnfields r));
  msg ← put_fields msg (res_fields r);
  msg_end msg len_off.

(** The loop over the columns of a DataRow; a column that the row does not have is
    outside libpq's contract. *)
Fixpoint put_values (msg : MsgBuf) (row : list (option bytes)) (c n : nat) : res MsgBuf :=
  match n with
  | O => Ret msg
  | S n =>
    v ← deref_opt (row !! c);
    msg ← match v with
          | None => msgbuf_put_int32 msg (-1)
          | Some v =>
            msg ← msgbuf_put_int32 msg (Z.of_nat (length v));
            msgbuf_put_bytes msg v
          end;
    put_values msg row (S c) n
  end.
Definition write_data_row (msg : MsgBuf) (r : PGresult) (row : list (option bytes)) : res MsgBuf :=
  '(msg, len_off) ← msg_begin (msgbuf_reset msg) MSG_DATA_ROW;
  msg ← msgbuf_put_int16 msg (i16 (PQnfields r));
  msg ← put_values msg row 0 (length (res_fields r));
  msg_end msg len_off.

(** CopyInResponse and CopyOutResponse. *)
Fixpoint put_formats (msg : MsgBuf) (n : nat) : res MsgBuf :=
  match n with O => Ret msg | S n => msg ← msgbuf_put_int16 msg 0; put_formats msg n end.
Definition write_copy_response (msg : MsgBuf) (type : byte) (r : PGresult) : res MsgBuf :=
  '(msg, off) ← msg_begin msg type;
  msg ← msgbuf_put_byte msg NUL;
  msg ← msgbuf_put_int16 msg (i16 (PQnfields r));
  msg ← put_formats msg (length (res_fields r));
  msg_end msg off.

(** The ErrorResponse with the fields that are set. *)
Definition put_diag (msg : MsgBuf) (code : byte) (field : option bytes) : res MsgBuf :=
  match field with
  | Some s => msg ← msgbuf_put_byte msg code; msgbuf_put_string msg s
  | None => Ret msg
  end.
Definition write_error_result (msg : MsgBuf) (r : PGresult) : res MsgBuf :=
  '(msg, off) ← msg_begin msg MSG_ERROR_RESPONSE;
  msg ← put_diag msg "S" (diag_severity r);
  msg ← put_diag msg "C" (diag_sqlstate r);
  msg ← put_diag msg "M" (diag_message_primary r);
  msg ← put_diag msg "D" (diag_message_detail r);
  msg ← msgbuf_put_byte msg NUL;
  msg_end msg off.

Section backend.
Context {W : Type} {PQ : LibPQ W} {Os : OS W}.

(** [session_forward_result] *)
Fixpoint forward_rows (r : PGresult) (msg : MsgBuf) (rows : list (list (option bytes)))
    : M W () :=
  match rows with
  | [] => mret tt
  | row :: rows =>
    msg ← lift (write_data_row msg r row);
    _ ← queue_msg msg;
    forward_rows r msg rows
  end.
Definition session_forward_result (r : PGresult) (send_header : bool) : M W Z :=
  let msg := msgbuf_init 256 in
  msg ← (if send_header && bool_decide (0 < PQnfields r) then
           msg ← lift (write_row_description msg r);
           _ ← queue_msg msg;
           mret msg
         else mret msg);
  _ ← forward_rows r msg (res_rows r);
  mret (PQntuples r).

(** A message written to a fresh buffer and queued. *)
Definition send_new (cap : Z) (write : MsgBuf → res MsgBuf) : M W () :=
  msg ← lift (write (msgbuf_init cap));
  queue_msg msg.

(** [snprintf(tag, 128, ...)] *)
Definition command_tag (r : PGresult) (rows : Z) : bytes :=
  take 127 (if decide (PQcmdStatus r = []) then bs "SELECT " ++ dec rows else PQcmdStatus r).

Inductive loop_exit : Type := Drained | GotoFlush | GotoCopyOut.

(** The loop over the results of [session_on_backend_readable]. *)
Fixpoint result_loop (fuel : nat) (c : PGconn) (header_sent : bool) : M W loop_exit :=
  match fuel with
  | O => lift Hang
  | S fuel =>
    o ← pq c (λ w, PQgetResult w c);
    match o with
    | None => mret Drained
    | Some r =>
      match PQresultStatus r with
      | PGRES_TUPLES_OK | PGRES_SINGLE_TUPLE =>
        rows ← session_forward_result r (negb header_sent);
        _ ← (if decide (PQresultStatus r = PGRES_TUPLES_OK) then
               send_new 64 (λ b, msg_write_command_complete b (command_tag r rows))
             else mret tt);
        result_loop fuel c true
      | PGRES_COMMAND_OK =>
        _ ← send_new 64 (λ b, msg_write_command_complete b (PQcmdStatus r));
        result_loop fuel c header_sent
      | PGRES_COPY_IN =>
        _ ← send_new 32 (λ b, write_copy_response b MSG_COPY_IN_RESP r);
        _ ← modify (set_state SESSION_STATE_COPY_IN);
        mret GotoFlush
      | PGRES_COPY_OUT =>
        _ ← send_new 32 (λ b, write_copy_response b MSG_COPY_OUT_RESP r);
        _ ← modify (set_state SESSION_STATE_COPY_OUT);
        mret GotoCopyOut
      | PGRES_FATAL_ERROR =>
        _ ← send_new 256 (λ b, write_error_result b r);
        result_loop fuel c header_sent
      | _ => result_loop fuel c header_sent
      end
    end
  end.

Definition txn_byte (t : PGTransactionStatusType) : byte :=
  match t with
  | PQTRANS_INTRANS => TXN_IN_TRANSACTION
  | PQTRANS_INERROR => TXN_FAILED
  | _ => TXN_IDLE
  end.
(** ReadyForQuery; outside a transaction a pooled connection goes back. *)
Definition ready_and_release (c : PGconn) : M W () :=
  be_txn ← pq_get c (λ w, PQtransactionStatus w c);
  _ ← send_new 16 (λ b, msg_write_ready_for_query b (txn_byte be_txn));
  s ← the_session;
  match be_txn, backend_shard s with
  | PQTRANS_IDLE, Some _ =>
    _ ← drop_backend c;
    modify (λ s, set_backend_shard None (set_backend_conn None s))
  | _, _ => mret tt
  end.

(** The loop under [copy_out_read]. *)
Fixpoint copy_out_loop (fuel : nat) (c : PGconn) : M W copy_result :=
  match fuel with
  | O => lift Hang
  | S fuel =>
    r ← pq c (λ w, PQgetCopyData w c);
    match r with
    | CopyRow data =>
      _ ← send_new (Z.of_nat (length data) + 8) (λ b,
            b ← msgbuf_put_byte b MSG_COPY_DATA;
            b ← msgbuf_put_int32 b (i32 (Z.of_nat (length data) + 4));
            msgbuf_put_bytes b data);
      copy_out_loop fuel c
    | _ => mret r
    end
  end.
Definition copy_out_read (c : PGconn) : M W () :=
  pending ← pq_get c (λ w, pq_copy_pending w c);
  r ← copy_out_loop (S pending) c;
  match r with
  | CopyEnd =>
    _ ← send_new 8 (λ b, b ← msgbuf_put_byte b MSG_COPY_DONE; msgbuf_put_int32 b 4);
    final_res ← pq c (λ w, PQgetResult w c);
    _ ← match final_res with
        | Some r =>
          if decide (PQresultStatus r = PGRES_COMMAND_OK) then
            send_new 64 (λ b, msg_write_command_complete b (PQcmdStatus r))
          else mret tt
        | None => mret tt
        end;
    _ ← ready_and_release c;
    modify (set_state SESSION_STATE_READY)
  | _ => mret tt
  end.

Definition fe_send_error (severity code message : bytes) : M W () :=
  s ← the_session;
  b ← lift (msg_write_error (send_buf s) severity code message);
  modify (set_send_buf b).

(** Reports a lost backend and ends the session. *)
Definition backend_lost (message : bytes) : M W () :=
  _ ← fe_send_error (bs "FATAL") (bs "08006") message;
  _ ← session_send;
  session_destroy.
Definition flush_and_return : M W () :=
  rc ← session_send;
  if decide (rc < 0) then session_destroy else mret tt.

(** [session_on_backend_readable].  The result loop gets one round more than the
    connection has results. *)
Definition session_on_backend_readable (events : Z) : M W () :=
  if has_error events then backend_lost (bs "backend connection lost")
  else
    s ← the_session;
    match backend_conn s with
    | None => mret tt
    | Some c =>
      ok ← pq c (λ w, PQconsumeInput w c);
      if negb ok then backend_lost (bs "backend connection error")
      else
        busy ← pq c (λ w, PQisBusy w c);
        if busy : bool then mret tt
        else
          pending ← pq_get c (λ w, pq_pending w c);
          e ← result_loop (S pending) c false;
          _ ← match e with
              | Drained =>
                _ ← ready_and_release c;
                modify (λ s, set_state SESSION_STATE_READY (set_backend_busy false s))
              | GotoCopyOut => copy_out_read c
              | GotoFlush => mret tt
              end;
          flush_and_return
    end.

(** ** Scatter queries *)

(** The loop over the results of one shard. *)
Fixpoint scatter_loop (fuel : nat) (c : PGconn) : M W () :=
  match fuel with
  | O => lift Hang
  | S fuel =>
    o ← pq c (λ w, PQgetResult w c);
    match o with
    | None => mret tt
    | Some r =>
      _ ← match PQresultStatus r with
          | PGRES_TUPLES_OK | PGRES_SINGLE_TUPLE =>
            s ← the_session;
            _ ← session_forward_result r (negb (scatter_header_sent s));
            modify (set_scatter_header_sent true)
          | _ => mret tt
          end;
      scatter_loop fuel c
    end
  end.

(** [check_complete] *)
Definition scatter_check_complete : M W () :=
  s ← the_session;
  if decide (scatter_count s ≤ scatter_done s)%nat then
    _ ← send_new 64 (λ b, msg_write_command_complete b
          (if scatter_header_sent s then bs "SELECT" else bs "SELECT 0"));
    _ ← send_new 16 (λ b, msg_write_ready_for_query b TXN_IDLE);
    _ ← session_release_scatter;
    _ ← modify (set_state SESSION_STATE_READY);
    rc ← session_send;
    if decide (rc < 0) then session_destroy else mret tt
  else mret tt.
(** [sc->done = true; session->scatter_done++] *)
Definition scatter_mark_done (i : nat) : M W () :=
  modify (λ s, set_scatter_done (S (scatter_done s))
    (set_scatter (alter (set_sc_done true) i (scatter s)) s)).

(** [session_on_scatter_readable], for the handler of entry [i]. *)
Definition session_on_scatter_readable (i : nat) (events : Z) : M W () :=
  s ← the_session;
  sc ← lift (deref_opt (scatter s !! i));
  if has_error events then
    _ ← lift (deref_opt (sc_shard sc));
    _ ← scatter_mark_done i;
    scatter_check_complete
  else
    match sc_conn sc with
    | None => mret tt
    | Some c =>
      ok ← pq c (λ w, PQconsumeInput w c);
      if negb ok then
        _ ← lift (deref_opt (sc_shard sc));
        _ ← scatter_mark_done i;
        scatter_check_complete
      else
        busy ← pq c (λ w, PQisBusy w c);
        if busy : bool then mret tt
        else
          pending ← pq_get c (λ w, pq_pending w c);
          _ ← scatter_loop (S pending) c;
          _ ← scatter_mark_done i;
          scatter_check_complete
    end.
End backend.
