(* ===== verification/Wire.v ===== *)
(** * What is sent for a result

    The protocol messages for the results of a backend, and the proof that the
    forwarding code of [session.c] queues exactly these bytes. *)
From S2P Require Import Prelude Memory LibPQ Pool ShardMap Resources Message Event Session Wp.
From S2P Require Import SessionSpec Backend.
#[local] Set Warnings "-clear-no-such-hyp".
#[local] Open Scope Z_scope.
#[local] Arguments be_encode : simpl never.

(** ** Messages *)
Definition field_wire (f : PGfield) : bytes :=
  cstr (PQfname f) ++ be_encode 4 0 ++ be_encode 2 0 ++ be_encode 4 (PQftype f) ++
  be_encode 2 (PQfsize f) ++ be_encode 4 (PQfmod f) ++ be_encode 2 0.
Definition row_description (r : PGresult) : bytes :=
  frame MSG_ROW_DESCRIPTION (be_encode 2 (PQnfields r) ++ concat (map field_wire (res_fields r))).
Definition value_wire (v : option bytes) : bytes :=
  match v with
  | None => be_encode 4 (-1)
  | Some v => be_encode 4 (Z.of_nat (length v)) ++ v
  end.
Definition data_row (r : PGresult) (row : list (option bytes)) : bytes :=
  frame MSG_DATA_ROW (be_encode 2 (PQnfields r) ++ concat (map value_wire row)).
Definition command_complete (tag : bytes) : bytes := frame MSG_CMD_COMPLETE (cstr tag).
Definition ready_for_query (c : byte) : bytes := frame MSG_READY_FOR_QUERY [c].
Definition copy_response (t : byte) (r : PGresult) : bytes :=
  frame t (NUL :: be_encode 2 (PQnfields r) ++
           concat (replicate (length (res_fields r)) (be_encode 2 0))).
Definition diag_wire (code : byte) (field : option bytes) : bytes :=
  match field with Some s => code :: cstr s | None => [] end.
Definition error_result (r : PGresult) : bytes :=
  frame MSG_ERROR_RESPONSE
    (diag_wire "S" (diag_severity r) ++ diag_wire "C" (diag_sqlstate r) ++
     diag_wire "M" (diag_message_primary r) ++ diag_wire "D" (diag_message_detail r) ++ [NUL]).
Definition error_response (severity code message : bytes) : bytes :=
  frame MSG_ERROR_RESPONSE (error_payload severity code message).

(** The rows of a result, with the row description if [header]. *)
Definition rows_wire (header : bool) (r : PGresult) : bytes :=
  (if header && bool_decide (0 < PQnfields r) then row_description r else []) ++
  concat (map (data_row r) (res_rows r)).
(** A result of a single-shard query. *)
Definition result_wire (header : bool) (r : PGresult) : bytes :=
  match PQresultStatus r with
  | PGRES_TUPLES_OK => rows_wire header r ++ command_complete (command_tag r (PQntuples r))
  | PGRES_SINGLE_TUPLE => rows_wire header r
  | PGRES_COMMAND_OK => command_complete (PQcmdStatus r)
  | PGRES_FATAL_ERROR => error_result r
  | _ => []
  end.
(** The row description is sent with the first result that has rows only. *)
Definition is_tuples (r : PGresult) : bool :=
  match PQresultStatus r with PGRES_TUPLES_OK | PGRES_SINGLE_TUPLE => true | _ => false end.
Fixpoint results_wire (header : bool) (rs : list PGresult) : bytes :=
  match rs with
  | [] => []
  | r :: rs => result_wire header r ++ results_wire (header && negb (is_tuples r)) rs
  end.

(** ** The writers *)
Lemma appends_nil : appends Ret [].
Proof. intros b l Hh _. exists b. by rewrite app_nil_r. Qed.
Lemma be_encode_i16 z : be_encode 2 (i16 z) = be_encode 2 z.
Proof.
  rewrite <- (be_encode_mod 2 (i16 z)), <- (be_encode_mod 2 z). f_equal.
  change (8 * Z.of_nat 2) with 16. unfold swrap.
  change (2 ^ (16 - 1)) with 32768. change (2 ^ 16) with 65536.
  rewrite Zminus_mod_idemp_l. f_equal. lia.
Qed.
Lemma put_i16_appends z : appends (λ b, msgbuf_put_int16 b (i16 z)) (be_encode 2 z).
Proof. rewrite <- be_encode_i16. apply put_int16_appends. Qed.
Lemma put_i32_appends z : appends (λ b, msgbuf_put_int32 b (i32 z)) (be_encode 4 z).
Proof. rewrite <- be_encode_i32. apply put_int32_appends. Qed.
#[local] Hint Resolve put_i16_appends put_i32_appends appends_nil : sharegres.

Lemma put_fields_appends l : appends (λ b, put_fields b l) (concat (map field_wire l)).
Proof.
  induction l as [|f l IH]; [apply appends_nil|]. cbn [map concat put_fields].
  unfold field_wire at 1. rewrite <- !app_assoc.
  repeat (apply (appends_seq (λ b, _)); [by eauto with sharegres|]). exact IH.
Qed.
Lemma write_row_description_appends r : appends (λ b, write_row_description b r) (row_description r).
Proof.
  apply (appends_ext (λ b, '(b, off) ← msg_begin b MSG_ROW_DESCRIPTION;
    b ← (b ← msgbuf_put_int16 b (i16 (PQnfields r)); put_fields b (res_fields r)); msg_end b off)).
  { intros b. apply bind_ext. intros [b1 off]. by rewrite <- bind_assoc. }
  apply (framed (λ b, _)). apply appends_seq; [eauto with sharegres|apply put_fields_appends].
Qed.

Lemma put_value_appends v :
  appends (λ b, match v with
                | None => msgbuf_put_int32 b (-1)
                | Some v => b ← msgbuf_put_int32 b (Z.of_nat (length v)); msgbuf_put_bytes b v
                end) (value_wire v).
Proof. destruct v; [apply appends_seq|]; eauto with sharegres. Qed.
Lemma put_values_appends row c n :
  (c + n = length row)%nat → appends (λ b, put_values b row c n) (concat (map value_wire (drop c row))).
Proof.
  revert c. induction n as [|n IH]; intros c Hc.
  - rewrite drop_ge by lia. apply appends_nil.
  - destruct (lookup_lt_is_Some_2 row c) as [v Hv]; [lia|].
    rewrite (drop_S _ _ _ Hv). cbn [map concat put_values].
    eapply (appends_ext (λ b, _ ≫= _)); [intros b; rewrite Hv; reflexivity|].
    apply (appends_seq _ (λ b, put_values b row (S c) n)); [apply put_value_appends|apply IH; lia].
Qed.
Lemma write_data_row_spec msg x r row :
  holds msg x → length row = length (res_fields r) →
  Z.of_nat (length (data_row r row)) ≤ 2 ^ 62 →
  ∃ msg', write_data_row msg r row = Ret msg' ∧ holds msg' (data_row r row).
Proof.
  intros Hh Hrow Hb.
  assert (appends (λ b, '(b, off) ← msg_begin b MSG_DATA_ROW;
    b ← (b ← msgbuf_put_int16 b (i16 (PQnfields r)); put_values b row 0 (length (res_fields r)));
    msg_end b off) (data_row r row)) as Ha.
  { apply (framed (λ b, _)). apply appends_seq; [eauto with sharegres|].
    apply (put_values_appends row 0). lia. }
  destruct (Ha (msgbuf_reset msg) []) as (msg' & E & Hh' & _);
    [by eapply msgbuf_reset_holds|cbn [length]; lia|].
  exists msg'. split; [|done]. rewrite <- E. unfold write_data_row. apply bind_ext.
  intros [b1 off]. by rewrite <- bind_assoc.
Qed.

Lemma put_formats_appends n : appends (λ b, put_formats b n) (concat (replicate n (be_encode 2 0))).
Proof.
  induction n as [|n IH]; [apply appends_nil|]. change (concat (replicate (S n) (be_encode 2 0))) with (be_encode 2 0 ++ concat (replicate n (be_encode 2 0))).
  apply (appends_seq (λ b, msgbuf_put_int16 b 0) (λ b, put_formats b n)); [eauto with sharegres|done].
Qed.
Lemma write_copy_response_appends t r : appends (λ b, write_copy_response b t r) (copy_response t r).
Proof.
  apply (appends_ext (λ b, '(b, off) ← msg_begin b t;
    b ← (b ← msgbuf_put_byte b NUL; b ← msgbuf_put_int16 b (i16 (PQnfields r));
         put_formats b (length (res_fields r))); msg_end b off)).
  { intros b. apply bind_ext. intros [b1 off]. rewrite <- bind_assoc. apply bind_ext. intros b2.
    by rewrite <- bind_assoc. }
  apply (framed (λ b, _)).
  apply (appends_seq _ _ [_]); [eauto with sharegres|].
  apply appends_seq; [eauto with sharegres|apply put_formats_appends].
Qed.
Lemma put_diag_appends c o : appends (λ b, put_diag b c o) (diag_wire c o).
Proof.
  destruct o as [v|]; [|apply appends_nil].
  apply (appends_seq _ _ [c]); eauto with sharegres.
Qed.
#[local] Hint Resolve put_diag_appends : sharegres.
Lemma write_error_result_appends r : appends (λ b, write_error_result b r) (error_result r).
Proof.
  apply (appends_ext (λ b, '(b, off) ← msg_begin b MSG_ERROR_RESPONSE;
    b ← (b ← put_diag b "S" (diag_severity r); b ← put_diag b "C" (diag_sqlstate r);
         b ← put_diag b "M" (diag_message_primary r); b ← put_diag b "D" (diag_message_detail r);
         msgbuf_put_byte b NUL); msg_end b off)).
  { intros b. apply bind_ext. intros [b1 off].
    repeat (rewrite <- bind_assoc; apply bind_ext; intros ?). done. }
  apply (framed (λ b, _)).
  repeat (apply appends_seq; [by eauto with sharegres|]). eauto with sharegres.
Qed.

(** ** Code that only queues bytes *)
Section emits.
Context {W : Type} {PQ : LibPQ W} {Os : OS W} {Laws : LibPQLaws W} {OLaws : OSLaws W}.
Context (m0 : ShardMap) (H : list (nat * PGconn)) (P : list PGconn) (L : list (PGconn * bytes)).
Implicit Types (st : St W) (s : ClientSession) (o : bytes) (n : Z) (ub : Prop).
#[local] Abbreviation live := (live m0 H P L).

(** [m] returns [a], queues [x] and does nothing else. *)
Definition emits {A} (m : M W A) (x : bytes) (a : A) : Prop :=
  ∀ ub Q st s o n, live st s o (n + Z.of_nat (length x)) → 0 ≤ n →
  (∀ b, live (mkSt (st_world st) (st_map st) (Some (set_send_buf b s))) (set_send_buf b s) (o ++ x) n →
    Q a (mkSt (st_world st) (st_map st) (Some (set_send_buf b s)))) →
  wp ub m Q st.

Lemma live_state st s o n :
  live st s o n → st = mkSt (st_world st) (st_map st) (Some (set_send_buf (send_buf s) s)).
Proof.
  intros Hlv. destruct st as [w m ss]. pose proof (lv_session _ _ _ _ _ _ _ _ Hlv) as E. simpl in E.
  subst ss. by destruct s.
Qed.
Lemma emits_ret {A} (a : A) : emits (mret a) [] a.
Proof.
  intros ub Q st s o n Hlv Hn HQ. apply wp_ret. rewrite (live_state _ _ _ _ Hlv).
  apply HQ. rewrite app_nil_r. rewrite <- (live_state _ _ _ _ Hlv). simpl in Hlv.
  rewrite Z.add_0_r in Hlv. by destruct s.
Qed.
Lemma emits_bind {A B} (m : M W A) (k : A → M W B) x y a b :
  emits m x a → emits (k a) y b → emits (m ≫= k) (x ++ y) b.
Proof.
  intros Hm Hk ub Q st s o n Hlv Hn HQ. apply wp_bind. rewrite length_app in Hlv.
  apply (Hm ub _ st s o (n + Z.of_nat (length y))); [|lia|].
  { eapply live_room; [exact Hlv|]. lia. }
  intros b1 Hlv1. apply (Hk ub _ _ _ (o ++ x) n Hlv1 Hn). simpl. intros b2 Hlv2.
  rewrite <- app_assoc in Hlv2. by apply HQ.
Qed.
Lemma emits_ext {A} (m : M W A) x y a : emits m x a → x = y → emits m y a.
Proof. by intros ? <-. Qed.
Lemma emits_queue_msg msg x : holds msg x → emits (queue_msg msg) x tt.
Proof. intros Hh ub Q st s o n Hlv Hn HQ. by eapply wp_queue_msg. Qed.
Lemma emits_lift {A B} (r : res A) (a : A) (k : A → M W B) x b :
  r = Ret a → emits (k a) x b → emits (lift r ≫= k) x b.
Proof. intros -> Hk ub Q st s o n Hlv Hn HQ. apply wp_bind. eapply wp_lift; [done|]. by eapply Hk. Qed.
Lemma emits_send_new cap f x :
  appends f x → 0 < cap < 2 ^ 64 → emits (send_new cap f) x tt.
Proof.
  intros Hf Hc ub Q st s o n Hlv Hn HQ.
  destruct (lv_out _ _ _ _ _ _ _ _ Hlv) as (l & _ & _ & Hb & _).
  destruct (Hf (msgbuf_init cap) []) as (msg & E & Hh & _);
    [by apply msgbuf_init_holds|cbn [length]; lia|].
  apply wp_bind. eapply wp_lift; [exact E|]. by eapply wp_queue_msg.
Qed.
Lemma emits_error severity code message :
  emits (fe_send_error severity code message) (error_response severity code message) tt.
Proof.
  intros ub Q st s o n Hlv Hn HQ. unfold fe_send_error.
  apply (wp_append m0 H P L ub (λ b, msg_write_error b severity code message)
    (error_response severity code message) Q st s o n); [apply write_error_appends|done|done|done].
Qed.
Lemma emits_ready c :
  emits (send_new 16 (λ b, msg_write_ready_for_query b c)) (ready_for_query c) tt.
Proof. apply emits_send_new; [apply write_ready_appends|done]. Qed.
Lemma emits_complete tag :
  emits (send_new 64 (λ b, msg_write_command_complete b tag)) (command_complete tag) tt.
Proof. apply emits_send_new; [apply write_command_complete_appends|done]. Qed.

(** ** [session_forward_result] *)
Lemma emits_rows r rows msg x :
  holds msg x → Forall (λ row, length row = length (res_fields r)) rows →
  emits (forward_rows r msg rows) (concat (map (data_row r) rows)) tt.
Proof.
  intros Hh Hr. revert msg x Hh. induction Hr as [|row rows Hrow Hr IH]; intros msg x Hh.
  { apply emits_ret. }
  intros ub Q st s o n Hlv Hn HQ. cbn [map concat forward_rows] in *.
  destruct (lv_out _ _ _ _ _ _ _ _ Hlv) as (l & _ & _ & Hb & _). rewrite length_app in Hb.
  destruct (write_data_row_spec msg x r row Hh Hrow) as (msg' & E & Hh'); [lia|].
  revert ub Q st s o n Hlv Hn HQ Hb.
  enough (emits (msg ← lift (write_data_row msg r row); _ ← queue_msg msg; forward_rows r msg rows)
    (data_row r row ++ concat (map (data_row r) rows)) tt) as He by (intros; by eapply He).
  eapply emits_lift; [exact E|]. eapply emits_bind; [by apply emits_queue_msg|by eapply IH].
Qed.
Lemma emits_forward r header :
  result_wf r → emits (session_forward_result r header) (rows_wire header r) (PQntuples r).
Proof.
  intros Hwf ub Q st s o n Hlv Hn HQ. unfold session_forward_result.
  assert (holds (msgbuf_init 256) []) as H0 by (by apply msgbuf_init_holds).
  unfold rows_wire in *. destruct (header && bool_decide (0 < PQnfields r)).
  - destruct (lv_out _ _ _ _ _ _ _ _ Hlv) as (l & _ & _ & Hb & _). rewrite length_app in Hb.
    destruct (write_row_description_appends r _ [] H0) as (msg & E & Hh & _); [cbn [length]; lia|].
    revert ub Q st s o n Hlv Hn HQ Hb.
    enough (emits (msg ← (msg ← lift (write_row_description (msgbuf_init 256) r);
        _ ← queue_msg msg; mret msg); _ ← forward_rows r msg (res_rows r); mret (PQntuples r))
      (row_description r ++ concat (map (data_row r) (res_rows r))) (PQntuples r)) as He
      by (intros; by eapply He).
    eapply emits_bind.
    + eapply emits_lift; [exact E|]. eapply emits_ext.
      * eapply emits_bind; [by apply emits_queue_msg|apply emits_ret].
      * by rewrite app_nil_r.
    + eapply emits_ext; [eapply emits_bind; [by eapply emits_rows|apply emits_ret]|by rewrite app_nil_r].
  - revert ub Q st s o n Hlv Hn HQ.
    enough (emits (msg ← mret (msgbuf_init 256); _ ← forward_rows r msg (res_rows r);
      mret (PQntuples r)) ([] ++ concat (map (data_row r) (res_rows r))) (PQntuples r)) as He
      by (intros; by eapply He).
    eapply emits_bind; [apply emits_ret|].
    eapply emits_ext; [eapply emits_bind; [by eapply emits_rows|apply emits_ret]|by rewrite app_nil_r].
Qed.
End emits.
