(* ===== verification/BackendSpec.v ===== *)
(** * What the callbacks of the backend connections do *)
From S2P Require Import Prelude Memory LibPQ Pool ShardMap Resources Message Event Session Wp.
From S2P Require Import SessionSpec Backend Wire.
#[local] Set Warnings "-clear-no-such-hyp".
#[local] Open Scope Z_scope.
#[local] Arguments be_encode : simpl never.

(** ** Sizes *)
Lemma length_value_wire v : (length (value_wire v) ≤ opt_size v)%nat.
Proof. destruct v; simpl; rewrite ?length_app, ?length_be_encode; simpl; lia. Qed.
Lemma length_concat_map {A B} (f : A → list B) (g : A → nat) (l : list A) :
  (∀ a, length (f a) ≤ g a)%nat → (length (concat (map f l)) ≤ sum_list_with g l)%nat.
Proof. intros Hfg. induction l as [|a l IH]; simpl; [lia|]. rewrite length_app. specialize (Hfg a). lia. Qed.
Lemma length_data_row r row : (length (data_row r row) ≤ 16 + sum_list_with opt_size row)%nat.
Proof.
  unfold data_row. rewrite length_frame, length_app, length_be_encode.
  pose proof (length_concat_map _ _ row length_value_wire). lia.
Qed.
Lemma length_cstr s : length (cstr s) = S (length s).
Proof. unfold cstr. rewrite length_app. simpl. lia. Qed.
Lemma length_field_wire f : (length (field_wire f) ≤ 32 + length (PQfname f))%nat.
Proof. unfold field_wire. rewrite !length_app, length_cstr, !length_be_encode. lia. Qed.
Lemma length_rows_wire header r :
  (length (rows_wire header r) ≤
   7 + sum_list_with (λ f, 32 + length (PQfname f)) (res_fields r) +
   sum_list_with (λ row, 16 + sum_list_with opt_size row) (res_rows r))%nat.
Proof.
  unfold rows_wire. rewrite length_app.
  pose proof (length_concat_map _ _ (res_rows r) (length_data_row r)).
  assert (length (row_description r) ≤
    7 + sum_list_with (λ f, 32 + length (PQfname f)) (res_fields r))%nat.
  { unfold row_description. rewrite length_frame, length_app, length_be_encode.
    pose proof (length_concat_map _ _ (res_fields r) length_field_wire). lia. }
  destruct (header && _); cbn [length]; lia.
Qed.
Lemma length_diag c o : (length (diag_wire c o) ≤ opt_size o)%nat.
Proof. destruct o; simpl; rewrite ?length_cstr; lia. Qed.
Lemma length_complete tag : length (command_complete tag) = (6 + length tag)%nat.
Proof. unfold command_complete. rewrite length_frame, length_cstr. lia. Qed.
Lemma length_tag r z : (length (command_tag r z) ≤ 127)%nat.
Proof. unfold command_tag. rewrite length_take. lia. Qed.
Lemma length_result_wire header r : (length (result_wire header r) ≤ result_size r)%nat.
Proof.
  unfold result_wire, result_size. pose proof (length_rows_wire header r).
  destruct (PQresultStatus r); rewrite ?length_app, ?length_complete; cbn [length]; try lia.
  - pose proof (length_tag r (PQntuples r)). lia.
  - unfold error_result. rewrite length_frame, !length_app. cbn [length].
    pose proof (length_diag "S" (diag_severity r)). pose proof (length_diag "C" (diag_sqlstate r)).
    pose proof (length_diag "M" (diag_message_primary r)).
    pose proof (length_diag "D" (diag_message_detail r)). lia.
Qed.
Lemma length_results_wire header rs :
  (length (results_wire header rs) ≤ sum_list_with result_size rs)%nat.
Proof.
  revert header. induction rs as [|r rs IH]; intros header; [done|].
  cbn [results_wire sum_list_with]. rewrite length_app.
  pose proof (length_result_wire header r). specialize (IH (header && negb (is_tuples r))). lia.
Qed.
Lemma length_copy_response t r : (length (copy_response t r) ≤ result_size r)%nat.
Proof.
  unfold copy_response. rewrite length_frame. cbn [length]. rewrite length_app, length_be_encode.
  assert (length (concat (replicate (length (res_fields r)) (be_encode 2 0))) ≤
    sum_list_with (λ f, 32 + length (PQfname f)) (res_fields r))%nat.
  { clear. induction (res_fields r) as [|f l IH]; [done|]. cbn [length replicate concat sum_list_with] in *.
    rewrite length_app, length_be_encode. lia. }
  unfold result_size. lia.
Qed.

Definition row_of (r : copy_result) : option bytes :=
  match r with CopyRow d => Some d | _ => None end.

(** ** The results a connection yields *)
Inductive stop : Type := StopNull | StopCopyIn (r : PGresult) | StopCopyOut (r : PGresult).
Definition exit_of (e : stop) : loop_exit :=
  match e with StopNull => Drained | StopCopyIn _ => GotoFlush | StopCopyOut _ => GotoCopyOut end.
Definition stop_wire (e : stop) : bytes :=
  match e with
  | StopNull => []
  | StopCopyIn r => copy_response MSG_COPY_IN_RESP r
  | StopCopyOut r => copy_response MSG_COPY_OUT_RESP r
  end.
Definition stop_state (e : stop) : ClientSession → ClientSession :=
  match e with
  | StopNull => id
  | StopCopyIn _ => set_state SESSION_STATE_COPY_IN
  | StopCopyOut _ => set_state SESSION_STATE_COPY_OUT
  end.

Section backend.
Context {W : Type} {PQ : LibPQ W} {Os : OS W} {Laws : LibPQLaws W} {OLaws : OSLaws W}.

(** [drains c w rs e w']: [PQgetResult] returns [rs] and then NULL or the start of a
    COPY. *)
Inductive drains (c : PGconn) : W → list PGresult → stop → W → Prop :=
| drain_null w :
    (PQgetResult w c).2 = None → drains c w [] StopNull (PQgetResult w c).1
| drain_copy_in w r :
    (PQgetResult w c).2 = Some r → PQresultStatus r = PGRES_COPY_IN →
    drains c w [] (StopCopyIn r) (PQgetResult w c).1
| drain_copy_out w r :
    (PQgetResult w c).2 = Some r → PQresultStatus r = PGRES_COPY_OUT →
    drains c w [] (StopCopyOut r) (PQgetResult w c).1
| drain_more w r rs e w' :
    (PQgetResult w c).2 = Some r → is_copy (PQresultStatus r) = false →
    drains c (PQgetResult w c).1 rs e w' → drains c w (r :: rs) e w'.

Lemma drains_total c w : ∃ rs e w', drains c w rs e w'.
Proof.
  remember (pq_pending w c) as n eqn:E. revert w E.
  induction n as [n IH] using lt_wf_ind. intros w ->.
  destruct (PQgetResult w c).2 as [r|] eqn:Er; [|eauto using drain_null].
  destruct (is_copy (PQresultStatus r)) eqn:Ec.
  - pose proof (getResult_both w c r Er). destruct (PQresultStatus r) eqn:Es; try done;
      eauto using drain_copy_in, drain_copy_out.
  - pose proof (getResult_pending w c r Er Ec). pose proof (size_pos r) as Hp.
    destruct (IH (pq_pending (PQgetResult w c).1 c)) with (w := (PQgetResult w c).1)
      as (rs & e & w' & Hd); [lia|done|]. eauto using drain_more.
Qed.
Lemma drains_size c w rs e w' :
  drains c w rs e w' →
  (sum_list_with result_size rs ≤ pq_pending w c)%nat ∧ (length rs ≤ pq_pending w c)%nat ∧
  Forall result_wf rs ∧
  Z.of_nat (length (stop_wire e)) ≤ 2 ^ 48 ∧ quiet w w'.
Proof.
  induction 1 as [w Er|w r Er Es|w r Er Es|w r rs e w' Er Ec Hd (Hs & Hl & Hf & He & Hq)].
  - split_and!; simpl; try lia; [constructor|apply quiet_result..].
  - pose proof (getResult_size w c r Er). pose proof (length_copy_response MSG_COPY_IN_RESP r).
    split_and!; cbn [sum_list_with length stop_wire]; try lia; [constructor|apply quiet_result..].
  - pose proof (getResult_size w c r Er). pose proof (length_copy_response MSG_COPY_OUT_RESP r).
    split_and!; cbn [sum_list_with length stop_wire]; try lia; [constructor|apply quiet_result..].
  - pose proof (getResult_pending w c r Er Ec). pose proof (size_pos r).
    cbn [sum_list_with length]. split_and!; try lia.
    + constructor; [by eapply getResult_wf|done].
    + eapply quiet_trans; [apply quiet_result|done].
Qed.

Lemma drains_det c w rs e w1 rs' e' w2 :
  drains c w rs e w1 → drains c w rs' e' w2 → rs = rs' ∧ e = e' ∧ w1 = w2.
Proof.
  intros Hd. revert rs' e' w2.
  induction Hd as [w Er|w r Er Es|w r Er Es|w r rs e w' Er Ec Hd IH]; intros rs' e' w2 Hd';
    inversion Hd' as [? Er'|? r' Er' Es'|? r' Er' Es'|? r' ? ? ? Er' Ec' Hd2]; subst;
    rewrite Er in Er'; simplify_eq; try done;
    try (by rewrite Es in Es'); try (by rewrite Es in Ec'); try (by rewrite Es' in Ec).
  by destruct (IH _ _ _ Hd2) as (-> & -> & ->).
Qed.

Context (m0 : ShardMap) (H : list (nat * PGconn)) (P : list PGconn) (L : list (PGconn * bytes)).
Implicit Types (st : St W) (s : ClientSession) (o : bytes) (n : Z) (ub : Prop).
#[local] Abbreviation live := (live m0 H P L).

(** ** The result loop *)
Lemma emits_tuples r (header : bool) :
  result_wf r → is_tuples r = true →
  emits m0 H P L
    (rows ← session_forward_result (W := W) r header;
     if decide (PQresultStatus r = PGRES_TUPLES_OK) then
       send_new 64 (λ b, msg_write_command_complete b (command_tag r rows))
     else mret tt) (result_wire header r) tt.
Proof.
  intros Hwf Ht. unfold result_wire. eapply emits_ext; [eapply emits_bind; [by apply emits_forward|]|].
  - instantiate (1 := match PQresultStatus r with
                      | PGRES_TUPLES_OK => command_complete (command_tag r (PQntuples r)) | _ => [] end).
    case_decide as E; [rewrite E; apply emits_complete|].
    destruct (PQresultStatus r); try done; apply emits_ret.
  - unfold is_tuples in Ht. destruct (PQresultStatus r); try done; by rewrite app_nil_r.
Qed.
Lemma wp_result_loop ub Q c w rs e w' :
  drains c w rs e w' →
  ∀ fuel (header : bool) m s o n,
  (length rs < fuel)%nat → Forall result_wf rs → c ∈ (held s).*2 ++ priv s → 0 ≤ n →
  live (mkSt w m (Some s)) s o
    (n + Z.of_nat (length (results_wire header rs)) + Z.of_nat (length (stop_wire e))) →
  (∀ b, let s' := stop_state e (set_send_buf b s) in
    live (mkSt w' m (Some s')) s' (o ++ results_wire header rs ++ stop_wire e) n →
    Q (exit_of e) (mkSt w' m (Some s'))) →
  wp ub (result_loop fuel c (negb header)) Q (mkSt w m (Some s)).
Proof.
  induction 1 as [w Er|w r Er Es|w r Er Es|w r rs e w' Er Ec Hd IH];
    intros [|fuel] header m s o n Hf Hwf Hc Hn Hlv HQ; try (cbn [length] in Hf; lia);
    cbn [result_loop]; apply wp_bind; eapply wp_pq_live; eauto with sharegres;
    intros Hlv1; cbn [st_world st_map st_session] in *; rewrite Er;
    cbn [results_wire app length exit_of stop_wire] in *.
  - apply wp_ret. specialize (HQ (send_buf s)). rewrite set_send_buf_id in HQ. apply HQ.
    rewrite app_nil_r. eapply live_room; [exact Hlv1|lia].
  - rewrite Es. apply wp_bind. apply (emits_send_new m0 H P L 32 _ _ (write_copy_response_appends _ r)
      ltac:(done) ub _ _ s o n); [eapply live_room; [exact Hlv1|lia]|done|].
    intros b Hlv2. apply wp_bind. eapply wp_modify_alike; [exact Hlv2|eauto with sharegres|].
    intros Hlv3. apply wp_ret. by apply HQ.
  - rewrite Es. apply wp_bind. apply (emits_send_new m0 H P L 32 _ _ (write_copy_response_appends _ r)
      ltac:(done) ub _ _ s o n); [eapply live_room; [exact Hlv1|lia]|done|].
    intros b Hlv2. apply wp_bind. eapply wp_modify_alike; [exact Hlv2|eauto with sharegres|].
    intros Hlv3. apply wp_ret. by apply HQ.
  - apply Forall_cons in Hwf as [Hr Hwf]. rewrite length_app in Hlv1.
    assert (∀ m1 : M W (), emits m0 H P L m1 (result_wire header r) tt →
      wp ub (_ ← m1; result_loop fuel c (negb (header && negb (is_tuples r)))) Q
        (mkSt (PQgetResult w c).1 m (Some s))) as Hstep.
    { intros m1 Hm. apply wp_bind. eapply (Hm _ _ _ s o); [eapply live_room; [exact Hlv1|]|..].
      { instantiate (1 := n + Z.of_nat (length (results_wire (header && negb (is_tuples r)) rs)) +
          Z.of_nat (length (stop_wire e))). lia. }
      { lia. }
      intros b Hlv2. apply (IH fuel _ m _ (o ++ result_wire header r) n); [lia|done|done|done|done|].
      intros b' Hlv3. apply (HQ b'). by rewrite <- !app_assoc in *. }
    destruct (is_tuples r) eqn:Et; pose proof Et as Et'; unfold is_tuples in Et'.
    + rewrite andb_false_r in Hstep. specialize (Hstep _ (emits_tuples r header Hr Et)).
      apply wp_assoc in Hstep. rewrite negb_involutive.
      destruct (PQresultStatus r) eqn:Es; done.
    + rewrite andb_true_r in Hstep. unfold result_wire in Hstep.
      destruct (PQresultStatus r) eqn:Es; try done.
      * apply (wp_skip _ tt (λ _, _)), Hstep, emits_ret.
      * apply Hstep, emits_complete.
      * apply (wp_skip _ tt (λ _, _)), Hstep, emits_ret.
      * apply (wp_skip _ tt (λ _, _)), Hstep, emits_ret.
      * apply Hstep, emits_send_new; [apply write_error_result_appends|done].
Qed.

(** ** ReadyForQuery and the release of the connection *)
Definition forget s : ClientSession := set_backend_shard None (set_backend_conn None s).
Definition releases (t : PGTransactionStatusType) s : bool :=
  match t, backend_shard s with PQTRANS_IDLE, Some _ => true | _, _ => false end.
Definition after_query (t : PGTransactionStatusType) s : ClientSession :=
  if releases t s then forget s else s.

Lemma sess_wf_forget s : sess_wf s → sess_wf (forget s).
Proof. by intros [? []]. Qed.
Lemma held_forget s : held (forget s) = scatter_held s.
Proof. done. Qed.
Lemma wp_forget_backend ub c Q st s o n :
  live st s o n → backend_conn s = Some c →
  (∀ w' m', live (mkSt w' m' (Some (forget s))) (forget s) o n →
     Q tt (mkSt w' m' (Some (forget s)))) →
  wp ub (_ ← drop_backend c; modify (λ s, set_backend_shard None (set_backend_conn None s))) Q st.
Proof.
  intros Hlv Hc HQ. pose proof (live_holding _ _ _ _ _ _ _ _ Hlv) as Hh.
  destruct Hlv as [_ Hwf _ _ Hg (l & Hl & Hp & Hn & Ho)].
  apply wp_bind. eapply (wp_drop_backend _ _ _ ub c _ st s (scatter_held s) []).
  { unfold held, conn_held, priv in Hh. rewrite Hc in Hh. by destruct (backend_shard s). }
  intros w' m' [_ Hm Hr] [Hg' Hfd]. eapply wp_modify; [done|]. apply HQ.
  split; [done|by apply sess_wf_forget|done|done|simpl; by rewrite Hg'|]. exists l. simpl. by rewrite Hfd.
Qed.
Lemma wp_ready_and_release ub c Q st s o n :
  live st s o (n + 6) → backend_conn s = Some c → 0 ≤ n →
  let t := PQtransactionStatus (st_world st) c in
  (∀ w' m' b, let s' := after_query t (set_send_buf b s) in
     live (mkSt w' m' (Some s')) s' (o ++ ready_for_query (txn_byte t)) n →
     Q tt (mkSt w' m' (Some s'))) →
  wp ub (ready_and_release c) Q st.
Proof.
  intros Hlv Hc Hn t HQ. unfold ready_and_release. apply wp_bind.
  eapply wp_pq_live; [exact Hlv|by apply backend_in|done|]. intros Hlv1.
  cbn [fst snd st_world st_map st_session] in *. fold t.
  apply wp_bind. apply (emits_ready m0 H P L (txn_byte t) ub _ _ s o n); [exact Hlv1|done|].
  cbn [st_world st_map]. intros b Hlv2. apply wp_bind. eapply wp_session_live; [exact Hlv2|].
  specialize (HQ (st_world st) (st_map st) b) as HQ0. unfold after_query, releases in HQ, HQ0.
  cbn [backend_shard set_send_buf] in *.
  destruct t; try (apply wp_ret; by apply HQ0).
  destruct (backend_shard s) eqn:Es; [|apply wp_ret; by apply HQ0].
  eapply wp_forget_backend; [exact Hlv2|done|]. intros w' m' Hlv3. by apply HQ.
Qed.

(** ** COPY OUT *)
Inductive copy_drains (c : PGconn) : W → list bytes → copy_result → W → Prop :=
| copy_drain_end w r :
    (PQgetCopyData w c).2 = r → row_of r = None → copy_drains c w [] r (PQgetCopyData w c).1
| copy_drain_row w d ds r w' :
    (PQgetCopyData w c).2 = CopyRow d → copy_drains c (PQgetCopyData w c).1 ds r w' →
    copy_drains c w (d :: ds) r w'.
Lemma copy_drains_total c w : ∃ ds r w', copy_drains c w ds r w'.
Proof.
  remember (pq_copy_pending w c) as n eqn:E. revert w E.
  induction n as [n IH] using lt_wf_ind. intros w ->.
  destruct (PQgetCopyData w c).2 as [d| | |] eqn:Er; [|by eauto using copy_drain_end..].
  pose proof (getCopyData_pending w c d Er).
  destruct (IH (pq_copy_pending (PQgetCopyData w c).1 c)) with (w := (PQgetCopyData w c).1)
    as (ds & r & w' & Hd); [lia|done|]. eauto using copy_drain_row.
Qed.
Definition copy_wire (ds : list bytes) : bytes := concat (map (frame MSG_COPY_DATA) ds).
Lemma copy_drains_size c w ds r w' :
  copy_drains c w ds r w' →
  (length (copy_wire ds) ≤ pq_copy_pending w c)%nat ∧ (length ds ≤ pq_copy_pending w c)%nat ∧
  Forall (λ d, Z.of_nat (length d) ≤ 2 ^ 48) ds ∧ row_of r = None ∧ quiet w w'.
Proof.
  induction 1 as [w r Er Hn|w d ds r w' Er Hd (Hs & Hl & Hf & Hn & Hq)].
  - split_and!; [cbn; lia|cbn; lia|constructor|done|apply quiet_copy_row..].
  - pose proof (getCopyData_pending w c d Er). pose proof (copy_pending_size w c).
    unfold copy_wire in *. cbn [map concat length]. rewrite length_app, length_frame.
    split_and!; [lia|lia|constructor; [lia|done]|done|].
    eapply quiet_trans; [apply quiet_copy_row|done].
Qed.
Lemma copy_data_appends d :
  appends (λ b, b ← msgbuf_put_byte b MSG_COPY_DATA;
                b ← msgbuf_put_int32 b (i32 (Z.of_nat (length d) + 4)); msgbuf_put_bytes b d)
    (frame MSG_COPY_DATA d).
Proof.
  unfold frame. rewrite <- (be_encode_i32 (4 + _)), (Z.add_comm 4).
  change (MSG_COPY_DATA :: ?x ++ ?y) with ([MSG_COPY_DATA] ++ (x ++ y)).
  apply appends_seq; [eauto with sharegres|]. apply appends_seq; eauto with sharegres.
Qed.
Lemma wp_copy_out_loop ub Q c w ds r w' :
  copy_drains c w ds r w' →
  ∀ fuel m s o n,
  (length ds < fuel)%nat → Forall (λ d, Z.of_nat (length d) ≤ 2 ^ 48) ds →
  c ∈ (held s).*2 ++ priv s → 0 ≤ n →
  live (mkSt w m (Some s)) s o (n + Z.of_nat (length (copy_wire ds))) →
  (∀ b, live (mkSt w' m (Some (set_send_buf b s))) (set_send_buf b s) (o ++ copy_wire ds) n →
    Q r (mkSt w' m (Some (set_send_buf b s)))) →
  wp ub (copy_out_loop fuel c) Q (mkSt w m (Some s)).
Proof.
  induction 1 as [w r Er Hr|w d ds r w' Er Hd IH]; intros [|fuel] m s o n Hf Hwf Hc Hn Hlv HQ;
    try (cbn [length] in Hf; lia); cbn [copy_out_loop]; apply wp_bind; eapply wp_pq_live;
    eauto with sharegres; intros Hlv1; cbn [st_world st_map st_session] in *; rewrite Er.
  - specialize (HQ (send_buf s)). rewrite set_send_buf_id in HQ.
    assert (Q r (mkSt (PQgetCopyData w c).1 m (Some s))) as HQ'.
    { apply HQ. cbn [copy_wire map concat length] in *. rewrite app_nil_r.
      eapply live_room; [exact Hlv1|lia]. }
    by destruct r.
  - apply Forall_cons in Hwf as [Hw Hwf]. unfold copy_wire in *. cbn [map concat] in *.
    rewrite length_app in Hlv1. apply wp_bind.
    apply (emits_send_new m0 H P L (Z.of_nat (length d) + 8) _ _ (copy_data_appends d) ltac:(lia) ub _ _ s o
      (n + Z.of_nat (length (concat (map (frame MSG_COPY_DATA) ds)))));
      [eapply live_room; [exact Hlv1|lia]|lia|].
    intros b Hlv2. eapply (IH fuel m _ (o ++ frame MSG_COPY_DATA d) n); [cbn [length] in Hf; lia|done..|].
    intros b' Hlv3. apply (HQ b'). by rewrite <- app_assoc in Hlv3.
Qed.

(** What [copy_out_read] sends after the rows [ds] and how it leaves the session. *)
Definition final_wire (o : option PGresult) : bytes :=
  match o with
  | Some r => if decide (PQresultStatus r = PGRES_COMMAND_OK) then command_complete (PQcmdStatus r) else []
  | None => []
  end.
Lemma emits_final (x : option PGresult) :
  emits m0 H P L
    (match x with
     | Some r =>
       if decide (PQresultStatus r = PGRES_COMMAND_OK) then
         send_new (W := W) 64 (λ b, msg_write_command_complete b (PQcmdStatus r))
       else mret tt
     | None => mret tt
     end) (final_wire x) tt.
Proof.
  destruct x as [r|]; simpl; [|apply emits_ret]. case_decide; [apply emits_complete|apply emits_ret].
Qed.
Lemma copy_done_appends :
  appends (λ b, b ← msgbuf_put_byte b MSG_COPY_DONE; msgbuf_put_int32 b 4) (frame MSG_COPY_DONE []).
Proof.
  change (frame MSG_COPY_DONE []) with ([MSG_COPY_DONE] ++ be_encode 4 4).
  apply appends_seq; eauto with sharegres.
Qed.
Lemma wp_copy_out_read ub Q c ds r w' st s o n :
  copy_drains c (st_world st) ds r w' → backend_conn s = Some c → 0 ≤ n →
  live st s o (n + 2 ^ 49 + 11) →
  (r ≠ CopyEnd → ∀ b, live (mkSt w' (st_map st) (Some (set_send_buf b s))) (set_send_buf b s)
     (o ++ copy_wire ds) n → Q tt (mkSt w' (st_map st) (Some (set_send_buf b s)))) →
  (r = CopyEnd → ∀ w'' m' b,
     let t := PQtransactionStatus (PQgetResult w' c).1 c in
     let s' := set_state SESSION_STATE_READY (after_query t (set_send_buf b s)) in
     live (mkSt w'' m' (Some s')) s'
       (o ++ copy_wire ds ++ frame MSG_COPY_DONE [] ++ final_wire (PQgetResult w' c).2 ++
        ready_for_query (txn_byte t)) n → Q tt (mkSt w'' m' (Some s'))) →
  wp ub (copy_out_read c) Q st.
Proof.
  intros Hd Hc Hn Hlv HN HE. destruct (copy_drains_size _ _ _ _ _ Hd) as (Hs & Hl & Hf & Hr & Hq).
  pose proof (copy_pending_size (st_world st) c) as Hsz. pose proof (backend_in s c Hc) as Hin.
  unfold copy_out_read. apply wp_bind. eapply wp_pq_live; [exact Hlv|done|done|]. intros Hlv1.
  cbn [fst snd st_world st_map st_session] in *. apply wp_bind.
  rewrite (lv_session _ _ _ _ _ _ _ _ Hlv) in *.
  apply (wp_copy_out_loop ub _ c _ ds r w' Hd _ _ s o (n + 2 ^ 48 + 11)); [lia|done|done|lia| |].
  { eapply live_room; [exact Hlv1|lia]. }
  intros b Hlv2.
  destruct r; try done; try (apply wp_ret; apply HN; [done|eapply live_room; [exact Hlv2|lia]]).
  specialize (HE eq_refl). apply wp_bind.
  apply (emits_send_new m0 H P L 8 _ (frame MSG_COPY_DONE []) copy_done_appends ltac:(done) ub _ _
    (set_send_buf b s) (o ++ copy_wire ds) (n + 2 ^ 48 + 6)); [eapply live_room; [exact Hlv2|rewrite length_frame; cbn [length]; lia]|lia|].
  intros b2 Hlv3. apply wp_bind. eapply wp_pq_live; [exact Hlv3|done|apply quiet_result|].
  cbn [fst snd st_world st_map st_session] in *. intros Hlv4.
  assert (Z.of_nat (length (final_wire (PQgetResult w' c).2)) ≤ 2 ^ 48) as Hfin.
  { unfold final_wire. destruct (PQgetResult w' c).2 as [res|] eqn:Er; [|cbn; lia].
    pose proof (getResult_size w' c res Er) as Hrs. case_decide as Es; [|cbn; lia].
    pose proof (length_result_wire true res) as Hw. unfold result_wire in Hw. rewrite Es in Hw. lia. }
  apply wp_bind. eapply (emits_final (PQgetResult w' c).2 ub _ _ _ _ (n + 6));
    [eapply live_room; [exact Hlv4|lia]|lia|].
  intros b3 Hlv5. apply wp_bind. eapply wp_ready_and_release; [exact Hlv5|done|done|].
  cbn [st_world]. intros w'' m' b4 Hlv6. eapply wp_modify_alike; [exact Hlv6|eauto with sharegres|].
  intros Hlv7. apply HE. by rewrite <- !app_assoc in Hlv7.
Qed.

(** ** The end of a callback *)

(** The session is gone and has given everything back. *)
Definition gone st : Prop :=
  st_session st = None ∧ map_like m0 (st_map st) ∧
  resources (st_world st) (shards (st_map st)) H P ∧ pq_log (st_world st) = L.
(** Everything for the client is sent and the session waits for its next message, or it
    waits for room in the socket. *)
Definition flushed st s o : Prop :=
  (sock_sent (st_world st) (client_fd s) = o ∧
   waits_for session_on_client_readable_cb EPOLLIN (ev_handler s)) ∨
  (waits_for session_on_client_writable_cb EPOLLOUT (ev_handler s) ∧
   ∃ u, sock_sent (st_world st) (client_fd s) ++ u = o ∧
     refused (client_fd s) SendAgain u (st_world st)).
(** The last [send] to the client has failed. *)
Definition client_lost st s : Prop := ∃ u, refused (client_fd s) SendError u (st_world st).

Lemma wp_destroy_gone ub (Q : () → St W → Prop) st s o n :
  live st s o n → (∀ st', gone st' → Q tt st') → wp ub session_destroy Q st.
Proof.
  intros Hlv HQ. eapply wp_destroy; [exact Hlv|]. intros w' m' Hm Hr [Hl _]. apply HQ.
  split_and!; try done. simpl. rewrite Hl. apply (lv_log _ _ _ _ _ _ _ _ Hlv).
Qed.
Lemma wp_flush ub Q st s o n :
  live st s o n → (∀ st', gone st' → client_lost st' s → Q tt st') →
  (∀ w' b pos ev, let s' := sent_state b pos ev s in
     let st' := mkSt w' (st_map st) (Some s') in
     live st' s' o n → flushed st' s' o → Q tt st') →
  wp ub flush_and_return Q st.
Proof.
  intros Hlv HG HQ. apply wp_bind. eapply wp_send; [exact Hlv|..].
  - intros w' b pos ev s' Hlv' _ Hw. simpl. apply wp_ret. by apply HQ.
  - intros w' b pos ev s' Hlv' (u & w0 & Hu & E & Hun). simpl. eapply wp_destroy; [exact Hlv'|].
    intros w2 m' Hm Hr Hun2. pose proof (lv_log _ _ _ _ _ _ _ _ Hlv') as Hlg. simpl in *. apply HG.
    + split_and!; try done. simpl. by rewrite (proj1 Hun2).
    + exists u, w0. split_and!; [done|done|]. by eapply unseen_trans.
Qed.
Lemma length_error_response sev code msg :
  (length (error_response sev code msg) ≤ 32 + length sev + length code + length msg)%nat.
Proof.
  unfold error_response, error_payload. rewrite length_frame.
  repeat (rewrite ?length_app, ?length_cstr; cbn [length]). lia.
Qed.
Lemma wp_backend_lost ub Q st s o n msg :
  live st s o n → (length msg ≤ 64)%nat → 128 ≤ n →
  (∀ st', gone st' → Q tt st') → wp ub (backend_lost msg) Q st.
Proof.
  intros Hlv Hm Hn HQ. apply wp_bind.
  pose proof (length_error_response (bs "FATAL") (bs "08006") msg) as Hl.
  change (length (bs "FATAL")) with 5%nat in Hl. change (length (bs "08006")) with 5%nat in Hl.
  apply (emits_error m0 H P L _ _ _ ub _ st s o 0); [eapply live_room; [exact Hlv|lia]|done|].
  intros b Hlv1. apply wp_bind. eapply wp_send; [exact Hlv1|..]; intros w' b' pos ev s' Hlv' **;
    by eapply wp_destroy_gone.
Qed.

(** ** [session_on_backend_readable] *)

(** The fields that the callbacks of backend connections leave alone. *)
Definition untouched s s' : Prop :=
  recv_buf s' = recv_buf s ∧ client_fd s' = client_fd s ∧ user s' = user s ∧
  database s' = database s ∧ pid s' = pid s ∧ secret_key s' = secret_key s ∧
  has_shard_map s' = has_shard_map s ∧ backend_conninfo s' = backend_conninfo s ∧
  txn_state s' = txn_state s.
(** [answers c w s out x busy rel]: for what [c] yields in [w], the client gets [out], the
    session goes to state [x] with [backend_busy = busy] and gives [c] back if [rel]. *)
Inductive answers (c : PGconn) (w : W) s : bytes → SessionState → bool → bool → Prop :=
| answer_done rs w' :
    drains c w rs StopNull w' →
    let t := PQtransactionStatus w' c in
    answers c w s (results_wire true rs ++ ready_for_query (txn_byte t)) SESSION_STATE_READY
      false (releases t s)
| answer_copy_in rs r w' :
    drains c w rs (StopCopyIn r) w' →
    answers c w s (results_wire true rs ++ copy_response MSG_COPY_IN_RESP r) SESSION_STATE_COPY_IN
      (backend_busy s) false
| answer_copy_out rs r w' ds e w'' :
    drains c w rs (StopCopyOut r) w' → copy_drains c w' ds e w'' → e ≠ CopyEnd →
    answers c w s (results_wire true rs ++ copy_response MSG_COPY_OUT_RESP r ++ copy_wire ds)
      SESSION_STATE_COPY_OUT (backend_busy s) false
| answer_copy_done rs r w' ds w'' :
    drains c w rs (StopCopyOut r) w' → copy_drains c w' ds CopyEnd w'' →
    let t := PQtransactionStatus (PQgetResult w'' c).1 c in
    answers c w s
      (results_wire true rs ++ copy_response MSG_COPY_OUT_RESP r ++ copy_wire ds ++
       frame MSG_COPY_DONE [] ++ final_wire (PQgetResult w'' c).2 ++ ready_for_query (txn_byte t))
      SESSION_STATE_READY (backend_busy s) (releases t s).
(** How the session [s] is left. *)
Definition leaves c s (x : SessionState) (busy rel : bool) s' : Prop :=
  untouched s s' ∧ state s' = x ∧ backend_busy s' = busy ∧
  backend_conn s' = (if rel then None else Some c) ∧
  backend_shard s' = (if rel then None else backend_shard s) ∧
  scatter s' = scatter s ∧ scatter_count s' = scatter_count s ∧ scatter_done s' = scatter_done s ∧
  scatter_header_sent s' = scatter_header_sent s.
Definition answered s o n c w st : Prop :=
  ∃ out x busy rel s', answers c w s out x busy rel ∧ live st s' (o ++ out) n ∧
    flushed st s' (o ++ out) ∧ leaves c s x busy rel s'.

Lemma leaves_done t c b s busy :
  backend_conn s = Some c →
  leaves c s SESSION_STATE_READY busy (releases t s)
    (set_state SESSION_STATE_READY (set_backend_busy busy (after_query t (set_send_buf b s)))).
Proof.
  intros Hc. unfold after_query. change (releases t (set_send_buf b s)) with (releases t s).
  by destruct (releases t s).
Qed.
Lemma wp_flush_answered ub Q c w st s s1 o n out x busy rel :
  answers c w s out x busy rel → live st s1 (o ++ out) n → leaves c s x busy rel s1 →
  (∀ st', gone st' → client_lost st' s → Q tt st') → (∀ st', answered s o n c w st' → Q tt st') →
  wp ub flush_and_return Q st.
Proof.
  intros Ha Hlv Hle HG HQ. eapply wp_flush; [exact Hlv| |].
  { intros st' Hg Hc. apply HG; [done|]. destruct Hle as ((_ & E & _) & _). unfold client_lost in *. by rewrite <- E. }
  intros w3 b3 pos ev s' st' Hlv' Hfl. apply HQ. exists out, x, busy, rel, s'. by split_and!.
Qed.

Definition room : Z := 2 ^ 51.
Lemma wp_results ub Q c st s o n :
  live st s o (n + room) → 0 ≤ n → backend_conn s = Some c →
  (∀ st', gone st' → client_lost st' s → Q tt st') → (∀ st', answered s o n c (st_world st) st' → Q tt st') →
  wp ub
    (pending ← pq_get c (λ w, pq_pending w c);
     e ← result_loop (S pending) c false;
     _ ← match e with
         | Drained =>
           _ ← ready_and_release c;
           modify (λ s, set_state SESSION_STATE_READY (set_backend_busy false s))
         | GotoCopyOut => copy_out_read c
         | GotoFlush => mret tt
         end;
     flush_and_return) Q st.
Proof.
  intros Hlv Hn Hc HG HQ. unfold room in Hlv. set (w := st_world st) in *.
  destruct (drains_total c w) as (rs & e & w' & Hd).
  destruct (drains_size _ _ _ _ _ Hd) as (Hs & Hl & Hf & He & _).
  pose proof (length_results_wire true rs) as Hlr. pose proof (pending_size w c) as Hps.
  pose proof (backend_in s c Hc) as Hin.
  apply wp_bind. eapply wp_pq_live; [exact Hlv|done|done|]. intros Hlv1.
  cbn [fst snd st_world st_map st_session] in *. fold w in Hlv1 |- *. apply wp_bind.
  rewrite (lv_session _ _ _ _ _ _ _ _ Hlv) in *.
  apply (wp_result_loop ub _ c w rs e w' Hd (S (pq_pending w c)) true (st_map st) s o (n + 2 ^ 50));
    [lia|done|done|lia|eapply live_room; [exact Hlv1|lia]|].
  intros b s1 Hlv2. apply wp_bind. destruct e as [|r|r]; cbn [exit_of stop_wire stop_state] in *.
  - rewrite app_nil_r in Hlv2. apply wp_bind.
    eapply (wp_ready_and_release _ c _ _ s1 _ n); [eapply live_room; [exact Hlv2|lia]|done|exact Hn|].
    intros w2 m2 b2 s2 Hlv3. cbn [st_world] in *. eapply wp_modify_alike; [exact Hlv3|eauto with sharegres|].
    intros Hlv4. rewrite <- app_assoc in Hlv4.
    eapply wp_flush_answered; [by apply (answer_done c w s rs w')|exact Hlv4| |exact HG|exact HQ].
    by apply (leaves_done _ c b2 s false).
  - apply wp_ret. eapply wp_flush_answered; [by apply (answer_copy_in c w s rs r w')| | |exact HG|exact HQ].
    + eapply live_room; [exact Hlv2|lia].
    + done.
  - destruct (copy_drains_total c w') as (ds & x & w2 & Hcd).
    eapply (wp_copy_out_read ub _ c ds x w2 _ s1 _ n); [exact Hcd|done|done|
      eapply live_room; [exact Hlv2|lia]|..].
    + intros Hx b2 Hlv3. rewrite <- !app_assoc in Hlv3.
      eapply wp_flush_answered; [by eapply (answer_copy_out c w s rs r w' ds x w2)|exact Hlv3
        |done|exact HG|exact HQ].
    + intros -> w3 m3 b2 t s2 Hlv3. rewrite <- !app_assoc in Hlv3.
      eapply wp_flush_answered; [by eapply (answer_copy_done c w s rs r w' ds w2)|exact Hlv3
        | |exact HG|exact HQ].
      unfold s2, after_query. fold t. change (releases t (set_send_buf b2 s1)) with (releases t s).
      by destruct (releases t s).
Qed.
(** There is nothing to do: no connection, or no complete result yet. *)
Definition waits (w : W) s (events : Z) : Prop :=
  has_error events = false ∧ ∀ c, backend_conn s = Some c →
  (PQisBusy (PQconsumeInput w c).1 c).2 = true.
(** The backend or the client is lost. *)
Definition lost (w : W) st' s (events : Z) : Prop :=
  has_error events = true ∨
  (∃ c, backend_conn s = Some c ∧ (PQconsumeInput w c).2 = false) ∨ client_lost st' s.
Lemma wp_backend_readable ub Q events st s o n :
  live st s o (n + room) → 0 ≤ n →
  (∀ st', gone st' → lost (st_world st) st' s events → Q tt st') →
  (∀ w', live (mkSt w' (st_map st) (Some s)) s o n → quiet (st_world st) w' →
     waits (st_world st) s events → Q tt (mkSt w' (st_map st) (Some s))) →
  (∀ c st', backend_conn s = Some c → has_error events = false →
     let w1 := (PQconsumeInput (st_world st) c).1 in
     (PQconsumeInput (st_world st) c).2 = true → (PQisBusy w1 c).2 = false →
     answered s o n c (PQisBusy w1 c).1 st' → Q tt st') →
  wp ub (session_on_backend_readable events) Q st.
Proof.
  intros Hlv Hn HG HB HQ. unfold session_on_backend_readable.
  destruct (has_error events) eqn:Eerr.
  { eapply wp_backend_lost; [exact Hlv|vm_compute; lia|unfold room; lia|].
    intros st' Hg. apply HG; [done|by left]. }
  apply wp_bind. eapply wp_session_live; [exact Hlv|].
  assert (live st s o n) as Hlv0 by (eapply live_room; [exact Hlv|unfold room; lia]).
  destruct (backend_conn s) as [c|] eqn:Hc.
  2: { apply wp_ret. destruct st as [w m ss]. pose proof (lv_session _ _ _ _ _ _ _ _ Hlv) as Es.
       simpl in Es. subst ss. apply HB; [done|done|]. split; [done|]. intros c. by rewrite Hc. }
  pose proof (backend_in s c Hc) as Hin. specialize (HQ c). cbv zeta in HQ.
  apply wp_bind. eapply wp_pq_live; [exact Hlv|done|apply quiet_consume|]. intros Hlv1.
  destruct (PQconsumeInput (st_world st) c).2 eqn:Eok; cbn [negb].
  2: { eapply wp_backend_lost; [exact Hlv1|vm_compute; lia|unfold room; lia|].
       intros st' Hg. apply HG; [done|]. right. left. by exists c. }
  apply wp_bind. eapply wp_pq_live; [exact Hlv1|done|apply quiet_busy|].
  cbn [st_world st_map st_session]. intros Hlv2.
  destruct (PQisBusy (PQconsumeInput (st_world st) c).1 c).2 eqn:Eb.
  - apply wp_ret. rewrite (lv_session _ _ _ _ _ _ _ _ Hlv) in *. apply HB.
    + eapply live_room; [exact Hlv2|unfold room; lia].
    + eapply quiet_trans; [apply quiet_consume|apply quiet_busy].
    + split; [done|]. intros c'. rewrite Hc. by intros [= <-].
  - eapply wp_results; [exact Hlv2|done|exact Hc| |].
    { intros st' Hg Hl. apply HG; [done|by right; right]. } intros st' Ha. by apply HQ.
Qed.
End backend.

(** ** What a client gets for its query *)
Section claims.
Context {W : Type} {PQ : LibPQ W} {Os : OS W} {Laws : LibPQLaws W} {OLaws : OSLaws W}.

(** C11: The callback of a backend connection always returns.  If no complete result is
    there, the session stays as it is.  Otherwise all results that the backend has are
    turned into protocol messages behind what was already queued for the client, each
    once and in order; the session then is in the state that the results call for
    ([READY], or one of the COPY states), the messages are sent or wait for room in the
    socket, and the connection has gone back to its pool unless a transaction is open.
    The session ends, and gives every connection back, only if the backend or the client
    is lost. *)
Theorem results_reach_the_client m0 H P L events (st : St W) s o n :
  live m0 H P L st s o (n + room) → 0 ≤ n →
  ∃ u st', session_on_backend_readable events st = Ret (u, st') ∧
    ((gone m0 H P L st' ∧ lost (st_world st) st' s events) ∨
     (live m0 H P L st' s o n ∧ waits (st_world st) s events) ∨
     ∃ c, let w1 := (PQconsumeInput (st_world st) c).1 in
       backend_conn s = Some c ∧ has_error events = false ∧
       (PQconsumeInput (st_world st) c).2 = true ∧ (PQisBusy w1 c).2 = false ∧
       answered m0 H P L s o n c (PQisBusy w1 c).1 st').
Proof.
  intros Hlv Hn. apply wp_total. eapply wp_backend_readable; [exact Hlv|done|..].
  - by left.
  - intros w' Hlv' _ Hw. by right; left.
  - intros c st' Hc He w1 Hok Hb Ha. right; right. exists c. by split_and!.
Qed.
End claims.

(** A session with a connection of its own, on which a result waits. *)
Definition sample_result : PGresult :=
  mkPGresult PGRES_TUPLES_OK [mkPGfield (bs "id") 23 4 (-1)] [[Some (bs "42")]] (bs "SELECT 1")
    None None None None.
Definition sample_backend_world : SimWorld :=
  mkSimWorld {[1%positive := mkSimConn CONNECTION_OK PQTRANS_IDLE [sample_result] []]}
    true (λ _, []) [] false ∅ [].
Definition sample_backend : ClientSession := set_backend_conn (Some 1%positive) sample_session.
Definition no_shards : ShardMap := mkShardMap [] [] 0.
Definition sample_backend_st : St SimWorld := mkSt sample_backend_world no_shards (Some sample_backend).
Lemma sample_backend_live :
  live no_shards [] [] [] sample_backend_st sample_backend [] (2 ^ 62).
Proof.
  assert (resources sample_backend_world (shards no_shards) [] [1%positive]) as Hr.
  { exists []. split; [done|done|constructor|repeat constructor; set_solver|vm_compute; reflexivity]. }
  pose proof (fresh_live no_shards [] [1%positive] sample_backend_world no_shards 7 zero_handler
    4242 0 (Some (bs "host=d")) false (reflexivity _) Hr) as [_ [Hb Hs] ? ? ? ?].
  by split; [|split; [|destruct Hs]|..].
Qed.
Lemma results_reach_the_client_witness :
  ∃ u st', session_on_backend_readable 1 sample_backend_st = Ret (u, st') ∧
    answered no_shards [] [] [] sample_backend [] 0 1%positive sample_backend_world st'.
Proof.
  destruct (results_reach_the_client no_shards [] [] [] 1 sample_backend_st sample_backend [] 0)
    as (u & st' & E & HQ); [|done|exists u, st'; split; [exact E|]].
  - eapply live_room; [exact sample_backend_live|unfold room; lia].
  - destruct HQ as [[_ Hl]|[[_ Hw]|(c & Hc & _ & _ & _ & Ha)]].
    + destruct Hl as [Hl|[(c & [= <-] & Hl)|(d & w & _ & Hl & _)]]; [done|done|].
      simpl in Hl. by destruct (sim_blocked w).
    + destruct Hw as [_ Hw]. by specialize (Hw _ eq_refl).
    + injection Hc as <-. exact Ha.
Defined.
