(* ===== verification/ScatterSpec.v ===== *)
(** * What the callback of a scatter query's connections does

    [session_on_scatter_readable] of [session.c]: the rows of every shard go to the
    client in the order of the events, the row description once; when the last shard is
    done the client gets CommandComplete and ReadyForQuery and every connection is given
    back. *)
From S2P Require Import Prelude Memory LibPQ Pool ShardMap Resources Message Event Session Wp.
From S2P Require Import SessionSpec Backend Wire BackendSpec.
#[local] Set Warnings "-clear-no-such-hyp".
#[local] Open Scope Z_scope.
#[local] Arguments be_encode : simpl never.

(** What the client gets from the results of one shard. *)
Fixpoint scatter_wire (header : bool) (rs : list PGresult) : bytes :=
  match rs with
  | [] => []
  | r :: rs =>
    (if is_tuples r then rows_wire header r else []) ++
    scatter_wire (header && negb (is_tuples r)) rs
  end.
Lemma length_scatter_wire header rs :
  (length (scatter_wire header rs) ≤ sum_list_with result_size rs)%nat.
Proof.
  revert header. induction rs as [|r rs IH]; intros header; [done|].
  cbn [scatter_wire sum_list_with]. rewrite length_app.
  pose proof (length_rows_wire header r). specialize (IH (header && negb (is_tuples r))).
  unfold result_size in *. destruct (is_tuples r); cbn [length]; lia.
Qed.
(** What ends a scatter query. *)
Definition scatter_end (header_sent : bool) : bytes :=
  command_complete (if header_sent then bs "SELECT" else bs "SELECT 0") ++ ready_for_query TXN_IDLE.

Section scatter.
Context {W : Type} {PQ : LibPQ W} {Os : OS W} {Laws : LibPQLaws W} {OLaws : OSLaws W}.
Context (m0 : ShardMap) (H : list (nat * PGconn)) (P : list PGconn) (L : list (PGconn * bytes)).
Implicit Types (st : St W) (s : ClientSession) (o : bytes) (n : Z) (ub : Prop).
#[local] Abbreviation live := (live m0 H P L).
#[local] Abbreviation gone := (gone m0 H P L).

(** ** The results of a shard *)
Lemma scatter_case r (m1 m2 : M W ()) :
  match PQresultStatus r with PGRES_TUPLES_OK | PGRES_SINGLE_TUPLE => m1 | _ => m2 end =
  if is_tuples r then m1 else m2.
Proof. unfold is_tuples. by destruct (PQresultStatus r). Qed.
Lemma wp_scatter_loop ub Q c w rs w' :
  drains c w rs StopNull w' →
  ∀ fuel m s o n,
  (length rs < fuel)%nat → Forall result_wf rs → c ∈ (held s).*2 ++ priv s → 0 ≤ n →
  live (mkSt w m (Some s)) s o
    (n + Z.of_nat (length (scatter_wire (negb (scatter_header_sent s)) rs))) →
  (∀ b, let s' := set_scatter_header_sent (scatter_header_sent s || existsb is_tuples rs)
                    (set_send_buf b s) in
    live (mkSt w' m (Some s')) s' (o ++ scatter_wire (negb (scatter_header_sent s)) rs) n →
    Q tt (mkSt w' m (Some s'))) →
  wp ub (scatter_loop fuel c) Q (mkSt w m (Some s)).
Proof.
  remember StopNull as e eqn:Ee. intros Hd.
  induction Hd as [w Er|w r Er Es|w r Er Es|w r rs e w' Er Ec Hd IH]; try done;
    intros [|fuel] m s o n Hf Hwf Hc Hn Hlv HQ; try (cbn [length] in Hf; lia);
    cbn [scatter_loop]; apply wp_bind; eapply wp_pq_live; eauto with sharegres;
    intros Hlv1; cbn [st_world st_map st_session] in *; rewrite Er;
    cbn [scatter_wire length existsb] in *.
  - apply wp_ret. specialize (HQ (send_buf s)). rewrite orb_false_r in HQ.
    assert (set_scatter_header_sent (scatter_header_sent s) (set_send_buf (send_buf s) s) = s) as E
      by (by destruct s). rewrite E in HQ. apply HQ. rewrite app_nil_r.
    eapply live_room; [exact Hlv1|lia].
  - apply Forall_cons in Hwf as [Hr Hwf]. rewrite length_app in Hlv1. apply wp_bind.
    rewrite scatter_case. destruct (is_tuples r).
    + rewrite andb_false_r in *. cbn [orb negb] in *. apply wp_bind.
      eapply wp_session_live; [exact Hlv1|]. apply wp_bind.
      eapply (emits_forward m0 H P L r _ Hr ub _ _ s o (n + Z.of_nat (length (scatter_wire false rs))));
        [eapply live_room; [exact Hlv1|lia]|lia|].
      intros b Hlv2. eapply wp_modify_alike; [exact Hlv2|eauto with sharegres|]. intros Hlv3.
      eapply (IH Ee fuel m _ _ n); [lia|done|done|done|exact Hlv3|].
      intros b' Hlv4. specialize (HQ b'). rewrite orb_true_r in HQ. apply HQ.
      rewrite app_assoc. exact Hlv4.
    + rewrite andb_true_r in *. cbn [orb app length] in *. apply wp_ret.
      eapply (IH Ee fuel m s o n); [lia|done|done|done|exact Hlv1|exact HQ].
Qed.

(** ** The end of a shard *)
Lemma omap_alter {A B} (f : A → option B) (g : A → A) i (l : list A) :
  (∀ x, f (g x) = f x) → omap f (alter g i l) = omap f l.
Proof.
  intros Hg. destruct (l !! i) as [x|] eqn:E; [|by rewrite alter_None].
  rewrite (alter_Some _ _ _ _ E). rewrite <- (take_drop_middle l i x E) at 2.
  rewrite (insert_take_drop l i (g x)) by (by eapply lookup_lt_Some).
  rewrite !omap_app. simpl. by rewrite Hg.
Qed.
Definition marked i s : ClientSession :=
  set_scatter_done (S (scatter_done s)) (set_scatter (alter (set_sc_done true) i (scatter s)) s).
Lemma live_marked st s o n i :
  live st s o n → live (mkSt (st_world st) (st_map st) (Some (marked i s))) (marked i s) o n.
Proof.
  intros Hlv. eapply live_set; [exact Hlv| | |done..].
  - destruct (lv_wf _ _ _ _ _ _ _ _ Hlv) as [Hb [H1 H2 H3]]. split; [done|].
    split; simpl; [by rewrite length_alter|done|]. intros j sc c Hj Hc.
    destruct (scatter s !! i) as [x|] eqn:E.
    + rewrite (alter_Some _ _ _ _ E) in Hj. destruct (decide (j = i)) as [->|].
      * rewrite list_lookup_insert_eq in Hj by (by eapply lookup_lt_Some). simplify_eq.
        by apply (H3 i x c).
      * rewrite list_lookup_insert_ne in Hj by done. by eapply H3.
    + rewrite alter_None in Hj by done. by eapply H3.
  - unfold held. f_equal. by apply (omap_alter sc_held).
Qed.

(** How a session is left when shard [i] is done and others are not, and at the end. *)
Definition same_backend s s' : Prop :=
  backend_conn s' = backend_conn s ∧ backend_shard s' = backend_shard s ∧
  backend_busy s' = backend_busy s.
Definition shard_done i (rs : list PGresult) s s' : Prop :=
  untouched s s' ∧ same_backend s s' ∧ state s' = state s ∧
  scatter s' = alter (set_sc_done true) i (scatter s) ∧ scatter_count s' = scatter_count s ∧
  scatter_done s' = S (scatter_done s) ∧
  scatter_header_sent s' = (scatter_header_sent s || existsb is_tuples rs) ∧
  ev_handler s' = ev_handler s.
Definition all_done s s' : Prop :=
  untouched s s' ∧ same_backend s s' ∧ state s' = SESSION_STATE_READY ∧ scatter_free s' ∧
  scatter_count s' = 0%nat ∧ scatter_done s' = 0%nat ∧ scatter_header_sent s' = false.

Lemma all_done_end b b1 b2 pos ev l s :
  Forall (λ sc, sc_conn sc = None) l →
  all_done s (sent_state b2 pos ev
    (set_state SESSION_STATE_READY (released l (set_send_buf b1 (set_send_buf b s))))).
Proof. destruct s. intros Hl. vm_compute. by repeat split. Qed.
Lemma wp_check_complete ub Q st s o n :
  live st s o (n + 64) → 0 ≤ n →
  ((scatter_done s < scatter_count s)%nat → live st s o n → Q tt st) →
  (∀ st', gone st' → client_lost st' s → Q tt st') →
  ((scatter_count s ≤ scatter_done s)%nat → ∀ st' s',
     live st' s' (o ++ scatter_end (scatter_header_sent s)) n →
     flushed st' s' (o ++ scatter_end (scatter_header_sent s)) → all_done s s' → Q tt st') →
  wp ub scatter_check_complete Q st.
Proof.
  intros Hlv Hn HN HG HQ. unfold scatter_check_complete. apply wp_bind.
  eapply wp_session_live; [exact Hlv|]. case_decide as Hd.
  2: { apply wp_ret. apply HN; [lia|]. eapply live_room; [exact Hlv|lia]. }
  specialize (HQ Hd). set (tag := if scatter_header_sent s then bs "SELECT" else bs "SELECT 0").
  assert (length tag ≤ 10)%nat as Ht by (unfold tag; destruct (scatter_header_sent s); vm_compute; lia).
  apply wp_bind. eapply (emits_complete m0 H P L tag ub _ _ s o (n + 6));
    [eapply live_room; [exact Hlv|rewrite length_complete; lia]|lia|].
  intros b Hlv1. apply wp_bind. eapply (emits_ready m0 H P L TXN_IDLE ub _ _ _ _ n);
    [exact Hlv1|lia|]. intros b1 Hlv2.
  apply wp_bind. eapply wp_release_scatter_live; [exact Hlv2|]. intros w' m' l Hlv3 Hfree.
  apply wp_bind. eapply wp_modify_alike; [exact Hlv3|eauto with sharegres|]. intros Hlv4.
  eapply wp_flush; [exact Hlv4|exact HG|]. rewrite <- app_assoc.
  intros w2 b2 pos ev s' st' Hlv5 Hfl. apply (HQ st' s'); [exact Hlv5|exact Hfl|by apply all_done_end].
Qed.

(** ** [session_on_scatter_readable] *)
Lemma scatter_in s i sc c sh :
  scatter s !! i = Some sc → sc_conn sc = Some c → sc_shard sc = Some sh →
  c ∈ (held s).*2 ++ priv s.
Proof.
  intros Hsc Hc Hsh. apply elem_of_app. left. apply list_elem_of_fmap. exists (sh, c). split; [done|].
  apply elem_of_app. right. apply list_elem_of_omap. exists sc.
  split; [by eapply list_elem_of_lookup_2|]. unfold sc_held. by rewrite Hc, Hsh.
Qed.

(** What shard [c] yields; nothing when the connection is lost. *)
Definition shard_yields (events : Z) (c : PGconn) (w : W) (rs : list PGresult) : Prop :=
  let w1 := (PQconsumeInput w c).1 in
  if has_error events || negb (PQconsumeInput w c).2 then rs = []
  else (PQisBusy w1 c).2 = false ∧ ∃ w', drains c (PQisBusy w1 c).1 rs StopNull w'.
Definition shard_waits (events : Z) (c : PGconn) (w : W) : Prop :=
  let w1 := (PQconsumeInput w c).1 in
  has_error events = false ∧ (PQconsumeInput w c).2 = true ∧ (PQisBusy w1 c).2 = true.
(** No COPY is going on at the connection. *)
Definition no_copy (c : PGconn) (w : W) : Prop :=
  let w1 := (PQconsumeInput w c).1 in
  ∀ rs e w', drains c (PQisBusy w1 c).1 rs e w' → e = StopNull.

Lemma wp_shard_done ub Q i rs st s s1 o n :
  live st s1 o (n + 64) → 0 ≤ n →
  shard_done i rs s (marked i s1) →
  (∀ st', gone st' → client_lost st' s → Q tt st') →
  (∀ st' s', (S (scatter_done s) < scatter_count s)%nat → shard_done i rs s s' →
     live st' s' o n → Q tt st') →
  (∀ st' s', (scatter_count s ≤ S (scatter_done s))%nat → all_done s s' →
     let out := scatter_end (scatter_header_sent s || existsb is_tuples rs) in
     live st' s' (o ++ out) n → flushed st' s' (o ++ out) → Q tt st') →
  wp ub (_ ← scatter_mark_done i; scatter_check_complete) Q st.
Proof.
  intros Hlv Hn Hsd HG HP HC. apply wp_bind. eapply wp_modify; [apply (lv_session _ _ _ _ _ _ _ _ Hlv)|].
  fold (marked i s1). apply (live_marked _ _ _ _ i) in Hlv. pose proof Hsd as Hsd'.
  destruct Hsd as (Hu & Hsb & Hst & Hsc & Hcnt & Hdn & Hh & _).
  eapply (wp_check_complete _ _ _ (marked i s1)); [exact Hlv|done|..]; rewrite ?Hcnt, ?Hdn, ?Hh.
  - intros Hlt Hlv'. by eapply HP.
  - intros st' Hg Hl. apply HG; [done|]. destruct Hu as (_ & E & _). unfold client_lost in *. by rewrite <- E.
  - intros Hle st' s' Hlv' Hfl (Hu' & Hsb' & Hall). eapply HC; [done| |done|done].
    unfold all_done, untouched, same_backend in *. intuition congruence.
Qed.
Lemma wp_scatter_readable ub Q i events st s o n sc c :
  live st s o (n + room) → 0 ≤ n → scatter s !! i = Some sc → sc_conn sc = Some c →
  no_copy c (st_world st) →
  (∀ st', gone st' → client_lost st' s → Q tt st') →
  (∀ w', quiet (st_world st) w' → live (mkSt w' (st_map st) (Some s)) s o n →
     shard_waits events c (st_world st) → Q tt (mkSt w' (st_map st) (Some s))) →
  (∀ rs st' s', shard_yields events c (st_world st) rs →
     (S (scatter_done s) < scatter_count s)%nat → shard_done i rs s s' →
     live st' s' (o ++ scatter_wire (negb (scatter_header_sent s)) rs) n → Q tt st') →
  (∀ rs st' s', shard_yields events c (st_world st) rs →
     (scatter_count s ≤ S (scatter_done s))%nat → all_done s s' →
     let out := scatter_wire (negb (scatter_header_sent s)) rs ++
                scatter_end (scatter_header_sent s || existsb is_tuples rs) in
     live st' s' (o ++ out) n → flushed st' s' (o ++ out) → Q tt st') →
  wp ub (session_on_scatter_readable i events) Q st.
Proof.
  intros Hlv Hn Hsc Hc Hnc HG HB HP HC. unfold room in Hlv.
  destruct (wf_entries _ (wf_scatter _ (lv_wf _ _ _ _ _ _ _ _ Hlv)) _ _ _ Hsc Hc) as (_ & [sh Hsh] & _).
  unfold session_on_scatter_readable. apply wp_bind. eapply wp_session_live; [exact Hlv|].
  apply wp_bind. eapply wp_lift; [by rewrite Hsc|].
  assert (∀ st1, live st1 s o (n + 2 ^ 51) →
    shard_yields events c (st_world st) [] →
    wp ub (_ ← lift (deref_opt (sc_shard sc)); _ ← scatter_mark_done i; scatter_check_complete) Q st1)
    as Hfail.
  { intros st1 Hlv1 Hy. apply wp_bind. eapply wp_lift; [by rewrite Hsh|].
    eapply (wp_shard_done _ _ i [] _ s s o n); [eapply live_room; [exact Hlv1|lia]|done| |exact HG|..].
    - unfold shard_done. cbn [existsb]. by rewrite orb_false_r.
    - intros st' s' ? ? ?. eapply HP; [done..|]. cbn [scatter_wire]. by rewrite app_nil_r.
    - intros st' s' ? ? out ? ?. by eapply HC. }
  unfold shard_yields, shard_waits in *. destruct (has_error events); cbn [orb] in *; [by apply Hfail|].
  rewrite Hc. pose proof (scatter_in _ _ _ _ _ Hsc Hc Hsh) as Hin.
  apply wp_bind. eapply wp_pq_live; [exact Hlv|done|apply quiet_consume|]. intros Hlv1.
  destruct (PQconsumeInput (st_world st) c).2; cbn [negb] in *; [|by apply Hfail].
  apply wp_bind. eapply wp_pq_live; [exact Hlv1|done|apply quiet_busy|].
  cbn [st_world st_map st_session]. intros Hlv2. rewrite (lv_session _ _ _ _ _ _ _ _ Hlv) in *.
  destruct (PQisBusy (PQconsumeInput (st_world st) c).1 c).2 eqn:Eb.
  { apply wp_ret. apply HB; [eapply quiet_trans; [apply quiet_consume|apply quiet_busy]|..].
    - eapply live_room; [exact Hlv2|lia].
    - done. }
  set (w2 := (PQisBusy (PQconsumeInput (st_world st) c).1 c).1) in *.
  destruct (drains_total c w2) as (rs & e & w3 & Hd). pose proof (Hnc _ _ _ Hd) as ->.
  destruct (drains_size _ _ _ _ _ Hd) as (Hs & Hl & Hf & He & _).
  pose proof (length_scatter_wire (negb (scatter_header_sent s)) rs) as Hlr.
  pose proof (pending_size w2 c) as Hps.
  apply wp_bind. eapply wp_pq_live; [exact Hlv2|done|done|]. intros Hlv3.
  cbn [fst snd st_world st_map st_session] in *. apply wp_bind.
  eapply (wp_scatter_loop ub _ c w2 rs w3 Hd _ _ s o (n + 2 ^ 50)); [fold w2; lia|done|done|lia| |].
  { eapply live_room; [exact Hlv3|lia]. }
  intros b s1 Hlv4. eapply (wp_shard_done _ _ i rs _ s s1 _ n); [eapply live_room; [exact Hlv4|lia]|done|done|exact HG|..].
  - intros st' s' ? ? ?. eapply HP; [by eauto|done..].
  - intros st' s' ? ? out ? ?. eapply HC; [by eauto|done|done|..]; by rewrite app_assoc.
Qed.
End scatter.

(** ** A scatter query as a whole *)
Lemma scatter_wire_app hdr rs rs' :
  scatter_wire hdr (rs ++ rs') =
  scatter_wire hdr rs ++ scatter_wire (hdr && negb (existsb is_tuples rs)) rs'.
Proof.
  revert hdr. induction rs as [|r rs IH]; intros hdr; cbn [scatter_wire app existsb].
  - by rewrite andb_true_r.
  - rewrite IH, <- app_assoc. by rewrite negb_orb, andb_assoc.
Qed.
Section query.
Context {W : Type} {PQ : LibPQ W} {Os : OS W} {Laws : LibPQLaws W} {OLaws : OSLaws W}.
Implicit Types (st : St W) (s : ClientSession).

Lemma shard_yields_det events c (w : W) rs rs' :
  shard_yields events c w rs → shard_yields events c w rs' → rs = rs'.
Proof.
  unfold shard_yields. destruct (_ || _); [by intros -> ->|].
  intros [_ [w1 H1]] [_ [w2 H2]]. by destruct (drains_det _ _ _ _ _ _ _ _ H1 H2).
Qed.
(** What may happen to the world and the shard map between two callbacks of a session:
    other sessions run, backends answer.  Nobody else writes to the client's socket, and
    the connections stay accounted for. *)
Definition meanwhile (m0 : ShardMap) st st' : Prop :=
  ∃ s H P, st_session st = Some s ∧ st_session st' = Some s ∧ map_like m0 (st_map st') ∧
    resources (st_world st') (shards (st_map st')) (held s ++ H) (priv s ++ P) ∧
    sock_sent (st_world st') (client_fd s) = sock_sent (st_world st) (client_fd s).
Lemma live_meanwhile m0 H P L st st' s o n :
  live m0 H P L st s o n → meanwhile m0 st st' →
  ∃ H' P', live m0 H' P' (pq_log (st_world st')) st' s o n.
Proof.
  intros [Hs Hwf _ _ _ (l & Hl & Hp & Hn & Ho)] (s' & H' & P' & Es & Hs' & Hm & Hr & Hsent).
  rewrite Hs in Es. injection Es as <-. exists H', P'. split; [done..|]. exists l. by rewrite Hsent.
Qed.
Lemma meanwhile_refl m0 H P L st s o n : live m0 H P L st s o n → meanwhile m0 st st.
Proof. intros [Hs _ Hm Hr _ _]. exists s, H, P. by split_and!. Qed.
(** The callbacks of the entries [js] run one after the other, and each finds the
    complete results of its shard; [rss] collects these. *)
Inductive shards_answer (m0 : ShardMap) : list nat → list (list PGresult) → St W → St W → Prop :=
| answer_nil st : shards_answer m0 [] [] st st
| answer_cons j js rs rss events st st0 s sc c u st1 st' :
    meanwhile m0 st st0 → st_session st0 = Some s → scatter s !! j = Some sc → sc_conn sc = Some c →
    no_copy c (st_world st0) → shard_yields events c (st_world st0) rs →
    session_on_scatter_readable j events st0 = Ret (u, st1) →
    shards_answer m0 js rss st1 st' → shards_answer m0 (j :: js) (rs :: rss) st st'.

Lemma wp_shard_answers m0 H P L Q j events st s sc c rs o n :
  live m0 H P L st s o (n + room) → 0 ≤ n → scatter s !! j = Some sc → sc_conn sc = Some c →
  no_copy c (st_world st) → shard_yields events c (st_world st) rs →
  (∀ st', gone m0 H P L st' → client_lost st' s → Q tt st') →
  (∀ st' s', (S (scatter_done s) < scatter_count s)%nat → shard_done j rs s s' →
     live m0 H P L st' s' (o ++ scatter_wire (negb (scatter_header_sent s)) rs) n → Q tt st') →
  (∀ st' s', (scatter_count s ≤ S (scatter_done s))%nat → all_done s s' →
     let out := scatter_wire (negb (scatter_header_sent s)) rs ++
                scatter_end (scatter_header_sent s || existsb is_tuples rs) in
     live m0 H P L st' s' (o ++ out) n → flushed st' s' (o ++ out) → Q tt st') →
  wp False (session_on_scatter_readable j events) Q st.
Proof.
  intros Hlv Hn Hsc Hc Hnc Hy HG HP HC.
  eapply wp_scatter_readable; [exact Hlv|done|done|done|done|exact HG|..].
  - intros w' _ _ (He & Hok & Hb). unfold shard_yields in Hy. rewrite He, Hok in Hy.
    destruct Hy as [Hb' _]. by rewrite Hb in Hb'.
  - intros rs' st' s' Hy'. rewrite <- (shard_yields_det _ _ _ _ _ Hy Hy'). apply HP.
  - intros rs' st' s' Hy'. rewrite <- (shard_yields_det _ _ _ _ _ Hy Hy'). apply HC.
Qed.

Lemma answers_complete m0 H P L js rss st st' s o n :
  shards_answer m0 js rss st st' →
  live m0 H P L st s o (n + room * Z.of_nat (length js)) → 0 ≤ n → js ≠ [] →
  (scatter_done s + length js)%nat = scatter_count s →
  let out := scatter_wire (negb (scatter_header_sent s)) (concat rss) ++
             scatter_end (scatter_header_sent s || existsb is_tuples (concat rss)) in
  ∃ H' P' L', (gone m0 H' P' L' st' ∧ client_lost st' s) ∨
  ∃ s', live m0 H' P' L' st' s' (o ++ out) n ∧ flushed st' s' (o ++ out) ∧ all_done s s'.
Proof.
  intros Ha. revert H P L s o.
  induction Ha as [st|j js rs rss events st st0 s sc c u st1 st' Hmw Hs Hsc Hc Hnc Hy E Ha IH];
    intros H0 P0 L0 s0 o Hlv Hn Hjs Hcnt; [done|].
  destruct (live_meanwhile _ _ _ _ _ _ _ _ _ Hlv Hmw) as (H & P & Hlv0).
  set (L := pq_log (st_world st0)) in *.
  pose proof (lv_session _ _ _ _ _ _ _ _ Hlv0) as E0. rewrite Hs in E0. injection E0 as <-.
  cbn [length concat] in *. cbv zeta. revert Ha IH. pattern st1.
  match goal with |- ?Q st1 => refine (wp_elim _ (λ _, Q) _ _ _ E _) end. clear E st1 u.
  eapply (wp_shard_answers m0 H P L _ j events st0 s sc c rs o (n + room * Z.of_nat (length js)));
    [eapply live_room; [exact Hlv0|lia]|unfold room; lia|done..| | |].
  - intros st1 Hg Hl Ha _. exists H, P, L.
    destruct Ha as [|? ? ? ? ? ? ? ? ? ? ? ? ? (s1 & _ & _ & Hs1 & _)]; [by left|].
    destruct Hg as [Hg _]. by rewrite Hs1 in Hg.
  - intros st1 s1 Hlt Hd Hlv1 Ha IH.
    destruct Hd as (Hu & Hsb & Hst & Hsc1 & Hcnt1 & Hdn1 & Hh1 & _).
    destruct (IH H P L s1 _ Hlv1) as (H2 & P2 & L2 & HQ); [done| |lia|exists H2, P2, L2].
    { intros ->. cbn [length] in *. lia. }
    destruct HQ as [[Hg Hl]|(s' & Hlv' & Hfl & Hu' & Hsb' & Hall)].
    + left. split; [done|]. destruct Hu as (_ & E & _). unfold client_lost in *. by rewrite <- E.
    + right. exists s'.
      rewrite Hh1, negb_orb, <- orb_assoc, <- existsb_app, <- (app_assoc o), (app_assoc (scatter_wire _ rs)),
        <- scatter_wire_app in Hlv', Hfl.
      split_and!; [done|done|]. unfold all_done, untouched, same_backend in *. intuition congruence.
  - intros st1 s1 Hle Hall out Hlv1 Hfl Ha _. assert (js = []) as -> by (destruct js; [done|cbn [length] in *; lia]).
    inversion Ha; subst. exists H, P, L. right. exists s1. cbn [concat]. rewrite app_nil_r.
    split_and!; [eapply live_room; [exact Hlv1|cbn; lia]|done|done].
Qed.

(** A scatter query is answered when every shard has answered.  Let the callbacks
    run once for each of the shards that are not done yet, in any order, each when the
    results of its shard are complete (a lost connection counts as no result), and let the
    other sessions and the backends do what they like in between.  Then the client gets
    the rows of all shards in that order under one row description, one CommandComplete
    and one ReadyForQuery, and nothing else; the session is [READY] again and has given
    all connections of the query back. *)
Theorem scatter_query_answered m0 H P L js rss st st' s o n :
  live m0 H P L st s o (n + room * Z.of_nat (length js)) → 0 ≤ n → js ≠ [] →
  (scatter_done s + length js)%nat = scatter_count s →
  shards_answer m0 js rss st st' →
  let out := scatter_wire (negb (scatter_header_sent s)) (concat rss) ++
             scatter_end (scatter_header_sent s || existsb is_tuples (concat rss)) in
  ∃ H' P' L', (gone m0 H' P' L' st' ∧ client_lost st' s) ∨
  ∃ s', live m0 H' P' L' st' s' (o ++ out) n ∧ flushed st' s' (o ++ out) ∧ all_done s s'.
Proof. intros. by eapply answers_complete. Qed.

(** Results that are not rows leave nothing. *)
Lemma scatter_wire_none header rs :
  Forall (λ r, is_tuples r = false) rs → scatter_wire header rs = [] ∧ existsb is_tuples rs = false.
Proof.
  intros Hrs. revert header. induction Hrs as [|r rs Hr _ IH]; intros header; [done|].
  cbn [scatter_wire existsb]. rewrite Hr. destruct (IH (header && true)). done.
Qed.
(** C34: The outcome of a scatter query without rows is lost.  When no shard returns rows, the
    client gets exactly CommandComplete with the tag [SELECT 0] and ReadyForQuery, whatever
    the results are: the counts of an INSERT, UPDATE or DELETE are not passed on, and
    a query that failed on some or on all of the shards is reported as a success. *)
Theorem scatter_outcome_lost m0 H P L js rss st st' s o n :
  live m0 H P L st s o (n + room * Z.of_nat (length js)) → 0 ≤ n → js ≠ [] →
  (scatter_done s + length js)%nat = scatter_count s → scatter_header_sent s = false →
  shards_answer m0 js rss st st' → Forall (λ r, is_tuples r = false) (concat rss) →
  let out := command_complete (bs "SELECT 0") ++ ready_for_query TXN_IDLE in
  ∃ H' P' L', (gone m0 H' P' L' st' ∧ client_lost st' s) ∨
  ∃ s', live m0 H' P' L' st' s' (o ++ out) n ∧ flushed st' s' (o ++ out) ∧ all_done s s'.
Proof.
  intros Hlv Hn Hjs Hcnt Hh Ha Hrs.
  pose proof (answers_complete m0 H P L js rss st st' s o n Ha Hlv Hn Hjs Hcnt) as HA. cbv zeta in HA.
  destruct (scatter_wire_none (negb (scatter_header_sent s)) _ Hrs) as [E1 E2]. rewrite E1, E2, Hh in HA. exact HA.
Qed.

(** ** COPY in a scatter query *)
Lemma scatter_loop_copy fuel c (w : W) r m ss :
  c ∈ pq_live w → (PQgetResult w c).2 = Some r → is_copy (PQresultStatus r) = true →
  scatter_loop fuel c (mkSt w m ss) = Hang.
Proof.
  revert w r. induction fuel as [|fuel IH]; intros w r Hc Hr Hcopy; [done|].
  cbn [scatter_loop]. unfold mbind at 1, M_bind, pq, sys. cbn [st_world]. rewrite decide_True by done.
  destruct (getResult_copy w c r Hr Hcopy) as (r' & Hr' & Hs).
  destruct (quiet_result w c) as [Hl _].
  destruct (PQgetResult w c) as [w' x]. cbn [fst snd] in *. subst x.
  assert (scatter_loop fuel c (mkSt w' m ss) = Hang) as HI.
  { apply (IH w' r'); [by rewrite Hl|done|by rewrite Hs]. }
  unfold is_copy in Hcopy. destruct (PQresultStatus r); try done; exact HI.
Qed.

(** The next result of the connection is the start of a COPY. *)
Definition copy_arrives (events : Z) (c : PGconn) (w : W) : Prop :=
  let w1 := (PQconsumeInput w c).1 in
  has_error events = false ∧ (PQconsumeInput w c).2 = true ∧ (PQisBusy w1 c).2 = false ∧
  ∃ r, (PQgetResult (PQisBusy w1 c).1 c).2 = Some r ∧ is_copy (PQresultStatus r) = true.
(** C37: The callback of a scatter query does not return when a shard answers with a COPY:
    [PQgetResult] then yields the same status until the COPY has been carried out, which
    this loop does not do.  No number of rounds of the loop is enough. *)
Theorem scatter_copy_never_returns i events (w : W) m s sc c :
  scatter s !! i = Some sc → sc_conn sc = Some c → c ∈ pq_live w → copy_arrives events c w →
  (∀ fuel, scatter_loop fuel c (mkSt (PQisBusy (PQconsumeInput w c).1 c).1 m (Some s)) = Hang) ∧
  session_on_scatter_readable i events (mkSt w m (Some s)) = Hang.
Proof.
  set (w1 := (PQconsumeInput w c).1). set (w2 := (PQisBusy w1 c).1).
  intros Hsc Hc Hin (He & Hok & Hb & r & Hr & Hcopy). fold w1 w2 in Hb, Hr.
  destruct (quiet_consume w c) as [Hl1 _]. destruct (quiet_busy w1 c) as [Hl2 _]. fold w1 w2 in Hl1, Hl2.
  assert (∀ fuel, scatter_loop fuel c (mkSt w2 m (Some s)) = Hang) as Hloop.
  { intros fuel. apply (scatter_loop_copy fuel c w2 r); [by rewrite Hl2, Hl1|done|done]. }
  split; [done|]. unfold session_on_scatter_readable.
  rewrite run_session, (run_lift _ _ sc) by (by rewrite Hsc). rewrite He, Hc.
  rewrite run_pq by done. rewrite Hok. cbn [negb]. fold w1.
  rewrite run_pq by (by rewrite Hl1). rewrite Hb. fold w2. unfold pq_get.
  rewrite run_pq by (by rewrite Hl2, Hl1). cbn [fst snd].
  unfold mbind, M_bind. by rewrite Hloop.
Qed.
End query.

(** A query that waits for two shards, whose results have arrived: rows, or an error of the
    first shard and the outcome of an UPDATE of the second. *)
Definition sample_checked_out : ConnPool := mkConnPool (bs "host=h") [None; None] 0 2 1.
Definition sample_scatter_map : ShardMap :=
  mkShardMap (set_pool sample_checked_out <$> shards sample_map) [range_rule] 2.
Definition sample_failure : PGresult :=
  mkPGresult PGRES_FATAL_ERROR [] [] (bs "") (Some (bs "ERROR")) (Some (bs "23505")) (Some (bs "duplicate key")) None.
Definition sample_updated : PGresult := mkPGresult PGRES_COMMAND_OK [] [] (bs "UPDATE 3") None None None None.
Definition sample_answers (r1 r2 : PGresult) : Prop :=
  r1 = sample_result ∧ r2 = sample_result ∨ r1 = sample_failure ∧ r2 = sample_updated.
Definition sample_scatter_world (r1 r2 : PGresult) : SimWorld :=
  mkSimWorld (list_to_map [(1%positive, mkSimConn CONNECTION_OK PQTRANS_IDLE [r1] []);
                           (2%positive, mkSimConn CONNECTION_OK PQTRANS_IDLE [r2] [])])
    true (λ _, []) [] false ∅ [].
Definition sample_entry (i : nat) (c : PGconn) : ScatterConn :=
  mkScatterConn (Some i) (Some c) zero_handler false true.
Definition sample_scatter : ClientSession :=
  set_state SESSION_STATE_SCATTER (set_scatter_count 2 (set_scatter
    ([sample_entry 0 1%positive; sample_entry 1 2%positive] ++ replicate 62 zero_scatter)
    (set_send_buf (mkMsgBuf (replicate 8 None) 0 8 0) sample_session))).
Definition sample_scatter_st (r1 r2 : PGresult) : St SimWorld :=
  mkSt (sample_scatter_world r1 r2) sample_scatter_map (Some sample_scatter).
Lemma sample_checked_out_inv r1 r2 c :
  c ∈ [1; 2]%positive → pool_inv (sample_scatter_world r1 r2) sample_checked_out [] [c].
Proof.
  intros Hc. split; simpl; [|repeat constructor; set_solver| |done|lia].
  - split_and!; simpl; [done|done|lia|]. by intros i c'.
  - intros c' ->%list_elem_of_singleton.
    rewrite !elem_of_cons, elem_of_nil in Hc. destruct Hc as [->|[->|[]]]; by vm_compute.
Qed.
Lemma sample_scatter_live r1 r2 :
  live sample_scatter_map [] [] [] (sample_scatter_st r1 r2) sample_scatter [] (2 ^ 61).
Proof.
  split; [done| |reflexivity| |done|].
  - split; [done|]. split; [done|cbn; unfold MAX_SCATTER_SHARDS; lia|].
    intros [|[|i]] sc c Hi Hc; [injection Hi as <-; by split_and!; [cbn; lia|eexists|]..|].
    exfalso. cbn [sample_scatter scatter set_state set_scatter_count set_scatter app lookup list_lookup] in Hi.
    apply lookup_replicate in Hi as [-> _]. done.
  - exists [[]; []]. split; [done| |repeat constructor; cbn; lia| |].
    + intros [|[|i]] s idle Hs Hi; [injection Hs as <-; injection Hi as <-..|done];
        apply sample_checked_out_inv; vm_compute; set_solver.
    + vm_compute. repeat constructor; set_solver.
    + vm_compute. reflexivity.
  - exists []. by split_and!.
Qed.
(** A shard that has answered [rs] has no COPY going on. *)
Lemma drained_no_copy c (w w' : SimWorld) rs :
  sim_conns w !! c = Some (mkSimConn CONNECTION_OK PQTRANS_IDLE rs []) →
  drains c w rs StopNull w' → shard_yields 1 c w rs ∧ no_copy c w.
Proof.
  intros E Hd. split.
  - unfold shard_yields. cbn. rewrite E. cbn. by split; [|exists w'].
  - intros rs' e w2 Hd2. by destruct (drains_det _ _ _ _ _ _ _ _ Hd Hd2) as (_ & <- & _).
Qed.
Lemma sample_drains c (w : SimWorld) r :
  r ∈ [sample_result; sample_failure; sample_updated] →
  sim_conns w !! c = Some (mkSimConn CONNECTION_OK PQTRANS_IDLE [r] []) →
  ∃ w', drains c w [r] StopNull w'.
Proof.
  rewrite !elem_of_cons, elem_of_nil. intros [->|[->|[->|[]]]] E; eexists;
    (eapply drain_more; [cbn; rewrite E; reflexivity|reflexivity|]);
    apply drain_null; cbn; rewrite lookup_alter_eq, E; reflexivity.
Qed.
Definition sample_after (i : nat) (st : St SimWorld) : St SimWorld :=
  match session_on_scatter_readable i 1 st with Ret (_, st') => st' | _ => st end.
Lemma sim_client_safe (st : St SimWorld) s : ¬ client_lost st s.
Proof. intros (d & w & _ & Hl & _). simpl in Hl. by destruct (sim_blocked w). Qed.
(** The second shard has answered. *)
Lemma sample_first_answer r1 r2 st1 :
  r2 ∈ [sample_result; sample_failure; sample_updated] →
  session_on_scatter_readable 1 1 (sample_scatter_st r1 r2) = Ret (tt, st1) → meanwhile sample_scatter_map st1 st1.
Proof.
  intros Hr E. pattern st1. match goal with |- ?Q st1 => refine (wp_elim _ (λ _, Q) _ _ _ E _) end.
  clear st1 E. destruct (sample_drains 2%positive (sample_scatter_world r1 r2) r2 Hr eq_refl) as [w' Hd].
  destruct (drained_no_copy 2%positive (sample_scatter_world r1 r2) w' [r2] eq_refl Hd).
  eapply (wp_shard_answers sample_scatter_map [] [] [] _ 1 1 _ sample_scatter (sample_entry 1 2%positive) 2%positive [r2] [] 0);
    [eapply live_room; [apply sample_scatter_live|unfold room; lia]|done..| | |].
  - intros st' _ Hl. by apply sim_client_safe in Hl.
  - intros st' s' _ _ Hlv. by eapply meanwhile_refl.
  - intros st' s' _ _ out Hlv _. by eapply meanwhile_refl.
Qed.
(** The answers of both. *)
Lemma sample_both_answer r1 r2 :
  sample_answers r1 r2 →
  ∃ st2, shards_answer sample_scatter_map [1; 0]%nat [[r2]; [r1]] (sample_scatter_st r1 r2) st2.
Proof.
  intros Hr. set (st1 := sample_after 1 (sample_scatter_st r1 r2)). exists (sample_after 0 st1).
  assert (r1 ∈ [sample_result; sample_failure; sample_updated] ∧ r2 ∈ [sample_result; sample_failure; sample_updated])
    as [Hr1 Hr2] by (rewrite !elem_of_cons, elem_of_nil; unfold sample_answers in Hr; naive_solver).
  assert (session_on_scatter_readable 1 1 (sample_scatter_st r1 r2) = Ret (tt, st1) ∧
    session_on_scatter_readable 0 1 st1 = Ret (tt, sample_after 0 st1) ∧
    sim_conns (st_world st1) !! 1%positive = Some (mkSimConn CONNECTION_OK PQTRANS_IDLE [r1] []) ∧
    (scatter <$> st_session st1) ≫= (.!! 0%nat) = Some (sample_entry 0 1%positive)) as (E1 & E2 & Ec & Esc).
  { subst st1. by destruct Hr as [[-> ->]|[-> ->]]; split_and!; vm_compute. }
  destruct (st_session st1) as [s1|] eqn:Es1; [|done]. cbn [fmap option_fmap option_map mbind option_bind] in Esc.
  set (st2 := sample_after 0 st1) in *. clearbody st2. clearbody st1.
  destruct (sample_drains 2%positive (sample_scatter_world r1 r2) r2 Hr2 eq_refl) as [w' Hd].
  destruct (drained_no_copy 2%positive (sample_scatter_world r1 r2) w' [r2] eq_refl Hd).
  destruct (sample_drains 1%positive (st_world st1) r1 Hr1 Ec) as [w2 Hd2].
  destruct (drained_no_copy _ _ _ _ Ec Hd2).
  eapply answer_cons; [eapply meanwhile_refl, sample_scatter_live|reflexivity|reflexivity|reflexivity|done|done|exact E1|].
  eapply answer_cons; [by eapply sample_first_answer|exact Es1|exact Esc|reflexivity|done|done|exact E2|constructor].
Qed.
Lemma scatter_query_answered_witness :
  ∃ st' s', shards_answer sample_scatter_map [1; 0]%nat [[sample_result]; [sample_result]]
      (sample_scatter_st sample_result sample_result) st' ∧
    flushed st' s' (scatter_wire true [sample_result; sample_result] ++ scatter_end true) ∧
    state s' = SESSION_STATE_READY.
Proof.
  destruct (sample_both_answer sample_result sample_result) as [st2 Ha]; [by left|].
  destruct (scatter_query_answered sample_scatter_map [] [] [] [1; 0]%nat
    [[sample_result]; [sample_result]] (sample_scatter_st sample_result sample_result) st2 sample_scatter [] 0)
    as (H & P & L & [[_ Hl]|(s' & _ & Hfl & Hall)]);
    [eapply live_room; [apply sample_scatter_live|unfold room; cbn [length]; lia]|done|done|done|exact Ha|..].
  - destruct (sim_client_safe _ _ Hl).
  - exists st2, s'. split; [exact Ha|]. split; [exact Hfl|apply Hall].
Defined.
(** An UPDATE that fails on one shard and changes three rows on the other. *)
Lemma scatter_outcome_lost_witness :
  ∃ st' s', shards_answer sample_scatter_map [1; 0]%nat [[sample_updated]; [sample_failure]]
      (sample_scatter_st sample_failure sample_updated) st' ∧
    flushed st' s' (command_complete (bs "SELECT 0") ++ ready_for_query TXN_IDLE).
Proof.
  destruct (sample_both_answer sample_failure sample_updated) as [st2 Ha]; [by right|].
  destruct (scatter_outcome_lost sample_scatter_map [] [] [] [1; 0]%nat
    [[sample_updated]; [sample_failure]] (sample_scatter_st sample_failure sample_updated) st2 sample_scatter [] 0)
    as (H & P & L & [[_ Hl]|(s' & _ & Hfl & _)]);
    [eapply live_room; [apply sample_scatter_live|unfold room; cbn [length]; lia]|done|done|done|done|exact Ha|
     repeat constructor|..].
  - destruct (sim_client_safe _ _ Hl).
  - exists st2, s'. split; [exact Ha|exact Hfl].
Defined.

(** The first shard answers with a COPY. *)
Definition sample_copy_world : SimWorld :=
  mkSimWorld {[1%positive := mkSimConn CONNECTION_OK PQTRANS_IDLE
      [mkPGresult PGRES_COPY_OUT [] [] (bs "") None None None None] []]}
    true (λ _, []) [] false ∅ [].
Lemma scatter_copy_never_returns_witness :
  session_on_scatter_readable 0 1 (mkSt sample_copy_world sample_scatter_map (Some sample_scatter)) = Hang.
Proof.
  apply (scatter_copy_never_returns 0 1 sample_copy_world sample_scatter_map sample_scatter
    (sample_entry 0 1%positive) 1%positive); [reflexivity..|].
  split_and!; [reflexivity..|]. eexists. split; reflexivity.
Defined.
