(* ===== verification/Frontend.v ===== *)
(** * The frontend protocol ([src/src/protocol/fe_protocol.c],
    [src/src/executor/copy_handler.c])

    Messages of the client: startup, queries and their routing, COPY data; and the
    callback of the client's socket, which runs them. *)
From S2P Require Import Prelude Memory LibPQ Pool ShardMap Parser Router Message Event.
From S2P Require Import Session Backend.
#[local] Set Warnings "-clear-no-such-hyp".
#[local] Open Scope Z_scope.

Section frontend.
Context {W : Type} {PQ : LibPQ W} {Os : OS W}.

(** ** Connections *)

(** Registers [conn] as the session's backend connection. *)
Definition register_backend (conn : PGconn) (shard : option nat) : M W () :=
  _ ← pq_do conn (λ w, PQsetnonblocking w conn);
  _ ← modify (λ s, set_backend_shard shard (set_backend_conn (Some conn) s));
  fd ← pq_get conn (λ w, PQsocket w conn);
  let ev := mkEventHandler fd 0 (Some session_on_backend_readable_cb) in
  '(ev, _) ← sys (λ w, event_loop_add w ev EPOLLIN);
  modify (set_backend_ev ev).

Definition connect_to_shard (shard : nat) : M W Z :=
  conn ← pool_acquire shard;
  match conn with
  | None => mret (-1)
  | Some conn => _ ← register_backend conn (Some shard); mret 0
  end.

(** Drops the backend connection and forgets it. *)
Definition forget_backend (c : PGconn) : M W () :=
  _ ← drop_backend c;
  modify (λ s, set_backend_shard None (set_backend_conn None s)).

(** The part of [connect_to_default] that opens the connection. *)
Definition open_default : M W Z :=
  s ← the_session;
  conninfo ← lift (deref_opt (backend_conninfo s));
  conn ← sys (λ w, PQconnectdb w conninfo);
  st ← pq_get conn (λ w, PQstatus w conn);
  if decide (st = CONNECTION_OK) then
    _ ← register_backend conn None; mret 0
  else
    _ ← pq_do conn (λ w, PQfinish w conn);
    _ ← modify (set_backend_conn None);
    mret (-1).
Definition connect_to_default : M W Z :=
  s ← the_session;
  match backend_conn s with
  | Some c =>
    st ← pq_get c (λ w, PQstatus w c);
    if decide (st = CONNECTION_OK) then mret 0
    else _ ← forget_backend c; open_default
  | None => open_default
  end.

(** [PQsendQuery], [PQflush] and the change of state. *)
Definition start_query (c : PGconn) (sql : bytes) : M W bool :=
  ok ← pq c (λ w, PQsendQuery w c sql);
  if ok : bool then
    _ ← pq_do c (λ w, PQflush w c);
    _ ← modify (λ s, set_backend_busy true (set_state SESSION_STATE_QUERY s));
    mret true
  else mret false.

(** [execute_single]; [shard] is NULL for the default backend. *)
Definition execute_single (sql : bytes) (shard : option nat) : M W Z :=
  s ← the_session;
  _ ← match backend_conn s with
      | Some c => if decide (backend_shard s = shard) then mret tt else forget_backend c
      | None => mret tt
      end;
  s ← the_session;
  rc ← match backend_conn s, shard with
       | Some _, _ => mret 0
       | None, Some i => connect_to_shard i
       | None, None => connect_to_default
       end;
  if decide (rc < 0) then mret (-1)
  else
    s ← the_session;
    c ← lift (deref_opt (backend_conn s));
    ok ← start_query c sql;
    mret (if ok : bool then 0 else -1).

Definition ready_idle : M W () := send_new 16 (λ b, msg_write_ready_for_query b TXN_IDLE).

(** [execute_scatter]: entry [i] of the loop over the targets. *)
Definition set_entry (i : nat) (sc : ScatterConn) : M W () :=
  s ← the_session;
  if decide (i < length (scatter s))%nat then
    modify (λ s, set_scatter (<[i := sc]> (scatter s)) s)
  else lift Ub.
Definition scatter_failed (i : nat) (sc : ScatterConn) : M W () :=
  _ ← set_entry i (set_sc_done true sc);
  modify (λ s, set_scatter_done (S (scatter_done s)) s).
Definition scatter_start (sql : bytes) (i : nat) (shard : nat) : M W () :=
  let sc := mkScatterConn (Some shard) None zero_handler false false in
  _ ← set_entry i sc;
  conn ← pool_acquire shard;
  match conn with
  | None => scatter_failed i sc
  | Some c =>
    let sc := set_sc_from_pool true (set_sc_conn (Some c) sc) in
    _ ← set_entry i sc;
    _ ← pq_do c (λ w, PQsetnonblocking w c);
    ok ← pq c (λ w, PQsendQuery w c sql);
    if ok : bool then
      _ ← pq_do c (λ w, PQflush w c);
      fd ← pq_get c (λ w, PQsocket w c);
      let ev := mkEventHandler fd 0 (Some session_on_scatter_readable_cb) in
      '(ev, _) ← sys (λ w, event_loop_add w ev EPOLLIN);
      set_entry i (set_sc_ev ev sc)
    else
      _ ← pool_release shard c;
      scatter_failed i (set_sc_conn None sc)
  end.
Fixpoint scatter_start_all (sql : bytes) (shards : list nat) (i n : nat) : M W () :=
  match n with
  | O => mret tt
  | S n =>
    shard ← lift (deref_opt (shards !! i));
    _ ← scatter_start sql i shard;
    scatter_start_all sql shards (S i) n
  end.
Definition execute_scatter (sql : bytes) (shards : list nat) (count : nat) : M W Z :=
  if decide (MAX_SCATTER_SHARDS < count)%nat then mret (-1)
  else
    _ ← modify (λ s, set_scatter_header_sent false (set_scatter_done 0 (set_scatter_count count s)));
    _ ← scatter_start_all sql shards 0 count;
    s ← the_session;
    if decide (count ≤ scatter_done s)%nat then
      _ ← fe_send_error (bs "ERROR") (bs "08001") (bs "all scatter connections failed");
      _ ← ready_idle;
      _ ← modify (set_state SESSION_STATE_READY);
      mret 0
    else
      _ ← modify (set_state SESSION_STATE_SCATTER);
      mret 0.

(** ** Startup *)
Definition fe_send_startup_response : M W () :=
  s ← the_session;
  b ← lift (
    b ← msg_write_auth_ok (send_buf s);
    b ← msg_write_param_status b (bs "server_version") (bs "16.0 (Sharegres)");
    b ← msg_write_param_status b (bs "server_encoding") (bs "UTF8");
    b ← msg_write_param_status b (bs "client_encoding") (bs "UTF8");
    b ← msg_write_param_status b (bs "is_superuser") (bs "off");
    b ← msg_write_param_status b (bs "DateStyle") (bs "ISO, MDY");
    b ← msg_write_param_status b (bs "integer_datetimes") (bs "on");
    b ← msg_write_param_status b (bs "standard_conforming_strings") (bs "on");
    b ← msg_write_backend_key b (pid s) (secret_key s);
    msg_write_ready_for_query b TXN_IDLE);
  modify (set_send_buf b).

(** Drops the message at the start of the receive buffer. *)
Definition consume (n : Z) : M W () :=
  s ← the_session;
  rb ← lift (recvbuf_consume n (recv_buf s));
  modify (set_recv_buf rb).

(** The loop over the parameters; a round advances [pos]. *)
Definition startup_param (key val : bytes) : ClientSession → ClientSession :=
  if decide (key = bs "user") then set_user (Some val)
  else if decide (key = bs "database") then set_database (Some val)
  else id.
Fixpoint startup_params (fuel : nat) (pos msg_len : Z) : M W () :=
  match fuel with
  | O => lift Hang
  | S fuel =>
    if decide (pos < msg_len) then
      s ← the_session;
      let data := rb_data (recv_buf s) in
      first ← lift (read_at data pos 1);
      if decide (first = [NUL]) then mret tt
      else
        key ← lift (cstr_at data pos);
        let pos := pos + (Z.of_nat (length key) + 1) in
        if decide (msg_len ≤ pos) then mret tt
        else
          val ← lift (cstr_at data pos);
          let pos := pos + (Z.of_nat (length val) + 1) in
          _ ← modify (startup_param key val);
          startup_params fuel pos msg_len
    else mret tt
  end.
Definition startup_defaults (s : ClientSession) : ClientSession :=
  let u := default (bs "unknown") (user s) in
  set_database (Some (default u (database s))) (set_user (Some u) s).

Definition handle_startup_message (msg_len : Z) : M W Z :=
  if decide (msg_len < 8) then mret (-1)
  else
    s ← the_session;
    v ← lift (read_at (rb_data (recv_buf s)) 4 4);
    let version := be_decode v in
    if decide (version = PG_SSL_REQUEST) then
      _ ← session_queue_send [("N"%byte : byte)];
      _ ← consume msg_len;
      mret 0
    else if decide (version = PG_CANCEL_REQUEST) then
      _ ← consume msg_len;
      mret (-1)
    else if decide (Z.shiftr version 16 ≠ 3) then mret (-1)
    else
      _ ← startup_params (S (Z.to_nat msg_len)) 8 msg_len;
      _ ← modify startup_defaults;
      _ ← consume msg_len;
      _ ← fe_send_startup_response;
      _ ← modify (set_state SESSION_STATE_READY);
      mret 0.

(** ** Queries *)
Section query.
Context (pg_query_parse : bytes → option bytes).

(** An error, then ReadyForQuery. *)
Definition report (severity code message : bytes) : M W () :=
  _ ← fe_send_error severity code message;
  ready_idle.

(** The branch of [handle_query] without a shard map. *)
Definition query_default (sql : bytes) : M W Z :=
  rc ← connect_to_default;
  if decide (rc < 0) then
    _ ← report (bs "FATAL") (bs "08001") (bs "cannot connect to backend");
    mret 0
  else
    s ← the_session;
    c ← lift (deref_opt (backend_conn s));
    ok ← start_query c sql;
    if ok : bool then mret 0
    else
      e ← pq_get c (λ w, PQerrorMessage w c);
      _ ← report (bs "ERROR") (bs "XX000") e;
      mret 0.

(** The [switch] over the decision. *)
Definition run_decision (sql : bytes) (d : RouteDecision) : M W Z :=
  match route_type d with
  | ROUTE_SINGLE =>
    target ← lift (deref_opt (head (target_shards d)));
    rc ← execute_single sql (Some target);
    if decide (rc < 0) then
      _ ← report (bs "ERROR") (bs "08001") (bs "cannot connect to shard");
      mret 0
    else mret rc
  | ROUTE_SCATTER => execute_scatter sql (target_shards d) (target_count d)
  | ROUTE_LOCAL =>
    let msg := msgbuf_init 64 in
    msg ← lift (msg_write_command_complete msg (bs "SET"));
    _ ← queue_msg msg;
    msg ← lift (msg_write_ready_for_query (msgbuf_reset msg) TXN_IDLE);
    _ ← queue_msg msg;
    mret 0
  | ROUTE_DEFAULT =>
    rc ← execute_single sql None;
    if decide (rc < 0) then
      _ ← report (bs "ERROR") (bs "08001") (bs "cannot connect to default backend");
      mret 0
    else mret rc
  end.

Definition handle_query (sql : bytes) : M W Z :=
  s ← the_session;
  map ← the_map;
  if negb (has_shard_map s) || bool_decide (shards map = []) then query_default sql
  else
    o ← lift (route_sql pg_query_parse map sql);
    match o with
    | None =>
      _ ← report (bs "ERROR") (bs "42601") (bs "syntax error in query");
      mret 0
    | Some d => run_decision sql d
    end.

(** ** COPY ([copy_handler.c]) *)
Definition copy_forward_response (raw_msg : bytes) : M W () := session_queue_send raw_msg.

(** The payload is in the receive buffer at offset 5; [PQputCopyData] sends nothing
    for a length that is not positive, [PQputCopyEnd] reads a C string. *)
Definition copy_handle_client_message (msg_type : byte) (payload_len : Z) : M W Z :=
  s ← the_session;
  match backend_conn s with
  | None => mret (-1)
  | Some conn =>
    if decide (msg_type = MSG_COPY_DATA) then
      let n := i32 payload_len in
      data ← lift (if decide (0 < n) then read_at (rb_data (recv_buf s)) 5 (Z.to_nat n) else Ret []);
      rc ← pq conn (λ w, PQputCopyData w conn data);
      mret (if decide (rc < 0) then -1 else 0)
    else if decide (msg_type = MSG_COPY_DONE) then
      rc ← pq conn (λ w, PQputCopyEnd w conn None);
      if decide (rc < 0) then mret (-1)
      else _ ← pq_do conn (λ w, PQflush w conn); mret 1
    else if decide (msg_type = MSG_COPY_FAIL) then
      errmsg ← lift (if decide (0 < payload_len) then cstr_at (rb_data (recv_buf s)) 5
                     else Ret (bs "client cancel"));
      rc ← pq conn (λ w, PQputCopyEnd w conn (Some errmsg));
      if decide (rc < 0) then mret (-1)
      else _ ← pq_do conn (λ w, PQflush w conn); mret 1
    else mret (-1)
  end.

(** ** The message loop *)
Inductive step_exit : Type := Continue | Return (rc : Z).

(** A message in the state [SESSION_STATE_INIT]. *)
Definition process_startup : M W step_exit :=
  s ← the_session;
  let rb := recv_buf s in
  if decide (rb_len rb < 4) then mret (Return 0)
  else
    l ← lift (read_at (rb_data rb) 0 4);
    let msg_len := be_decode l in
    if decide (msg_len < 4 ∨ 65535 < msg_len) then mret (Return (-1))
    else if decide (rb_len rb < msg_len) then mret (Return 0)
    else
      rc ← handle_startup_message msg_len;
      mret (if decide (rc < 0) then Return (-1) else Continue).

(** A complete message while COPY IN is going on. *)
Definition process_copy_in (msg_type : byte) (msg_len total : Z) : M W step_exit :=
  if decide (msg_type = MSG_COPY_DATA ∨ msg_type = MSG_COPY_DONE ∨ msg_type = MSG_COPY_FAIL) then
    rc ← copy_handle_client_message msg_type (u32 (msg_len - 4));
    _ ← consume total;
    if decide (rc < 0) then mret (Return (-1))
    else
      _ ← (if decide (rc = 1) then modify (set_state SESSION_STATE_QUERY) else mret tt);
      mret Continue
  else
    _ ← consume total;
    mret Continue.

(** A complete message outside COPY.  The text of a query is read through the
    pointer [rb->data + 5] after [memmove] has moved what follows the message to
    the front of the buffer. *)
Definition is_extended (t : byte) : Prop :=
  t = MSG_PARSE ∨ t = MSG_BIND ∨ t = MSG_DESCRIBE ∨ t = MSG_EXECUTE ∨ t = MSG_SYNC ∨ t = MSG_CLOSE.
#[export] Instance is_extended_dec t : Decision (is_extended t).
Proof. unfold is_extended. apply _. Defined.
Definition process_message (msg_type : byte) (total : Z) : M W step_exit :=
  if decide (msg_type = MSG_QUERY) then
    _ ← consume total;
    s ← the_session;
    query ← lift (cstr_at (rb_data (recv_buf s)) 5);
    rc ← handle_query query;
    mret (Return rc)
  else if decide (msg_type = MSG_TERMINATE) then mret (Return (-1))
  else
    _ ← (if decide (is_extended msg_type) then
           report (bs "ERROR") (bs "0A000") (bs "extended query protocol not yet supported")
         else mret tt);
    _ ← consume total;
    mret Continue.

(** One round of [fe_protocol_process]. *)
Definition process_step : M W step_exit :=
  s ← the_session;
  let rb := recv_buf s in
  if decide (state s = SESSION_STATE_INIT) then process_startup
  else if decide (state s = SESSION_STATE_QUERY ∨ state s = SESSION_STATE_SCATTER ∨
                  state s = SESSION_STATE_COPY_OUT) then mret (Return 0)
  else if decide (rb_len rb < 5) then mret (Return 0)
  else
    t ← lift (read_at (rb_data rb) 0 1);
    msg_type ← lift (deref_opt (head t));
    l ← lift (read_at (rb_data rb) 1 4);
    let msg_len := be_decode l in
    (* [1 + msg_len] is computed in 32 bits *)
    let total := u32 (1 + msg_len) in
    if decide (msg_len < 4 ∨ 16 * 1024 * 1024 < total) then mret (Return (-1))
    else if decide (rb_len rb < total) then mret (Return 0)
    else if decide (state s = SESSION_STATE_COPY_IN) then process_copy_in msg_type msg_len total
    else process_message msg_type total.

Fixpoint process_loop (fuel : nat) : M W Z :=
  match fuel with
  | O => lift Hang
  | S fuel =>
    s ← the_session;
    if decide (0 < rb_len (recv_buf s)) then
      e ← process_step;
      match e with Return rc => mret rc | Continue => process_loop fuel end
    else mret 0
  end.
(** A round that continues drops at least a byte, unless [total] wraps to 0. *)
Definition fe_protocol_process : M W Z :=
  s ← the_session;
  process_loop (S (Z.to_nat (rb_len (recv_buf s)))).

(** [session_on_client_readable] ([session.c]) *)
Definition session_on_client_readable (events : Z) : M W () :=
  if has_error events then session_destroy
  else
    s ← the_session;
    rb ← lift (recvbuf_ensure (recv_buf s) 4096);
    _ ← modify (set_recv_buf rb);
    n ← sys (λ w, sock_recv w (client_fd s) (Z.to_nat (rb_cap rb - rb_len rb)));
    match n with
    | RecvAgain => mret tt
    | RecvError => session_destroy
    | Received [] => session_destroy
    | Received data =>
      m ← lift (write_at (rb_data rb) (rb_len rb) data);
      _ ← modify (set_recv_buf (mkRecvBuf m (rb_len rb + Z.of_nat (length data)) (rb_cap rb)));
      rc ← fe_protocol_process;
      if decide (rc < 0) then session_destroy
      else
        s ← the_session;
        if decide (send_pos s < buf_len (send_buf s)) then
          rc ← session_send;
          if decide (rc < 0) then session_destroy else mret tt
        else mret tt
    end.
End query.
End frontend.
