(* ===== verification/Handlers.v ===== *)
(** * What a callback leaves alone

    Every handler of a session has a callback of its own kind, whatever the session does:
    the client's handler has one of the two client callbacks, the handler of the backend
    connection the backend callback or none yet, the handlers of the scatter entries the
    scatter callback or none yet.  The event loop relies on it.  And a session writes to
    the socket of its own client only. *)
From S2P Require Import Prelude Memory LibPQ Pool ShardMap Resources Parser Router Message Event Session.
From S2P Require Import Wp SessionSpec Backend Frontend.
#[local] Set Warnings "-clear-no-such-hyp".

Create HintDb keeps.

Definition calls_none_or (cb : callback) (h : EventHandler) : Prop :=
  ev_callback h = None ∨ ev_callback h = Some cb.
Definition calls_client (h : EventHandler) : Prop :=
  ev_callback h = Some session_on_client_readable_cb ∨
  ev_callback h = Some session_on_client_writable_cb.
Record handlers_ok (s : ClientSession) : Prop := {
  ho_client : calls_client (ev_handler s);
  ho_backend : calls_none_or session_on_backend_readable_cb (backend_ev s);
  ho_scatter : Forall (λ sc, calls_none_or session_on_scatter_readable_cb (sc_ev sc)) (scatter s);
}.
(** A session of the client on socket [fd]. *)
Definition ours (fd : Z) (s : ClientSession) : Prop := handlers_ok s ∧ client_fd s = fd.

Lemma handlers_frame fd s s' :
  client_fd s' = client_fd s →
  ev_handler s' = ev_handler s → backend_ev s' = backend_ev s → scatter s' = scatter s →
  ours fd s → ours fd s'.
Proof. intros E0 E1 E2 E3 [[H1 H2 H3] H4]. split; [split; by rewrite ?E1, ?E2, ?E3|by rewrite E0]. Qed.
Lemma handlers_alter fd (f : ScatterConn → ScatterConn) i s :
  (∀ sc, sc_ev (f sc) = sc_ev sc) → ours fd s → ours fd (set_scatter (alter f i (scatter s)) s).
Proof.
  intros Hf [[H1 H2 H3] ?]. split; [|done]. split; [done|done|]. simpl. rewrite Forall_lookup in *. intros j sc Hj.
  destruct (decide (j = i)) as [->|].
  - rewrite list_lookup_alter_eq in Hj. apply fmap_Some in Hj as (sc0 & Hsc & ->). rewrite Hf. by eapply H3.
  - rewrite list_lookup_alter_ne in Hj by done. by eapply H3.
Qed.
Lemma handlers_insert fd i sc s :
  calls_none_or session_on_scatter_readable_cb (sc_ev sc) → ours fd s →
  ours fd (set_scatter (<[i := sc]> (scatter s)) s).
Proof. intros Hsc [[H1 H2 H3] ?]. split; [|done]. split; [done|done|]. simpl. by apply Forall_insert. Qed.
Lemma handlers_client fd h s : calls_client h → ours fd s → ours fd (set_ev_handler h s).
Proof. intros Hh [[? ? ?] ?]. by split. Qed.
Lemma handlers_backend fd h s :
  calls_none_or session_on_backend_readable_cb h → ours fd s → ours fd (set_backend_ev h s).
Proof. intros Hh [[? ? ?] ?]. by split. Qed.
#[export] Hint Resolve handlers_alter : keeps.

Section keeps.
Context {W : Type} {PQ : LibPQ W} {Os : OS W} {OLaws : OSLaws W} (fd : Z).
Implicit Types (w : W) (st : St W).

Definition hok st : Prop := match st_session st with Some s => ours fd s | None => True end.
(** Nothing is written to the other sockets. *)
Definition writes_to w w' : Prop := ∀ fd', fd' ≠ fd → sock_sent w' fd' = sock_sent w fd'.
Definition keeps {A} (m : M W A) : Prop :=
  ∀ st a st', hok st → m st = Ret (a, st') → hok st' ∧ writes_to (st_world st) (st_world st').

Lemma writes_unseen w w' : unseen w w' → writes_to w w'.
Proof. intros [_ Hs] fd' _. apply Hs. Qed.
Lemma writes_quiet w w' : quiet w w' → writes_to w w'.
Proof. intros Hq. by apply writes_unseen, quiet_unseen. Qed.
Lemma writes_send w d : writes_to w (sock_send w fd d).1.
Proof.
  intros fd' Hfd. rewrite send_sent. destruct (sock_send w fd d).2; rewrite ?decide_False by done;
    by rewrite app_nil_r.
Qed.
Lemma writes_query w c q : writes_to w (PQsendQuery w c q).1.
Proof. intros fd' _. apply sendQuery_sent. Qed.
Lemma writes_connect w ci : writes_to w (PQconnectdb w ci).1.
Proof. intros fd' _. apply connectdb_sent. Qed.
Lemma writes_finish w c : writes_to w (PQfinish w c).
Proof. intros fd' _. apply finish_sent. Qed.

Lemma keeps_ret {A} (a : A) : keeps (mret a).
Proof. intros st b st' H [= <- <-]. done. Qed.
Lemma keeps_lift {A} (r : res A) : keeps (lift r).
Proof. intros st a st' H. unfold lift. destruct r; [|done..]. by intros [= <- <-]. Qed.
Lemma keeps_bind {A B} (m : M W A) (k : A → M W B) :
  keeps m → (∀ a, keeps (k a)) → keeps (m ≫= k).
Proof.
  intros Hm Hk st b st' H. unfold mbind, M_bind. destruct (m st) as [[a st1]| |] eqn:E; [|done..].
  intros E'. destruct (Hm _ _ _ H E) as [H1 Hw1]. destruct (Hk _ _ _ _ H1 E') as [H2 Hw2].
  split; [done|]. intros fd' Hfd. by rewrite (Hw2 fd' Hfd), (Hw1 fd' Hfd).
Qed.
Lemma keeps_session {B} (k : ClientSession → M W B) :
  (∀ s, ours fd s → keeps (k s)) → keeps (the_session ≫= k).
Proof.
  intros Hk st b st' H. unfold mbind, M_bind, the_session. destruct (st_session st) as [s|] eqn:E; [|done].
  apply Hk; [|done]. unfold hok in H. by rewrite E in H.
Qed.
Lemma keeps_modify f : (∀ s, ours fd s → ours fd (f s)) → keeps (modify f).
Proof.
  intros Hf st a st' H. unfold modify, hok in *. destruct (st_session st); [|done].
  intros [= <- <-]. split; [simpl; auto|done].
Qed.
Lemma keeps_sys {A} (f : W → W * A) : (∀ w, writes_to w (f w).1) → keeps (sys f).
Proof.
  intros Hf st a st' H. unfold sys, hok in *. specialize (Hf (st_world st)).
  destruct (f _). by intros [= <- <-].
Qed.
Lemma keeps_pq {A} c (f : W → W * A) : (∀ w, writes_to w (f w).1) → keeps (pq c f).
Proof. intros Hf st a st' H. unfold pq. case_decide; [by apply keeps_sys|done]. Qed.
Lemma keeps_pq_get {A} c (f : W → A) : keeps (pq_get c f).
Proof. by apply keeps_pq. Qed.
Lemma keeps_pq_do c (f : W → W) : (∀ w, writes_to w (f w)) → keeps (pq_do c f).
Proof. intros Hf. by apply keeps_pq. Qed.
Lemma keeps_sock_send s d : ours fd s → keeps (sys (λ w, sock_send w (client_fd s) d)).
Proof. intros [_ ->]. apply keeps_sys. intros w. apply writes_send. Qed.
Lemma keeps_the_map : keeps the_map.
Proof. intros st a st' H [= <- <-]. done. Qed.
Lemma keeps_free : keeps free_session.
Proof. intros st a st' H. unfold free_session. destruct (st_session st); [|done]. by intros [= <- <-]. Qed.
Lemma keeps_on_pool {A} i (f : W → ConnPool → res (W * ConnPool * A)) :
  (∀ w p w' p' a, f w p = Ret (w', p', a) → unseen w w') → keeps (on_pool i f).
Proof.
  intros Hf st a st' H. unfold on_pool. destruct (shards (st_map st) !! i) as [sh|]; simpl; [|done].
  destruct (f _ _) as [[[w p] x]| |] eqn:E; simpl; [|done..]. intros [= <- <-]. split; [done|].
  by eapply writes_unseen, Hf.
Qed.
Lemma keeps_acquire i : keeps (pool_acquire i).
Proof.
  apply keeps_on_pool. intros w p w' p' a E. destruct (unseen_keeps w) as [Ho Hc].
  by eapply (acquire_keeps (unseen w)); [exact Ho|exact Hc|exact E|].
Qed.
Lemma keeps_release i c : keeps (pool_release i c).
Proof.
  apply keeps_on_pool. intros w p w' p' a E. destruct (unseen_keeps w) as [Ho Hc].
  destruct (conn_pool_release w p (Some c)) as [[w1 p1]| |] eqn:E1; [|done..].
  injection E as <- _ _. by eapply (release_keeps (unseen w)); eauto.
Qed.
(** Registration keeps the callback of the handler. *)
Lemma keeps_add {B} h e (k : EventHandler * Z → M W B) :
  (∀ h' rc, ev_callback h' = ev_callback h → keeps (k (h', rc))) →
  keeps (sys (λ w, event_loop_add w h e) ≫= k).
Proof.
  intros Hk st b st' H. pose proof (writes_quiet _ _ (quiet_add (st_world st) h e)) as Hw.
  unfold mbind, M_bind, sys, event_loop_add in *.
  destruct (epoll_ctl _ _ _ _) as [w ok]. intros E. eapply Hk in E as [H' Hw']; [|done|done].
  split; [done|]. intros fd' Hfd. by rewrite (Hw' fd' Hfd), <- (Hw fd' Hfd).
Qed.
Lemma keeps_mod {B} h e (k : EventHandler * Z → M W B) :
  (∀ h' rc, ev_callback h' = ev_callback h → keeps (k (h', rc))) →
  keeps (sys (λ w, event_loop_mod w h e) ≫= k).
Proof.
  intros Hk st b st' H. pose proof (writes_quiet _ _ (quiet_mod (st_world st) h e)) as Hw.
  unfold mbind, M_bind, sys, event_loop_mod in *.
  destruct (epoll_ctl _ _ _ _) as [w ok]. intros E. eapply Hk in E as [H' Hw']; [|done|done].
  split; [done|]. intros fd' Hfd. by rewrite (Hw' fd' Hfd), <- (Hw fd' Hfd).
Qed.
End keeps.
#[export] Hint Resolve keeps_ret keeps_lift keeps_pq_get keeps_the_map keeps_free keeps_acquire
  keeps_release : keeps.
#[export] Hint Resolve writes_query writes_connect writes_finish writes_quiet : keeps.

(** A change of the session that leaves the handlers alone. *)
Ltac frame_handlers :=
  let s := fresh in let H := fresh in
  intros s H; first
  [ solve [auto with keeps]
  | solve [first [apply handlers_client|apply handlers_backend|apply handlers_insert]; [|exact H];
      unfold calls_client, calls_none_or; simpl;
      repeat match goal with E : ev_callback ?h = _ |- context [ev_callback ?h] => rewrite E end;
      simpl; auto]
  | match goal with |- ours ?fd ?x => apply (handlers_frame fd s x); [done|done|done|done|exact H] end ].
Ltac keeps_step :=
  match goal with
  | |- keeps _ (the_session ≫= _) => apply keeps_session; intros ? ?
  | |- keeps _ (sys (λ w, event_loop_add w _ _) ≫= _) => apply keeps_add; intros ? ? ?; simpl
  | |- keeps _ (sys (λ w, event_loop_mod w _ _) ≫= _) => apply keeps_mod; intros ? ? ?; simpl
  | |- keeps _ (_ ≫= _) => apply keeps_bind; [|intros ?]
  | |- keeps _ (modify _) => apply keeps_modify; try frame_handlers
  | |- keeps _ (match ?x with _ => _ end) => destruct x
  | |- keeps _ _ => solve [auto with keeps]
  | |- keeps _ (sys (λ w, sock_send w _ _)) => apply keeps_sock_send; assumption
  | |- keeps _ (sys _) => apply keeps_sys; intros ?; cbn [fst]; solve [eauto with keeps sharegres]
  | |- keeps _ (pq _ _) => apply keeps_pq; intros ?; cbn [fst]; solve [eauto with keeps sharegres]
  | |- keeps _ (pq_do _ _) => apply keeps_pq_do; intros ?; solve [eauto with keeps sharegres]
  end.
Ltac solve_keeps := repeat (cbv zeta; keeps_step).

Section session.
Context {W : Type} {PQ : LibPQ W} {Os : OS W} {OLaws : OSLaws W} (fd : Z).

Lemma keeps_give_back i c : keeps (W:=W) fd (give_back i c).
Proof. unfold give_back. solve_keeps. Qed.
#[local] Hint Resolve keeps_give_back : keeps.
Lemma keeps_release_from n : ∀ i, keeps (W:=W) fd (release_scatter_from i n).
Proof. induction n as [|n IH]; intros i; cbn [release_scatter_from]; solve_keeps. Qed.
#[local] Hint Resolve keeps_release_from : keeps.
Lemma keeps_release_scatter : keeps (W:=W) fd session_release_scatter.
Proof. unfold session_release_scatter. solve_keeps. Qed.
Lemma keeps_drop_backend c : keeps (W:=W) fd (drop_backend c).
Proof. unfold drop_backend. solve_keeps. Qed.
#[local] Hint Resolve keeps_release_scatter keeps_drop_backend : keeps.
Lemma keeps_destroy : keeps (W:=W) fd session_destroy.
Proof. unfold session_destroy. solve_keeps. Qed.
Lemma keeps_queue d : keeps (W:=W) fd (session_queue_send d).
Proof. unfold session_queue_send. solve_keeps. Qed.
#[local] Hint Resolve keeps_queue : keeps.
Lemma keeps_queue_msg b : keeps (W:=W) fd (queue_msg b).
Proof. unfold queue_msg. solve_keeps. Qed.
Lemma keeps_send_loop fuel : keeps (W:=W) fd (send_loop fuel).
Proof. induction fuel as [|fuel IH]; cbn [send_loop]; solve_keeps. Qed.
#[local] Hint Resolve keeps_queue_msg keeps_send_loop keeps_destroy : keeps.
Lemma keeps_send : keeps (W:=W) fd session_send.
Proof. unfold session_send. solve_keeps. Qed.
#[local] Hint Resolve keeps_send : keeps.
Lemma keeps_client_writable e : keeps (W:=W) fd (session_on_client_writable e).
Proof. unfold session_on_client_writable. solve_keeps. Qed.

(** ** The callbacks of backend connections *)
Lemma keeps_forward_rows r rows : ∀ b, keeps (W:=W) fd (forward_rows r b rows).
Proof. induction rows as [|row rows IH]; intros b; cbn [forward_rows]; solve_keeps. Qed.
#[local] Hint Resolve keeps_forward_rows : keeps.
Lemma keeps_forward r h : keeps (W:=W) fd (session_forward_result r h).
Proof. unfold session_forward_result. solve_keeps. Qed.
Lemma keeps_send_new n f : keeps (W:=W) fd (send_new n f).
Proof. unfold send_new. solve_keeps. Qed.
#[local] Hint Resolve keeps_forward keeps_send_new : keeps.
Lemma keeps_result_loop fuel c : ∀ h, keeps (W:=W) fd (result_loop fuel c h).
Proof. induction fuel as [|fuel IH]; intros h; cbn [result_loop]; solve_keeps. Qed.
Lemma keeps_ready_and_release c : keeps (W:=W) fd (ready_and_release c).
Proof. unfold ready_and_release. solve_keeps. Qed.
Lemma keeps_copy_out_loop fuel c : keeps (W:=W) fd (copy_out_loop fuel c).
Proof. induction fuel as [|fuel IH]; cbn [copy_out_loop]; solve_keeps. Qed.
#[local] Hint Resolve keeps_result_loop keeps_ready_and_release keeps_copy_out_loop : keeps.
Lemma keeps_copy_out_read c : keeps (W:=W) fd (copy_out_read c).
Proof. unfold copy_out_read. solve_keeps. Qed.
Lemma keeps_error a b c : keeps (W:=W) fd (fe_send_error a b c).
Proof. unfold fe_send_error. solve_keeps. Qed.
#[local] Hint Resolve keeps_copy_out_read keeps_error : keeps.
Lemma keeps_backend_readable e : keeps (W:=W) fd (session_on_backend_readable e).
Proof. unfold session_on_backend_readable, backend_lost, flush_and_return. solve_keeps. Qed.
Lemma keeps_scatter_loop fuel c : keeps (W:=W) fd (scatter_loop fuel c).
Proof. induction fuel as [|fuel IH]; cbn [scatter_loop]; solve_keeps. Qed.
Lemma keeps_check_complete : keeps (W:=W) fd scatter_check_complete.
Proof. unfold scatter_check_complete. solve_keeps. Qed.
Lemma keeps_mark_done i : keeps (W:=W) fd (scatter_mark_done i).
Proof.
  unfold scatter_mark_done. apply keeps_modify. intros s Hs.
  apply (handlers_frame fd (set_scatter (alter (set_sc_done true) i (scatter s)) s)); auto with keeps.
Qed.
#[local] Hint Resolve keeps_scatter_loop keeps_check_complete keeps_mark_done : keeps.
Lemma keeps_scatter_readable i e : keeps (W:=W) fd (session_on_scatter_readable i e).
Proof. unfold session_on_scatter_readable. solve_keeps. Qed.

(** ** The client's messages *)
Lemma keeps_register c i : keeps (W:=W) fd (register_backend c i).
Proof. unfold register_backend. solve_keeps. Qed.
#[local] Hint Resolve keeps_register : keeps.
Lemma keeps_connect_to_shard i : keeps (W:=W) fd (connect_to_shard i).
Proof. unfold connect_to_shard. solve_keeps. Qed.
Lemma keeps_forget c : keeps (W:=W) fd (forget_backend c).
Proof. unfold forget_backend. solve_keeps. Qed.
#[local] Hint Resolve keeps_connect_to_shard keeps_forget : keeps.
Lemma keeps_connect_to_default : keeps (W:=W) fd connect_to_default.
Proof. unfold connect_to_default, open_default. solve_keeps. Qed.
Lemma keeps_start_query c q : keeps (W:=W) fd (start_query c q).
Proof. unfold start_query. solve_keeps. Qed.
#[local] Hint Resolve keeps_connect_to_default keeps_start_query : keeps.
Lemma keeps_execute_single q i : keeps (W:=W) fd (execute_single q i).
Proof. unfold execute_single. solve_keeps. Qed.
Lemma keeps_set_entry i sc :
  calls_none_or session_on_scatter_readable_cb (sc_ev sc) → keeps (W:=W) fd (set_entry i sc).
Proof. intros Hsc. unfold set_entry. solve_keeps. Qed.
Lemma keeps_scatter_failed i sc :
  calls_none_or session_on_scatter_readable_cb (sc_ev sc) → keeps (W:=W) fd (scatter_failed i sc).
Proof. intros Hsc. unfold scatter_failed. apply keeps_bind; [by apply keeps_set_entry|intros _]. solve_keeps. Qed.
Lemma keeps_scatter_start q i sh : keeps (W:=W) fd (scatter_start q i sh).
Proof.
  unfold scatter_start. cbv zeta.
  apply keeps_bind; [apply keeps_set_entry; by left|intros _].
  apply keeps_bind; [solve_keeps|intros [c|]]; [|apply keeps_scatter_failed; by left].
  apply keeps_bind; [apply keeps_set_entry; by left|intros _].
  apply keeps_bind; [solve_keeps|intros _]. apply keeps_bind; [solve_keeps|intros [|]].
  - apply keeps_bind; [solve_keeps|intros _]. apply keeps_bind; [solve_keeps|intros x].
    apply keeps_add. intros h rc Hh. simpl. apply keeps_set_entry. right. simpl. by rewrite Hh.
  - apply keeps_bind; [solve_keeps|intros _]. apply keeps_scatter_failed. by left.
Qed.
#[local] Hint Resolve keeps_execute_single keeps_scatter_start : keeps.
Lemma keeps_scatter_start_all q l n : ∀ i, keeps (W:=W) fd (scatter_start_all q l i n).
Proof. induction n as [|n IH]; intros i; cbn [scatter_start_all]; solve_keeps. Qed.
#[local] Hint Resolve keeps_scatter_start_all : keeps.
Lemma keeps_execute_scatter q l n : keeps (W:=W) fd (execute_scatter q l n).
Proof. unfold execute_scatter, ready_idle. solve_keeps. Qed.
#[local] Hint Resolve keeps_execute_scatter : keeps.
Lemma keeps_report a b c : keeps (W:=W) fd (report a b c).
Proof. unfold report, ready_idle. solve_keeps. Qed.
#[local] Hint Resolve keeps_report : keeps.
Lemma keeps_handle_query pg q : keeps (W:=W) fd (handle_query pg q).
Proof. unfold handle_query, query_default, run_decision. solve_keeps. Qed.
#[local] Hint Resolve keeps_handle_query : keeps.
Lemma keeps_consume n : keeps (W:=W) fd (consume n).
Proof. unfold consume. solve_keeps. Qed.
#[local] Hint Resolve keeps_consume : keeps.
Lemma keeps_startup_params fuel : ∀ pos n, keeps (W:=W) fd (startup_params fuel pos n).
Proof.
  induction fuel as [|fuel IH]; intros pos n; cbn [startup_params]; solve_keeps.
  intros s' Hs'. unfold startup_param. repeat case_decide; by destruct Hs' as [[] ?].
Qed.
#[local] Hint Resolve keeps_startup_params : keeps.
Lemma keeps_startup n : keeps (W:=W) fd (handle_startup_message n).
Proof. unfold handle_startup_message, fe_send_startup_response. solve_keeps. Qed.
Lemma keeps_copy t n : keeps (W:=W) fd (copy_handle_client_message t n).
Proof. unfold copy_handle_client_message. solve_keeps. Qed.
#[local] Hint Resolve keeps_startup keeps_copy : keeps.
Lemma keeps_process_step pg : keeps (W:=W) fd (process_step pg).
Proof. unfold process_step, process_startup, process_copy_in, process_message. solve_keeps. Qed.
#[local] Hint Resolve keeps_process_step : keeps.
Lemma keeps_process_loop pg fuel : keeps (W:=W) fd (process_loop pg fuel).
Proof. induction fuel as [|fuel IH]; cbn [process_loop]; solve_keeps. Qed.
#[local] Hint Resolve keeps_process_loop : keeps.
Lemma keeps_client_readable pg e : keeps (W:=W) fd (session_on_client_readable pg e).
Proof. unfold session_on_client_readable, fe_protocol_process. solve_keeps. Qed.

(** A new session. *)
Lemma fresh_entries :
  Forall (λ sc, calls_none_or session_on_scatter_readable_cb (sc_ev sc))
    (replicate MAX_SCATTER_SHARDS zero_scatter).
Proof. apply Forall_replicate. by left. Qed.
Lemma create_handlers (a : Z) ci hm w m u (st' : St W) s :
  session_create fd a ci hm (mkSt w m None) = Ret (u, st') → st_session st' = Some s → ours fd s.
Proof.
  unfold session_create, mbind, M_bind, sys, new_session, event_loop_add. cbn [st_world st_map st_session].
  destruct (set_nonblocking fd w) as [w1 rc]. cbn [st_world st_map st_session].
  destruct (epoll_ctl _ _ _ _) as [w2 ok]. intros [= <- <-] [= <-].
  split; [|done]. split; cbn [ev_handler backend_ev scatter]; [by left|by left|]. exact fresh_entries.
Qed.
End session.
