(* ===== verification/FrontendSpec.v ===== *)
(** * What the handlers of client messages do: connections and queries

    The rules for [connect_to_shard], [connect_to_default], [execute_single] and
    [execute_scatter] of [fe_protocol.c].  The log [L] of the queries that have been sent
    is an index of [live]: a query that is executed on one shard is sent once, on a
    connection of that shard; a scatter query is sent once on every connection it
    holds. *)
From S2P Require Import Prelude Memory LibPQ Pool ShardMap Resources Parser Router Message Event.
From S2P Require Import Session Wp SessionSpec Backend Wire BackendSpec ScatterSpec Frontend.
#[local] Set Warnings "-clear-no-such-hyp".
#[local] Open Scope Z_scope.
#[local] Arguments be_encode : simpl never.

Section frontend.
Context {W : Type} {PQ : LibPQ W} {Os : OS W} {Laws : LibPQLaws W} {OLaws : OSLaws W}.
Context (m0 : ShardMap).
Implicit Types (st : St W) (s : ClientSession) (o : bytes) (n : Z) (ub : Prop)
  (H : list (nat * PGconn)) (P : list PGconn) (L : list (PGconn * bytes)).

(** ** Opening connections *)
Lemma live_become H P L H' P' st s s' o n w' m' :
  live m0 H P L st s o n → unseen (st_world st) w' → map_like (st_map st) m' →
  sess_wf s' → client_fd s' = client_fd s → send_buf s' = send_buf s → send_pos s' = send_pos s →
  resources w' (shards m') (held s' ++ H') (priv s' ++ P') →
  live m0 H' P' L (mkSt w' m' (Some s')) s' o n.
Proof.
  intros [Hs _ Hm _ Hg (l & Hl & Hp & Hn & Ho)] [Hlog Hsent] Hm' Hwf Ef Eb Ep Hr.
  split; [done|done|by etrans|done|simpl; congruence|]. exists l. simpl. by rewrite Ef, Eb, Ep, Hsent.
Qed.
Lemma live_world H P L H' P' st s o n w' m' :
  live m0 H P L st s o n → unseen (st_world st) w' → map_like (st_map st) m' →
  resources w' (shards m') (held s ++ H') (priv s ++ P') →
  live m0 H' P' L (mkSt w' m' (Some s)) s o n.
Proof.
  intros Hlv Hu Hm Hr. eapply live_become; [exact Hlv|done|done|apply Hlv|done..].
Qed.
(** What the pool of shard [i] gives. *)
Definition acquires (i : nat) (w : W) (m : ShardMap) (r : option PGconn) (w' : W) (m' : ShardMap) : Prop :=
  pool_acquire i (mkSt w m None) = Ret (r, mkSt w' m' None).
Lemma wp_pool_acquire ub Q H P L st s o n i :
  live m0 H P L st s o n → (i < length (shards m0))%nat →
  (∀ w' m', acquires i (st_world st) (st_map st) None w' m' →
     live m0 H P L (mkSt w' m' (Some s)) s o n → Q None (mkSt w' m' (Some s))) →
  (∀ w' m' c, acquires i (st_world st) (st_map st) (Some c) w' m' →
     live m0 ((i, c) :: H) P L (mkSt w' m' (Some s)) s o n →
     Q (Some c) (mkSt w' m' (Some s))) →
  wp ub (pool_acquire i) Q st.
Proof.
  intros Hlv Hi HN HS. pose proof Hlv as [Hs _ Hm Hr _ _].
  destruct (lookup_lt_is_Some_2 (shards (st_map st)) i) as [sh Hsh];
    [by rewrite (map_like_length _ _ Hm)|].
  destruct (resources_acquire _ _ _ _ _ _ Hr Hsh) as (w' & p' & r & E & Hr').
  assert (acquires i (st_world st) (st_map st) r w'
    (mkShardMap (<[i := set_pool p' sh]> (shards (st_map st))) (table_rules (st_map st))
       (pool_size (st_map st)))) as Ha.
  { unfold acquires, pool_acquire, on_pool. cbn [st_map st_world st_session]. rewrite Hsh.
    cbn [deref_opt mbind res_bind]. by rewrite E. }
  unfold wp, pool_acquire, on_pool. rewrite Hsh. cbn [deref_opt mbind res_bind]. rewrite E.
  cbn [mbind res_bind].
  assert (unseen (st_world st) w') as Hu.
  { destruct (unseen_keeps (st_world st)) as [Ho Hc].
    eapply (acquire_keeps (unseen (st_world st))); [exact Ho|exact Hc|exact E|done]. }
  rewrite Hs. destruct r as [c|].
  - apply HS; [done|]. eapply live_world; [exact Hlv|done|by apply map_like_insert|]. simpl.
    destruct Hr' as [_ Hr']. eapply resources_proper; [|reflexivity|exact Hr']. solve_Permutation.
  - apply HN; [done|]. eapply live_world; [exact Hlv|done|by apply map_like_insert|done].
Qed.

Definition with_backend (i : option nat) (c : PGconn) (ev : EventHandler) s : ClientSession :=
  set_backend_ev ev (set_backend_shard i (set_backend_conn (Some c) s)).
Lemma given_in i c (h H : list (nat * PGconn)) (p P : list PGconn) :
  c ∈ (h ++ with_held i c H).*2 ++ p ++ with_priv i c P.
Proof.
  rewrite fmap_app, !elem_of_app. destruct i; simpl; [left; right|right; right]; apply elem_of_cons; by left.
Qed.
Lemma wp_register_backend ub Q H P L st s o n i c :
  live m0 (with_held i c H) (with_priv i c P) L st s o n →
  backend_conn s = None →
  (∀ w' ev, let s' := with_backend i c ev s in
     live m0 H P L (mkSt w' (st_map st) (Some s')) s' o n →
     waits_for session_on_backend_readable_cb EPOLLIN ev →
     Q tt (mkSt w' (st_map st) (Some s'))) →
  wp ub (register_backend c i) Q st.
Proof.
  intros Hlv Hc HQ. destruct st as [w m ss]. pose proof (lv_session _ _ _ _ _ _ _ _ Hlv) as Es.
  simpl in Es. subst ss.
  assert (∀ w', quiet w w' → ∀ ev, live m0 H P L (mkSt w' m (Some (with_backend i c ev s)))
    (with_backend i c ev s) o n) as Hlv'.
  { intros w' (Hl & Hg & Hs) ev. destruct Hlv as [_ [Hb Hsc] Hm Hr Hlog (l & Hlb & Hp & Hn & Ho)].
    split; simpl in *; [done|split; [done|by destruct Hsc]|done| |congruence|].
    - eapply resources_frame; [|exact Hl]. eapply resources_proper; [..|exact Hr];
        unfold held, conn_held, priv; simpl; rewrite ?Hc, ?(Hb Hc); destruct i; simpl; solve_Permutation.
    - exists l. by rewrite Hs. }
  unfold register_backend, pq_do, pq_get. apply wp_bind. apply wp_pq.
  { eapply resources_live; [apply (lv_res _ _ _ _ _ _ _ _ Hlv)|apply given_in]. }
  apply wp_bind. eapply wp_modify; [done|]. apply wp_bind.
  pose proof (quiet_setnonblocking w c) as Hq. cbn [st_world st_map fst snd] in *.
  apply wp_pq.
  { destruct Hq as [Hl _]. cbn [st_world]. rewrite Hl. eapply resources_live; [apply (lv_res _ _ _ _ _ _ _ _ Hlv)|apply given_in]. }
  cbn [st_world st_map fst snd st_session]. apply wp_bind, wp_sys.
  set (ev := mkEventHandler _ _ _). cbn [st_world st_map st_session].
  pose proof (quiet_add (PQsetnonblocking w c) ev EPOLLIN) as Hqa.
  pose proof (event_loop_add_handler (PQsetnonblocking w c) ev EPOLLIN) as Hev.
  destruct (event_loop_add _ ev EPOLLIN) as [w2 [ev' rc]]. simpl in *. subst ev'.
  eapply wp_modify; [done|]. apply HQ; [|done]. apply Hlv'. by eapply quiet_trans.
Qed.
Lemma wp_connect_to_shard ub Q H P L st s o n i :
  live m0 H P L st s o n → (i < length (shards m0))%nat → backend_conn s = None →
  (∀ w' m', live m0 H P L (mkSt w' m' (Some s)) s o n → Q (-1) (mkSt w' m' (Some s))) →
  (∀ w' m' c ev, let s' := with_backend (Some i) c ev s in
     live m0 H P L (mkSt w' m' (Some s')) s' o n →
     waits_for session_on_backend_readable_cb EPOLLIN ev → Q 0 (mkSt w' m' (Some s'))) →
  wp ub (connect_to_shard i) Q st.
Proof.
  intros Hlv Hi Hc HN HS. apply wp_bind. eapply wp_pool_acquire; [exact Hlv|done|..].
  - intros w' m' _ Hlv'. apply wp_ret. by apply HN.
  - intros w' m' c _ Hlv'. apply wp_bind. eapply (wp_register_backend _ _ H P L _ s o n (Some i) c);
      [exact Hlv'|done|]. intros w2 ev s' Hlv2 Hev. apply wp_ret. by apply HS.
Qed.
Lemma wp_open_default ub Q H P L st s o n ci :
  live m0 H P L st s o n → backend_conn s = None → backend_conninfo s = Some ci →
  (∀ w' m', live m0 H P L (mkSt w' m' (Some s)) s o n → Q (-1) (mkSt w' m' (Some s))) →
  (∀ w' m' c ev, let s' := with_backend None c ev s in
     live m0 H P L (mkSt w' m' (Some s')) s' o n →
     waits_for session_on_backend_readable_cb EPOLLIN ev → Q 0 (mkSt w' m' (Some s'))) →
  wp ub open_default Q st.
Proof.
  intros Hlv Hc Hci HN HS. apply wp_bind. eapply wp_session_live; [exact Hlv|].
  apply wp_bind. eapply wp_lift; [by rewrite Hci|]. apply wp_bind, wp_sys.
  pose proof Hlv as [Hs _ _ Hr _ _].
  pose proof (resources_open _ _ _ _ ci Hr) as Hr1. pose proof (connectdb_live (st_world st) ci) as Hl1.
  destruct (unseen_keeps (st_world st)) as [Ho Hf]. specialize (Ho (st_world st) ci).
  destruct (PQconnectdb (st_world st) ci) as [w1 c]. cbn [fst snd] in *. rewrite Hs.
  assert (live m0 H (c :: P) L (mkSt w1 (st_map st) (Some s)) s o n) as Hlv1.
  { eapply live_world; [exact Hlv|by apply Ho|done|]. eapply resources_proper; [reflexivity| |exact Hr1].
    solve_Permutation. }
  unfold pq_get, pq_do. apply wp_bind, wp_pq; [cbn [st_world]; set_solver|].
  cbn [fst snd st_world st_map st_session]. case_decide.
  - apply wp_bind. eapply (wp_register_backend _ _ H P L _ s o n None c); [exact Hlv1|done|].
    intros w2 ev s' Hlv2 Hev. apply wp_ret. by apply HS.
  - apply wp_bind, wp_pq; [cbn [st_world]; set_solver|]. cbn [fst snd st_world st_map st_session].
    apply wp_bind. eapply wp_modify; [done|]. apply wp_ret. cbn [st_world st_map].
    assert (set_backend_conn None s = s) as -> by (rewrite <- Hc; by destruct s). apply HN.
    eapply live_world; [exact Hlv|apply Hf; by apply Ho|done|]. apply resources_close.
    eapply resources_proper; [reflexivity| |exact Hr1]. solve_Permutation.
Qed.

(** [s'] is [s] up to its backend connection. *)
Definition rebound s s' : Prop :=
  s' = set_backend_ev (backend_ev s')
         (set_backend_shard (backend_shard s') (set_backend_conn (backend_conn s') s)).
#[local] Instance rebound_refl : Reflexive rebound.
Proof. intros s. by destruct s. Qed.
Lemma rebound_forget s s' : rebound (forget s) s' → rebound s s'.
Proof. unfold rebound. by intros ->. Qed.

Lemma rebound_with i c ev s : rebound s (with_backend i c ev s).
Proof. by destruct s. Qed.
#[local] Instance rebound_trans : Transitive rebound.
Proof. unfold rebound. intros s1 s2 s3 E1 E2. etrans; [exact E2|]. rewrite E1. done. Qed.

Lemma wp_connect_to_default ub Q H P L st s o n :
  live m0 H P L st s o n → is_Some (backend_conninfo s) →
  (∀ w' m' s', live m0 H P L (mkSt w' m' (Some s')) s' o n → rebound s s' →
     backend_conn s' = None → Q (-1) (mkSt w' m' (Some s'))) →
  (∀ w' m' s' c, live m0 H P L (mkSt w' m' (Some s')) s' o n → rebound s s' →
     backend_conn s' = Some c → (backend_conn s = None → backend_shard s' = None) →
     Q 0 (mkSt w' m' (Some s'))) →
  wp ub connect_to_default Q st.
Proof.
  intros Hlv [ci Hci] HN HS. apply wp_bind. eapply wp_session_live; [exact Hlv|].
  destruct (backend_conn s) as [c|] eqn:Hc.
  - apply wp_bind. eapply wp_pq_live; [exact Hlv|by apply backend_in|done|]. intros Hlv1.
    cbn [fst snd] in *. rewrite (lv_session _ _ _ _ _ _ _ _ Hlv) in *. case_decide.
    + apply wp_ret. by apply (HS _ _ s c).
    + apply wp_bind. eapply wp_forget_backend; [exact Hlv1|done|]. intros w2 m2 Hlv2.
      eapply wp_open_default; [exact Hlv2|done|exact Hci|..].
      * intros w' m' Hlv3. apply HN; [done|by apply rebound_forget|done].
      * intros w' m' c' ev s' Hlv3 _. apply (HS _ _ s' c'); [done|by apply rebound_forget|done|done].
  - eapply wp_open_default; [exact Hlv|done|exact Hci|..].
    + intros w' m' Hlv3. by apply HN.
    + intros w' m' c' ev s' Hlv3 _. by apply (HS _ _ s' c').
Qed.

(** ** Sending a query *)
Definition querying s : ClientSession := set_backend_busy true (set_state SESSION_STATE_QUERY s).
Lemma wp_sendQuery ub Q H P L st s o n c sql :
  live m0 H P L st s o n → c ∈ (held s).*2 ++ priv s →
  (∀ w', (PQsendQuery (st_world st) c sql).2 = false →
     live m0 H P L (mkSt w' (st_map st) (Some s)) s o n → Q false (mkSt w' (st_map st) (Some s))) →
  (∀ w', live m0 H P (L ++ [(c, sql)]) (mkSt w' (st_map st) (Some s)) s o n →
     Q true (mkSt w' (st_map st) (Some s))) →
  wp ub (pq c (λ w, PQsendQuery w c sql)) Q st.
Proof.
  intros Hlv Hin HN HS. apply wp_pq; [by eapply live_conn|].
  destruct Hlv as [Hs Hwf Hm Hr Hlog (l & Hl & Hp & Hn & Ho)]. rewrite Hs.
  pose proof (sendQuery_log (st_world st) c sql) as Hg. pose proof (sendQuery_live (st_world st) c sql).
  destruct (PQsendQuery (st_world st) c sql).2; [apply HS|apply HN; [done|]];
    (split; cbn [st_world st_map st_session];
     [done|done|done|by eapply resources_frame|rewrite Hg, Hlog, ?app_nil_r; done|]);
    exists l; by rewrite sendQuery_sent.
Qed.
Lemma wp_start_query ub Q H P L st s o n c sql :
  live m0 H P L st s o n → backend_conn s = Some c →
  (∀ w', (PQsendQuery (st_world st) c sql).2 = false →
     live m0 H P L (mkSt w' (st_map st) (Some s)) s o n → Q false (mkSt w' (st_map st) (Some s))) →
  (∀ w', live m0 H P (L ++ [(c, sql)]) (mkSt w' (st_map st) (Some (querying s))) (querying s) o n →
     Q true (mkSt w' (st_map st) (Some (querying s)))) →
  wp ub (start_query c sql) Q st.
Proof.
  intros Hlv Hc HN HS. pose proof (backend_in s c Hc) as Hin. apply wp_bind.
  eapply wp_sendQuery; [exact Hlv|done|..]; [intros w' E Hlv1|intros w' Hlv1].
  - apply wp_ret. by apply HN.
  - apply wp_bind. eapply wp_pq_live; [exact Hlv1|done|apply quiet_flush|]. intros Hlv2.
    apply wp_bind. eapply wp_modify_alike; [exact Hlv2|eauto with sharegres|]. intros Hlv3. apply wp_ret. by apply HS.
Qed.
(** Why [execute_single] fails: the connection of the session goes to another shard and is
    given up, then no connection can be had; or libpq does not accept the query. *)
Definition settled (st st1 : St W) (i : option nat) : Prop :=
  ∃ s, st_session st = Some s ∧
  match backend_conn s with
  | Some c => if decide (backend_shard s = i) then st1 = st else forget_backend c st = Ret (tt, st1)
  | None => st1 = st
  end.
Definition link (i : option nat) : M W Z :=
  match i with Some i => connect_to_shard i | None => connect_to_default end.
Inductive refused (sql : bytes) (i : option nat) (st : St W) : Prop :=
| refused_connection st1 st2 :
    settled st st1 i → link i st1 = Ret (-1, st2) → refused sql i st
| refused_query st1 st2 s c :
    settled st st1 i → st2 = st1 ∨ link i st1 = Ret (0, st2) →
    st_session st2 = Some s → backend_conn s = Some c →
    (PQsendQuery (st_world st2) c sql).2 = false → refused sql i st.
(** The last part: the session has a connection. *)
Lemma wp_ask ub Q H P L st0 st1 st s0 s o n sql i :
  live m0 H P L st s o n → rebound s0 s → is_Some (backend_conn s) → backend_shard s = i →
  settled st0 st1 i → st = st1 ∨ link i st1 = Ret (0, st) →
  (∀ w' m' s', live m0 H P L (mkSt w' m' (Some s')) s' o n → rebound s0 s' →
     refused sql i st0 → Q (-1) (mkSt w' m' (Some s'))) →
  (∀ w' m' s1 c, let s' := querying s1 in
     live m0 H P (L ++ [(c, sql)]) (mkSt w' m' (Some s')) s' o n → rebound s0 s1 →
     backend_conn s1 = Some c → backend_shard s1 = i → Q 0 (mkSt w' m' (Some s'))) →
  wp ub (s ← the_session; c ← lift (deref_opt (backend_conn s));
    ok ← start_query c sql; mret (if ok : bool then 0 else -1)) Q st.
Proof.
  intros Hlv Hrb [c Hc] Hs Hset Hlink HN HS. apply wp_bind. eapply wp_session_live; [exact Hlv|].
  apply wp_bind. eapply wp_lift; [by rewrite Hc|]. apply wp_bind.
  eapply wp_start_query; [exact Hlv|done|..]; [intros w' E Hlv3|intros w' Hlv3]; apply wp_ret;
    [|by apply (HS _ _ s c)].
  apply HN; [done|done|]. eapply refused_query; [done|done|apply Hlv|done|done].
Qed.
(** The session has no connection of another shard. *)
Lemma wp_link_and_ask ub Q H P L st st1 s s1 o n sql i :
  live m0 H P L st1 s1 o n → rebound s s1 → is_Some (backend_conninfo s1) → settled st st1 i →
  (backend_conn s1 = None ∨ backend_shard s1 = i) →
  (∀ j, i = Some j → (j < length (shards m0))%nat) →
  (∀ w' m' s', live m0 H P L (mkSt w' m' (Some s')) s' o n → rebound s s' →
     refused sql i st → Q (-1) (mkSt w' m' (Some s'))) →
  (∀ w' m' s1 c, let s' := querying s1 in
     live m0 H P (L ++ [(c, sql)]) (mkSt w' m' (Some s')) s' o n → rebound s s1 →
     backend_conn s1 = Some c → backend_shard s1 = i → Q 0 (mkSt w' m' (Some s'))) →
  wp ub (s ← the_session;
    rc ← match backend_conn s, i with
         | Some _, _ => mret 0 | None, Some i => connect_to_shard i | None, None => connect_to_default
         end;
    if decide (rc < 0) then mret (-1)
    else
      s ← the_session; c ← lift (deref_opt (backend_conn s));
      ok ← start_query c sql; mret (if ok : bool then 0 else -1)) Q st1.
Proof.
  intros Hlv1 Hrb Hci1 Hset Hsh Hi HN HS. apply wp_bind. eapply wp_session_live; [exact Hlv1|]. apply wp_bind.
  destruct (backend_conn s1) as [c|] eqn:Hc.
  { destruct Hsh as [|Hsh]; [done|]. apply wp_ret. eapply wp_ask; [exact Hlv1|exact Hrb|by eexists|done|done|by left|done|done]. }
  destruct i as [j|].
  - apply wp_eq. eapply wp_connect_to_shard; [exact Hlv1|by apply Hi|done|..].
    + intros w' m' Hlv2 E. apply wp_ret. apply HN; [done|done|by eapply refused_connection].
    + intros w' m' c ev s' Hlv2 _ E.
      eapply (wp_ask _ _ _ _ _ st st1 _ s s'); [exact Hlv2| |done|done|done|by right|done|done].
      etrans; [exact Hrb|apply rebound_with].
  - apply wp_eq. eapply wp_connect_to_default; [exact Hlv1|done|..].
    + intros w' m' s' Hlv2 Hr2 _ E. apply wp_ret. apply HN; [done|by etrans|by eapply refused_connection].
    + intros w' m' s' c Hlv2 Hr2 Hc2 Hs2 E.
      eapply (wp_ask _ _ _ _ _ st st1 _ s s');
        [exact Hlv2|by etrans|by eexists|by apply Hs2|done|by right|done|done].
Qed.
Lemma wp_execute_single ub Q H P L st s o n sql i :
  live m0 H P L st s o n → is_Some (backend_conninfo s) →
  (∀ j, i = Some j → (j < length (shards m0))%nat) →
  (∀ w' m' s', live m0 H P L (mkSt w' m' (Some s')) s' o n → rebound s s' →
     refused sql i st → Q (-1) (mkSt w' m' (Some s'))) →
  (∀ w' m' s1 c, let s' := querying s1 in
     live m0 H P (L ++ [(c, sql)]) (mkSt w' m' (Some s')) s' o n → rebound s s1 →
     backend_conn s1 = Some c → backend_shard s1 = i → Q 0 (mkSt w' m' (Some s'))) →
  wp ub (execute_single sql i) Q st.
Proof.
  intros Hlv Hci Hi HN HS. apply wp_bind. eapply wp_session_live; [exact Hlv|]. apply wp_bind.
  pose proof (lv_session _ _ _ _ _ _ _ _ Hlv) as Es.
  destruct (backend_conn s) as [c|] eqn:Hc; [case_decide as Hd|].
  - apply wp_ret. eapply (wp_link_and_ask _ _ _ _ _ st); [exact Hlv|done|done| |by right|done|done|done].
    exists s. by rewrite Hc, decide_True.
  - apply wp_eq. eapply wp_forget_backend; [exact Hlv|done|]. intros w' m' Hlv1 E.
    eapply (wp_link_and_ask _ _ _ _ _ st); [exact Hlv1|by apply rebound_forget|done| |by left|done|done|done].
    exists s. by rewrite Hc, decide_False.
  - apply wp_ret. eapply (wp_link_and_ask _ _ _ _ _ st); [exact Hlv|done|done| |by left|done|done|done].
    exists s. by rewrite Hc.
Qed.

(** ** Error reports *)
Definition report_wire (severity code message : bytes) : bytes :=
  error_response severity code message ++ ready_for_query TXN_IDLE.
Lemma emits_report H P L severity code message :
  emits m0 H P L (report (W := W) severity code message) (report_wire severity code message) tt.
Proof. eapply emits_bind; [apply emits_error|apply emits_ready]. Qed.
Lemma length_report severity code message :
  (length (report_wire severity code message) ≤
   40 + length severity + length code + length message)%nat.
Proof.
  unfold report_wire, error_response, error_payload, ready_for_query.
  rewrite length_app, !length_frame. repeat (rewrite ?length_app, ?length_cstr; cbn [length]). lia.
Qed.

(** ** Scatter queries *)
Lemma held_free s : sess_wf s → scatter_held s = [] → scatter_free s.
Proof.
  intros [_ [_ _ He]] Hh. unfold scatter_free. rewrite Forall_lookup. intros i sc Hi.
  destruct (sc_conn sc) as [c|] eqn:Hc; [|done]. destruct (He _ _ _ Hi Hc) as (_ & [sh Hsh] & _).
  assert ((sh, c) ∈ scatter_held s) as Hin; [|rewrite Hh in Hin; by apply elem_of_nil in Hin].
  apply list_elem_of_omap. exists sc. split; [by eapply list_elem_of_lookup_2|].
  unfold sc_held. by rewrite Hc, Hsh.
Qed.
Definition entered i sc s : ClientSession := set_scatter (<[i := sc]> (scatter s)) s.
Definition entry_ok (sc : ScatterConn) : Prop :=
  sc_conn sc = None ∨ (is_Some (sc_shard sc) ∧ sc_from_pool sc = true).
Lemma entered_wf i sc s :
  sess_wf s → (i < scatter_count s)%nat → entry_ok sc → sess_wf (entered i sc s).
Proof.
  intros [Hb [H1 H2 H3]] Hi Hok. split; [done|].
  split; simpl; [by rewrite length_insert|done|]. intros j x c Hj Hc.
  destruct (decide (j = i)) as [->|].
  - rewrite list_lookup_insert_eq in Hj by lia. simplify_eq. destruct Hok as [|]; [congruence|]. done.
  - rewrite list_lookup_insert_ne in Hj by done. by eapply H3.
Qed.
Lemma entered_twice i sc sc' s : entered i sc' (entered i sc s) = entered i sc' s.
Proof. unfold entered. simpl. by rewrite list_insert_insert_eq. Qed.
Lemma wp_set_entry ub Q st s i sc :
  st_session st = Some s → (i < length (scatter s))%nat →
  Q tt (mkSt (st_world st) (st_map st) (Some (entered i sc s))) →
  wp ub (set_entry i sc) Q st.
Proof.
  intros Hs Hi HQ. apply wp_bind. eapply wp_session; [exact Hs|]. rewrite decide_True by done.
  eapply wp_modify; [exact Hs|exact HQ].
Qed.
(** The connections move between an entry and what is held elsewhere. *)
Lemma live_entered H P L H' st s o n i old new :
  live m0 H' P L st s o n → scatter s !! i = Some old → (i < scatter_count s)%nat → entry_ok new →
  option_list (sc_held new) ++ H ≡ₚ option_list (sc_held old) ++ H' →
  live m0 H P L (mkSt (st_world st) (st_map st) (Some (entered i new s))) (entered i new s) o n.
Proof.
  intros Hlv Hold Hi Hok HH. eapply live_become; [exact Hlv|done|done| |done..|].
  - apply entered_wf; [apply Hlv|done|done].
  - eapply resources_proper; [|reflexivity|apply (lv_res _ _ _ _ _ _ _ _ Hlv)].
    unfold held. rewrite <- !app_assoc. apply (Permutation_app_head (conn_held s)).
    unfold scatter_held, entered. simpl.
    pose proof (omap_insert sc_held _ _ _ new Hold) as Hp.
    apply (Permutation_app_inv_l (option_list (sc_held old) ++ option_list (sc_held new))).
    transitivity ((option_list (sc_held old) ++ omap sc_held (<[i:=new]> (scatter s))) ++
                  (option_list (sc_held new) ++ H)); [solve_Permutation|].
    rewrite <- Hp, HH. solve_Permutation.
Qed.
Lemma wp_scatter_sent ub Q H P L st s o n i sc c :
  live m0 H P L st (entered i sc s) o n → sess_wf s → (i < scatter_count s)%nat →
  sc_conn sc = Some c → is_Some (sc_shard sc) → sc_from_pool sc = true →
  (∀ w' ev, let s' := entered i (set_sc_ev ev sc) s in
     live m0 H P L (mkSt w' (st_map st) (Some s')) s' o n → Q tt (mkSt w' (st_map st) (Some s'))) →
  wp ub
    (_ ← pq_do c (λ w, PQflush w c);
     fd ← pq_get c (λ w, PQsocket w c);
     let ev := mkEventHandler fd 0 (Some session_on_scatter_readable_cb) in
     '(ev, _) ← sys (λ w, event_loop_add w ev EPOLLIN);
     set_entry i (set_sc_ev ev sc)) Q st.
Proof.
  intros Hlv Hwf Hi Hc [sh Hsh] Hfp HQ.
  assert (i < length (scatter s))%nat as Hlen.
  { destruct Hwf as [_ [-> ? _]]. lia. }
  assert (scatter (entered i sc s) !! i = Some sc) as Hlk by (by apply list_lookup_insert_eq).
  pose proof (scatter_in _ i sc c sh Hlk Hc Hsh) as Hin.
  apply wp_bind. eapply wp_pq_live; [exact Hlv|exact Hin|apply quiet_flush|]. intros Hlv1.
  apply wp_bind. eapply wp_pq_live; [exact Hlv1|exact Hin|done|]. cbn [fst snd st_world st_map st_session].
  intros Hlv2. apply wp_bind. eapply wp_sys_live; [exact Hlv2|apply quiet_add|].
  set (ev := mkEventHandler _ _ _). cbn [st_world]. destruct (event_loop_add _ ev EPOLLIN) as [w2 [ev' rc]].
  cbn [fst snd st_world st_map st_session]. intros Hlv3.
  eapply wp_set_entry; [apply (lv_session _ _ _ _ _ _ _ _ Hlv)|simpl; by rewrite length_insert|].
  eapply (live_entered H P L H _ _ _ _ i sc (set_sc_ev ev' sc)) in Hlv3; [|done|done|right; split; [by exists sh|done]|done].
  rewrite entered_twice in *. by apply HQ.
Qed.
Lemma wp_scatter_not_sent ub Q H P L st s o n i sc c sh :
  live m0 H P L st (entered i sc s) o n → sess_wf s → (i < scatter_count s)%nat →
  sc_conn sc = Some c → sc_shard sc = Some sh →
  (∀ w' m', let s' := set_scatter_done (S (scatter_done s))
                        (entered i (set_sc_done true (set_sc_conn None sc)) s) in
     live m0 H P L (mkSt w' m' (Some s')) s' o n → Q tt (mkSt w' m' (Some s'))) →
  wp ub (_ ← pool_release sh c; scatter_failed i (set_sc_conn None sc)) Q st.
Proof.
  intros Hlv Hwf Hi Hc Hsh HQ. set (sc' := set_sc_done true (set_sc_conn None sc)) in *.
  assert (i < length (scatter s))%nat as Hlen.
  { destruct Hwf as [_ [-> ? _]]. lia. }
  assert (scatter (entered i sc s) !! i = Some sc) as Hlk by (by apply list_lookup_insert_eq).
  assert (held (entered i sc s) ++ H ≡ₚ (sh, c) :: held (entered i sc' s) ++ H) as Hperm.
  { pose proof (omap_insert sc_held _ _ _ sc' Hlk) as Hp. unfold entered in Hp. simpl in Hp.
    assert (sc_held sc = Some (sh, c)) as E by (unfold sc_held; by rewrite Hc, Hsh).
    rewrite list_insert_insert_eq, E in Hp. simpl in Hp.
    unfold held. rewrite <- !app_assoc. unfold scatter_held. simpl in *. rewrite Hp.
    solve_Permutation. }
  apply wp_bind.
  eapply (wp_give_back _ (Some sh) c (held (entered i sc' s) ++ H) (priv (entered i sc' s) ++ P)).
  { simpl. eapply resources_proper; [symmetry; exact Hperm|reflexivity|].
    apply (lv_res _ _ _ _ _ _ _ _ Hlv). }
  intros w4 m4 Hm4 Hr4 Hu4. apply wp_bind.
  eapply wp_set_entry; [apply (lv_session _ _ _ _ _ _ _ _ Hlv)|simpl; by rewrite length_insert|].
  rewrite entered_twice. eapply wp_modify; [done|]. apply HQ. cbn [st_world st_map].
  eapply live_become; [exact Hlv|done|done| |done..].
  apply (alike_wf (entered i sc' s)); [done|]. apply entered_wf; [done|done|by left].
Qed.
(** Why a shard takes no part in a scatter query. *)
Definition shard_refused (sql : bytes) (sh : nat) (w : W) (m : ShardMap) : Prop :=
  (∃ w' m', acquires sh w m None w' m') ∨
  ∃ c w' m', acquires sh w m (Some c) w' m' ∧ (PQsendQuery (PQsetnonblocking w' c) c sql).2 = false.
Lemma wp_scatter_start ub Q H P L st s o n sql i sh sc0 :
  live m0 H P L st s o n → scatter s !! i = Some sc0 → sc_conn sc0 = None →
  (i < scatter_count s)%nat → (sh < length (shards m0))%nat →
  (∀ w' m' sc, sc_conn sc = None → shard_refused sql sh (st_world st) (st_map st) →
     let s' := set_scatter_done (S (scatter_done s)) (entered i sc s) in
     live m0 H P L (mkSt w' m' (Some s')) s' o n → Q tt (mkSt w' m' (Some s'))) →
  (∀ w' m' sc c, sc_held sc = Some (sh, c) → sc_done sc = false →
     let s' := entered i sc s in
     live m0 H P (L ++ [(c, sql)]) (mkSt w' m' (Some s')) s' o n → Q tt (mkSt w' m' (Some s'))) →
  wp ub (scatter_start sql i sh) Q st.
Proof.
  intros Hlv Hsc0 Hc0 Hi Hsh HN HS. unfold scatter_start. set (sc := mkScatterConn _ _ _ _ _).
  assert (sc_held sc0 = None) as H0 by (unfold sc_held; by rewrite Hc0).
  pose proof (lookup_lt_Some _ _ _ Hsc0) as Hlen. pose proof (lv_wf _ _ _ _ _ _ _ _ Hlv) as Hwf.
  assert (∀ x, scatter (entered i x s) !! i = Some x) as Hlk by (intros; by apply list_lookup_insert_eq).
  assert (∀ x, (i < length (scatter (entered i x s)))%nat) as Hlen' by (intros; simpl; by rewrite length_insert).
  apply wp_bind. eapply wp_set_entry; [apply Hlv|done|].
  eapply (live_entered H P L H _ _ _ _ i sc0 sc) in Hlv; [|done|done|by left|by rewrite H0].
  apply wp_bind. eapply wp_pool_acquire; [exact Hlv|done|..].
  { intros w1 m1 Ha Hlv1. apply wp_bind. eapply wp_set_entry; [apply Hlv1|done|].
    eapply (live_entered H P L H _ _ _ _ i sc (set_sc_done true sc)) in Hlv1;
      [|apply Hlk|done|by left|done].
    rewrite entered_twice in *. eapply wp_modify_alike; [exact Hlv1|eauto with sharegres|]. intros Hlv2.
    apply (HN _ _ (set_sc_done true sc)); [done|left; by exists w1, m1|done]. }
  intros w1 m1 c Ha Hlv1. set (sc1 := set_sc_from_pool true (set_sc_conn (Some c) sc)).
  apply wp_bind. eapply wp_set_entry; [apply Hlv1|done|].
  eapply (live_entered H P L _ _ _ _ _ i sc sc1) in Hlv1; [|apply Hlk|done|by right|done].
  rewrite entered_twice in *.
  pose proof (scatter_in _ i sc1 c sh (Hlk sc1) eq_refl eq_refl) as Hin.
  apply wp_bind. eapply wp_pq_live; [exact Hlv1|exact Hin|apply quiet_setnonblocking|].
  cbn [fst snd st_world st_map st_session]. intros Hlv2.
  apply wp_bind. eapply wp_sendQuery; [exact Hlv2|exact Hin|..]; cbn [fst snd st_world st_map st_session];
    [intros w3 E Hlv3|intros w3 Hlv3].
  - eapply wp_scatter_not_sent; [exact Hlv3|done|done|done|done|]. intros w' m' s' Hlv4.
    eapply HN; [|right; by exists c, w1, m1|exact Hlv4]. done.
  - eapply wp_scatter_sent; [exact Hlv3|done|done|done|done|done|]. intros w' ev s' Hlv4.
    by eapply (HS w' m1 _ c).
Qed.

(** The queries of a scatter query that holds [h]. *)
Definition queries (sql : bytes) (h : list (nat * PGconn)) : list (PGconn * bytes) :=
  map (λ x, (x.2, sql)) h.
Lemma omap_None {A B} (f : A → option B) (l : list A) : Forall (λ x, f x = None) l → omap f l = [].
Proof. induction 1 as [|x l Hx _ IH]; [done|]. simpl. by rewrite Hx. Qed.
(** The entries from [i] on are free. *)
Definition free_from i s : Prop := Forall (λ sc, sc_conn sc = None) (drop i (scatter s)).
Lemma free_from_held i s : free_from i s → omap sc_held (drop i (scatter s)) = [].
Proof.
  intros Hf. apply omap_None. eapply Forall_impl; [exact Hf|]. intros sc Hsc. unfold sc_held.
  by rewrite Hsc.
Qed.
Lemma free_from_S i s : free_from i s → free_from (S i) s.
Proof.
  unfold free_from. intros Hf. rewrite Forall_lookup in *. intros j x Hx. rewrite lookup_drop in Hx.
  apply (Hf (S j) x). rewrite lookup_drop. by replace (i + S j)%nat with (S i + j)%nat by lia.
Qed.
Lemma free_from_entered i sc s : free_from i s → free_from (S i) (entered i sc s).
Proof. intros Hf%free_from_S. unfold free_from. simpl. by rewrite drop_insert_lt by lia. Qed.
Lemma held_entered i sc s :
  free_from i s → (i < length (scatter s))%nat →
  scatter_held (entered i sc s) = scatter_held s ++ option_list (sc_held sc).
Proof.
  intros Hf Hi. unfold scatter_held. change (scatter (entered i sc s)) with (<[i:=sc]> (scatter s)).
  assert (omap sc_held (scatter s) = omap sc_held (take i (scatter s))) as ->.
  { rewrite <- (take_drop i (scatter s)) at 1. by rewrite omap_app, (free_from_held _ _ Hf), app_nil_r. }
  rewrite insert_take_drop, omap_app by done. f_equal. cbn [omap list_omap].
  rewrite (free_from_held (S i) s) by (by apply free_from_S). by destruct (sc_held sc).
Qed.

(** Target [j] is left out: the loop from [st0] comes to it in a state in which its shard
    gives no connection, or libpq does not accept the query. *)
Definition left_out (sql : bytes) (targets : list nat) (st0 : St W) (j t : nat) : Prop :=
  ∃ st, scatter_start_all sql targets 0 j st0 = Ret (tt, st) ∧
    shard_refused sql t (st_world st) (st_map st).
Definition asked (sql : bytes) (targets : list nat) (st0 : St W) (i : nat) s : Prop :=
  ∀ j t, (j < i)%nat → targets !! j = Some t →
  t ∈ (scatter_held s).*1 ∨ left_out sql targets st0 j t.
Lemma asked_step sql targets st0 i s s' t :
  asked sql targets st0 i s → targets !! i = Some t →
  (scatter_held s).*1 ⊆ (scatter_held s').*1 →
  t ∈ (scatter_held s').*1 ∨ left_out sql targets st0 i t →
  asked sql targets st0 (S i) s'.
Proof.
  intros Ha Ht Hsub Hi j t' Hj Ht'. destruct (decide (j = i)) as [->|]; [by simplify_eq|].
  destruct (Ha j t') as [Hin|]; [lia|done| |by right]. left. by apply Hsub.
Qed.
Lemma scatter_start_all_snoc sql targets k i (st0 st st1 : St W) t u :
  scatter_start_all sql targets i k st0 = Ret (tt, st) → targets !! (i + k)%nat = Some t →
  scatter_start sql (i + k) t st = Ret (u, st1) →
  scatter_start_all sql targets i (S k) st0 = Ret (tt, st1).
Proof.
  revert i st0. induction k as [|k IH]; intros i st0 Ha Ht Hs.
  - injection Ha as <-. rewrite Nat.add_0_r in *. cbn [scatter_start_all].
    rewrite (run_lift _ _ t) by (by rewrite Ht). unfold mbind, M_bind. by rewrite Hs.
  - cbn [scatter_start_all] in Ha. remember (S k) as k' eqn:Ek. cbn [scatter_start_all].
    destruct (targets !! i) as [x|]; [|done].
    rewrite (run_lift (deref_opt (Some x)) _ x st0 eq_refl) in Ha.
    rewrite (run_lift (deref_opt (Some x)) _ x st0 eq_refl). unfold mbind, M_bind in Ha |- *.
    destruct (scatter_start sql i x st0) as [[y st2]| |]; [|done..]. subst k'.
    apply IH; [done|by rewrite <- Ht; f_equal; lia|by replace (S i + k)%nat with (i + S k)%nat by lia].
Qed.
(** The entry that the loop is about to fill in. *)
Lemma free_entry i s :
  (i < length (scatter s))%nat → free_from i s → ∃ sc, scatter s !! i = Some sc ∧ sc_conn sc = None.
Proof.
  intros Hi Hfree. destruct (lookup_lt_is_Some_2 _ _ Hi) as [sc Hsc]. exists sc. split; [done|].
  unfold free_from in Hfree. rewrite Forall_lookup in Hfree. apply (Hfree 0%nat). by rewrite lookup_drop, Nat.add_0_r.
Qed.
Lemma wp_scatter_start_all ub Q H P L o n sql targets st0 k :
  Forall (λ t, (t < length (shards m0))%nat) targets →
  ∀ i st s,
  scatter_start_all sql targets 0 i st0 = Ret (tt, st) → asked sql targets st0 i s →
  live m0 H P (L ++ queries sql (scatter_held s)) st s o n →
  (i + k = scatter_count s)%nat → scatter_count s = length targets → free_from i s →
  (scatter_done s + length (scatter_held s) = i)%nat →
  (scatter_held s).*1 `sublist_of` take i targets →
  (∀ w' m' l d, let s' := set_scatter_done d (set_scatter l s) in
     live m0 H P (L ++ queries sql (scatter_held s')) (mkSt w' m' (Some s')) s' o n →
     (d + length (scatter_held s') = scatter_count s)%nat →
     (scatter_held s').*1 `sublist_of` targets → asked sql targets st0 (length targets) s' →
     Q tt (mkSt w' m' (Some s'))) →
  wp ub (scatter_start_all sql targets i k) Q st.
Proof.
  intros Ht. induction k as [|k IH]; intros i st s Hrun Hask Hlv Hik Hcnt Hfree Hdone Hsub HQ.
  { apply wp_ret. pose proof (lv_session _ _ _ _ _ _ _ _ Hlv) as Es. destruct st as [w m ss].
    simpl in Es. subst ss. specialize (HQ w m (scatter s) (scatter_done s)).
    assert (set_scatter_done (scatter_done s) (set_scatter (scatter s) s) = s) as E by (by destruct s).
    rewrite E in HQ. apply HQ; [done|lia|by rewrite take_ge in Hsub by lia|].
    by replace (length targets) with i by lia. }
  cbn [scatter_start_all]. apply wp_bind.
  destruct (lookup_lt_is_Some_2 targets i) as [sh Hsh]; [lia|].
  eapply wp_lift; [by rewrite Hsh|]. apply wp_bind.
  destruct (lv_wf _ _ _ _ _ _ _ _ Hlv) as [_ [Hlen Hmax _]].
  destruct (free_entry i s) as (sc0 & Hsc0 & Hc0); [lia|done|].
  pose proof (lookup_lt_Some _ _ _ Hsc0) as Hi.
  pose proof (take_S_r _ _ _ Hsh) as Htake.
  apply wp_eq. eapply wp_scatter_start; [exact Hlv|exact Hsc0|done|lia| |..].
  { rewrite Forall_lookup in Ht. by eapply Ht. }
  - intros w' m' sc Hsc Href s' Hlv' Erun.
    assert (scatter_held s' = scatter_held s) as Hh.
    { change (scatter_held s') with (scatter_held (entered i sc s)).
      rewrite held_entered by done. unfold sc_held. by rewrite Hsc, app_nil_r. }
    eapply (IH (S i) _ s'); rewrite ?Hh.
    + by eapply (scatter_start_all_snoc sql targets i 0).
    + eapply asked_step; [exact Hask|done|by rewrite Hh|]. right. by exists st.
    + exact Hlv'.
    + simpl; lia.
    + done.
    + by apply (free_from_entered i sc s).
    + simpl; lia.
    + rewrite Htake. by apply sublist_inserts_r.
    + exact HQ.
  - intros w' m' sc c Hsc _ s' Hlv' Erun.
    assert (scatter_held s' = scatter_held s ++ [(sh, c)]) as Hh.
    { unfold s'. rewrite held_entered by done. by rewrite Hsc. }
    eapply (IH (S i) _ s'); rewrite ?Hh.
    + by eapply (scatter_start_all_snoc sql targets i 0).
    + eapply asked_step; [exact Hask|done|rewrite Hh, fmap_app; set_solver|].
      left. rewrite Hh, fmap_app, elem_of_app. right. by apply list_elem_of_singleton.
    + unfold queries in *. rewrite map_app, app_assoc. exact Hlv'.
    + simpl; lia.
    + done.
    + by apply (free_from_entered i sc s).
    + rewrite length_app. simpl. lia.
    + rewrite Htake, fmap_app. simpl. by apply sublist_app.
    + exact HQ.
Qed.

(** [execute_scatter] on [targets]. *)
Definition begun (count : nat) st : St W :=
  mkSt (st_world st) (st_map st)
    ((λ s, set_scatter_header_sent false (set_scatter_done 0 (set_scatter_count count s))) <$> st_session st).
(** The session as the loop over the shards finds it. *)
Lemma begun_live H P L st s o n k :
  live m0 H P L st s o n → scatter_free s → (k ≤ MAX_SCATTER_SHARDS)%nat →
  let s1 := set_scatter_header_sent false (set_scatter_done 0 (set_scatter_count k s)) in
  begun k st = mkSt (st_world st) (st_map st) (Some s1) ∧ live m0 H P L (begun k st) s1 o n ∧
  scatter_held s1 = [].
Proof.
  intros Hlv Hfree Hk s1. unfold begun. rewrite (lv_session _ _ _ _ _ _ _ _ Hlv).
  split; [done|]. split; [|by apply scatter_free_held]. eapply live_set; [exact Hlv| |done..].
  destruct (lv_wf _ _ _ _ _ _ _ _ Hlv) as [Hb [H1 H2 H3]]. split; [done|split; [done|done|]].
  intros j sc c Hj Hc. unfold scatter_free in Hfree. rewrite Forall_lookup in Hfree.
  by rewrite (Hfree _ _ Hj) in Hc.
Qed.
Lemma wp_execute_scatter ub Q H P L st s o n sql targets :
  live m0 H P L st s o (n + 256) → 0 ≤ n → scatter_free s →
  Forall (λ t, (t < length (shards m0))%nat) targets → (length targets ≤ MAX_SCATTER_SHARDS)%nat →
  (∀ w' m' s', let out := report_wire (bs "ERROR") (bs "08001") (bs "all scatter connections failed") in
     live m0 H P L (mkSt w' m' (Some s')) s' (o ++ out) n → untouched s s' → same_backend s s' →
     state s' = SESSION_STATE_READY → scatter_free s' → ev_handler s' = ev_handler s →
     (∀ j t, targets !! j = Some t → left_out sql targets (begun (length targets) st) j t) →
     Q 0 (mkSt w' m' (Some s'))) →
  (∀ w' m' s', live m0 H P (L ++ queries sql (scatter_held s')) (mkSt w' m' (Some s')) s' o n →
     untouched s s' → same_backend s s' → state s' = SESSION_STATE_SCATTER →
     (scatter_held s').*1 `sublist_of` targets → scatter_held s' ≠ [] →
     scatter_count s' = length targets →
     (scatter_done s' + length (scatter_held s') = length targets)%nat →
     scatter_header_sent s' = false → ev_handler s' = ev_handler s →
     asked sql targets (begun (length targets) st) (length targets) s' →
     Q 0 (mkSt w' m' (Some s'))) →
  wp ub (execute_scatter sql targets (length targets)) Q st.
Proof.
  intros Hlv Hn Hfree Ht Hmax HE HS. unfold execute_scatter. rewrite decide_False by lia.
  apply wp_bind. eapply wp_modify; [apply (lv_session _ _ _ _ _ _ _ _ Hlv)|].
  destruct (begun_live _ _ _ _ _ _ _ (length targets) Hlv Hfree Hmax) as (Ebeg & Hlv1 & Hh1).
  set (s1 := set_scatter_header_sent false (set_scatter_done 0 (set_scatter_count (length targets) s))) in *.
  rewrite Ebeg in Hlv1. rewrite <- (app_nil_r L) in Hlv1. change [] with (queries sql []) in Hlv1. rewrite <- Hh1 in Hlv1.
  apply wp_bind. eapply (wp_scatter_start_all _ _ _ _ _ _ _ _ _ (begun (length targets) st));
    [exact Ht|by rewrite Ebeg|intros j t Hj; lia|exact Hlv1|done|done| | | |].
  { unfold free_from. rewrite drop_0. exact Hfree. }
  { by rewrite Hh1. }
  { by rewrite Hh1. }
  intros w' m' l d s2 Hlv2 Hd Hsub Hask. apply wp_bind. eapply wp_session_live; [exact Hlv2|].
  case_decide as Hall; cbn [scatter_done set_scatter_done s2] in Hall.
  - assert (scatter_held s2 = []) as Hh2 by (apply nil_length_inv; simpl in *; lia).
    rewrite Hh2, app_nil_r in Hlv2. refine (proj1 (wp_assoc _ _ (λ _, ready_idle) _ _ _) _). apply wp_bind.
    eapply (emits_report H P L (bs "ERROR") (bs "08001") _ _ _ _ s2 o n); [|done|].
    { eapply live_room; [exact Hlv2|].
      pose proof (length_report (bs "ERROR") (bs "08001") (bs "all scatter connections failed")) as Hl.
      vm_compute (length (bs _)) in Hl. lia. }
    intros b Hlv3. apply wp_bind. eapply wp_modify_alike; [exact Hlv3|eauto with sharegres|].
    cbn [st_world st_map]. intros Hlv4. apply wp_ret. eapply HE; [exact Hlv4|done|done|done| |done|].
    + apply (held_free s2); [by apply Hlv2|done].
    + intros j t Hj. destruct (Hask j t) as [Hin|]; [by eapply lookup_lt_Some|done| |done].
      rewrite Hh2 in Hin. by apply elem_of_nil in Hin.
  - apply wp_bind. eapply wp_modify_alike; [exact Hlv2|eauto with sharegres|].
    cbn [st_world st_map]. intros Hlv3. apply wp_ret. eapply HS.
    1: eapply live_room; [exact Hlv3|lia].
    all: try done.
    intros E. change (scatter_held s2 = []) in E. rewrite E in Hd. simpl in *. lia.
Qed.
End frontend.
