(* ===== verification/QuerySpec.v ===== *)
(** * What a query of the client leads to

    [handle_query] of [fe_protocol.c]: the statement is parsed and routed, and either sent
    to the shard or shards of the decision, or answered by the proxy. *)
From S2P Require Import Prelude Memory LibPQ Pool ShardMap Resources Parser Router Keys Sql Message Event.
From S2P Require Import Session Wp SessionSpec Backend Wire BackendSpec ScatterSpec Frontend FrontendSpec.
#[local] Set Warnings "-clear-no-such-hyp".
#[local] Open Scope Z_scope.
#[local] Arguments be_encode : simpl never.

Lemma map_like_wf m m' : map_like m m' → map_wf m → map_wf m'.
Proof.
  intros Hl. pose proof (map_like_length _ _ Hl) as Hlen. destruct Hl as [Hr _ _].
  unfold map_wf, rule_wf. by rewrite Hr, Hlen.
Qed.
Lemma map_like_columns m m' : map_like m m' → columns_set m → columns_set m'.
Proof. intros [Hr _ _]. unfold columns_set. by rewrite Hr. Qed.

(** The targets of a scatter are the shards of a rule. *)
Lemma scatter_from_rule pg map sql d :
  map_wf map → route_sql pg map sql = Ret (Some d) → route_type d = ROUTE_SCATTER →
  ∃ rule, rule ∈ table_rules map ∧ target_shards d = rule_shards rule.
Proof.
  intros Hm. unfold route_sql. destruct (parse_query pg sql) as [[rc p]| |]; try done. cbn [mbind res_bind].
  case_decide; [done|]. rewrite (router_decide_class map p Hm). intros E Ht.
  assert (∀ rule, classify map p = Scatter rule ∨ classify map p = ByKey rule → rule ∈ table_rules map) as Hin.
  { unfold classify. intros rule Hc. destruct (table_name p) as [t|] eqn:Etn; cbn [mbind option_bind] in Hc.
    2: by destruct (stmt_type p), Hc.
    destruct (rule_of map t) as [r|] eqn:Er; [|by destruct (stmt_type p), Hc].
    destruct (rule_of_Some map t r Er) as [Hr _]. assert (r = rule) as <-; [|done].
    destruct (broadcast r || _), (stmt_type p), Hc as [Hc|Hc]; congruence. }
  destruct (classify map p) as [| |rule|rule]; cbn [mbind res_bind] in E; try (by injection E as <-).
  - injection E as <-. exists rule. split; [apply Hin; by left|done].
  - destruct (insert_pass rule p) as [p'| |]; try done. cbn [mbind res_bind] in E. case_decide; [done|].
    injection E as <-. exists rule. split; [apply Hin; by right|].
    unfold decide_rule in *. by repeat case_match.
Qed.

Section query.
Context {W : Type} {PQ : LibPQ W} {Os : OS W} {Laws : LibPQLaws W} {OLaws : OSLaws W}.
Context (m0 : ShardMap) (pg : bytes → option bytes).
Implicit Types (st : St W) (s : ClientSession) (o : bytes) (n : Z) (ub : Prop)
  (H : list (nat * PGconn)) (P : list PGconn) (L : list (PGconn * bytes)).

(** The fields that no query changes. *)
Definition fixed s s' : Prop := untouched s s' ∧ ev_handler s' = ev_handler s.
Lemma rebound_fixed s s' : rebound s s' → fixed s s' ∧ state s' = state s ∧ scatter s' = scatter s.
Proof. unfold rebound. intros E. by rewrite E. Qed.

(** Without a shard map every statement goes to the default backend. *)
Definition unsharded st s : Prop := has_shard_map s = false ∨ shards (st_map st) = [].
(** [decided st sql d]: the decision for [sql]. *)
Definition decided st sql (d : RouteDecision) : Prop := route_sql pg (st_map st) sql = Ret (Some d).

(** The error the client gets when a statement cannot be run, and the reason. *)
Inductive fails st (sql : bytes) s : bytes → bytes → bytes → Prop :=
| fails_syntax :
    route_sql pg (st_map st) sql = Ret None →
    fails st sql s (bs "ERROR") (bs "42601") (bs "syntax error in query")
| fails_single d i :
    decided st sql d → route_type d = ROUTE_SINGLE → target_shards d = [i] → refused sql (Some i) st →
    fails st sql s (bs "ERROR") (bs "08001") (bs "cannot connect to shard")
| fails_default d :
    decided st sql d → route_type d = ROUTE_DEFAULT → refused sql None st →
    fails st sql s (bs "ERROR") (bs "08001") (bs "cannot connect to default backend")
| fails_scatter d :
    decided st sql d → route_type d = ROUTE_SCATTER →
    (∀ j t, target_shards d !! j = Some t →
       left_out sql (target_shards d) (begun (length (target_shards d)) st) j t) →
    fails st sql s (bs "ERROR") (bs "08001") (bs "all scatter connections failed")
| fails_connect st1 :
    unsharded st s → connect_to_default st = Ret (-1, st1) →
    fails st sql s (bs "FATAL") (bs "08001") (bs "cannot connect to backend")
| fails_send st1 c :
    unsharded st s → connect_to_default st = Ret (0, st1) →
    (PQsendQuery (st_world st1) c sql).2 = false →
    fails st sql s (bs "ERROR") (bs "XX000") (PQerrorMessage (PQsendQuery (st_world st1) c sql).1 c).

(** [runs st sql s L out s']: the statement [sql] has been dealt with: the queries [L]
    have been sent and the client gets [out]. *)
Inductive runs st (sql : bytes) s :
  list (PGconn * bytes) → bytes → ClientSession → Prop :=
| runs_single d i c s' :
    decided st sql d → route_type d = ROUTE_SINGLE → target_shards d = [i] →
    backend_conn s' = Some c → backend_shard s' = Some i → state s' = SESSION_STATE_QUERY →
    scatter_free s' → runs st sql s [(c, sql)] [] s'
| runs_default d c s' :
    decided st sql d → route_type d = ROUTE_DEFAULT →
    backend_conn s' = Some c → backend_shard s' = None → state s' = SESSION_STATE_QUERY →
    scatter_free s' → runs st sql s [(c, sql)] [] s'
| runs_unsharded c s' :
    unsharded st s → backend_conn s' = Some c → state s' = SESSION_STATE_QUERY →
    scatter_free s' → runs st sql s [(c, sql)] [] s'
| runs_scatter d s' :
    decided st sql d → route_type d = ROUTE_SCATTER →
    (scatter_held s').*1 `sublist_of` target_shards d → scatter_held s' ≠ [] →
    (scatter_done s' + length (scatter_held s') = scatter_count s')%nat →
    scatter_count s' = length (target_shards d) → scatter_header_sent s' = false →
    same_backend s s' → state s' = SESSION_STATE_SCATTER →
    asked sql (target_shards d) (begun (length (target_shards d)) st) (length (target_shards d)) s' →
    runs st sql s (queries sql (scatter_held s')) [] s'
| runs_local d s' :
    decided st sql d → route_type d = ROUTE_LOCAL →
    same_backend s s' → state s' = state s → scatter_free s' →
    runs st sql s [] (command_complete (bs "SET") ++ ready_for_query TXN_IDLE) s'
| runs_error severity code message s' :
    fails st sql s severity code message →
    (state s' = state s ∨ state s' = SESSION_STATE_READY) → scatter_free s' →
    runs st sql s [] (report_wire severity code message) s'.

(** The result -1 makes the caller end the session. *)
Definition too_many st sql : Prop :=
  ∃ d, decided st sql d ∧ route_type d = ROUTE_SCATTER ∧
    (MAX_SCATTER_SHARDS < length (target_shards d))%nat.
Definition ran H P L st0 sql s o n (rc : Z) st : Prop :=
  (rc = -1 ∧ too_many st0 sql ∧
   ∃ s', live m0 H P L st s' o n ∧ fixed s s' ∧ state s' = state s ∧ scatter_free s') ∨
  (rc = 0 ∧ ∃ L' out s', runs st0 sql s L' out s' ∧
     live m0 H P (L ++ L') st s' (o ++ out) n ∧ fixed s s').

Lemma wp_report ub Q H P L st s o n sev code msg :
  live m0 H P L st s o (n + 2 ^ 49) → 0 ≤ n → Z.of_nat (length (sev ++ code ++ msg)) ≤ 2 ^ 48 + 256 →
  (∀ b, let s' := set_send_buf b s in let st' := mkSt (st_world st) (st_map st) (Some s') in
     live m0 H P L st' s' (o ++ report_wire sev code msg) n → Q 0 st') →
  wp ub (_ ← report sev code msg; mret 0) Q st.
Proof.
  intros Hlv Hn Hl HQ. apply wp_bind. rewrite !length_app in Hl.
  pose proof (length_report sev code msg) as Hr.
  eapply (emits_report m0 H P L sev code msg _ _ _ s o n); [eapply live_room; [exact Hlv|lia]|done|].
  intros b Hlv1. apply wp_ret. by apply HQ.
Qed.

(** ** Running a decision *)
Lemma ran_error H P L st0 st sql s s1 o n b sev code msg :
  fails st0 sql s sev code msg → fixed s s1 → state s1 = state s → scatter_free s1 →
  let s' := set_send_buf b s1 in
  live m0 H P L st s' (o ++ report_wire sev code msg) n →
  ran H P L st0 sql s o n 0 st.
Proof.
  intros Hf Hfx Hst Hfree s' Hlv. right. split; [done|]. exists [], (report_wire sev code msg), s'.
  rewrite app_nil_r. split_and!; [|done|done..]. apply runs_error; [done|by left|done].
Qed.
Lemma wp_run_single ub Q H P L st s o n sql (i : option nat) sev code msg :
  live m0 H P L st s o (n + 2 ^ 49) → 0 ≤ n → is_Some (backend_conninfo s) → scatter_free s →
  (∀ j, i = Some j → (j < length (shards m0))%nat) →
  (refused sql i st → fails st sql s sev code msg) → Z.of_nat (length (sev ++ code ++ msg)) ≤ 2 ^ 48 + 256 →
  (∀ c s', backend_conn s' = Some c → backend_shard s' = i → state s' = SESSION_STATE_QUERY →
     scatter_free s' → runs st sql s [(c, sql)] [] s') →
  (∀ rc st', ran H P L st sql s o n rc st' → Q rc st') →
  wp ub (rc ← execute_single sql i;
         if decide (rc < 0) then _ ← report sev code msg; mret 0 else mret rc) Q st.
Proof.
  intros Hlv Hn Hci Hfree Hi Hf Hlen Hruns HQ. apply wp_bind.
  eapply wp_execute_single; [exact Hlv|done|exact Hi|..].
  - intros w' m' s1 Hlv1 Hrb Href. rewrite decide_True by lia.
    destruct (rebound_fixed _ _ Hrb) as (Hfx & Hst & Hsc).
    eapply wp_report; [exact Hlv1|done|done|]. intros b s' st' Hlv2. apply HQ.
    eapply (ran_error _ _ _ _ _ _ s s1); [by apply Hf|done|done|by unfold scatter_free; rewrite Hsc|exact Hlv2].
  - intros w' m' s1 c s' Hlv1 Hrb Hc Hs. rewrite decide_False by lia. apply wp_ret. apply HQ.
    destruct (rebound_fixed _ _ Hrb) as (Hfx & Hst & Hsc). right. split; [done|].
    exists [(c, sql)], [], s'. rewrite app_nil_r. split_and!.
    + apply (Hruns c s'); [done|done|done|]. unfold scatter_free. change (scatter s') with (scatter s1).
      by rewrite Hsc.
    + eapply live_room; [exact Hlv1|lia].
    + apply Hfx.
Qed.
Lemma wp_local ub Q H P L st s o n sql d :
  live m0 H P L st s o (n + 2 ^ 49) → 0 ≤ n → scatter_free s →
  decided st sql d → route_type d = ROUTE_LOCAL →
  (∀ rc st', ran H P L st sql s o n rc st' → Q rc st') →
  wp ub (msg ← lift (msg_write_command_complete (msgbuf_init 64) (bs "SET"));
         _ ← queue_msg msg;
         msg ← lift (msg_write_ready_for_query (msgbuf_reset msg) TXN_IDLE);
         _ ← queue_msg msg;
         mret 0) Q st.
Proof.
  intros Hlv Hn Hfree Hd Ht HQ.
  destruct (write_command_complete_appends (bs "SET") (msgbuf_init 64) []) as (m1 & E1 & Hh1 & _);
    [by apply msgbuf_init_holds|by vm_compute|].
  apply wp_bind. eapply wp_lift; [exact E1|]. apply wp_bind.
  eapply (wp_queue_msg m0 H P L _ _ _ _ _ s o (n + 64)); [exact Hh1|eapply live_room; [exact Hlv|]|lia|].
  { change (Z.of_nat (length ([] ++ _))) with 9. lia. }
  intros b1 Hlv1.
  destruct (write_ready_appends TXN_IDLE (msgbuf_reset m1) []) as (m2 & E2 & Hh2 & _);
    [by eapply msgbuf_reset_holds|by vm_compute|].
  apply wp_bind. eapply wp_lift; [exact E2|]. apply wp_bind.
  eapply (wp_queue_msg m0 H P L _ _ _ _ _ _ _ n); [exact Hh2|eapply live_room; [exact Hlv1|]|done|].
  { change (Z.of_nat (length ([] ++ _))) with 6. lia. }
  intros b2 Hlv2. apply wp_ret. apply HQ. right. split; [done|].
  exists [], (command_complete (bs "SET") ++ ready_for_query TXN_IDLE), (set_send_buf b2 (set_send_buf b1 s)).
  rewrite app_nil_r. rewrite <- app_assoc in Hlv2. split_and!; [|exact Hlv2|done..].
  by eapply runs_local.
Qed.

Lemma wp_query_default ub Q H P L st s o n sql :
  live m0 H P L st s o (n + 2 ^ 49) → 0 ≤ n → is_Some (backend_conninfo s) → scatter_free s →
  unsharded st s →
  (∀ rc st', ran H P L st sql s o n rc st' → Q rc st') →
  wp ub (query_default sql) Q st.
Proof.
  intros Hlv Hn Hci Hfree Hno HQ. apply wp_bind, wp_eq. eapply wp_connect_to_default; [exact Hlv|done|..].
  - intros w' m' s1 Hlv1 Hrb Hc E. rewrite decide_True by lia.
    destruct (rebound_fixed _ _ Hrb) as (Hfx & Hst & Hsc).
    eapply wp_report; [exact Hlv1|done|by vm_compute|]. intros b s' st' Hlv2. apply HQ.
    eapply (ran_error _ _ _ _ _ _ s s1); [by eapply fails_connect|done|done|
      by unfold scatter_free; rewrite Hsc|exact Hlv2].
  - intros w' m' s1 c Hlv1 Hrb Hc _ E. rewrite decide_False by lia.
    destruct (rebound_fixed _ _ Hrb) as (Hfx & Hst & Hsc).
    assert (scatter_free s1) as Hfree1 by (unfold scatter_free; by rewrite Hsc).
    apply wp_bind. eapply wp_session_live; [exact Hlv1|]. apply wp_bind. eapply wp_lift; [by rewrite Hc|].
    apply wp_bind, wp_eq. eapply wp_start_query; [exact Hlv1|exact Hc|..];
      [intros w2 Eq Hlv2 Es|intros w2 Hlv2 _].
    + apply wp_bind. eapply wp_pq_live; [exact Hlv2|by apply backend_in|done|]. intros Hlv3.
      cbn [fst snd st_world st_map st_session] in *.
      pose proof (errorMessage_size w2 c) as He. set (e := PQerrorMessage w2 c) in *.
      eapply wp_report; [exact Hlv3|done| |].
      { rewrite !length_app. change (length (bs "ERROR")) with 5%nat. change (length (bs "XX000")) with 5%nat. lia. }
      intros b s' st' Hlv4. apply HQ.
      eapply (ran_error _ _ _ _ _ _ s s1); [|done|done|done|exact Hlv4].
      assert (w2 = (PQsendQuery w' c sql).1) as Ew; [|unfold e; rewrite Ew; by apply (fails_send _ _ _ (mkSt w' m' (Some s1)) c)].
      unfold start_query in Es. rewrite run_pq in Es by (apply (live_conn _ _ _ _ _ _ _ _ c Hlv1); by apply backend_in).
      cbn [st_world] in Eq. rewrite Eq in Es. by injection Es.
    + apply wp_ret. apply HQ. right. split; [done|]. exists [(c, sql)], [], (querying s1).
      rewrite app_nil_r. split_and!; [|eapply live_room; [exact Hlv2|lia]|apply Hfx].
      by apply (runs_unsharded _ _ _ c).
Qed.
Lemma wp_run_scatter ub Q H P L st s o n sql d :
  live m0 H P L st s o (n + 2 ^ 49) → 0 ≤ n → scatter_free s →
  decided st sql d → route_type d = ROUTE_SCATTER →
  target_count d = length (target_shards d) →
  Forall (λ t, (t < length (shards m0))%nat) (target_shards d) →
  (∀ rc st', ran H P L st sql s o n rc st' → Q rc st') →
  wp ub (execute_scatter sql (target_shards d) (target_count d)) Q st.
Proof.
  intros Hlv Hn Hfree Hd Ht Hcnt Hts HQ. rewrite Hcnt.
  destruct (decide (MAX_SCATTER_SHARDS < length (target_shards d))%nat) as [Hbig|Hbig].
  - unfold execute_scatter. rewrite decide_True by done. apply wp_ret. apply HQ. left. split; [done|].
    split; [by exists d|]. exists s. split_and!; [eapply live_room; [exact Hlv|lia]|done..].
  - eapply (wp_execute_scatter m0 _ _ H P L _ s o n); [eapply live_room; [exact Hlv|lia]|done|done|exact Hts|lia|..].
    + intros w' m' s' out Hlv' Hu Hsb Hst Hfr Hev Hout. apply HQ. right. split; [done|].
      exists [], out, s'. rewrite app_nil_r. split_and!; [|done|done].
      apply runs_error; [by eapply fails_scatter|by right|done].
    + intros w' m' s' Hlv' Hu Hsb Hst Hsub Hne Hsc Hdn Hhd Hev Hask. apply HQ. right. split; [done|].
      exists (queries sql (scatter_held s')), [], s'. rewrite app_nil_r. split_and!; [|done|done].
      eapply runs_scatter; [done..|lia|done|done|done|done|done].
Qed.
Lemma wp_handle_query ub Q H P L st s o n sql :
  prints_trees pg → map_wf m0 → columns_set m0 →
  live m0 H P L st s o (n + 2 ^ 49) → 0 ≤ n → is_Some (backend_conninfo s) → scatter_free s →
  (∀ rc st', ran H P L st sql s o n rc st' → Q rc st') →
  wp ub (handle_query pg sql) Q st.
Proof.
  intros Hpg Hm Hcol Hlv Hn Hci Hfree HQ. pose proof (lv_map _ _ _ _ _ _ _ _ Hlv) as Hml.
  apply wp_bind. eapply wp_session_live; [exact Hlv|]. apply wp_bind, wp_the_map.
  destruct (has_shard_map s) eqn:Ehm; cbn [negb orb].
  2: { eapply wp_query_default; [exact Hlv|done|done|done|by left|exact HQ]. }
  case_bool_decide as Hsh.
  { eapply wp_query_default; [exact Hlv|done|done|done|by right|exact HQ]. }
  destruct (route_sql_total pg (st_map st) sql Hpg) as (x & E & Hd);
    [by eapply map_like_wf|by eapply map_like_columns|].
  apply wp_bind. eapply wp_lift; [exact E|]. destruct x as [d|].
  2: { eapply wp_report; [exact Hlv|done|by vm_compute|]. intros b s' st' Hlv1. apply HQ.
       eapply (ran_error _ _ _ _ _ _ s s); [by apply fails_syntax|done|done|done|exact Hlv1]. }
  destruct (Hd d eq_refl) as (Hcnt & Hts & Hsg). rewrite (map_like_length _ _ Hml) in Hts.
  unfold run_decision. destruct (route_type d) eqn:Et.
  - destruct (Hsg eq_refl) as [t Htt]. rewrite Htt. apply wp_bind. eapply wp_lift; [done|].
    eapply wp_run_single; [exact Hlv|done|done|done| |intros ?; by eapply fails_single|by vm_compute| |exact HQ].
    + intros j [= <-]. rewrite Htt in Hts. by apply Forall_cons in Hts as [? _].
    + intros c s' ? ? ? ?. by eapply runs_single.
  - by eapply wp_run_scatter.
  - by eapply wp_local.
  - eapply wp_run_single; [exact Hlv|done|done|done|done|intros ?; by eapply fails_default|by vm_compute| |exact HQ].
    intros c s' ? ? ? ?. by eapply runs_default.
Qed.
End query.

Section claims.
Context {W : Type} {PQ : LibPQ W} {Os : OS W} {Laws : LibPQLaws W} {OLaws : OSLaws W}.

(** C10: A query is executed where it is routed.  [handle_query] always returns, and
    - a statement with a single target is sent once, on a connection of that shard;
    - a statement for the default backend, and every statement when there is no shard
      map, is sent once on a connection to the backend;
    - a scatter statement is sent once to each of the target shards that gives a
      connection and accepts it, and to at least one; the session counts the others as done,
      and the client is not told of them;
    - SET and the like are answered by the proxy;
    - otherwise nothing is sent and the client gets an error message with ReadyForQuery,
      and then the statement has a syntax error or no connection could be had;
    - a scatter over more than 64 shards gives -1 without a message, and the caller closes the
      session; it does not occur when no rule has more shards.
    All connections stay accounted for. *)
Theorem query_runs_where_routed m0 pg H P L (st : St W) s o n sql :
  prints_trees pg → map_wf m0 → columns_set m0 →
  live m0 H P L st s o (n + 2 ^ 49) → 0 ≤ n → is_Some (backend_conninfo s) → scatter_free s →
  ∃ rc st', handle_query pg sql st = Ret (rc, st') ∧ ran m0 pg H P L st sql s o n rc st' ∧
    (Forall (λ r, length (rule_shards r) ≤ MAX_SCATTER_SHARDS)%nat (table_rules m0) → rc = 0).
Proof.
  intros Hpg Hm Hcol Hlv Hn Hci Hfree.
  destruct (wp_total (handle_query pg sql) (ran m0 pg H P L st sql s o n) st) as (rc & st' & E & Hr);
    [by eapply wp_handle_query|]. exists rc, st'. split_and!; [exact E|exact Hr|]. intros Hall.
  destruct Hr as [(_ & (d & Hd & Ht & Hlen) & _)|[-> _]]; [|done].
  pose proof (lv_map _ _ _ _ _ _ _ _ Hlv) as Hml.
  destruct (scatter_from_rule pg (st_map st) sql d) as (rule & Hin & Hts); [by eapply map_like_wf|done|done|].
  rewrite (like_rules _ _ Hml) in Hin. rewrite Forall_forall in Hall. specialize (Hall rule Hin).
  rewrite Hts in Hlen. lia.
Qed.
End claims.

(** Two shards whose pools are empty, and a client. *)
Definition sample_start : ShardMap :=
  mkShardMap (set_pool (mkConnPool (bs "host=h") (replicate 2 None) 0 2 0) <$> shards sample_map)
    [range_rule; all_rule] 2.
Lemma sample_start_wf : map_wf sample_start.
Proof. repeat constructor; simpl; try done; try lia; by eexists. Qed.
Lemma sample_start_columns : columns_set sample_start.
Proof. constructor; [by intros _; eexists|]. by constructor. Qed.
Lemma sample_start_resources : resources sim_empty (shards sample_start) [] [].
Proof.
  apply resources_init; [done|]. split; [|vm_compute; constructor].
  assert (pool_inv sim_empty (mkConnPool (bs "host=h") (replicate 2 None) 0 2 0) [] []) as Hp.
  { split; simpl; [|constructor|set_solver|done|lia]. split_and!; simpl; [done|done|lia|]. by intros i c'. }
  constructor; [exact Hp|]. constructor; [exact Hp|constructor].
Qed.
Definition sample_client : ClientSession :=
  fresh_session 7 zero_handler 4242 0 (Some (bs "host=d")) true.
Definition sample_client_st : St SimWorld := mkSt sim_empty sample_start (Some sample_client).
Lemma sample_client_live :
  live sample_start [] [] [] sample_client_st sample_client [] (2 ^ 62).
Proof. 
  exact (fresh_live sample_start [] [] sim_empty sample_start 7 zero_handler 4242 0 (Some (bs "host=d"))
    true (reflexivity _) sample_start_resources).
 Qed.
(** The client's query has its key on the second shard. *)
Lemma query_runs_where_routed_witness :
  ∃ st', handle_query sample_pg (bs "select") sample_client_st = Ret (0, st') ∧
    ran sample_start sample_pg [] [] [] sample_client_st (bs "select") sample_client [] 0 0 st' ∧
    pq_log (st_world st') = [(1%positive, bs "select")] ∧
    (backend_shard <$> st_session st') = Some (Some 1%nat).
Proof.
  destruct (query_runs_where_routed sample_start sample_pg [] [] [] sample_client_st sample_client [] 0
    (bs "select")) as (rc & st' & E & Hr & Hrc);
    [apply sample_pg_prints|apply sample_start_wf|apply sample_start_columns| |done|by eexists|
     apply fresh_free|].
  - eapply live_room; [apply sample_client_live|lia].
  - assert (rc = 0) as -> by (apply Hrc; repeat constructor; vm_compute; lia).
    exists st'. split; [exact E|]. split; [exact Hr|].
    assert (match handle_query sample_pg (bs "select") sample_client_st with
            | Ret (_, st) => pq_log (st_world st) = [(1%positive, bs "select")] ∧
                (backend_shard <$> st_session st) = Some (Some 1%nat)
            | _ => False end) as H by (vm_compute; split; reflexivity).
    by rewrite E in H.
Defined.
