(* ===== verification/Talk.v ===== *)
(** * The conversation with a client

    An abstract description of what the proxy says to a client and when: an automaton on
    the states of a session whose transitions carry the bytes that are sent.  Every
    transition sends whole messages of the kinds the state allows.  [ProcessSpec] and
    [System] show that the callbacks of a session follow it, [Lifetime] that so does a
    session from its creation on, among all the others. *)
From S2P Require Import Prelude Memory LibPQ Pool ShardMap Resources Parser Router Keys Sql Message Event.
From S2P Require Import Session Wp SessionSpec Backend Wire BackendSpec ScatterSpec Frontend FrontendSpec.
From S2P Require Import QuerySpec.
#[local] Set Warnings "-clear-no-such-hyp".
#[local] Open Scope Z_scope.
#[local] Arguments be_encode : simpl never.

(** ** Messages *)
Abbreviation msg := (byte * bytes)%type.
Definition of_type (t : byte) (m : msg) : Prop := m.1 = t.
Definition ready (c : byte) : msg := (MSG_READY_FOR_QUERY, [c]).
Definition copy_data (d : bytes) : msg := (MSG_COPY_DATA, d).
Definition startup_msgs (pid key : Z) : list msg :=
  [(MSG_AUTH_REQUEST, be_encode 4 AUTH_OK);
   (MSG_PARAM_STATUS, cstr (bs "server_version") ++ cstr (bs "16.0 (Sharegres)"));
   (MSG_PARAM_STATUS, cstr (bs "server_encoding") ++ cstr (bs "UTF8"));
   (MSG_PARAM_STATUS, cstr (bs "client_encoding") ++ cstr (bs "UTF8"));
   (MSG_PARAM_STATUS, cstr (bs "is_superuser") ++ cstr (bs "off"));
   (MSG_PARAM_STATUS, cstr (bs "DateStyle") ++ cstr (bs "ISO, MDY"));
   (MSG_PARAM_STATUS, cstr (bs "integer_datetimes") ++ cstr (bs "on"));
   (MSG_PARAM_STATUS, cstr (bs "standard_conforming_strings") ++ cstr (bs "on"));
   (MSG_BACKEND_KEY, be_encode 4 pid ++ be_encode 4 key); ready TXN_IDLE].
Definition startup_wire (pid key : Z) : bytes := frames (startup_msgs pid key).

(** ** The automaton *)

(** Where a conversation is: before the login; between two queries; a query has been sent to
    a shard; a COPY is going on; a query has been sent to several shards, and the row
    description has been sent to the client or not. *)
Inductive stage : Type := Login | Idle | Asked | CopyIn | CopyOut | Gather (header : bool).
Definition stage_of (x : SessionState) (header : bool) : stage :=
  match x with
  | SESSION_STATE_INIT | SESSION_STATE_AUTH | SESSION_STATE_CLOSING => Login
  | SESSION_STATE_READY => Idle
  | SESSION_STATE_QUERY => Asked
  | SESSION_STATE_COPY_IN => CopyIn
  | SESSION_STATE_COPY_OUT => CopyOut
  | SESSION_STATE_SCATTER => Gather header
  end.
Definition stage_at (s : ClientSession) : stage := stage_of (state s) (scatter_header_sent s).

(** The answer to one statement: rows under their description and CommandComplete, or
    CommandComplete alone, or an error. *)
Inductive reply : list msg → Prop :=
| reply_rows d rows tag :
    Forall (of_type MSG_DATA_ROW) rows →
    reply ((MSG_ROW_DESCRIPTION, d) :: rows ++ [(MSG_CMD_COMPLETE, tag)])
| reply_done tag : reply [(MSG_CMD_COMPLETE, tag)]
| reply_error p : reply [(MSG_ERROR_RESPONSE, p)].
(** [replies k ms]: the answers to [k] statements, one after the other. *)
Inductive replies : nat → list msg → Prop :=
| replies_nil : replies 0 []
| replies_cons k ms ms' : reply ms → replies k ms' → replies (S k) (ms ++ ms').
(** The rows of some shards: the description goes before the first row and is sent once. *)
Inductive gathers : bool → list msg → bool → Prop :=
| gathers_none h : gathers h [] h
| gathers_first d rows : Forall (of_type MSG_DATA_ROW) rows → gathers false ((MSG_ROW_DESCRIPTION, d) :: rows) true
| gathers_more rows : Forall (of_type MSG_DATA_ROW) rows → gathers true rows true.

(** [turn x o y]: at stage [x] the proxy says [o] and goes to stage [y]. *)
Inductive turn : stage → bytes → stage → Prop :=
| turn_ssl : turn Login ["N"%byte : byte] Login
| turn_login pid key : turn Login (startup_wire pid key) Idle
| turn_reply m c :                              (* the proxy answers itself *)
    m.1 = MSG_ERROR_RESPONSE ∨ m.1 = MSG_CMD_COMPLETE → turn Idle (frames [m; ready c]) Idle
| turn_query : turn Idle [] Asked
| turn_scatter : turn Idle [] (Gather false)
| turn_copy_end : turn CopyIn [] Asked
| turn_answer x k ms c :
    x = Asked ∨ x = CopyIn → replies (S k) ms → turn x (frames (ms ++ [ready c])) Idle
| turn_copy_in k ms p :
    replies k ms → turn Asked (frames (ms ++ [(MSG_COPY_IN_RESP, p)])) CopyIn
| turn_copy_out k ms p ds :
    replies k ms → turn Asked (frames (ms ++ (MSG_COPY_OUT_RESP, p) :: map copy_data ds)) CopyOut
| turn_copy_done k ms p ds last c :
    replies k ms → (∃ tag, last = [(MSG_CMD_COMPLETE, tag)]) ∨ last = [] →
    turn Asked (frames (ms ++ (MSG_COPY_OUT_RESP, p) :: map copy_data ds ++
                        (MSG_COPY_DONE, []) :: last ++ [ready c])) Idle
| turn_rows h ms h' : gathers h ms h' → turn (Gather h) (frames ms) (Gather h')
| turn_gathered h ms h' tag c :
    gathers h ms h' → turn (Gather h) (frames (ms ++ [(MSG_CMD_COMPLETE, tag); ready c])) Idle.
Inductive talks : stage → bytes → stage → Prop :=
| talks_nil x : talks x [] x
| talks_turn x o y o' z : turn x o y → talks y o' z → talks x (o ++ o') z.
Lemma talks_one x o y : turn x o y → talks x o y.
Proof. intros Ht. rewrite <- (app_nil_r o). eapply talks_turn; [done|constructor]. Qed.
Lemma talks_app x o y o' z : talks x o y → talks y o' z → talks x (o ++ o') z.
Proof.
  intros Ht. revert o' z. induction Ht as [|x o y o1 z' H1 _ IH]; intros o' z Hz; [done|].
  rewrite <- app_assoc. eapply talks_turn; eauto.
Qed.

(** What has been said from the start: refusals of SSL, then whole messages; nothing but
    refusals before the login; and between two queries the last message is ReadyForQuery. *)
Definition well_said (o : bytes) (x : stage) : Prop :=
  ∃ k ms, o = replicate k ("N"%byte : byte) ++ frames ms ∧
    (x = Login → ms = []) ∧
    (x = Idle → ∃ ms' c, ms = ms' ++ [ready c]).
Lemma frames_app l l' : frames (l ++ l') = frames l ++ frames l'.
Proof. unfold frames. by rewrite map_app, concat_app. Qed.
(** Every turn but the refusal of SSL sends messages. *)
Lemma turn_msgs x o y :
  turn x o y → (x = Login ∧ y = Login ∧ o = ["N"%byte : byte]) ∨
  (y ≠ Login ∧ ∃ ms, o = frames ms ∧ (y = Idle → ∃ ms' c, ms = ms' ++ [ready c])).
Proof.
  destruct 1 as [|pid key|m c _| | | |x k ms c|k ms p|k ms p ds|k ms p ds last c|h ms h'|h ms h' tag c]; [by left|right..];
    (split; [done|]).
  - exists (startup_msgs pid key). split; [done|]. intros _. by eexists (take 9 (startup_msgs pid key)), TXN_IDLE.
  - exists [m; ready c]. split; [done|]. intros _. by exists [m], c.
  - by exists [].
  - by exists [].
  - by exists [].
  - eexists. split; [done|]. intros _. by eexists _, _.
  - by eexists.
  - by eexists.
  - eexists. split; [done|]. intros _. exists (ms ++ (MSG_COPY_OUT_RESP, p) :: map copy_data ds ++ (MSG_COPY_DONE, []) :: last), c.
    by repeat (rewrite <- app_assoc || cbn [app]).
  - by eexists.
  - eexists. split; [done|]. intros _. exists (ms ++ [(MSG_CMD_COMPLETE, tag)]), c. by rewrite <- app_assoc.
Qed.
Lemma talks_well_said o1 x o y : well_said o1 x → talks x o y → well_said (o1 ++ o) y.
Proof.
  intros Hw Ht. revert o1 Hw. induction Ht as [x|x o y o' z Ht _ IH]; intros o1 Hw; [by rewrite app_nil_r|].
  rewrite app_assoc. apply IH. destruct Hw as (k & ms & -> & Hi & _).
  destruct (turn_msgs _ _ _ Ht) as [(-> & -> & ->)|(Hy & ms2 & -> & Hr)].
  - rewrite (Hi eq_refl). exists (S k), []. unfold frames. cbn [map concat]. rewrite !app_nil_r.
    split_and!; [|done|done]. by rewrite replicate_S_end.
  - exists k, (ms ++ ms2). rewrite frames_app, <- app_assoc. split_and!; [done|done|].
    intros Hx. destruct (Hr Hx) as (ms' & c & ->). exists (ms ++ ms'), c. by rewrite app_assoc.
Qed.

(** ** Results as messages *)
Lemma frames_one t p : frames [(t, p)] = frame t p.
Proof. unfold frames. cbn [map concat fst snd]. by rewrite app_nil_r. Qed.
(** What the automaton assumes of a backend: each result is rows with at least one column,
    the outcome of a command or an error, and at most one has rows. *)
Definition result_ok (r : PGresult) : Prop :=
  match PQresultStatus r with
  | PGRES_TUPLES_OK => 0 < PQnfields r
  | PGRES_COMMAND_OK | PGRES_FATAL_ERROR => True
  | _ => False
  end.
Definition row_results (rs : list PGresult) : nat := length (filter (λ r, is_tuples r = true) rs).
Lemma data_rows r rows :
  ∃ ms, concat (map (data_row r) rows) = frames ms ∧ Forall (of_type MSG_DATA_ROW) ms.
Proof.
  eexists (map (λ row, (MSG_DATA_ROW, be_encode 2 (PQnfields r) ++ concat (map value_wire row))) rows).
  split; [unfold frames; by rewrite map_map|]. by induction rows; constructor.
Qed.
Lemma result_reply header r :
  result_ok r → (is_tuples r = true → header = true) → ∃ ms, result_wire header r = frames ms ∧ reply ms.
Proof.
  unfold result_ok, is_tuples, result_wire, rows_wire. intros Hr Hh.
  destruct (PQresultStatus r); try done.
  - eexists [_]. rewrite frames_one. split; [reflexivity|constructor].
  - rewrite Hh, bool_decide_true by done. cbn [andb].
    destruct (data_rows r (res_rows r)) as (ms & -> & Hms). unfold row_description, command_complete.
    rewrite <- !frames_one, <- !frames_app, <- app_assoc. eexists. split; [reflexivity|by apply reply_rows].
  - eexists [_]. rewrite frames_one. split; [reflexivity|constructor].
Qed.
Lemma results_replies (header : bool) rs :
  Forall result_ok rs → (row_results rs ≤ if header then 1 else 0)%nat →
  ∃ ms, results_wire header rs = frames ms ∧ replies (length rs) ms.
Proof.
  intros Hrs. revert header. induction Hrs as [|r rs Hr _ IH]; intros header Hn; [by exists []; split; [|constructor]|].
  unfold row_results in *. cbn [results_wire length]. destruct (is_tuples r) eqn:Et.
  - rewrite filter_cons_True in Hn by done. cbn [length] in Hn. destruct header; [|lia]. cbn [andb negb].
    destruct (result_reply true r Hr) as (m1 & -> & H1); [done|]. destruct (IH false) as (m2 & -> & H2); [lia|].
    exists (m1 ++ m2). rewrite frames_app. split; [done|by constructor].
  - rewrite filter_cons_False in Hn by congruence. cbn [negb]. rewrite andb_true_r.
    destruct (result_reply header r Hr) as (m1 & -> & H1); [congruence|]. destruct (IH header Hn) as (m2 & -> & H2).
    exists (m1 ++ m2). rewrite frames_app. split; [done|by constructor].
Qed.
(** The rows of a shard, if those with rows have columns. *)
Lemma scatter_gathers hs rs :
  Forall (λ r, is_tuples r = true → 0 < PQnfields r) rs →
  ∃ ms, scatter_wire (negb hs) rs = frames ms ∧ gathers hs ms (hs || existsb is_tuples rs).
Proof.
  intros Hrs. revert hs. induction Hrs as [|r rs Hr _ IH]; intros hs.
  { exists []. rewrite orb_false_r. split; [done|constructor]. }
  cbn [scatter_wire existsb]. destruct (is_tuples r).
  - cbn [negb orb]. rewrite andb_false_r, orb_true_r. destruct (IH true) as (m2 & E2 & H2). cbn [negb orb] in E2, H2. rewrite E2.
    assert (Forall (of_type MSG_DATA_ROW) m2) as Hm2 by (by inversion H2; subst).
    destruct (data_rows r (res_rows r)) as (m1 & E1 & H1). unfold rows_wire. rewrite E1.
    rewrite bool_decide_true, andb_true_r by (by apply Hr). destruct hs; cbn [negb app].
    + exists (m1 ++ m2). rewrite frames_app. split; [done|]. constructor. by apply Forall_app.
    + unfold row_description. rewrite <- frames_one, <- !frames_app. eexists. split; [reflexivity|].
      cbn [app]. constructor. by apply Forall_app.
  - cbn [negb orb app]. rewrite andb_true_r. apply IH.
Qed.
Lemma copy_wire_frames ds : copy_wire ds = frames (map copy_data ds).
Proof. unfold copy_wire, frames. by rewrite map_map. Qed.
Lemma final_frames r :
  ∃ ms, final_wire r = frames ms ∧ ((∃ tag, ms = [(MSG_CMD_COMPLETE, tag)]) ∨ ms = []).
Proof.
  destruct r as [r|]; simpl; [|by exists []; split; [|right]]. case_decide; [|by exists []; split; [|right]].
  unfold command_complete. eexists [_]. rewrite frames_one. split; [reflexivity|]. left. by eexists.
Qed.
Lemma frames_cons m ms : frames (m :: ms) = frame m.1 m.2 ++ frames ms.
Proof. done. Qed.

(** ** What the operations say *)
Section operations.
Context {W : Type} {PQ : LibPQ W} {Os : OS W} {Laws : LibPQLaws W} {OLaws : OSLaws W}.
Implicit Types (st : St W) (s : ClientSession).

(** A result that is complete has been asked for, and the client is not in the middle of a
    COPY OUT. *)
Definition asked_for (c : PGconn) (w : W) s : Prop :=
  ∀ rs e w', drains c w rs e w' →
    Forall result_ok rs ∧ (row_results rs ≤ 1)%nat ∧ (e = StopNull → rs ≠ []) ∧
    (state s = SESSION_STATE_QUERY ∨ state s = SESSION_STATE_COPY_IN ∧ e = StopNull).
Lemma answers_turn c (w : W) s out x busy rel h :
  answers c w s out x busy rel → asked_for c w s → turn (stage_at s) out (stage_of x h).
Proof.
  intros Ha Hok. unfold stage_at.
  destruct Ha as [rs w' Hd t|rs r w' Hd|rs r w' ds e w'' Hd _ _|rs r w' ds w'' Hd _ t];
    destruct (Hok _ _ _ Hd) as (Hrs & Hone & Hne & Hst);
    destruct (results_replies true rs Hrs Hone) as (ms & -> & Hms);
    try (destruct Hst as [-> |[_ ?]]; [|done]); cbn [stage_of].
  - unfold ready_for_query. rewrite <- frames_one, <- frames_app.
    destruct rs as [|r rs]; [by destruct (Hne eq_refl)|].
    eapply turn_answer; [|exact Hms]. destruct Hst as [-> |[-> _]]; [by left|by right].
  - unfold copy_response. rewrite <- frames_one, <- frames_app. by eapply turn_copy_in.
  - unfold copy_response. rewrite <- frames_one, copy_wire_frames, <- !frames_app. by eapply turn_copy_out.
  - destruct (final_frames (PQgetResult w'' c).2) as (l & -> & Hl).
    unfold copy_response, ready_for_query.
    rewrite <- !frames_one, copy_wire_frames, <- !frames_app. by eapply turn_copy_done.
Qed.
(** The rows of a shard come under a description. *)
Definition has_columns (rs : list PGresult) : Prop := Forall (λ r, is_tuples r = true → 0 < PQnfields r) rs.
Lemma scatter_rows_turn hs rs :
  has_columns rs → turn (Gather hs) (scatter_wire (negb hs) rs) (Gather (hs || existsb is_tuples rs)).
Proof. intros Hrs. destruct (scatter_gathers hs rs Hrs) as (ms & -> & Hms). by apply turn_rows. Qed.
Lemma scatter_end_turn hs rs sent :
  has_columns rs → turn (Gather hs) (scatter_wire (negb hs) rs ++ scatter_end sent) Idle.
Proof.
  intros Hrs. destruct (scatter_gathers hs rs Hrs) as (ms & -> & Hms).
  unfold scatter_end, command_complete, ready_for_query.
  rewrite <- !frames_one, <- !frames_app. by eapply turn_gathered.
Qed.
Lemma report_turn severity code message :
  turn Idle (report_wire severity code message) Idle.
Proof.
  unfold report_wire, error_response, ready_for_query. rewrite <- !frames_one, <- frames_app.
  apply turn_reply. by left.
Qed.
Lemma runs_talks pg st sql s L out s' :
  runs pg st sql s L out s' → state s = SESSION_STATE_READY → talks (stage_at s) out (stage_at s').
Proof.
  intros Hr Hs. unfold stage_at. rewrite Hs. cbn [stage_of].
  destruct Hr as [? ? ? ? _ _ _ _ _ -> _|? ? ? _ _ _ _ -> _|? ? _ _ -> _|? ? _ _ _ _ _ _ -> _ -> _|? ? _ _ _ Hx _|sev code m s' _ Hx _].
  - apply talks_one, turn_query.
  - apply talks_one, turn_query.
  - apply talks_one, turn_query.
  - apply talks_one, turn_scatter.
  - rewrite Hx, Hs. apply talks_one. unfold command_complete, ready_for_query.
    rewrite <- !frames_one, <- frames_app. apply turn_reply. by right.
  - assert (state s' = SESSION_STATE_READY) as -> by (destruct Hx as [->|]; congruence).
    apply talks_one, report_turn.
Qed.
End operations.
