(* ===== verification/Input.v ===== *)
(** * The messages of a client, as a function of the bytes received

    [next_event x l]: the message at the start of the input [l] of a session in state [x], by
    the protocol; it looks at the bytes of that message alone.  [seen_event x l]: what
    [fe_protocol_process] finds there.  Both are stated on the list of the bytes received,
    without the buffer and its memory; [ProcessSpec] proves that the code follows
    [seen_event], and the two agree on a message that is not malformed, if no input follows a
    query.  [EvMalformed] stands for what the code does not defend itself against: a string
    without terminator and a length that makes [1 + msg_len] wrap. *)
From S2P Require Import Prelude Memory Message Session Frontend.
#[local] Set Warnings "-clear-no-such-hyp".
#[local] Open Scope Z_scope.

Inductive event : Type :=
| EvWait                                        (* not enough input, or not the time for it *)
| EvFail                                        (* the session is to be closed *)
| EvSsl (len : nat)
| EvStartup (len : nat) (params : list (bytes * bytes))
| EvQuery (len : nat) (text : bytes)
| EvExtended (len : nat)
| EvSkip (len : nat)
| EvCopyData (len : nat) (data : bytes)
| EvCopyDone (len : nat)
| EvCopyFail (len : nat) (message : bytes)
| EvMalformed.

(** The string at the start of [l]. *)
Fixpoint c_string (l : bytes) : option bytes :=
  match l with
  | [] => None
  | c :: l => if decide (c = NUL) then Some [] else s ← c_string l; Some (c :: s)
  end.

(** The parameters of a startup message of [len] bytes, from [pos] on. *)
Fixpoint params_from (fuel pos len : nat) (l : bytes) : option (list (bytes * bytes)) :=
  match fuel with
  | O => None
  | S fuel =>
    if decide (pos < len)%nat then
      key ← c_string (drop pos l);
      if decide (key = []) then Some []
      else
        let pos := (pos + S (length key))%nat in
        if decide (len ≤ pos)%nat then Some []
        else
          val ← c_string (drop pos l);
          rest ← params_from fuel (pos + S (length val))%nat len l;
          Some ((key, val) :: rest)
    else Some []
  end.

(** ** By the protocol *)
Definition startup_event (m : bytes) : event :=
  let version := be_decode (take 4 (drop 4 m)) in
  if decide (version = PG_SSL_REQUEST) then EvSsl (length m)
  else if decide (version = PG_CANCEL_REQUEST) then EvFail
  else if decide (Z.shiftr version 16 ≠ 3) then EvFail
  else
    match params_from (S (length m)) 8 (length m) m with
    | Some ps => EvStartup (length m) ps
    | None => EvMalformed
    end.
Definition init_event (l : bytes) : event :=
  if decide (length l < 4)%nat then EvWait
  else
    let msg_len := be_decode (take 4 l) in
    if decide (msg_len < 4 ∨ 65535 < msg_len) then EvFail
    else if decide (Z.of_nat (length l) < msg_len) then EvWait
    else if decide (msg_len < 8) then EvFail
    else startup_event (take (Z.to_nat msg_len) l).
Definition copy_event (m : bytes) : event :=
  match m with
  | t :: _ =>
    if decide (t = MSG_COPY_DATA) then EvCopyData (length m) (drop 5 m)
    else if decide (t = MSG_COPY_DONE) then EvCopyDone (length m)
    else if decide (t = MSG_COPY_FAIL) then
      if decide (length m = 5%nat) then EvCopyFail 5 (bs "client cancel")
      else match c_string (drop 5 m) with Some x => EvCopyFail (length m) x | None => EvMalformed end
    else EvSkip (length m)
  | [] => EvWait
  end.
Definition plain_event (m : bytes) : event :=
  match m with
  | t :: _ =>
    if decide (t = MSG_QUERY) then
      match c_string (drop 5 m) with Some q => EvQuery (length m) q | None => EvMalformed end
    else if decide (t = MSG_TERMINATE) then EvFail
    else if decide (is_extended t) then EvExtended (length m)
    else EvSkip (length m)
  | [] => EvWait
  end.
(** A message with a type: the message is the type, the length and the rest. *)
Definition typed_event (x : SessionState) (l : bytes) : event :=
  if decide (length l < 5)%nat then EvWait
  else
    let msg_len := be_decode (take 4 (drop 1 l)) in
    if decide (msg_len = 2 ^ 32 - 1) then EvMalformed
    else if decide (msg_len < 4 ∨ 16 * 1024 * 1024 < 1 + msg_len) then EvFail
    else if decide (Z.of_nat (length l) < 1 + msg_len) then EvWait
    else
      let m := take (Z.to_nat (1 + msg_len)) l in
      if decide (x = SESSION_STATE_COPY_IN) then copy_event m else plain_event m.
Definition next_event (x : SessionState) (l : bytes) : event :=
  match x with
  | SESSION_STATE_INIT => init_event l
  | SESSION_STATE_QUERY | SESSION_STATE_SCATTER | SESSION_STATE_COPY_OUT => EvWait
  | _ => typed_event x l
  end.

(** ** What the code finds *)
Definition seen_startup (len : nat) (l : bytes) : event :=
  let version := be_decode (take 4 (drop 4 l)) in
  if decide (version = PG_SSL_REQUEST) then EvSsl len
  else if decide (version = PG_CANCEL_REQUEST) then EvFail
  else if decide (Z.shiftr version 16 ≠ 3) then EvFail
  else
    match params_from (S len) 8 len l with
    | Some ps => EvStartup len ps
    | None => EvMalformed
    end.
Definition seen_init (l : bytes) : event :=
  if decide (length l < 4)%nat then EvWait
  else
    let msg_len := be_decode (take 4 l) in
    if decide (msg_len < 4 ∨ 65535 < msg_len) then EvFail
    else if decide (Z.of_nat (length l) < msg_len) then EvWait
    else if decide (msg_len < 8) then EvFail
    else seen_startup (Z.to_nat msg_len) l.

(** What the buffer holds after the first [n] of its bytes have been dropped by
    [memmove]: the rest of the input, and behind it what was there before. *)
Definition moved (n : nat) (l : bytes) : bytes := drop n l ++ drop (length l - n) l.

Definition seen_copy (t : byte) (len : nat) (l : bytes) : event :=
  if decide (t = MSG_COPY_DATA) then EvCopyData len (take (len - 5) (drop 5 l))
  else if decide (t = MSG_COPY_DONE) then EvCopyDone len
  else if decide (t = MSG_COPY_FAIL) then
    if decide (len = 5%nat) then EvCopyFail len (bs "client cancel")
    else match c_string (drop 5 l) with Some m => EvCopyFail len m | None => EvMalformed end
  else EvSkip len.
Definition seen_plain (t : byte) (len : nat) (l : bytes) : event :=
  if decide (t = MSG_QUERY) then
    match c_string (drop 5 (moved len l)) with Some q => EvQuery len q | None => EvMalformed end
  else if decide (t = MSG_TERMINATE) then EvFail
  else if decide (is_extended t) then EvExtended len
  else EvSkip len.
Definition seen_typed (x : SessionState) (l : bytes) : event :=
  match l with
  | t :: l' =>
    if decide (length l' < 4)%nat then EvWait
    else
      let msg_len := be_decode (take 4 l') in
      if decide (msg_len = 2 ^ 32 - 1) then EvMalformed
      else if decide (msg_len < 4 ∨ 16 * 1024 * 1024 < 1 + msg_len) then EvFail
      else if decide (Z.of_nat (length l) < 1 + msg_len) then EvWait
      else if decide (x = SESSION_STATE_COPY_IN) then seen_copy t (Z.to_nat (1 + msg_len)) l
      else seen_plain t (Z.to_nat (1 + msg_len)) l
  | [] => EvWait
  end.
Definition seen_event (x : SessionState) (l : bytes) : event :=
  match x with
  | SESSION_STATE_INIT => seen_init l
  | SESSION_STATE_QUERY | SESSION_STATE_SCATTER | SESSION_STATE_COPY_OUT => EvWait
  | _ => seen_typed x l
  end.

(** The whole buffer: no malformed message is met before the code stops. *)
Fixpoint input_ok (fuel : nat) (x : SessionState) (l : bytes) : bool :=
  match fuel with
  | O => bool_decide (l = [])
  | S fuel =>
    if decide (l = []) then true
    else
      match seen_event x l with
      | EvMalformed => false
      | EvSsl len | EvExtended len | EvSkip len | EvCopyData len _ => input_ok fuel x (drop len l)
      | EvStartup len _ => input_ok fuel SESSION_STATE_READY (drop len l)
      | _ => true
      end
  end.

(** ** Facts *)
Lemma c_string_cstr s l : cstring s → c_string (s ++ NUL :: l) = Some s.
Proof.
  unfold cstring. induction s as [|c s IH]; intros Hs; [done|]. simpl.
  rewrite decide_False by set_solver. rewrite IH by set_solver. done.
Qed.
Lemma c_string_inv l s : c_string l = Some s → cstring s ∧ ∃ r, l = s ++ NUL :: r.
Proof.
  unfold cstring. revert s. induction l as [|c l IH]; intros s; simpl; [done|]. case_decide as Hc.
  - intros [= <-]. subst. split; [set_solver|by exists l].
  - destruct (c_string l) as [t|] eqn:E; simpl; [|done]. intros [= <-].
    destruct (IH t eq_refl) as (Ht & r & ->). split; [set_solver|by exists r].
Qed.
Lemma cstr_at_known m l off s :
  starts_with m l → c_string (drop off l) = Some s → cstr_at m (Z.of_nat off) = Ret s.
Proof.
  intros Hm (Hs & r & Hr)%c_string_inv.
  assert (off ≤ length l)%nat as Ho.
  { destruct (decide (off ≤ length l)%nat); [done|]. rewrite drop_ge in Hr by lia. by destruct s. }
  pose proof (cstr_at_spec m (take off l) s r) as Hc. rewrite length_take, Nat.min_l in Hc by done.
  apply Hc; [|done]. by rewrite <- Hr, take_drop.
Qed.

(** The bytes a message takes. *)
Definition ev_len (ev : event) : option nat :=
  match ev with
  | EvSsl len | EvStartup len _ | EvQuery len _ | EvExtended len | EvSkip len
  | EvCopyData len _ | EvCopyDone len | EvCopyFail len _ => Some len
  | EvWait | EvFail | EvMalformed => None
  end.
Lemma seen_event_len x l len : ev_len (seen_event x l) = Some len → (5 ≤ len ≤ length l)%nat.
Proof.
  assert (ev_len (seen_init l) = Some len → (5 ≤ len ≤ length l)%nat) as Hi.
  { unfold seen_init, seen_startup. intros E. repeat (case_decide || case_match); simplify_eq/=; lia. }
  assert (∀ x, ev_len (seen_typed x l) = Some len → (5 ≤ len ≤ length l)%nat) as Ht.
  { clear. intros x. unfold seen_typed. destruct l as [|t l]; [done|].
    repeat (case_decide; try done).
    - unfold seen_copy. intros E. repeat (case_decide || case_match); simplify_eq/=; lia.
    - unfold seen_plain. intros E. repeat (case_decide || case_match); simplify_eq/=; lia. }
  destruct x; cbn [seen_event]; first [exact Hi|apply Ht|done].
Qed.

(** A string inside the message is the string that the code finds. *)
Lemma c_string_app l l' s : c_string l = Some s → c_string (l ++ l') = Some s.
Proof. intros (Hs & r & ->)%c_string_inv. rewrite <- app_assoc. by apply c_string_cstr. Qed.
Lemma c_string_take l n k s : c_string (drop k (take n l)) = Some s → c_string (drop k l) = Some s.
Proof.
  intros E. destruct (decide (k ≤ length (take n l))%nat).
  - rewrite <- (take_drop n l) at 1. rewrite drop_app_le by done. by apply c_string_app.
  - rewrite drop_ge in E by lia. done.
Qed.
Lemma params_take fuel l n len : ∀ pos ps,
  params_from fuel pos len (take n l) = Some ps → params_from fuel pos len l = Some ps.
Proof.
  induction fuel as [|fuel IH]; intros pos ps; [done|]. cbn [params_from]. case_decide; [|done].
  destruct (c_string (drop pos (take n l))) as [key|] eqn:E; [|done]. apply c_string_take in E as ->.
  cbn [mbind option_bind]. case_decide; [done|]. case_decide; [done|].
  destruct (c_string (drop _ (take n l))) as [val|] eqn:E; [|done]. apply c_string_take in E as ->.
  cbn [mbind option_bind]. destruct (params_from _ _ _ (take n l)) as [rest|] eqn:E; [|done].
  by apply IH in E as ->.
Qed.
(** On the messages of the protocol the code finds what is there. *)
Lemma seen_startup_next len l :
  (8 ≤ len ≤ length l)%nat → startup_event (take len l) ≠ EvMalformed →
  seen_startup len l = startup_event (take len l).
Proof.
  intros Hlen. unfold startup_event, seen_startup. rewrite length_take, Nat.min_l by lia.
  rewrite skipn_firstn_comm, take_take, Nat.min_l by lia. repeat (case_decide; [done|]).
  destruct (params_from _ 8 len (take len l)) as [ps|] eqn:E; [|done]. by apply params_take in E as ->.
Qed.
Lemma seen_copy_next t l len :
  (5 ≤ len ≤ length (t :: l))%nat → copy_event (take len (t :: l)) ≠ EvMalformed →
  seen_copy t len (t :: l) = copy_event (take len (t :: l)).
Proof.
  intros Hlen. unfold copy_event, seen_copy. pose proof (length_take (t :: l) len) as Hl. rewrite Nat.min_l in Hl by lia.
  destruct (take len (t :: l)) as [|t' m] eqn:Em; [cbn in Hl; lia|].
  assert (t' = t) as -> by (destruct len; [done|by injection Em as ->]). rewrite Hl, <- Em.
  case_decide; [by rewrite skipn_firstn_comm|]. case_decide; [done|]. case_decide; [|done]. case_decide as H5; [by rewrite H5|].
  destruct (c_string (drop 5 (take len (t :: l)))) as [x|] eqn:E; [|done]. by apply c_string_take in E as ->.
Qed.
Lemma seen_plain_next t l len :
  (5 ≤ len ≤ length (t :: l))%nat → plain_event (take len (t :: l)) ≠ EvMalformed →
  (t = MSG_QUERY → len = length (t :: l)) →
  seen_plain t len (t :: l) = plain_event (take len (t :: l)).
Proof.
  intros Hlen. unfold plain_event, seen_plain. pose proof (length_take (t :: l) len) as Hl. rewrite Nat.min_l in Hl by lia.
  destruct (take len (t :: l)) as [|t' m] eqn:Em; [cbn in Hl; lia|].
  assert (t' = t) as -> by (destruct len; [done|by injection Em as ->]). rewrite Hl, <- Em.
  intros Hne Hq. case_decide as Ht; [|done]. rewrite (Hq Ht), firstn_all. unfold moved.
  by rewrite drop_all, Nat.sub_diag, drop_0.
Qed.
Lemma seen_event_next x l :
  next_event x l ≠ EvMalformed → (∀ len q, next_event x l = EvQuery len q → len = length l) →
  seen_event x l = next_event x l.
Proof.
  assert (init_event l ≠ EvMalformed → seen_init l = init_event l) as Hi.
  { unfold init_event, seen_init. repeat (case_decide; [done|]). apply seen_startup_next. lia. }
  assert (typed_event x l ≠ EvMalformed → (∀ len q, typed_event x l = EvQuery len q → len = length l) →
    seen_typed x l = typed_event x l) as Ht.
  { unfold typed_event, seen_typed. destruct l as [|t l']; [done|]. change (drop 1 (t :: l')) with l'.
    destruct (decide (length l' < 4)%nat); [by rewrite decide_True by (cbn; lia)|].
    rewrite decide_False by (cbn; lia). repeat (case_decide; [done|]).
    set (len := Z.to_nat (1 + be_decode (take 4 l'))).
    assert (5 ≤ len ≤ length (t :: l'))%nat as Hlen by lia. case_decide; [by intros; apply seen_copy_next|].
    intros Hne Hq. apply seen_plain_next; [done|done|]. intros ->.
    destruct (c_string (drop 5 (take len (MSG_QUERY :: l')))) as [q|] eqn:E.
    - assert (plain_event (take len (MSG_QUERY :: l')) = EvQuery len q) as Ep.
      { unfold plain_event. pose proof (length_take (MSG_QUERY :: l') len) as Hl. rewrite Nat.min_l in Hl by lia.
        rewrite E, Hl. destruct len as [|len']; [lia|]. by cbn [take]; rewrite decide_True. }
      by apply (Hq len q).
    - destruct Hne. unfold plain_event. rewrite E. destruct len as [|len']; [lia|]. by cbn [take]; rewrite decide_True. }
  destruct x; cbn [next_event seen_event]; auto.
Qed.
