(* ===== verification/ProcessSpec.v ===== *)
(** * What happens to the bytes a client sends

    [fe_protocol_process] and [session_on_client_readable]: on input that is not
    malformed ([Input]) the code neither reads outside the receive buffer nor loops, and
    deals with the messages as [seen_event] describes them. *)
From S2P Require Import Prelude Memory LibPQ Pool ShardMap Resources Parser Router Keys Sql Message Event.
From S2P Require Import Session Wp SessionSpec Backend Wire BackendSpec ScatterSpec Frontend FrontendSpec.
From S2P Require Import QuerySpec Talk Input.
#[local] Set Warnings "-clear-no-such-hyp".
#[local] Open Scope Z_scope.
#[local] Arguments be_encode : simpl never.

(** ** The receive buffer *)
Record rb_holds (rb : RecvBuf) (l : bytes) : Prop := {
  rh_cap : rb_cap rb = Z.of_nat (length (rb_data rb));
  rh_pos : 0 < rb_cap rb < 2 ^ 48;
  rh_len : rb_len rb = Z.of_nat (length l);
  rh_data : starts_with (rb_data rb) l;
}.
Lemma recvbuf_init_holds : rb_holds (recvbuf_init RECV_BUF_INITIAL) [].
Proof.
  unfold recvbuf_init, malloc, RECV_BUF_INITIAL.
  split; cbn [rb_cap rb_len rb_data]; [rewrite length_replicate; lia|lia|done|done].
Qed.
Lemma recvbuf_ensure_spec rb l n :
  rb_holds rb l → 0 ≤ n → Z.of_nat (length l) + n < 2 ^ 47 →
  ∃ rb', recvbuf_ensure rb n = Ret rb' ∧ rb_holds rb' l ∧ Z.of_nat (length l) + n ≤ rb_cap rb'.
Proof.
  intros [Hc Hp Hl Hd] Hn Hb. unfold recvbuf_ensure. rewrite Hl, (uwrap_small 64 (_ + n)) by lia.
  case_decide as Hle.
  - exists rb. split_and!; [done|by split|lia].
  - pose proof (starts_with_length _ _ Hd). rewrite uwrap_small by lia.
    destruct (grow_enough (rb_cap rb * 2) (Z.of_nat (length l) + n)) as (c & -> & ? & ? & ?); [lia..|].
    eexists. split; [done|]. simpl. split; [|lia].
    split; simpl; [by rewrite length_realloc by lia|lia|done|]. apply realloc_starts; [done|lia].
Qed.
Lemma starts_with_drop m l n : starts_with m l → (n ≤ length l)%nat →
  read_at m (Z.of_nat n) (length l - n) = Ret (drop n l).
Proof.
  intros Hm Hn. pose proof (read_at_spec m (take n l) (drop n l) []) as Hr.
  rewrite app_nil_r, take_drop, length_take, length_drop, Nat.min_l in Hr by done. by apply Hr.
Qed.
Lemma starts_with_read m l off n :
  starts_with m l → (off + n ≤ length l)%nat →
  read_at m (Z.of_nat off) n = Ret (take n (drop off l)).
Proof.
  intros Hm Hn. pose proof (read_at_spec m (take off l) (take n (drop off l)) (drop n (drop off l))) as Hr.
  rewrite take_drop, take_drop, !length_take, length_drop, !Nat.min_l in Hr by lia. by apply Hr.
Qed.
(** Dropping a message. *)
Lemma recvbuf_consume_spec rb l n :
  rb_holds rb l → (n ≤ length l)%nat →
  ∃ rb', recvbuf_consume (Z.of_nat n) rb = Ret rb' ∧ rb_holds rb' (drop n l) ∧
    starts_with (rb_data rb') (moved n l).
Proof.
  intros [Hc Hp Hl Hd] Hn. unfold recvbuf_consume.
  replace (Z.to_nat (rb_len rb - Z.of_nat n)) with (length l - n)%nat by lia.
  rewrite (starts_with_drop _ _ _ Hd Hn). cbn [mbind res_bind].
  destruct (write_at_inside (rb_data rb) [] (take (length l - n) l) (drop (length l - n) l) (drop n l))
    as (m & E & Hm & Hs).
  { simpl. by rewrite take_drop. }
  { rewrite length_drop, length_take. lia. }
  change (Z.of_nat (length [])) with 0 in E. rewrite E. cbn [mbind res_bind]. eexists. split; [done|]. split; [|done].
  split; simpl; [by rewrite Hm|done|rewrite length_drop; lia|by eapply starts_with_app].
Qed.

(** ** Startup *)
Definition login (ps : list (bytes * bytes)) (s : ClientSession) : ClientSession :=
  foldl (λ s p, startup_param p.1 p.2 s) s ps.
Lemma startup_wire_eq pid key : startup_wire pid key =
  frame MSG_AUTH_REQUEST (be_encode 4 AUTH_OK) ++
  frame MSG_PARAM_STATUS (cstr (bs "server_version") ++ cstr (bs "16.0 (Sharegres)")) ++
  frame MSG_PARAM_STATUS (cstr (bs "server_encoding") ++ cstr (bs "UTF8")) ++
  frame MSG_PARAM_STATUS (cstr (bs "client_encoding") ++ cstr (bs "UTF8")) ++
  frame MSG_PARAM_STATUS (cstr (bs "is_superuser") ++ cstr (bs "off")) ++
  frame MSG_PARAM_STATUS (cstr (bs "DateStyle") ++ cstr (bs "ISO, MDY")) ++
  frame MSG_PARAM_STATUS (cstr (bs "integer_datetimes") ++ cstr (bs "on")) ++
  frame MSG_PARAM_STATUS (cstr (bs "standard_conforming_strings") ++ cstr (bs "on")) ++
  frame MSG_BACKEND_KEY (be_encode 4 pid ++ be_encode 4 key) ++
  frame MSG_READY_FOR_QUERY [TXN_IDLE].
Proof. unfold startup_wire, startup_msgs, frames, ready. cbn [map concat fst snd]. by rewrite app_nil_r. Qed.
Lemma length_startup_wire pid key : length (startup_wire pid key) = 225%nat.
Proof.
  rewrite startup_wire_eq, !length_app, !length_frame, !length_app, !length_cstr, !length_be_encode.
  vm_compute. reflexivity.
Qed.
Lemma startup_response_appends p k :
  appends (λ b,
    b ← msg_write_auth_ok b;
    b ← msg_write_param_status b (bs "server_version") (bs "16.0 (Sharegres)");
    b ← msg_write_param_status b (bs "server_encoding") (bs "UTF8");
    b ← msg_write_param_status b (bs "client_encoding") (bs "UTF8");
    b ← msg_write_param_status b (bs "is_superuser") (bs "off");
    b ← msg_write_param_status b (bs "DateStyle") (bs "ISO, MDY");
    b ← msg_write_param_status b (bs "integer_datetimes") (bs "on");
    b ← msg_write_param_status b (bs "standard_conforming_strings") (bs "on");
    b ← msg_write_backend_key b p k;
    msg_write_ready_for_query b TXN_IDLE) (startup_wire p k).
Proof.
  rewrite startup_wire_eq. apply appends_seq; [apply write_auth_ok_appends|].
  do 7 (apply appends_seq; [apply write_param_status_appends|]).
  apply appends_seq; [apply write_backend_key_appends|apply write_ready_appends].
Qed.

(** What dealing with a message leaves alone. *)
Definition kept (s s' : ClientSession) : Prop :=
  client_fd s' = client_fd s ∧ has_shard_map s' = has_shard_map s ∧
  backend_conninfo s' = backend_conninfo s ∧ ev_handler s' = ev_handler s ∧
  scatter s' = scatter s ∧ scatter_count s' = scatter_count s ∧ same_backend s s'.
#[local] Instance kept_refl : Reflexive kept.
Proof. by intros s. Qed.
#[local] Instance kept_trans : Transitive kept.
Proof. intros a b c. unfold kept, same_backend. intuition congruence. Qed.
Lemma kept_login ps s :
  kept s (login ps s) ∧ recv_buf (login ps s) = recv_buf s ∧ alike s (login ps s) ∧
  state (login ps s) = state s ∧ pid (login ps s) = pid s ∧ secret_key (login ps s) = secret_key s.
Proof.
  revert s. induction ps as [|p ps IH]; intros s; [done|]. cbn [login foldl].
  fold (login ps (startup_param p.1 p.2 s)).
  assert (kept s (startup_param p.1 p.2 s) ∧ alike s (startup_param p.1 p.2 s)) as [Hk Ha].
  { unfold startup_param. repeat case_decide; by destruct s. }
  assert (∀ A (f : ClientSession → A), (∀ u s, f (set_user u s) = f s) → (∀ u s, f (set_database u s) = f s) →
    f (startup_param p.1 p.2 s) = f s) as Hf.
  { intros A f H1 H2. unfold startup_param. repeat case_decide; auto. }
  destruct (IH (startup_param p.1 p.2 s)) as (IH1 & IH2 & IH3 & IH4 & IH5 & IH6).
  rewrite IH2, IH4, IH5, IH6. split_and!; [by etrans| | | | |]; try by apply Hf.
  unfold alike in *. intuition congruence.
Qed.

Section process.
Context {W : Type} {PQ : LibPQ W} {Os : OS W} {Laws : LibPQLaws W} {OLaws : OSLaws W}.
Context (m0 : ShardMap) (pg : bytes → option bytes).
Implicit Types (st : St W) (s : ClientSession) (o l : bytes) (n : Z) (ub : Prop)
  (H : list (nat * PGconn)) (P : list PGconn) (L : list (PGconn * bytes)).

Lemma wp_consume ub Q H P L st s o n l k :
  live m0 H P L st s o n → rb_holds (recv_buf s) l → (k ≤ length l)%nat →
  (∀ rb, let s' := set_recv_buf rb s in
     rb_holds rb (drop k l) → starts_with (rb_data rb) (moved k l) →
     live m0 H P L (mkSt (st_world st) (st_map st) (Some s')) s' o n →
     Q tt (mkSt (st_world st) (st_map st) (Some s'))) →
  wp ub (consume (Z.of_nat k)) Q st.
Proof.
  intros Hlv Hrb Hk HQ. apply wp_bind. eapply wp_session_live; [exact Hlv|].
  destruct (recvbuf_consume_spec _ _ _ Hrb Hk) as (rb & E & Hrb' & Hmv).
  apply wp_bind. eapply wp_lift; [exact E|]. eapply wp_modify_alike; [exact Hlv|by destruct s|].
  intros Hlv'. by apply HQ.
Qed.
Lemma wp_startup_params ub Q H P L len l fuel : (len ≤ length l)%nat →
  ∀ pos ps st s o n,
  params_from fuel pos len l = Some ps →
  live m0 H P L st s o n → rb_holds (recv_buf s) l →
  (live m0 H P L (mkSt (st_world st) (st_map st) (Some (login ps s))) (login ps s) o n →
     Q tt (mkSt (st_world st) (st_map st) (Some (login ps s)))) →
  wp ub (startup_params fuel (Z.of_nat pos) (Z.of_nat len)) Q st.
Proof.
  intros Hlen. induction fuel as [|fuel IH]; intros pos ps st s o n Hps Hlv Hrb HQ; [done|].
  cbn [params_from startup_params] in *.
  assert (ps = [] → wp ub (mret tt) Q st) as Hend.
  { intros ->. apply wp_ret. destruct st as [w m ss].
    pose proof (lv_session _ _ _ _ _ _ _ _ Hlv) as Es. simpl in Es. subst ss. by apply HQ. }
  case_decide as Hpos; [|rewrite decide_False by lia; apply Hend; by simplify_eq].
  rewrite decide_True by lia. destruct (c_string (drop pos l)) as [key|] eqn:Ek; [|done].
  cbn [mbind option_bind] in Hps. apply wp_bind. eapply wp_session_live; [exact Hlv|].
  pose proof (rh_data _ _ Hrb) as Hd.
  apply wp_bind. eapply wp_lift; [apply (starts_with_read _ l pos 1); [done|lia]|].
  destruct (c_string_inv _ _ Ek) as (Hkey & r & Hdr).
  destruct (decide (take 1 (drop pos l) = [NUL])) as [Hnil|Hnil].
  { rewrite Hdr in Hnil. destruct key as [|c key]; simpl in Hnil.
    - rewrite decide_True in Hps by done. apply Hend. by simplify_eq.
    - exfalso. injection Hnil as ->. apply Hkey. by left. }
  rewrite decide_False in Hps by (intros ->; rewrite Hdr in Hnil; by apply Hnil).
  apply wp_bind. eapply wp_lift; [by apply (cstr_at_known _ l)|].
  replace (Z.of_nat pos + (Z.of_nat (length key) + 1)) with (Z.of_nat (pos + S (length key))) by lia.
  case_decide as Hle; [rewrite decide_True by lia; apply Hend; by simplify_eq|].
  rewrite decide_False by lia.
  destruct (c_string (drop (pos + S (length key)) l)) as [val|] eqn:Ev; [|done].
  cbn [mbind option_bind] in Hps. apply wp_bind. eapply wp_lift; [by apply (cstr_at_known _ l)|].
  destruct (params_from fuel _ len l) as [rest|] eqn:Er; [|done]. injection Hps as <-.
  destruct (kept_login [(key, val)] s) as (_ & Hrbk & Hal & _).
  apply wp_bind. eapply wp_modify_alike; [exact Hlv|exact Hal|]. intros Hlv1.
  replace (Z.of_nat (pos + S (length key)) + (Z.of_nat (length val) + 1)) with
    (Z.of_nat (pos + S (length key) + S (length val))) by lia.
  eapply IH; [exact Er|exact Hlv1| |exact HQ].
  change (startup_param key val s) with (login [(key, val)] s). by rewrite Hrbk.
Qed.

(** ** One message *)

(** What a round of [fe_protocol_process] does with the event at the start of [l]. *)
Definition dropped s l (len : nat) s' : Prop :=
  kept s s' ∧ rb_holds (recv_buf s') (drop len l).
(** [d] has gone to the backend; the COPY has been ended, with the error [m] if any. *)
Definition copy_fed st s (d : bytes) (e : step_exit) st' : Prop :=
  match backend_conn s with
  | Some c =>
    let r := PQputCopyData (st_world st) c d in
    st_world st' = r.1 ∧ e = (if decide (r.2 < 0) then Return (-1) else Continue)
  | None => e = Return (-1)
  end.
Definition copy_ended st s (m : option bytes) (e : step_exit) st' : Prop :=
  match backend_conn s with
  | Some c =>
    let r := PQputCopyEnd (st_world st) c m in
    if decide (r.2 < 0) then st_world st' = r.1 ∧ e = Return (-1)
    else st_world st' = PQflush r.1 c ∧ e = Continue
  | None => e = Return (-1)
  end.
Definition handled H P L st s o n l (ev : event) (e : step_exit) st' : Prop :=
  match ev with
  | EvWait => e = Return 0 ∧ st' = st
  | EvFail => e = Return (-1) ∧ ∃ s', live m0 H P L st' s' o n ∧ kept s s'
  | EvSsl len => e = Continue ∧ ∃ s', live m0 H P L st' s' (o ++ ["N"%byte : byte]) n ∧
      dropped s l len s' ∧ state s' = state s
  | EvStartup len ps => e = Continue ∧ ∃ s', let u := startup_defaults (login ps s) in
      live m0 H P L st' s' (o ++ startup_wire (pid s) (secret_key s)) n ∧ dropped s l len s' ∧
      state s' = SESSION_STATE_READY ∧ user s' = user u ∧ database s' = database u
  | EvQuery len q => ∃ rc s1, e = Return rc ∧ dropped s l len s1 ∧ state s1 = state s ∧
      ran m0 pg H P L (mkSt (st_world st) (st_map st) (Some s1)) q s1 o n rc st'
  | EvExtended len => e = Continue ∧ ∃ s',
      live m0 H P L st' s' (o ++ report_wire (bs "ERROR") (bs "0A000")
        (bs "extended query protocol not yet supported")) n ∧ dropped s l len s' ∧ state s' = state s
  | EvSkip len => e = Continue ∧ ∃ s', live m0 H P L st' s' o n ∧ dropped s l len s' ∧ state s' = state s
  | EvCopyData len d => copy_fed st s d e st' ∧
      ∃ s', live m0 H P L st' s' o n ∧ dropped s l len s' ∧ state s' = state s
  | EvCopyDone len => copy_ended st s None e st' ∧
      ∃ s', live m0 H P L st' s' o n ∧ dropped s l len s' ∧
        (e = Continue → state s' = SESSION_STATE_QUERY)
  | EvCopyFail len m => copy_ended st s (Some m) e st' ∧
      ∃ s', live m0 H P L st' s' o n ∧ dropped s l len s' ∧
        (e = Continue → state s' = SESSION_STATE_QUERY)
  | EvMalformed => True
  end.
Lemma dropped_recv s s1 l len rb :
  kept s s1 → rb_holds rb (drop len l) → dropped s l len (set_recv_buf rb s1).
Proof. by intros Hk Hrb. Qed.

Lemma wp_startup_ssl ub Q H P L st s o n l len :
  live m0 H P L st s o (n + 1) → 0 ≤ n → rb_holds (recv_buf s) l → (len ≤ length l)%nat →
  (∀ st', handled H P L st s o n l (EvSsl len) Continue st' → Q 0 st') →
  wp ub (_ ← session_queue_send ["N"%byte : byte]; _ ← consume (Z.of_nat len); mret 0) Q st.
Proof.
  intros Hlv Hn Hrb Hlen HQ. apply wp_bind.
  eapply (wp_queue m0 H P L _ _ _ _ s o n); [exact Hlv|done|]. intros b Hlv1.
  apply wp_bind. eapply wp_consume; [exact Hlv1|exact Hrb|done|]. intros rb s' Hrb' _ Hlv2.
  apply wp_ret, HQ. split; [done|]. exists s'. split_and!; [done| |done]. by apply dropped_recv.
Qed.
Lemma wp_startup_login ub Q H P L st s o n l len ps :
  live m0 H P L st s o (n + 225) → 0 ≤ n → rb_holds (recv_buf s) l → (len ≤ length l)%nat →
  params_from (S len) 8 len l = Some ps →
  (∀ st', handled H P L st s o n l (EvStartup len ps) Continue st' → Q 0 st') →
  wp ub (_ ← startup_params (S (Z.to_nat (Z.of_nat len))) 8 (Z.of_nat len);
         _ ← modify startup_defaults;
         _ ← consume (Z.of_nat len);
         _ ← fe_send_startup_response;
         _ ← modify (set_state SESSION_STATE_READY);
         mret 0) Q st.
Proof.
  intros Hlv Hn Hrb Hlen Hps HQ. rewrite Nat2Z.id. apply wp_bind.
  destruct (kept_login ps s) as (Hk & Hrbl & Ha & Hst & Hpid & Hkey).
  eapply (wp_startup_params ub _ H P L len l (S len) Hlen 8%nat ps); [exact Hps|exact Hlv|exact Hrb|].
  intros Hlv1. apply wp_bind. set (u := login ps s) in *.
  eapply wp_modify_alike; [exact Hlv1|by destruct u|]. intros Hlv2.
  apply wp_bind. eapply wp_consume; [exact Hlv2|by rewrite <- Hrbl in Hrb|done|]. intros rb s1 Hrb' _ Hlv3.
  apply wp_bind. unfold fe_send_startup_response. apply wp_bind. eapply wp_session_live; [exact Hlv3|].
  eapply (wp_append_to m0 H P L ub _ _ _ _ s1 o n (startup_response_appends (pid s1) (secret_key s1)));
    [rewrite length_startup_wire; exact Hlv3|done|].
  intros b Hlv4. apply wp_bind. eapply wp_modify_alike; [exact Hlv4|eauto with sharegres|].
  intros Hlv5. apply wp_ret, HQ. split; [done|].
  exists (set_state SESSION_STATE_READY (set_send_buf b s1)). split_and!; [| |done|done|done].
  - change (pid s1) with (pid u) in Hlv5. change (secret_key s1) with (secret_key u) in Hlv5.
    rewrite Hpid, Hkey in Hlv5. exact Hlv5.
  - split; [|done]. etrans; [exact Hk|]. by destruct u.
Qed.
Lemma be_decode_4 (l : bytes) : (4 ≤ length l)%nat → 0 ≤ be_decode (take 4 l) < 2 ^ 32.
Proof.
  intros Hl. pose proof (be_decode_range (take 4 l)) as Hr. rewrite length_take, Nat.min_l in Hr by done.
  exact Hr.
Qed.
Lemma handled_wait H P L st s o n l : live m0 H P L st s o n → handled H P L st s o n l EvWait (Return 0) st.
Proof. done. Qed.
Lemma handled_fail H P L st s o n l n' :
  live m0 H P L st s o n' → n ≤ n' → handled H P L st s o n l EvFail (Return (-1)) st.
Proof. intros Hlv Hn. split; [done|]. exists s. split; [by eapply live_room|done]. Qed.

Lemma wp_startup_message ub (Q : Z → St W → Prop) H P L st s o n l len :
  live m0 H P L st s o (n + 225) → 0 ≤ n → rb_holds (recv_buf s) l → (8 ≤ len ≤ length l)%nat →
  seen_startup len l ≠ EvMalformed →
  (∀ rc st', handled H P L st s o n l (seen_startup len l) (if decide (rc < 0) then Return (-1) else Continue) st' →
     Q rc st') →
  wp ub (handle_startup_message (Z.of_nat len)) Q st.
Proof.
  intros Hlv Hn Hrb Hlen Hev HQ. unfold handle_startup_message. rewrite decide_False by lia.
  apply wp_bind. eapply wp_session_live; [exact Hlv|]. apply wp_bind.
  eapply wp_lift; [apply (starts_with_read _ l 4 4); [apply Hrb|lia]|]. unfold seen_startup in *.
  set (version := be_decode (take 4 (drop 4 l))) in *.
  destruct (decide (version = PG_SSL_REQUEST)).
  { eapply (wp_startup_ssl _ _ H P L _ s o n); [eapply live_room; [exact Hlv|lia]|done|exact Hrb|lia|]. intros st' Hh. by apply HQ. }
  destruct (decide (version = PG_CANCEL_REQUEST)).
  { apply wp_bind. eapply wp_consume; [exact Hlv|exact Hrb|lia|]. intros rb s' _ _ Hlv'.
    apply wp_ret, HQ. split; [done|]. exists s'. split; [eapply live_room; [exact Hlv'|lia]|done]. }
  destruct (decide (Z.shiftr version 16 ≠ 3)).
  { apply wp_ret, HQ. by eapply handled_fail; [exact Hlv|lia]. }
  destruct (params_from (S len) 8 len l) as [ps|] eqn:Eps; [|done].
  eapply wp_startup_login; [exact Hlv|done|exact Hrb|lia|exact Eps|]. intros st' Hh. by apply HQ.
Qed.
Lemma wp_process_startup ub (Q : step_exit → St W → Prop) H P L st s o n l :
  live m0 H P L st s o (n + 225) → 0 ≤ n → rb_holds (recv_buf s) l → seen_init l ≠ EvMalformed →
  (∀ e st', handled H P L st s o n l (seen_init l) e st' → Q e st') →
  wp ub process_startup Q st.
Proof.
  intros Hlv Hn Hrb Hev HQ. apply wp_bind. eapply wp_session_live; [exact Hlv|].
  pose proof (rh_len _ _ Hrb) as Hlen. cbv zeta. rewrite Hlen. unfold seen_init in *.
  destruct (decide (length l < 4)%nat).
  { rewrite decide_True by lia. apply wp_ret. by apply HQ. }
  rewrite decide_False by lia. apply wp_bind.
  eapply wp_lift; [apply (starts_with_read _ l 0 4); [apply Hrb|lia]|]. rewrite drop_0.
  pose proof (be_decode_4 l) as Hr. set (msg_len := be_decode (take 4 l)) in *.
  destruct (decide (msg_len < 4 ∨ 65535 < msg_len)).
  { apply wp_ret, HQ. by eapply handled_fail; [exact Hlv|lia]. }
  destruct (decide (Z.of_nat (length l) < msg_len)).
  { apply wp_ret. by apply HQ. }
  apply wp_bind. destruct (decide (msg_len < 8)).
  { unfold handle_startup_message. rewrite decide_True by lia. apply wp_ret, wp_ret, HQ.
    by eapply handled_fail; [exact Hlv|lia]. }
  rewrite <- (Z2Nat.id msg_len) at 1 by lia.
  eapply wp_startup_message; [exact Hlv|done|exact Hrb|lia|done|]. intros rc st' Hh.
  apply wp_ret. by apply HQ.
Qed.

(** ** COPY IN *)
Lemma wp_copy_put ub (Q : step_exit → St W → Prop) H P L st s o n l len c d :
  live m0 H P L st s o n → rb_holds (recv_buf s) l → (len ≤ length l)%nat →
  backend_conn s = Some c → state s = SESSION_STATE_COPY_IN →
  (∀ e st', handled H P L st s o n l (EvCopyData len d) e st' → Q e st') →
  wp ub (rc ← (rc ← pq c (λ w, PQputCopyData w c d); mret (if decide (rc < 0) then -1 else 0));
         _ ← consume (Z.of_nat len);
         if decide (rc < 0) then mret (Return (-1))
         else
           _ ← (if decide (rc = 1) then modify (set_state SESSION_STATE_QUERY) else mret tt);
           mret Continue) Q st.
Proof.
  intros Hlv Hrb Hlen Hc Hst HQ. apply wp_bind, wp_bind.
  eapply wp_pq_live; [exact Hlv|by apply backend_in|apply quiet_put_copy|]. intros Hlv1. apply wp_ret.
  apply wp_bind. eapply wp_consume; [exact Hlv1|exact Hrb|done|]. intros rb s' Hrb' _ Hlv2.
  cbn [st_world st_map] in *.
  destruct (decide ((PQputCopyData (st_world st) c d).2 < 0)) as [Hd|Hd].
  - rewrite decide_True by lia. apply wp_ret, HQ. split.
    + unfold copy_fed. rewrite Hc. by rewrite decide_True.
    + exists s'. split_and!; [done|by apply dropped_recv|done].
  - rewrite decide_False by lia. apply wp_bind, wp_ret, wp_ret, HQ. split.
    + unfold copy_fed. rewrite Hc. by rewrite decide_False.
    + exists s'. split_and!; [done|by apply dropped_recv|done].
Qed.
Lemma wp_copy_end ub (Q : step_exit → St W → Prop) H P L st s o n l len c m ev :
  live m0 H P L st s o n → rb_holds (recv_buf s) l → (len ≤ length l)%nat →
  backend_conn s = Some c →
  (∀ e st', copy_ended st s m e st' → (∃ s', live m0 H P L st' s' o n ∧ dropped s l len s' ∧
     (e = Continue → state s' = SESSION_STATE_QUERY)) → handled H P L st s o n l ev e st') →
  (∀ e st', handled H P L st s o n l ev e st' → Q e st') →
  wp ub (rc ← (rc ← pq c (λ w, PQputCopyEnd w c m);
               if decide (rc < 0) then mret (-1)
               else _ ← pq_do c (λ w, PQflush w c); mret 1);
         _ ← consume (Z.of_nat len);
         if decide (rc < 0) then mret (Return (-1))
         else
           _ ← (if decide (rc = 1) then modify (set_state SESSION_STATE_QUERY) else mret tt);
           mret Continue) Q st.
Proof.
  intros Hlv Hrb Hlen Hc Hev HQ. pose proof (backend_in s c Hc) as Hin. apply wp_bind, wp_bind.
  eapply wp_pq_live; [exact Hlv|done|apply quiet_put_end|]. intros Hlv1.
  destruct (decide ((PQputCopyEnd (st_world st) c m).2 < 0)) as [Hd|Hd].
  - apply wp_ret, wp_bind. eapply wp_consume; [exact Hlv1|exact Hrb|done|]. intros rb s' Hrb' _ Hlv2.
    rewrite decide_True by lia. apply wp_ret, HQ, Hev.
    + unfold copy_ended. rewrite Hc. by rewrite decide_True.
    + exists s'. split_and!; [done|by apply dropped_recv|done].
  - apply wp_bind. eapply wp_pq_live; [exact Hlv1|done|apply quiet_flush|]. intros Hlv2. apply wp_ret.
    apply wp_bind. eapply wp_consume; [exact Hlv2|exact Hrb|done|]. intros rb s' Hrb' _ Hlv3.
    rewrite decide_False, decide_True by lia. apply wp_bind.
    eapply wp_modify_alike; [exact Hlv3|eauto with sharegres|]. intros Hlv4. apply wp_ret, HQ, Hev.
    + unfold copy_ended. rewrite Hc. by rewrite decide_False.
    + eexists. split_and!; [exact Hlv4| |done]. by apply (dropped_recv s (set_state SESSION_STATE_QUERY s)).
Qed.
Lemma wp_copy_none ub (Q : step_exit → St W → Prop) H P L st s o n l len ev :
  live m0 H P L st s o n → rb_holds (recv_buf s) l → (len ≤ length l)%nat →
  (∀ st', (∃ s', live m0 H P L st' s' o n ∧ dropped s l len s' ∧ state s' = state s) →
     handled H P L st s o n l ev (Return (-1)) st') →
  (∀ e st', handled H P L st s o n l ev e st' → Q e st') →
  wp ub (rc ← mret (-1); _ ← consume (Z.of_nat len);
         if decide (rc < 0) then mret (Return (-1))
         else
           _ ← (if decide (rc = 1) then modify (set_state SESSION_STATE_QUERY) else mret tt);
           mret Continue) Q st.
Proof.
  intros Hlv Hrb Hlen Hev HQ. apply wp_bind, wp_ret, wp_bind.
  eapply wp_consume; [exact Hlv|exact Hrb|done|]. intros rb s' Hrb' _ Hlv2.
  rewrite decide_True by lia. apply wp_ret, HQ, Hev.
  exists s'. split_and!; [done|by apply dropped_recv|done].
Qed.
Lemma wp_process_copy_in ub (Q : step_exit → St W → Prop) H P L st s o n l t len :
  live m0 H P L st s o n → rb_holds (recv_buf s) l → (5 ≤ len ≤ length l)%nat →
  Z.of_nat len ≤ 16 * 1024 * 1024 → state s = SESSION_STATE_COPY_IN →
  seen_copy t len l ≠ EvMalformed →
  (∀ e st', handled H P L st s o n l (seen_copy t len l) e st' → Q e st') →
  wp ub (process_copy_in t (Z.of_nat len - 1) (Z.of_nat len)) Q st.
Proof.
  intros Hlv Hrb Hlen Hmax Hst Hev HQ. unfold process_copy_in, seen_copy in *.
  assert (u32 (Z.of_nat len - 1 - 4) = Z.of_nat (len - 5)) as -> by (rewrite uwrap_small; lia).
  assert (i32 (Z.of_nat (len - 5)) = Z.of_nat (len - 5)) as Hi by (apply swrap_small; lia).
  destruct (decide (t = MSG_COPY_DATA ∨ t = MSG_COPY_DONE ∨ t = MSG_COPY_FAIL)) as [Ht|Ht].
  2: { rewrite !decide_False in HQ by naive_solver. apply wp_bind.
       eapply wp_consume; [exact Hlv|exact Hrb|lia|]. intros rb s' Hrb' _ Hlv2. apply wp_ret, HQ.
       split; [done|]. exists s'. split_and!; [done|by apply dropped_recv|done]. }
  refine (proj2 (wp_assoc _ the_session _ _ _ _) _). apply wp_bind. eapply wp_session_live; [exact Hlv|].
  destruct (backend_conn s) as [c|] eqn:Hc.
  2: { repeat case_decide; try (destruct Ht as [?|[?|?]]; done);
         try (destruct (c_string (drop 5 l)); [|done]);
         (eapply wp_copy_none; [exact Hlv|exact Hrb|lia| |exact HQ]); intros st' (s' & Hlv' & Hdr & Hs');
         (split; [unfold copy_fed, copy_ended; by rewrite Hc|exists s'; by split_and!]). }
  destruct (decide (t = MSG_COPY_DATA)).
  { rewrite Hi. refine (proj2 (wp_assoc _ (lift _) _ _ _ _) _). apply wp_bind.
    eapply (wp_lift _ _ (take (len - 5) (drop 5 l))).
    { case_decide; [rewrite Nat2Z.id; apply (starts_with_read _ l 5); [apply Hrb|lia]|].
      by replace (len - 5)%nat with 0%nat by lia. }
    by eapply wp_copy_put; [exact Hlv|exact Hrb|lia|..]. }
  destruct (decide (t = MSG_COPY_DONE)).
  { eapply (wp_copy_end _ _ H P L st s o n l len c None (EvCopyDone len)); [exact Hlv|exact Hrb|lia|done|done|exact HQ]. }
  destruct (decide (t = MSG_COPY_FAIL)); [|by destruct Ht as [?|[?|?]]].
  refine (proj2 (wp_assoc _ (lift _) _ _ _ _) _). apply wp_bind.
  destruct (decide (len = 5%nat)) as [->|Hl5].
  - eapply wp_lift; [done|]. eapply (wp_copy_end _ _ H P L st s o n l 5 c (Some _) (EvCopyFail 5 _));
      [exact Hlv|exact Hrb|lia|done|done|exact HQ].
  - rewrite decide_True by lia. destruct (c_string (drop 5 l)) as [msg|] eqn:Em; [|done].
    eapply wp_lift; [apply (cstr_at_known _ l 5); [apply Hrb|exact Em]|].
    eapply (wp_copy_end _ _ H P L st s o n l len c (Some _) (EvCopyFail len _));
      [exact Hlv|exact Hrb|lia|done|done|exact HQ].
Qed.

(** ** The whole round *)

(** How many bytes for the client an event takes at most. *)
Definition need (ev : event) : Z := match ev with EvQuery _ _ => 2 ^ 49 | _ => 225 end.
Lemma need_pos ev : 225 ≤ need ev.
Proof. by destruct ev. Qed.
Context (Hpg : prints_trees pg) (Hm0 : map_wf m0) (Hcol : columns_set m0).

Lemma wp_process_message ub (Q : step_exit → St W → Prop) H P L st s o n l t len :
  live m0 H P L st s o (n + need (seen_plain t len l)) → 0 ≤ n → rb_holds (recv_buf s) l →
  (5 ≤ len ≤ length l)%nat → is_Some (backend_conninfo s) → scatter_free s → seen_plain t len l ≠ EvMalformed →
  (∀ e st', handled H P L st s o n l (seen_plain t len l) e st' → Q e st') →
  wp ub (process_message pg t (Z.of_nat len)) Q st.
Proof.
  intros Hlv Hn Hrb Hlen Hci Hfree Hev HQ. unfold process_message, seen_plain in *.
  destruct (decide (t = MSG_QUERY)).
  { destruct (c_string (drop 5 (moved len l))) as [q|] eqn:Eq; [|done].
    apply wp_bind. eapply wp_consume; [exact Hlv|exact Hrb|lia|]. intros rb s1 Hrb' Hmv Hlv1.
    apply wp_bind. eapply wp_session_live; [exact Hlv1|]. apply wp_bind.
    eapply wp_lift; [apply (cstr_at_known _ (moved len l) 5); [exact Hmv|exact Eq]|]. apply wp_bind.
    eapply wp_handle_query; [done|done|done|exact Hlv1|done|done|done|].
    intros rc st' Hran. apply wp_ret, HQ. exists rc, s1. split_and!; [done|by apply dropped_recv|done|exact Hran]. }
  destruct (decide (t = MSG_TERMINATE)).
  { apply wp_ret, HQ. by eapply handled_fail; [exact Hlv|cbn [need]; lia]. }
  destruct (decide (is_extended t)); cbn [need] in Hlv.
  - apply wp_bind. set (msg := bs "extended query protocol not yet supported").
    pose proof (length_report (bs "ERROR") (bs "0A000") msg) as Hr. vm_compute (length (bs _)) in Hr.
    assert (length msg ≤ 64)%nat as Hmsg by (vm_compute; lia).
    eapply (emits_report m0 H P L (bs "ERROR") (bs "0A000") msg _ _ _ s o n);
      [eapply live_room; [exact Hlv|lia]|done|]. intros b Hlv1.
    apply wp_bind. eapply wp_consume; [exact Hlv1|exact Hrb|lia|]. intros rb s1 Hrb' _ Hlv2.
    apply wp_ret, HQ. split; [done|]. exists s1. split_and!; [done|by apply dropped_recv|done].
  - apply wp_bind, wp_ret, wp_bind. eapply wp_consume; [exact Hlv|exact Hrb|lia|]. intros rb s1 Hrb' _ Hlv2.
    apply wp_ret, HQ. split; [done|]. exists s1.
    split_and!; [eapply live_room; [exact Hlv2|lia]|by apply dropped_recv|done].
Qed.
Lemma wp_process_step ub (Q : step_exit → St W → Prop) H P L st s o n l :
  live m0 H P L st s o (n + need (seen_event (state s) l)) → 0 ≤ n → rb_holds (recv_buf s) l →
  is_Some (backend_conninfo s) → (state s ≠ SESSION_STATE_SCATTER → scatter_free s) →
  seen_event (state s) l ≠ EvMalformed →
  (∀ e st', handled H P L st s o n l (seen_event (state s) l) e st' → Q e st') →
  wp ub (process_step pg) Q st.
Proof.
  intros Hlv Hn Hrb Hci Hfree Hev HQ. apply wp_bind. eapply wp_session_live; [exact Hlv|]. cbv zeta.
  pose proof (need_pos (seen_event (state s) l)) as Hneed.
  destruct (decide (state s = SESSION_STATE_INIT)) as [Ei|Ei].
  { rewrite Ei in *. eapply (wp_process_startup _ _ H P L _ s o n); [eapply live_room; [exact Hlv|lia]|done|exact Hrb|done|done]. }
  destruct (decide _) as [Ew|Ew].
  { apply wp_ret, HQ. destruct Ew as [E|[E|E]]; by rewrite E. }
  assert (seen_event (state s) l = seen_typed (state s) l) as En.
  { destruct (state s); try done; naive_solver. }
  rewrite En in *. rewrite (rh_len _ _ Hrb). unfold seen_typed in *.
  destruct l as [|t l']; [by apply wp_ret, HQ|].
  destruct (decide (length l' < 4)%nat).
  { rewrite decide_True by (simpl; lia). by apply wp_ret, HQ. }
  rewrite decide_False by (simpl; lia). apply wp_bind.
  eapply wp_lift; [apply (starts_with_read _ (t :: l') 0 1); [apply Hrb|simpl; lia]|].
  apply wp_bind. eapply wp_lift; [done|]. apply wp_bind.
  eapply wp_lift; [apply (starts_with_read _ (t :: l') 1 4); [apply Hrb|simpl; lia]|].
  change (drop 1 (t :: l')) with l'. pose proof (be_decode_4 l' ltac:(lia)) as Hr.
  set (msg_len := be_decode (take 4 l')) in *.
  destruct (decide (msg_len = 2 ^ 32 - 1)); [done|]. rewrite (uwrap_small 32) by lia.
  destruct (decide (msg_len < 4 ∨ _)) as [|Hok].
  { apply wp_ret, HQ. by eapply handled_fail; [exact Hlv|lia]. }
  destruct (decide (Z.of_nat (length (t :: l')) < 1 + msg_len)).
  { by apply wp_ret, HQ. }
  assert (1 + msg_len = Z.of_nat (Z.to_nat (1 + msg_len))) as Etot by lia.
  destruct (decide (state s = SESSION_STATE_COPY_IN)) as [Ec|Ec].
  - replace msg_len with (Z.of_nat (Z.to_nat (1 + msg_len)) - 1) at 1 by lia. rewrite Etot at 2.
    eapply (wp_process_copy_in _ _ H P L _ s o n); [eapply live_room; [exact Hlv|lia]|exact Hrb|lia|lia|done|done|done].
  - rewrite Etot at 1. eapply (wp_process_message _ _ H P L _ s o n); [exact Hlv|done|exact Hrb|lia|done| |done|done].
    apply Hfree. naive_solver.
Qed.

(** ** The loop *)

(** A session between two callbacks, with the input [l] in its receive buffer. *)
Record sinv s l : Prop := {
  si_rb : rb_holds (recv_buf s) l;
  si_conninfo : is_Some (backend_conninfo s);
  si_free : state s ≠ SESSION_STATE_SCATTER → scatter_free s;
  si_init : state s = SESSION_STATE_INIT → backend_conn s = None;
  si_used : state s ≠ SESSION_STATE_AUTH ∧ state s ≠ SESSION_STATE_CLOSING;
}.
Definition same_client s s' : Prop :=
  client_fd s' = client_fd s ∧ has_shard_map s' = has_shard_map s ∧
  backend_conninfo s' = backend_conninfo s ∧ ev_handler s' = ev_handler s.
(** Only the state matters for the stage, but for a query to several shards. *)
Lemma stage_same s s' :
  state s' = state s → state s ≠ SESSION_STATE_SCATTER → stage_at s' = stage_at s.
Proof. unfold stage_at. intros -> Hs. by destruct (state s). Qed.
(** The input has been processed. *)
Definition served H P L s o n l (rc : Z) st' : Prop :=
  ∃ L' out s', live m0 H P (L ++ L') st' s' (o ++ out) n ∧ same_client s s' ∧
    (0 ≤ rc → talks (stage_at s) out (stage_at s') ∧ ∃ l', sinv s' l' ∧ (length l' ≤ length l)%nat).
Lemma served_more H P L s s1 o n l l1 rc st' out :
  same_client s s1 → (length l1 ≤ length l)%nat → talks (stage_at s) out (stage_at s1) →
  served H P L s1 (o ++ out) n l1 rc st' → served H P L s o n l rc st'.
Proof.
  intros Hs Hl Ht (L' & out' & s' & Hlv & Hs' & Hi). exists L', (out ++ out'), s'.
  rewrite app_assoc. split_and!; [done|unfold same_client in *; intuition congruence|].
  intros Hrc. destruct (Hi Hrc) as (? & l' & ? & ?). split; [by eapply talks_app|]. exists l'. split; [done|lia].
Qed.
Lemma kept_client s s' : kept s s' → same_client s s'.
Proof. unfold kept, same_client. intuition. Qed.
Lemma dropped_sinv s s' l len :
  sinv s l → dropped s l len s' → (state s' ≠ SESSION_STATE_SCATTER → state s ≠ SESSION_STATE_SCATTER) →
  state s' = state s ∨ state s' = SESSION_STATE_READY ∨ state s' = SESSION_STATE_QUERY →
  sinv s' (drop len l).
Proof.
  intros [_ Hci Hfree Hin Hus] [(? & ? & Hci' & ? & Hsc & ? & Hbc & _) Hrb'] Hst Hx.
  split; [done|by rewrite Hci'| | |by destruct Hx as [->|[->| ->]]].
  - intros Hs. unfold scatter_free. rewrite Hsc. by apply Hfree, Hst.
  - rewrite Hbc. destruct Hx as [->|[->| ->]]; [done|done|done].
Qed.
Lemma ran_served H P L st0 s s1 q o n l len rc st' :
  sinv s l → dropped s l len s1 → state s = SESSION_STATE_READY → state s1 = state s → ran m0 pg H P L st0 q s1 o n rc st' →
  served H P L s o n l rc st'.
Proof.
  intros Hi Hdr Hx Hst Hran.
  destruct (dropped_sinv s s1 l len Hi Hdr) as [Hrb Hci Hfree _ _]; [by rewrite Hst|by left|].
  assert (∀ s', fixed s1 s' → same_client s s' ∧ recv_buf s' = recv_buf s1 ∧
    backend_conninfo s' = backend_conninfo s1) as Hfix.
  { intros s' [Hu He]. destruct Hdr as [Hk _]. unfold kept, untouched, same_client in *. intuition congruence. }
  destruct Hran as [[-> [_ (s' & Hlv & Hfx & _)]]|[-> (L' & out & s' & Hr & Hlv & Hfx)]];
    destruct (Hfix _ Hfx) as (Hsc & Hrb' & Hci').
  - exists [], [], s'. rewrite !app_nil_r. split_and!; [done|done|lia].
  - exists L', out, s'. split_and!; [done|done|]. intros _.
    rewrite <- (stage_same s s1 Hst) by (by rewrite Hx). rewrite <- Hst in *.
    split; [by eapply runs_talks|]. exists (drop len l). rewrite length_drop. split; [|lia].
    assert (state s' = SESSION_STATE_QUERY ∨ state s' = SESSION_STATE_SCATTER ∨ state s' = SESSION_STATE_READY) as Hs'
      by (destruct Hr; naive_solver congruence).
    split; [by rewrite Hrb'|by rewrite Hci'| |by destruct Hs' as [->|[->| ->]]..].
    intros Hns. by destruct Hr.
Qed.
(** The rest of the input after an event. *)
Definition rest_ok k (x : SessionState) (ev : event) l : bool :=
  match ev with
  | EvMalformed => false
  | EvSsl len | EvExtended len | EvSkip len | EvCopyData len _ => input_ok k x (drop len l)
  | EvStartup len _ => input_ok k SESSION_STATE_READY (drop len l)
  | _ => true
  end.
Lemma input_ok_query k l : (length l ≤ k)%nat → input_ok k SESSION_STATE_QUERY l = true.
Proof.
  destruct k; simpl; intros Hl; [|by case_decide]. apply bool_decide_eq_true, nil_length_inv. lia.
Qed.
Lemma copy_fed_exit st s d e st' : copy_fed st s d e st' → e = Continue ∨ e = Return (-1).
Proof. unfold copy_fed. repeat case_match; naive_solver. Qed.
Lemma copy_ended_exit st s m e st' : copy_ended st s m e st' → e = Continue ∨ e = Return (-1).
Proof. unfold copy_ended. repeat case_match; naive_solver. Qed.
Lemma served_fail H P L s s' o n l st' :
  live m0 H P L st' s' o n → kept s s' → served H P L s o n l (-1) st'.
Proof.
  intros Hlv Hk. exists [], [], s'. rewrite !app_nil_r. split_and!; [done|by apply kept_client|lia].
Qed.
(** The states in which an event is met. *)
Definition event_in (x : SessionState) (ev : event) : Prop :=
  match ev with
  | EvSsl _ | EvStartup _ _ => x = SESSION_STATE_INIT
  | EvQuery _ _ | EvExtended _ => x = SESSION_STATE_READY
  | EvCopyData _ _ | EvCopyDone _ | EvCopyFail _ _ => x = SESSION_STATE_COPY_IN
  | _ => True
  end.
Lemma seen_event_in s l : sinv s l → event_in (state s) (seen_event (state s) l).
Proof.
  intros [_ _ _ _ [Ha Hc]]. destruct (state s); try done; cbn [seen_event];
    unfold seen_init, seen_startup, seen_typed, seen_copy, seen_plain;
    repeat (case_decide || case_match); done.
Qed.
(** After a round: [loop] is the rest of the loop. *)
Lemma wp_after_round ub (Q : Z → St W → Prop) H P L st s o n l k ev e st' (loop : M W Z) :
  sinv s l → event_in (state s) ev → live m0 H P L st s o n → handled H P L st s o n l ev e st' →
  rest_ok k (state s) ev l = true → (length l ≤ S k)%nat →
  (∀ len, ev_len ev = Some len → (5 ≤ len ≤ length l)%nat ∧ state s ≠ SESSION_STATE_SCATTER) →
  (∀ s' len out, ev_len ev = Some len → need ev = 225 → live m0 H P L st' s' (o ++ out) n →
     dropped s l len s' → sinv s' (drop len l) → input_ok k (state s') (drop len l) = true →
     talks (stage_at s) out (stage_at s') → wp ub loop Q st') →
  (∀ rc, served H P L s o n l rc st' → Q rc st') →
  wp ub (match e with Return rc => mret rc | Continue => loop end) Q st'.
Proof.
  intros Hi Hin Hlv Hh Hok Hk Hlen Hloop HQ.
  assert (∀ s' len out, ev_len ev = Some len → need ev = 225 → live m0 H P L st' s' (o ++ out) n →
    dropped s l len s' → input_ok k (state s') (drop len l) = true →
    state s' = state s ∨ state s' = SESSION_STATE_READY ∨ state s' = SESSION_STATE_QUERY →
    talks (stage_at s) out (stage_at s') → wp ub loop Q st') as Hgo.
  { intros s' len out He Hn Hlv' Hdr Hok' Hx Ht. eapply Hloop; [done..| |done|done].
    eapply dropped_sinv; [done|done| |done]. intros _. by apply (Hlen len). }
  assert (∀ s' len, ev_len ev = Some len → live m0 H P L st' s' o n → dropped s l len s' →
    e = Continue ∨ e = Return (-1) → need ev = 225 →
    (e = Continue → input_ok k (state s') (drop len l) = true ∧
      (state s' = state s ∨ state s = SESSION_STATE_COPY_IN ∧ state s' = SESSION_STATE_QUERY)) →
    wp ub (match e with Return rc => mret rc | Continue => loop end) Q st') as Hcopy.
  { intros s' len He Hlv' Hdr [->| ->] Hn Hc.
    - destruct (Hc eq_refl) as [Hok' Hx].
      eapply (Hgo s' len []); [done|done|by rewrite app_nil_r|done|done|naive_solver|].
      destruct Hx as [E|[E1 E2]]; [rewrite (stage_same s s' E) by (by apply (Hlen len)); apply talks_nil|].
      unfold stage_at. rewrite E1, E2. apply talks_one, turn_copy_end.
    - apply wp_ret, HQ. eapply served_fail; [done|apply Hdr]. }
  assert (∀ len, ev_len ev = Some len → (length (drop len l) ≤ k)%nat) as Hdl.
  { intros len E. destruct (Hlen _ E). rewrite length_drop. lia. }
  destruct ev; cbn [handled rest_ok event_in] in *.
  - destruct Hh as [-> ->]. apply wp_ret, HQ. exists [], [], s. rewrite !app_nil_r.
    split_and!; [done|done|]. intros _. split; [apply talks_nil|by exists l].
  - destruct Hh as (-> & s' & Hlv' & Hkp). apply wp_ret, HQ. by eapply served_fail.
  - destruct Hh as (-> & s' & Hlv' & Hdr & Hst). eapply Hgo; [done|done|done|done|by rewrite Hst|by left|].
    unfold stage_at. rewrite Hst, Hin. apply talks_one, turn_ssl.
  - destruct Hh as (-> & s' & Hlv' & Hdr & Hst & _). eapply Hgo; [done|done|done|done|by rewrite Hst|by right; left|].
    unfold stage_at. rewrite Hst, Hin. apply talks_one, turn_login.
  - destruct Hh as (rc & s1 & -> & Hdr & Hst & Hran). apply wp_ret, HQ. by eapply ran_served.
  - destruct Hh as (-> & s' & Hlv' & Hdr & Hst). eapply Hgo; [done|done|done|done|by rewrite Hst|by left|].
    unfold stage_at. rewrite Hst, Hin. apply talks_one, report_turn.
  - destruct Hh as (-> & s' & Hlv' & Hdr & Hst).
    eapply (Hgo s' len []); [done|done|by rewrite app_nil_r|done|by rewrite Hst|by left|].
    rewrite (stage_same s s' Hst) by (by apply (Hlen len)). apply talks_nil.
  - destruct Hh as (Hf & s' & Hlv' & Hdr & Hst).
    eapply Hcopy; [done|done|done|by eapply copy_fed_exit|done|]. intros _. rewrite Hst. by split; [|left].
  - destruct Hh as (Hf & s' & Hlv' & Hdr & Hst). eapply Hcopy; [done|done|done|by eapply copy_ended_exit|done|].
    intros He. rewrite (Hst He). split; [by apply input_ok_query, Hdl|by right].
  - destruct Hh as (Hf & s' & Hlv' & Hdr & Hst). eapply Hcopy; [done|done|done|by eapply copy_ended_exit|done|].
    intros He. rewrite (Hst He). split; [by apply input_ok_query, Hdl|by right].
  - done.
Qed.
Lemma served_room H P L s o n n' l rc st' :
  served H P L s o n' l rc st' → n ≤ n' → served H P L s o n l rc st'.
Proof.
  intros (L' & out & s' & Hlv & Hs & Hi) Hn. exists L', out, s'. split_and!; [by eapply live_room|done|done].
Qed.
Lemma wp_process_loop ub (Q : Z → St W → Prop) H P L k :
  ∀ st s o n l,
  live m0 H P L st s o (n + 2 ^ 49 + 225 * Z.of_nat (length l)) → 0 ≤ n → sinv s l →
  (length l ≤ k)%nat → input_ok k (state s) l = true →
  (∀ rc st', served H P L s o n l rc st' → Q rc st') →
  wp ub (process_loop pg (S k)) Q st.
Proof.
  induction k as [|k IH]; intros st s o n l Hlv Hn Hi Hk Hok HQ;
    apply wp_bind; (eapply wp_session_live; [exact Hlv|]);
    rewrite (rh_len _ _ (si_rb _ _ Hi)).
  all: assert (l = [] → wp ub (mret 0) Q st) as Hnil
    by (intros ->; apply wp_ret, HQ; exists [], [], s; rewrite !app_nil_r; split_and!;
        [eapply live_room; [exact Hlv|simpl; lia]|done|intros _; split; [apply talks_nil|by exists []]]).
  { rewrite decide_False by lia. apply Hnil, nil_length_inv. lia. }
  destruct (decide (l = [])) as [->|Hl]; [rewrite decide_False by (simpl; lia); by apply Hnil|].
  assert (0 < length l)%nat as Hpos by (destruct l; [done|simpl; lia]).
  rewrite decide_True by lia. cbn [input_ok] in Hok. rewrite decide_False in Hok by done.
  change (rest_ok k (state s) (seen_event (state s) l) l = true) in Hok.
  apply wp_bind. pose proof (seen_event_len (state s) l) as Hlen.
  assert (225 ≤ need (seen_event (state s) l) ≤ 2 ^ 49) as Hneed by (by destruct (seen_event (state s) l)).
  assert (state s = SESSION_STATE_SCATTER → seen_event (state s) l = EvWait) as Hsc by (by intros ->).
  set (ev := seen_event (state s) l) in *.
  remember (n + 2 ^ 49 + 225 * Z.of_nat (length l) - need ev) as N eqn:EN.
  eapply (wp_process_step _ _ H P L _ s o N l); fold ev;
    [eapply live_room; [exact Hlv|lia]|lia|apply Hi|apply Hi|apply Hi|by destruct ev|].
  intros e st' Hh. eapply (wp_after_round _ _ H P L st s o N l k ev);
    [done|by apply seen_event_in|eapply live_room; [exact Hlv|lia]|exact Hh|done|done| | |].
  - intros len E. split; [by apply Hlen|]. intros Es. by rewrite (Hsc Es) in E.
  - intros s' len out E Hne Hlv' Hdr Hi' Hin Ht. specialize (Hlen _ E).
    eapply (IH st' s' (o ++ out) n (drop len l)); [|done|done|rewrite length_drop; lia|done|].
    + eapply live_room; [exact Hlv'|]. rewrite length_drop. lia.
    + intros rc st2 Hsv. apply HQ. eapply (served_more _ _ _ s s'); [..|exact Hsv];
        [apply kept_client, Hdr|rewrite length_drop; lia|done].
  - intros rc Hsv. apply HQ. eapply served_room; [exact Hsv|lia].
Qed.

(** ** The callbacks of the client's socket *)

(** Where a callback leaves a session: it is gone and has given everything back, or it is
    ready for the next event.  Under the assumption [fair] on the event it has said what the
    automaton allows. *)
Context (fair : Prop).
Definition left_in H P L s o n st' : Prop :=
  (∃ L', gone m0 H P (L ++ L') st') ∨
  (∃ L' out s' l', live m0 H P (L ++ L') st' s' (o ++ out) n ∧ sinv s' l' ∧
     client_fd s' = client_fd s ∧ (fair → talks (stage_at s) out (stage_at s'))).

Lemma sinv_sent s l b pos ev : sinv s l → sinv (sent_state b pos ev s) l.
Proof. by intros []. Qed.
Lemma wp_send_left ub (Q : () → St W → Prop) H P L L' st s s1 o out n l :
  live m0 H P (L ++ L') st s1 (o ++ out) n → sinv s1 l → client_fd s1 = client_fd s →
  (fair → talks (stage_at s) out (stage_at s1)) →
  (∀ st', left_in H P L s o n st' → Q tt st') →
  wp ub (rc ← session_send; if decide (rc < 0) then session_destroy else mret tt) Q st.
Proof.
  intros Hlv Hi Hfd Ht HQ. apply (wp_flush m0 H P (L ++ L') ub Q st s1 (o ++ out) n Hlv).
  - intros st' Hg _. apply HQ. left. by exists L'.
  - intros w' b pos ev s' st' Hlv' _. apply HQ. right. exists L', out, s', l.
    split_and!; [done|by apply sinv_sent|done|done].
Qed.
Lemma wp_client_writable ub (Q : () → St W → Prop) H P L events st s o n l :
  live m0 H P L st s o n → sinv s l →
  (∀ st', left_in H P L s o n st' → Q tt st') →
  wp ub (session_on_client_writable events) Q st.
Proof.
  intros Hlv Hi HQ. unfold session_on_client_writable. destruct (has_error events).
  - eapply wp_destroy_gone; [exact Hlv|]. intros st' Hg. apply HQ. left. exists []. by rewrite app_nil_r.
  - eapply (wp_send_left ub Q H P L [] st s s o []); rewrite ?app_nil_r; try done. intros _. apply talks_nil.
Qed.
(** What [session_on_client_readable] does after [recv]. *)
Definition after_input : M W () :=
  rc ← fe_protocol_process pg;
  if decide (rc < 0) then session_destroy
  else
    s ← the_session;
    if decide (send_pos s < buf_len (send_buf s)) then
      rc ← session_send;
      if decide (rc < 0) then session_destroy else mret tt
    else mret tt.
(** There is no client any more. *)
Definition hung_up (w : W) s events : Prop :=
  has_error events = true ∨
  ∃ k, (4096 ≤ k)%nat ∧
    ((sock_recv w (client_fd s) k).2 = Received [] ∨ (sock_recv w (client_fd s) k).2 = RecvError).
Lemma wp_receive ub (Q : () → St W → Prop) H P L events st s o n l :
  live m0 H P L st s o n → rb_holds (recv_buf s) l → Z.of_nat (length l) ≤ 2 ^ 46 →
  (∀ st', gone m0 H P L st' → hung_up (st_world st) s events → Q tt st') →
  (∀ k w1 rb r d, (4096 ≤ k)%nat → has_error events = false →
     sock_recv (st_world st) (client_fd s) k = (w1, r) → r = RecvAgain ∧ d = [] ∨ r = Received d ∧ d ≠ [] →
     rb_holds rb (l ++ d) → Z.of_nat (length (l ++ d)) < 2 ^ 48 →
     let s1 := set_recv_buf rb s in let st1 := mkSt w1 (st_map st) (Some s1) in
     live m0 H P L st1 s1 o n →
     if decide (d = []) then Q tt st1 else wp ub after_input Q st1) →
  wp ub (session_on_client_readable pg events) Q st.
Proof.
  intros Hlv Hrb Hl HG HQ. unfold session_on_client_readable.
  destruct (has_error events) eqn:He.
  { eapply wp_destroy_gone; [exact Hlv|]. intros st' Hg. apply HG; [done|by left]. }
  apply wp_bind. eapply wp_session_live; [exact Hlv|].
  destruct (recvbuf_ensure_spec _ l 4096 Hrb) as (rb & E & Hrb1 & Hcap); [lia|lia|].
  apply wp_bind. eapply wp_lift; [exact E|]. apply wp_bind.
  eapply wp_modify_alike; [exact Hlv|by destruct s|]. intros Hlv1.
  apply wp_bind. eapply wp_sys_live; [exact Hlv1|apply quiet_recv|]. cbn [st_world st_map st_session].
  pose proof Hrb1 as [Hc Hp Hlen Hd1].
  set (k := Z.to_nat (rb_cap rb - rb_len rb)). specialize (HQ k).
  assert (4096 ≤ k)%nat as Hk by (unfold k; lia).
  pose proof (recv_count (st_world st) (client_fd s) k) as Hcnt. intros Hlv2.
  assert ((sock_recv (st_world st) (client_fd s) k).2 = Received [] ∨
          (sock_recv (st_world st) (client_fd s) k).2 = RecvError → hung_up (st_world st) s events) as Hup.
  { intros Hr. right. by exists k. }
  destruct (sock_recv (st_world st) (client_fd s) k) as [w1 r]. cbn [fst snd] in *.
  set (s1 := set_recv_buf rb s) in *.
  assert (r = Received [] ∨ r = RecvError → wp ub session_destroy Q (mkSt w1 (st_map st) (Some s1))) as Hd.
  { intros Hr. eapply wp_destroy_gone; [exact Hlv2|]. intros st' Hg. apply HG; [done|by apply Hup]. }
  destruct r as [[|c d]| |]; [by apply Hd; left| |apply wp_ret|by apply Hd; right].
  2: { specialize (HQ w1 rb RecvAgain []). rewrite app_nil_r in HQ. rewrite decide_True in HQ by done.
       apply HQ; [done|done|done|by left|done|lia|done]. }
  set (d' := c :: d) in *. specialize (Hcnt d' eq_refl).
  destruct (write_at_spec (rb_data rb) l d') as (m & Em & Hlm & Hsm); [done|unfold k in Hcnt; lia|].
  rewrite Hlen. apply wp_bind. eapply wp_lift; [exact Em|]. apply wp_bind.
  eapply wp_modify_alike; [exact Hlv2|by destruct s|]. cbn [st_world st_map]. intros Hlv3.
  specialize (HQ w1 (mkRecvBuf m (Z.of_nat (length l) + Z.of_nat (length d')) (rb_cap rb)) (Received d') d').
  rewrite decide_False in HQ by done. apply HQ; [done|done|done|by right| | |done].
  - split; cbn [rb_cap rb_len rb_data]; [by rewrite Hlm|done|rewrite length_app; lia|done].
  - rewrite length_app. unfold k in Hcnt. lia.
Qed.
Lemma wp_client_readable ub (Q : () → St W → Prop) H P L events st s o n l :
  live m0 H P L st s o (n + 2 ^ 57) → 0 ≤ n → sinv s l → Z.of_nat (length l) ≤ 2 ^ 46 →
  (∀ k d, (sock_recv (st_world st) (client_fd s) k).2 = Received d →
     input_ok (length (l ++ d)) (state s) (l ++ d) = true) →
  (∀ st', left_in H P L s o n st' → Q tt st') →
  wp ub (session_on_client_readable pg events) Q st.
Proof.
  intros Hlv Hn Hi Hl Hin HQ. destruct Hi as [Hrb Hci Hfree Hini Hus].
  eapply wp_receive; [exact Hlv|exact Hrb|exact Hl| |].
  { intros st' Hg _. apply HQ. left. exists []. by rewrite app_nil_r. }
  intros k w1 rb r d _ _ Er Hr Hrb1 Hld s1 st1 Hlv1.
  assert (sinv s1 (l ++ d)) as Hi1 by done.
  destruct Hr as [[_ ->]|[-> Hne]].
  { rewrite app_nil_r in *. apply HQ. right. exists [], [], s1, l. rewrite !app_nil_r.
    split_and!; [eapply live_room; [exact Hlv1|lia]|done|done|intros _; apply talks_nil]. }
  rewrite decide_False by done. specialize (Hin k d). rewrite Er in Hin. specialize (Hin eq_refl).
  apply wp_bind. unfold fe_protocol_process. apply wp_bind. eapply wp_session_live; [exact Hlv1|].
  change (recv_buf s1) with rb. rewrite (rh_len _ _ Hrb1), Nat2Z.id.
  eapply (wp_process_loop _ _ H P L (length (l ++ d)) _ s1 o n (l ++ d));
    [eapply live_room; [exact Hlv1|lia]|done|done|done|done|].
  intros rc st' (L' & out & s3 & Hlv4 & Hsc & Hi3). case_decide as Hrc.
  { eapply wp_destroy_gone; [exact Hlv4|]. intros st2 Hg. apply HQ. left. by exists L'. }
  destruct Hi3 as (Ht3 & l3 & Hi3 & _); [lia|]. assert (client_fd s3 = client_fd s) as Hfd by apply Hsc.
  apply wp_bind. eapply wp_session_live; [exact Hlv4|]. case_decide.
  - by eapply (wp_send_left ub Q H P L L' _ s s3 o out n l3).
  - apply wp_ret, HQ. right. by exists L', out, s3, l3.
Qed.
End process.

(** ** Queries one after the other *)
Definition query_message (q : bytes) : bytes := frame MSG_QUERY (cstr q).
Definition query_fits (q : bytes) : Prop := cstring q ∧ Z.of_nat (length q) ≤ 2 ^ 20.
Lemma query_message_event x q r :
  x ≠ SESSION_STATE_COPY_IN → query_fits q →
  seen_typed x (query_message q ++ r) =
  seen_plain MSG_QUERY (length (query_message q)) (query_message q ++ r).
Proof.
  intros Hx [_ Hq]. unfold query_message, seen_typed. rewrite length_frame, length_cstr.
  change (frame MSG_QUERY (cstr q) ++ r) with
    (MSG_QUERY :: (be_encode 4 (4 + Z.of_nat (length (cstr q))) ++ cstr q) ++ r).
  rewrite <- app_assoc. set (z := 4 + Z.of_nat (length (cstr q))).
  assert (z = 5 + Z.of_nat (length q)) as Ez by (unfold z; rewrite length_cstr; lia).
  rewrite (take_app_length' (be_encode 4 z)) by (by rewrite length_be_encode).
  rewrite be_decode_encode. change (2 ^ (8 * Z.of_nat 4)) with (2 ^ 32). rewrite Z.mod_small by lia.
  cbn [length]. rewrite !length_app, length_be_encode, length_cstr.
  rewrite decide_False by lia. rewrite decide_False by lia. rewrite decide_False by lia.
  rewrite decide_False by lia. rewrite decide_False by done. f_equal. lia.
Qed.
Lemma query_message_text q r :
  query_fits q → c_string (drop 5 (query_message q ++ r)) = Some q.
Proof.
  intros [Hq _]. unfold query_message, frame, cstr. rewrite <- app_comm_cons, <- app_assoc.
  change (drop 5 (MSG_QUERY :: ?x)) with (drop 4 x).
  rewrite (drop_app_length' (be_encode 4 _)) by (by rewrite length_be_encode).
  rewrite <- app_assoc. by apply c_string_cstr.
Qed.
(** A query alone is read as it is; with a second one behind it, that one is read. *)
Lemma one_query_event q :
  query_fits q → seen_event SESSION_STATE_READY (query_message q) = EvQuery (length (query_message q)) q.
Proof.
  intros Hq. pose proof (query_message_text q [] Hq) as Ht. rewrite app_nil_r in Ht.
  cbn [seen_event]. rewrite <- (app_nil_r (query_message q)) at 1.
  rewrite query_message_event by done. unfold seen_plain. rewrite decide_True by done.
  rewrite app_nil_r. unfold moved. rewrite drop_all, Nat.sub_diag, drop_0. cbn [app].
  by rewrite Ht.
Qed.
Lemma two_queries_event q q' :
  query_fits q → query_fits q' →
  seen_event SESSION_STATE_READY (query_message q ++ query_message q') =
  EvQuery (length (query_message q)) q'.
Proof.
  intros Hq Hq'. cbn [seen_event]. rewrite query_message_event by done. unfold seen_plain.
  rewrite decide_True by done. unfold moved. rewrite drop_app_length.
  by rewrite query_message_text.
Qed.

Section claims.
Context {W : Type} {PQ : LibPQ W} {Os : OS W} {Laws : LibPQLaws W} {OLaws : OSLaws W}.

(** C14: A round of [fe_protocol_process] follows the protocol, if the message at the start
    of the input is not malformed and a query is the last thing received (C35 and C36 show
    what happens otherwise).  What it does is determined by the bytes of that message alone
    ([next_event]).  An incomplete message, or any input while a query runs, waits; a
    startup message logs the client in and is answered with the startup messages; a query
    is routed and run; the extended protocol is refused with an error; COPY data goes to the
    backend; other messages are skipped; a bad length or a termination ends the session.  A
    message that is dealt with is removed from the buffer, and the code never reads outside
    the buffer. *)
Theorem messages_followed m0 pg H P L (st : St W) s o n l :
  prints_trees pg → map_wf m0 → columns_set m0 →
  let ev := next_event (state s) l in
  live m0 H P L st s o (n + need ev) → 0 ≤ n → sinv s l →
  ev ≠ EvMalformed → (∀ len q, ev = EvQuery len q → len = length l) →
  ∃ e st', process_step pg st = Ret (e, st') ∧ handled m0 pg H P L st s o n l ev e st'.
Proof.
  intros Hpg Hm Hcol ev Hlv Hn [Hrb Hci Hfree] Hev Hq. apply wp_total.
  pose proof (seen_event_next (state s) l Hev Hq) as E. fold ev in E.
  eapply wp_process_step; rewrite ?E; done.
Qed.

(** C35: A query that arrives alone is executed; when the next query has already arrived
    behind it, the text of that one is executed in its place, because the text is read
    through a pointer into the receive buffer after the message has been removed from it.
    The first query is lost, and the second stays in the buffer. *)
Theorem pipelined_query_lost m0 pg H P L (st : St W) s o n q :
  prints_trees pg → map_wf m0 → columns_set m0 → state s = SESSION_STATE_READY → query_fits q →
  live m0 H P L st s o (n + 2 ^ 49) → 0 ≤ n →
  (sinv s (query_message q) →
   ∃ rc s1 st', process_step pg st = Ret (Return rc, st') ∧ rb_holds (recv_buf s1) [] ∧
     ran m0 pg H P L (mkSt (st_world st) (st_map st) (Some s1)) q s1 o n rc st') ∧
  (∀ q', query_fits q' → sinv s (query_message q ++ query_message q') →
   ∃ rc s1 st', process_step pg st = Ret (Return rc, st') ∧ rb_holds (recv_buf s1) (query_message q') ∧
     ran m0 pg H P L (mkSt (st_world st) (st_map st) (Some s1)) q' s1 o n rc st').
Proof.
  intros Hpg Hm Hcol Hst Hq Hlv Hn.
  assert (∀ l len t, seen_event SESSION_STATE_READY l = EvQuery len t → sinv s l →
    ∃ rc s1 st', process_step pg st = Ret (Return rc, st') ∧ rb_holds (recv_buf s1) (drop len l) ∧
      ran m0 pg H P L (mkSt (st_world st) (st_map st) (Some s1)) t s1 o n rc st') as Hstep.
  { intros l len t Ev [Hrb Hci Hfree].
    destruct (wp_total (process_step pg) (handled m0 pg H P L st s o n l (EvQuery len t)) st)
      as (e & st' & E & (rc & s1 & -> & [_ Hdr] & _ & Hran)).
    - rewrite <- Hst in Ev. rewrite <- Ev.
      eapply wp_process_step; [done|done|done|by rewrite Ev|done|done|done|done|by rewrite Ev|done].
    - by exists rc, s1, st'. }
  split.
  - intros Hi. destruct (Hstep _ _ _ (one_query_event q Hq) Hi) as (rc & s1 & st' & E & Hrb & Hran).
    exists rc, s1, st'. by rewrite drop_all in Hrb.
  - intros q' Hq' Hi. destruct (Hstep _ _ _ (two_queries_event q q' Hq Hq') Hi) as (rc & s1 & st' & E & Hrb & Hran).
    exists rc, s1, st'. by rewrite drop_app_length in Hrb.
Qed.

(** ** A length that wraps *)
Definition wrapping (t : byte) (r : bytes) : bytes := t :: replicate 4 "255"%byte ++ r.
Definition skipped_type (t : byte) : Prop := t ≠ MSG_QUERY ∧ t ≠ MSG_TERMINATE ∧ ¬ is_extended t.
Lemma wrapping_step pg (w : W) m s t r :
  state s = SESSION_STATE_READY → skipped_type t → rb_holds (recv_buf s) (wrapping t r) →
  ∃ rb, process_step pg (mkSt w m (Some s)) = Ret (Continue, mkSt w m (Some (set_recv_buf rb s))) ∧
    rb_holds rb (wrapping t r).
Proof.
  intros Hst (Ht1 & Ht2 & Ht3) Hrb.
  destruct (recvbuf_consume_spec _ _ 0 Hrb) as (rb & E & Hrb' & _); [lia|]. rewrite drop_0 in Hrb'.
  exists rb. split; [|done]. unfold process_step. rewrite run_session, Hst. cbv zeta.
  do 2 (rewrite decide_False by (by intuition)).
  rewrite decide_False by (rewrite (rh_len _ _ Hrb); unfold wrapping; simpl; lia).
  rewrite (run_lift _ _ [t]) by (by apply (starts_with_read _ (wrapping t r) 0 1); [apply Hrb|simpl; lia]).
  rewrite (run_lift _ _ t) by done.
  rewrite (run_lift _ _ (replicate 4 "255"%byte))
    by (by apply (starts_with_read _ (wrapping t r) 1 4); [apply Hrb|simpl; lia]).
  change (u32 (1 + be_decode (replicate 4 "255"%byte))) with 0.
  change (be_decode (replicate 4 "255"%byte)) with (2 ^ 32 - 1).
  rewrite decide_False by lia. rewrite decide_False by (rewrite (rh_len _ _ Hrb); lia).
  rewrite decide_False by done. unfold process_message. rewrite !decide_False by done.
  change (Z.of_nat 0) with 0 in E. unfold consume, lift, mbind, M_bind. cbn -[recvbuf_consume].
  by rewrite E.
Qed.

(** C36: A message of unknown type with length 0xFFFFFFFF stops the proxy: one plus the
    length wraps to 0 in 32 bits, the message counts as complete, nothing is removed from
    the buffer, and [fe_protocol_process] never returns.  No number of rounds is
    enough. *)
Theorem length_wrap_never_returns pg (w : W) m s t r :
  state s = SESSION_STATE_READY → skipped_type t → rb_holds (recv_buf s) (wrapping t r) →
  (∀ fuel, process_loop pg fuel (mkSt w m (Some s)) = Hang) ∧
  fe_protocol_process pg (mkSt w m (Some s)) = Hang.
Proof.
  intros Hst Ht Hrb.
  assert (∀ fuel s, state s = SESSION_STATE_READY → rb_holds (recv_buf s) (wrapping t r) →
    process_loop pg fuel (mkSt w m (Some s)) = Hang) as Hloop.
  { clear s Hst Hrb. induction fuel as [|fuel IH]; intros s Hst Hrb; [done|].
    destruct (wrapping_step pg w m s t r Hst Ht Hrb) as (rb & E & Hrb').
    cbn [process_loop]. rewrite run_session.
    rewrite decide_True by (rewrite (rh_len _ _ Hrb); unfold wrapping; simpl; lia).
    unfold mbind, M_bind. rewrite E. by apply IH. }
  split; [intros fuel; by apply Hloop|]. unfold fe_protocol_process. rewrite run_session. by apply Hloop.
Qed.
End claims.

(** The client of [QuerySpec], with some input. *)
Definition sample_received (x : SessionState) (l : bytes) : ClientSession :=
  set_state x (set_recv_buf (mkRecvBuf (Some <$> l) (Z.of_nat (length l)) (Z.of_nat (length l)))
    sample_client).
Definition sample_received_st x l : St SimWorld :=
  mkSt sim_empty sample_start (Some (sample_received x l)).
Lemma sample_received_live x l :
  live sample_start [] [] [] (sample_received_st x l) (sample_received x l) [] (2 ^ 62).
Proof.
  destruct sample_client_live as [_ [Hb [H1 H2 H3]] Hm Hr Hg Ho]. by split; [|split; [|split]|..].
Qed.
Lemma sample_received_holds l :
  0 < Z.of_nat (length l) < 2 ^ 48 → rb_holds (recv_buf (sample_received SESSION_STATE_READY l)) l.
Proof.
  intros Hl. split; cbn; [by rewrite length_fmap|done|done|].
  unfold starts_with. rewrite take_ge; [done|by rewrite length_fmap].
Qed.
Lemma sample_received_sinv x l :
  x = SESSION_STATE_INIT ∨ x = SESSION_STATE_READY → 0 < Z.of_nat (length l) < 2 ^ 48 →
  sinv (sample_received x l) l.
Proof.
  intros Hx Hl.
  split; [by apply (sample_received_holds l)|by eexists|intros _; apply fresh_free|done|by destruct Hx as [-> | ->]].
Qed.

(** A startup message of user bob. *)
Definition sample_startup : bytes :=
  be_encode 4 18 ++ be_encode 4 196608 ++ cstr (bs "user") ++ cstr (bs "bob") ++ [NUL].
Lemma messages_followed_witness :
  ∃ e st', process_step sample_pg (sample_received_st SESSION_STATE_INIT sample_startup) = Ret (e, st') ∧
    handled sample_start sample_pg [] [] [] (sample_received_st SESSION_STATE_INIT sample_startup)
      (sample_received SESSION_STATE_INIT sample_startup) [] 0 sample_startup
      (EvStartup 18 [(bs "user", bs "bob")]) e st'.
Proof.
  assert (next_event SESSION_STATE_INIT sample_startup = EvStartup 18 [(bs "user", bs "bob")]) as E
    by (vm_compute; reflexivity).
  rewrite <- E.
  apply (messages_followed sample_start sample_pg [] [] [] _
    (sample_received SESSION_STATE_INIT sample_startup));
    [apply sample_pg_prints|apply sample_start_wf|apply sample_start_columns| |done| | |].
  - eapply live_room; [apply sample_received_live|]. cbn [state sample_received set_state]. rewrite E. cbn. lia.
  - apply sample_received_sinv; [auto|]. by vm_compute.
  - cbn [state sample_received set_state]. by rewrite E.
  - cbn [state sample_received set_state]. by rewrite E.
Defined.
Lemma pipelined_query_lost_witness :
  ∃ rc s1 st', process_step sample_pg (sample_received_st SESSION_STATE_READY
      (query_message (bs "insert") ++ query_message (bs "select"))) = Ret (Return rc, st') ∧
    rb_holds (recv_buf s1) (query_message (bs "select")) ∧
    pq_log (st_world st') = [(1%positive, bs "select")].
Proof.
  set (l := query_message (bs "insert") ++ query_message (bs "select")).
  destruct (pipelined_query_lost sample_start sample_pg [] [] [] (sample_received_st SESSION_STATE_READY l)
    (sample_received SESSION_STATE_READY l) [] 0 (bs "insert")) as [_ Htwo];
    [apply sample_pg_prints|apply sample_start_wf|apply sample_start_columns|done| | |done|].
  - split; [vm_compute; set_solver|by vm_compute].
  - eapply live_room; [apply sample_received_live|lia].
  - destruct (Htwo (bs "select")) as (rc & s1 & st' & E & Hrb & _).
    + split; [vm_compute; set_solver|by vm_compute].
    + apply sample_received_sinv; [auto|]. by vm_compute.
    + exists rc, s1, st'. split; [exact E|]. split; [exact Hrb|].
      assert (match process_step sample_pg (sample_received_st SESSION_STATE_READY l) with
              | Ret (_, st) => pq_log (st_world st) = [(1%positive, bs "select")]
              | _ => False end) as H by (vm_compute; reflexivity).
      by rewrite E in H.
Defined.
Lemma length_wrap_never_returns_witness :
  fe_protocol_process sample_pg (sample_received_st SESSION_STATE_READY (wrapping "z"%byte [])) = Hang.
Proof.
  apply (length_wrap_never_returns sample_pg sim_empty sample_start
    (sample_received SESSION_STATE_READY (wrapping "z"%byte [])) "z"%byte []).
  - reflexivity.
  - split_and!; [done|done|]. by intros Hx; vm_compute in Hx; intuition.
  - apply sample_received_holds. by vm_compute.
Defined.
