(* ===== verification/EndToEnd.v ===== *)
(** * From the client's bytes to the answer

    The parts put together: a query arrives on the client's socket, in as many pieces as
    the network likes; it is parsed and routed to one shard; it is sent on a connection to
    that shard; and the results of that connection go back to the client. *)
From S2P Require Import Prelude PgTree PgPrint PgQuery Memory Json LibPQ Pool ShardMap Resources Parser Router Keys Sql Rows Store Message Event.
From S2P Require Import Session Wp SessionSpec Backend Wire BackendSpec ScatterSpec Frontend FrontendSpec.
From S2P Require Import QuerySpec Talk Input ProcessSpec.
#[local] Set Warnings "-clear-no-such-hyp".
#[local] Open Scope Z_scope.
#[local] Arguments be_encode : simpl never.

(** ** Pieces of a query *)
Lemma part_of_query_waits q l r :
  query_fits q → r ≠ [] → l ++ r = query_message q → seen_event SESSION_STATE_READY l = EvWait.
Proof.
  intros [_ Hq] Hr E. cbn [seen_event]. unfold seen_typed. destruct l as [|t l]; [done|].
  case_decide as Hl; [done|]. assert (length (t :: l) < length (query_message q))%nat as Hlen.
  { rewrite <- E, length_app. destruct r; [done|simpl; lia]. }
  unfold query_message in E, Hlen. rewrite length_frame, length_cstr in Hlen.
  apply (f_equal tail) in E. change (l ++ r = be_encode 4 (4 + Z.of_nat (length (cstr q))) ++ cstr q) in E.
  assert (take 4 l = be_encode 4 (4 + Z.of_nat (length (cstr q)))) as ->.
  { rewrite <- (take_app_length' (be_encode 4 (4 + Z.of_nat (length (cstr q)))) (cstr q) 4)
      by (by rewrite length_be_encode). rewrite <- E. by rewrite take_app_le by lia. }
  rewrite be_decode_encode, length_cstr. change (2 ^ (8 * Z.of_nat 4)) with (2 ^ 32).
  rewrite Z.mod_small by lia. rewrite decide_False by lia. rewrite decide_False by lia.
  by rewrite decide_True by lia.
Qed.

Section endtoend.
Context {W : Type} {PQ : LibPQ W} {Os : OS W} {Laws : LibPQLaws W} {OLaws : OSLaws W}.
Context (m0 : ShardMap) (pg : bytes → option bytes).
Context (Hpg : prints_trees pg) (Hm0 : map_wf m0) (Hcol : columns_set m0).
Implicit Types (st : St W) (s : ClientSession) (o l : bytes) (n : Z) (ub : Prop)
  (H : list (nat * PGconn)) (P : list PGconn) (L : list (PGconn * bytes)).

(** The socket has the bytes [d] for a read of at least 4096 bytes. *)
Definition has_input (w : W) s (d : bytes) : Prop :=
  d ≠ [] ∧ ∀ k, (4096 ≤ k)%nat → (sock_recv w (client_fd s) k).2 = Received d.

(** One round of the loop is enough when it returns. *)
Lemma wp_one_round ub (Q : Z → St W → Prop) H P L st s o n l :
  live m0 H P L st s o (n + 2 ^ 49) → 0 ≤ n → sinv s l → l ≠ [] →
  seen_event (state s) l = EvWait ∨ (∃ len q, seen_event (state s) l = EvQuery len q) →
  (∀ rc st', handled m0 pg H P L st s o n l (seen_event (state s) l) (Return rc) st' → Q rc st') →
  wp ub (fe_protocol_process pg) Q st.
Proof.
  intros Hlv Hn Hi Hl Hev HQ. apply wp_bind. eapply wp_session_live; [exact Hlv|].
  cbn [process_loop]. apply wp_bind. eapply wp_session_live; [exact Hlv|].
  rewrite (rh_len _ _ (si_rb _ _ Hi)). assert (0 < length l)%nat by (destruct l; [done|simpl; lia]).
  rewrite decide_True by lia. apply wp_bind.
  eapply (wp_process_step m0 pg Hpg Hm0 Hcol); [|exact Hn|apply Hi|apply Hi|apply Hi|by destruct Hev as [->|(? & ? & ->)]|].
  - eapply live_room; [exact Hlv|]. destruct Hev as [->|(? & ? & ->)]; cbn [need]; lia.
  - intros e st' Hh. destruct Hev as [E|(len & q & E)]; rewrite E in *; cbn [handled] in Hh.
    + destruct Hh as [-> ->]. apply wp_ret, HQ. by split.
    + destruct Hh as (rc & s1 & -> & Hh). apply wp_ret, HQ. exists rc, s1. by split.
Qed.
(** What a statement for one shard comes to. *)
Lemma runs_one st sql s L' out s' d i :
  decided pg st sql d → route_type d = ROUTE_SINGLE → target_shards d = [i] → has_shard_map s = true →
  map_like m0 (st_map st) → runs pg st sql s L' out s' →
  (∃ c, L' = [(c, sql)] ∧ out = [] ∧ backend_conn s' = Some c ∧ backend_shard s' = Some i ∧
     state s' = SESSION_STATE_QUERY ∧ scatter_free s') ∨
  (L' = [] ∧ out = report_wire (bs "ERROR") (bs "08001") (bs "cannot connect to shard") ∧
     refused sql (Some i) st ∧ (state s' = state s ∨ state s' = SESSION_STATE_READY) ∧ scatter_free s').
Proof.
  intros Hd Ht Hi Hsm Hm Hr.
  assert (∀ d', decided pg st sql d' → d' = d) as Hdet.
  { unfold decided in *. intros d' Hd'. rewrite Hd in Hd'. by injection Hd'. }
  assert (¬ unsharded st s) as Hun.
  { intros [E|E]; [congruence|].
    destruct (route_sql_total pg (st_map st) sql) as (x & Ex & Hx);
      [done|by eapply map_like_wf|by eapply map_like_columns|]. unfold decided in Hd. rewrite Hd in Ex.
    injection Ex as <-. destruct (Hx d eq_refl) as (_ & Hall & _).
    rewrite Hi, E in Hall. rewrite Forall_singleton in Hall. by apply Nat.nlt_0_r in Hall. }
  destruct Hr as [d' j c s' Hd' _ Hj|d' c s' Hd' E|c s' Hu|d' s' Hd' E|d' s' Hd' E|sev code msg s' Hf Hs Hfree].
  - apply Hdet in Hd' as ->. left. exists c. rewrite Hi in Hj. injection Hj as <-. by split_and!.
  - apply Hdet in Hd' as ->. congruence.
  - done.
  - apply Hdet in Hd' as ->. congruence.
  - apply Hdet in Hd' as ->. congruence.
  - right. destruct Hf as [E|d' j Hd' _ Hj Href|d' Hd' E|d' Hd' E|st1 Hu|st1 c Hu]; try done.
    + unfold decided in Hd. congruence.
    + apply Hdet in Hd' as ->. rewrite Hi in Hj. injection Hj as <-. by split_and!.
    + apply Hdet in Hd' as ->. congruence.
    + apply Hdet in Hd' as ->. congruence.
Qed.

(** ** The query goes out *)

(** What is queued is sent, if there is something. *)
Lemma wp_maybe_send ub (Q : () → St W → Prop) H P L st s o n :
  live m0 H P L st s o n →
  (∀ st', gone m0 H P L st' → client_lost st' s → Q tt st') →
  (∀ st' b pos ev, live m0 H P L st' (sent_state b pos ev s) o n → Q tt st') →
  wp ub (s ← the_session;
         if decide (send_pos s < buf_len (send_buf s)) then
           rc ← session_send; if decide (rc < 0) then session_destroy else mret tt
         else mret tt) Q st.
Proof.
  intros Hlv HG HQ. apply wp_bind. eapply wp_session_live; [exact Hlv|]. case_decide.
  - apply (wp_flush m0 H P L ub Q st s o n Hlv HG). intros w' b pos ev s' st' Hlv' _. by eapply HQ.
  - apply wp_ret. eapply (HQ st (send_buf s) (send_pos s) (ev_handler s)). by rewrite sent_state_id.
Qed.
(** The statement has been dealt with, and what there is to say is sent. *)
Definition query_taken H P L st s o n q st' : Prop :=
  (client_lost st' s ∧ ∃ L', gone m0 H P (L ++ L') st') ∨
  (too_many pg st q ∧ gone m0 H P L st') ∨
  ∃ w1 L' out s1 s', quiet (st_world st) w1 ∧ same_client s s1 ∧ same_client s s' ∧ state s1 = state s ∧
    runs pg (mkSt w1 (st_map st) (Some s1)) q s1 L' out s' ∧ rb_holds (recv_buf s') [] ∧
    ∃ b pos ev, live m0 H P (L ++ L') st' (sent_state b pos ev s') (o ++ out) n.
Lemma wp_query_input ub (Q : () → St W → Prop) H P L st s o n q :
  live m0 H P L st s o (n + 2 ^ 49) → 0 ≤ n → sinv s (query_message q) → query_fits q →
  state s = SESSION_STATE_READY →
  (∀ st', query_taken H P L st s o n q st' → Q tt st') →
  wp ub (after_input pg) Q st.
Proof.
  intros Hlv Hn Hi Hq Hst HQ. pose proof (one_query_event q Hq) as Hev. rewrite <- Hst in Hev.
  apply wp_bind. eapply wp_one_round; [exact Hlv|exact Hn|exact Hi|done|right; by eexists _, _|].
  rewrite Hev. intros rc st' (rc' & s1 & [= <-] & [Hk Hrb] & Hst1 & Hran). rewrite drop_all in Hrb.
  apply kept_client in Hk. assert (client_fd s1 = client_fd s) as Hfd1 by apply Hk.
  destruct Hran as [(-> & Hmany & s' & Hlv' & _)|(-> & L' & out & s' & Hr & Hlv' & Hfx)].
  { rewrite decide_True by lia. eapply wp_destroy_gone; [exact Hlv'|]. intros st2 Hg. apply HQ. right. by left. }
  rewrite decide_False by lia. assert (same_client s s' ∧ recv_buf s' = recv_buf s1) as [Hsc Hrb'].
  { unfold fixed, untouched, same_client in *. intuition congruence. }
  eapply wp_maybe_send; [exact Hlv'| |].
  - intros st2 Hg Hc. apply HQ. left. unfold client_lost in *. rewrite <- (proj1 Hsc). split; [done|by exists L'].
  - intros st2 b pos ev Hlv2. apply HQ. right. right. exists (st_world st), L', out, s1, s'.
    rewrite Hrb'. split_and!; try done. by exists b, pos, ev.
Qed.
(** A read that completes the query. *)
Lemma wp_query_arrives ub (Q : () → St W → Prop) H P L events st s o n l x q :
  live m0 H P L st s o (n + 2 ^ 49) → 0 ≤ n → sinv s l → Z.of_nat (length l) ≤ 2 ^ 46 →
  query_fits q → state s = SESSION_STATE_READY →
  has_error events = false → has_input (st_world st) s x → l ++ x = query_message q →
  (∀ st', query_taken H P L st s o n q st' → Q tt st') →
  wp ub (session_on_client_readable pg events) Q st.
Proof.
  intros Hlv Hn Hi Hl Hq Hst He [Hx Hin] Elx HQ.
  eapply wp_receive; [exact Hlv|apply Hi|exact Hl| |].
  { intros st' _ [?|(k & Hk & Hr)]; [congruence|]. rewrite (Hin k Hk) in Hr. naive_solver. }
  intros k w1 rb r x' Hk _ Er Hr Hrb _ s1 st1 Hlv1. specialize (Hin k Hk). rewrite Er in Hin. cbn [snd] in Hin.
  destruct Hr as [[-> _]|[-> Hne]]; [done|]. injection Hin as ->. rewrite decide_False by done.
  rewrite Elx in Hrb. destruct Hi as [_ Hci Hfree Hini Hus].
  eapply (wp_query_input _ _ H P L st1 s1 o n q); try done.
  intros st' [Hg|[Hm|(w2 & L' & out & s2 & s' & Hq2 & Hok)]]; apply HQ; [by left|by right; left|].
  right. right. exists w2, L', out, s2, s'. split; [|done].
  pose proof (quiet_recv (st_world st) (client_fd s) k) as Hqr. rewrite Er in Hqr. by eapply quiet_trans.
Qed.
Lemma query_arrives H P L events st s o n l x q :
  live m0 H P L st s o (n + 2 ^ 49) → 0 ≤ n → sinv s l → Z.of_nat (length l) ≤ 2 ^ 46 →
  query_fits q → state s = SESSION_STATE_READY →
  has_error events = false → has_input (st_world st) s x → l ++ x = query_message q →
  ∃ st', session_on_client_readable pg events st = Ret (tt, st') ∧ query_taken H P L st s o n q st'.
Proof.
  intros. destruct (wp_total (session_on_client_readable pg events)
    (λ _ st', query_taken H P L st s o n q st') st) as ([] & st' & ? & ?); [by eapply wp_query_arrives|by exists st'].
Qed.
(** A read that does not. *)
Lemma wp_part_arrives ub (Q : () → St W → Prop) H P L events st s o n l x r q :
  live m0 H P L st s o (n + 2 ^ 49) → 0 ≤ n → sinv s l → Z.of_nat (length l) ≤ 2 ^ 46 →
  query_fits q → state s = SESSION_STATE_READY →
  has_error events = false → has_input (st_world st) s x → l ++ x ++ r = query_message q → r ≠ [] →
  (∀ st', gone m0 H P L st' → client_lost st' s → Q tt st') →
  (∀ st' rb b pos ev, let s' := sent_state b pos ev (set_recv_buf rb s) in
     live m0 H P L st' s' o n → rb_holds rb (l ++ x) → Q tt st') →
  wp ub (session_on_client_readable pg events) Q st.
Proof.
  intros Hlv Hn Hi Hl Hq Hst He [Hx Hin] Elx Hr HG HQ. eapply wp_receive; [exact Hlv|apply Hi|exact Hl| |].
  { intros st' _ [?|(k & Hk & Hrx)]; [congruence|]. rewrite (Hin k Hk) in Hrx. naive_solver. }
  intros k w1 rb x0 x' Hk _ Er Hrx Hrb _ s1 st1 Hlv1. specialize (Hin k Hk). rewrite Er in Hin. cbn [snd] in Hin.
  destruct Hrx as [[-> _]|[-> Hne]]; [done|]. injection Hin as ->. rewrite decide_False by done.
  rewrite app_assoc in Elx. pose proof (part_of_query_waits q (l ++ x) r Hq Hr Elx) as Hev.
  rewrite <- Hst in Hev. change (state s) with (state s1) in Hev. destruct Hi as [_ Hci Hfree Hini Hus].
  apply wp_bind. eapply (wp_one_round _ _ H P L st1 s1 o n (l ++ x));
    [done|done|done|by destruct l|by left|]. rewrite Hev. intros rc st' [[= ->] ->]. rewrite decide_False by lia.
  eapply (wp_maybe_send _ _ H P L _ s1 o n); [eapply live_room; [exact Hlv1|lia]|exact HG|]. intros st2 b pos ev Hlv2. by eapply HQ.
Qed.

(** ** One shard *)

(** Still the session of this client. *)
Definition of_client s s' : Prop :=
  client_fd s' = client_fd s ∧ has_shard_map s' = has_shard_map s ∧ backend_conninfo s' = backend_conninfo s.
Lemma same_client_sent s s' b pos ev : same_client s s' → of_client s (sent_state b pos ev s').
Proof. by intros (? & ? & ? & _). Qed.
(** The query waits for the results of connection [c] of shard [i]. *)
Definition waits_for_shard i c s s' : Prop :=
  of_client s s' ∧ backend_conn s' = Some c ∧ backend_shard s' = Some i ∧
  state s' = SESSION_STATE_QUERY ∧ rb_holds (recv_buf s') [].
(** The shard could not be asked, and the client has been told. *)
Definition not_asked i q s st s' : Prop :=
  of_client s s' ∧ state s' = SESSION_STATE_READY ∧ rb_holds (recv_buf s') [] ∧
  ∃ w1 s1, quiet (st_world st) w1 ∧ refused q (Some i) (mkSt w1 (st_map st) (Some s1)).
Definition cannot_connect : bytes :=
  report_wire (bs "ERROR") (bs "08001") (bs "cannot connect to shard").
Lemma taken_single H P L st s o n q d i st' :
  decided pg st q d → route_type d = ROUTE_SINGLE → target_shards d = [i] →
  map_like m0 (st_map st) → has_shard_map s = true → state s = SESSION_STATE_READY →
  query_taken H P L st s o n q st' →
  (client_lost st' s ∧ ∃ L', gone m0 H P (L ++ L') st') ∨
  (∃ s', live m0 H P L st' s' (o ++ cannot_connect) n ∧ not_asked i q s st s') ∨
  (∃ c s', live m0 H P (L ++ [(c, q)]) st' s' o n ∧ waits_for_shard i c s s').
Proof.
  intros Hd Ht Hti Hm Hsm Hst [Hg|[[(d' & Hd' & Ht' & _) _]|HQ]]; [by left| |right].
  { unfold decided in *. rewrite Hd in Hd'. injection Hd' as <-. congruence. }
  destruct HQ as (w1 & L' & out & s1 & s' & Hq & Hsc1 & Hsc & Hst1 & Hr & Hrb & b & pos & ev & Hlv).
  assert (has_shard_map s1 = true) as Hsm1 by (unfold same_client in Hsc1; intuition congruence).
  destruct (runs_one (mkSt w1 (st_map st) (Some s1)) _ _ _ _ _ d i Hd Ht Hti Hsm1 Hm Hr)
    as [(c & -> & -> & Hc & Hsh & Hs' & _)|(-> & -> & Href & Hs' & _)]; rewrite app_nil_r in Hlv.
  - right. exists c, (sent_state b pos ev s'). split; [done|]. by split_and!; [apply same_client_sent|..].
  - left. exists (sent_state b pos ev s'). split; [done|].
    split_and!; [by apply same_client_sent| |done|by exists w1, s1].
    destruct Hs' as [E|E]; [|exact E]. change (state s' = SESSION_STATE_READY). congruence.
Qed.

(** ** Several shards *)

(** The query has been sent to the shards [h], among the targets of [d]; the others could
    not be asked. *)
Definition waits_for_shards q d st s s' : Prop :=
  of_client s s' ∧ state s' = SESSION_STATE_SCATTER ∧ rb_holds (recv_buf s') [] ∧
  (scatter_held s').*1 `sublist_of` target_shards d ∧ scatter_held s' ≠ [] ∧
  ∃ w1 s1, quiet (st_world st) w1 ∧
    let st1 := begun (length (target_shards d)) (mkSt w1 (st_map st) (Some s1)) in
    ∀ j t, target_shards d !! j = Some t → t ∈ (scatter_held s').*1 ∨ left_out q (target_shards d) st1 j t.
Definition all_failed : bytes :=
  report_wire (bs "ERROR") (bs "08001") (bs "all scatter connections failed").
Lemma taken_scatter H P L st s o n q d st' :
  decided pg st q d → route_type d = ROUTE_SCATTER → (length (target_shards d) ≤ MAX_SCATTER_SHARDS)%nat →
  shards (st_map st) ≠ [] → has_shard_map s = true → state s = SESSION_STATE_READY →
  query_taken H P L st s o n q st' →
  (client_lost st' s ∧ ∃ L', gone m0 H P (L ++ L') st') ∨
  (∃ s', live m0 H P L st' s' (o ++ all_failed) n ∧ of_client s s' ∧ state s' = SESSION_STATE_READY) ∨
  (∃ s', live m0 H P (L ++ queries q (scatter_held s')) st' s' o n ∧ waits_for_shards q d st s s' ∧
     scatter_header_sent s' = false ∧ (scatter_done s' + length (scatter_held s'))%nat = scatter_count s').
Proof.
  intros Hd Ht Hmax Hsh Hsm Hst [Hg|[[(d' & Hd' & _ & Hlen) _]|HQ]]; [by left| |right].
  { unfold decided in *. rewrite Hd in Hd'. injection Hd' as <-. lia. }
  destruct HQ as (w1 & L' & out & s1 & s' & Hq & Hsc1 & Hsc & Hst1 & Hr & Hrb & b & pos & ev & Hlv).
  assert (∀ d', decided pg st q d' → d' = d) as Hdet.
  { unfold decided in *. intros d' Hd'. rewrite Hd in Hd'. by injection Hd'. }
  assert (¬ unsharded (mkSt w1 (st_map st) (Some s1)) s1) as Hun.
  { intros [E|E]; [|done]. unfold same_client in Hsc1. intuition congruence. }
  destruct Hr as [d' j c s' Hd' E|d' c s' Hd' E|c s' Hu|d' s' Hd' E Hsub Hne Hcnt _ Hh _ Hs' Hask|d' s' Hd' E
    |sev code msg s' Hf Hs _].
  - apply Hdet in Hd' as ->. congruence.
  - apply Hdet in Hd' as ->. congruence.
  - done.
  - apply Hdet in Hd' as ->. right. exists (sent_state b pos ev s'). rewrite app_nil_r in Hlv.
    split_and!; [done| |done|done]. split_and!; [by apply same_client_sent|done|done|done|done|].
    exists w1, s1. split; [done|]. intros st1 j t Hj. apply (Hask j t); [by eapply lookup_lt_Some|done].
  - apply Hdet in Hd' as ->. congruence.
  - left. exists (sent_state b pos ev s'). rewrite app_nil_r in Hlv. split_and!.
    + destruct Hf as [E|d' j Hd' E|d' Hd' E|d' Hd' _ _|st1 Hu|st1 c Hu]; try done;
        [unfold decided in Hd; cbn [st_map] in E; congruence|apply Hdet in Hd' as ->; congruence..].
    + by apply same_client_sent.
    + destruct Hs as [E|E]; [|exact E]. change (state s' = SESSION_STATE_READY). congruence.
Qed.

(** ** The answer comes back *)

(** The backend of [c] has the results [rs], and they are complete. *)
Definition has_results (w : W) (c : PGconn) (rs : list PGresult) (w' : W) : Prop :=
  let w1 := (PQconsumeInput w c).1 in
  (PQconsumeInput w c).2 = true ∧ (PQisBusy w1 c).2 = false ∧ drains c (PQisBusy w1 c).1 rs StopNull w'.
Definition results_sent H P L c rs w' s o n st' : Prop :=
  let t := PQtransactionStatus w' c in
  (client_lost st' s ∧ gone m0 H P L st') ∨
  ∃ s', live m0 H P L st' s' (o ++ results_wire true rs ++ ready_for_query (txn_byte t)) n ∧
    flushed st' s' (o ++ results_wire true rs ++ ready_for_query (txn_byte t)) ∧
    state s' = SESSION_STATE_READY ∧ backend_conn s' = (if releases t s then None else Some c).
Lemma results_arrive H P L events st s o n c rs w' :
  live m0 H P L st s o (n + room) → 0 ≤ n → backend_conn s = Some c → has_error events = false →
  has_results (st_world st) c rs w' →
  ∃ st', session_on_backend_readable events st = Ret (tt, st') ∧ results_sent H P L c rs w' s o n st'.
Proof.
  intros Hlv Hn Hc He (Hok & Hb & Hd).
  destruct (wp_total (session_on_backend_readable events) (λ _ st', results_sent H P L c rs w' s o n st') st)
    as ([] & st' & ? & ?); [|by exists st'].
  eapply (wp_backend_readable m0 H P L); [exact Hlv|exact Hn|..].
  - intros st' Hg [?|[(c' & Hc' & Hf)|Hl]]; [congruence| |by left].
    rewrite Hc in Hc'. injection Hc' as <-. congruence.
  - intros w2 _ _ [_ Hw]. specialize (Hw c Hc). congruence.
  - intros c' st' Hc' _ w1 _ _ (out & x & busy & rel & s' & Ha & Hlv' & Hfl & Hle).
    rewrite Hc in Hc'. injection Hc' as <-. right. exists s'.
    destruct Ha as [rs' w2 Hd' t|rs' r w2 Hd'|rs' r w2 ds e w3 Hd'|rs' r w2 ds w3 Hd'];
      destruct (drains_det _ _ _ _ _ _ _ _ Hd Hd') as (<- & E & <-); try done.
    destruct Hle as (_ & Hst & _ & Hbc & _). by split_and!.
Qed.
End endtoend.

(** The same rows from [k] shards. *)
Lemma repeated_data k r :
  is_tuples r = true →
  scatter_wire false (concat (replicate k [r])) = concat (replicate k (concat (map (data_row r) (res_rows r)))).
Proof.
  intros Ht. induction k as [|k IH]; [done|]. cbn [replicate concat app scatter_wire]. rewrite Ht.
  by cbn [andb negb]; rewrite IH.
Qed.
Lemma repeated_rows k r :
  is_tuples r = true → 0 < PQnfields r → k ≠ 0%nat →
  scatter_wire true (concat (replicate k [r])) =
  row_description r ++ concat (replicate k (concat (map (data_row r) (res_rows r)))).
Proof.
  intros Ht Hf Hk. destruct k as [|k]; [done|]. cbn [replicate concat app scatter_wire]. rewrite Ht.
  cbn [andb negb]. rewrite repeated_data by done. unfold rows_wire. rewrite bool_decide_true by done.
  by rewrite <- app_assoc.
Qed.
Lemma repeated_tuples k r :
  is_tuples r = true → k ≠ 0%nat → existsb is_tuples (concat (replicate k [r])) = true.
Proof. intros Ht Hk. destruct k; [done|]. cbn [replicate concat app existsb]. by rewrite Ht. Qed.

(** ** Properties *)
Section claims.
Context {W : Type} {PQ : LibPQ W} {Os : OS W} {Laws : LibPQLaws W} {OLaws : OSLaws W}.

(** C2: From the client's query to its answer.  A session waits for a query, the last
    piece of the message arrives, and the router picks shard [i] for it.  Then the query
    is sent, as the client wrote it and once, on a connection to shard [i], and nothing is
    sent to the client yet; or the shard cannot be asked and the client gets the error and
    ReadyForQuery; or the client's socket has failed.  When later, whatever has happened
    elsewhere in between, the connection has the complete results, the client gets exactly
    them and ReadyForQuery behind what was queued, the session waits for the next query,
    and the connection goes back to its pool unless a transaction is open.  The query is
    a SELECT, UPDATE or DELETE on a sharded table; if its WHERE clause is a conjunction of
    equalities with constants of the column's type and of conditions without a key of the
    shard column, then, with conditions evaluated as PostgreSQL documents, every row the
    clause accepts lives on shard [i]: the answer is the whole answer. *)
Theorem query_round_trip m0 raw_parser H P L events (st : St W) s o n l x q d i node t wh rule col :
  let pg := query_tree raw_parser in
  well_built raw_parser → map_wf m0 → columns_set m0 →
  live m0 H P L st s o (n + room + 2 ^ 49) → 0 ≤ n → sinv s l → Z.of_nat (length l) ≤ 2 ^ 46 →
  state s = SESSION_STATE_READY → has_shard_map s = true →
  has_error events = false → has_input (st_world st) s x → query_fits q → l ++ x = query_message q →
  parses raw_parser q node → table_stmt t wh node → sharded (st_map st) t rule col →
  route_sql pg (st_map st) q = Ret (Some d) → route_type d = ROUTE_SINGLE → target_shards d = [i] →
  (∀ types holds row j, pg_conditions types holds → opt_prop (plain types col) wh →
     accepts holds wh row → lives_on (st_map st) rule row j → j = i) ∧
  ∃ st1, session_on_client_readable pg events st = Ret (tt, st1) ∧
    ((client_lost st1 s ∧ ∃ L', gone m0 H P (L ++ L') st1) ∨
     (∃ s1, live m0 H P L st1 s1 (o ++ cannot_connect) (n + room) ∧ not_asked i q s st s1) ∨
     (∃ c s1, live m0 H P (L ++ [(c, q)]) st1 s1 o (n + room) ∧ waits_for_shard i c s s1 ∧
        ∀ st2 events' rs w', meanwhile m0 st1 st2 → has_error events' = false →
          has_results (st_world st2) c rs w' →
          ∃ H' P' st3, session_on_backend_readable events' st2 = Ret (tt, st3) ∧
            results_sent m0 H' P' (pq_log (st_world st2)) c rs w' s1 o n st3)).
Proof.
  intros pg Hraw Hm0 Hcol Hlv Hn Hi Hl Hst Hsm He Hin Hq Elx Hp Hnode Hsh Hd Ht Hti.
  pose proof (query_tree_prints raw_parser Hraw : prints_trees pg) as Hpg. split.
  { intros types holds row j Hc Hwh Ha Hj.
    destruct (statement_reaches types holds Hc raw_parser (st_map st) q node t wh rule col) as [E Hk];
      [done|eapply map_like_wf; [apply Hlv|done]|done..|].
    fold pg in E. rewrite Hd in E. injection E as E. specialize (Hk row j Ha Hj).
    rewrite <- E, Hti in Hk. by apply list_elem_of_singleton in Hk. }
  destruct (query_arrives m0 pg Hpg Hm0 Hcol H P L events st s o (n + room) l x q) as (st1 & E & Hs);
    [done|unfold room; lia|done..|]. exists st1. split; [done|].
  destruct (taken_single m0 pg Hpg Hm0 Hcol H P L st s o (n + room) q d i st1) as [Hg|[Hr|(c & s1 & Hlv1 & Hw)]];
    [done..|apply Hlv|done|done|done|by left|by right; left|].
  right. right. exists c, s1. split; [done|]. split; [done|]. intros st2 events' rs w' Hmw He' Hrs.
  destruct (live_meanwhile _ _ _ _ _ _ _ _ _ Hlv1 Hmw) as (H' & P' & Hlv2). exists H', P'.
  destruct Hw as (_ & Hc & _). by eapply results_arrive.
Qed.
(** A query for several shards, from its bytes to its answer. *)
Lemma scatter_trip m0 pg H P L events (st : St W) s o n l x q d :
  prints_trees pg → map_wf m0 → columns_set m0 →
  live m0 H P L st s o (n + room * 64 + 2 ^ 49) → 0 ≤ n → sinv s l → Z.of_nat (length l) ≤ 2 ^ 46 →
  state s = SESSION_STATE_READY → has_shard_map s = true → shards (st_map st) ≠ [] →
  has_error events = false → has_input (st_world st) s x → query_fits q → l ++ x = query_message q →
  route_sql pg (st_map st) q = Ret (Some d) → route_type d = ROUTE_SCATTER →
  (length (target_shards d) ≤ MAX_SCATTER_SHARDS)%nat →
  ∃ st1, session_on_client_readable pg events st = Ret (tt, st1) ∧
    ((client_lost st1 s ∧ ∃ L', gone m0 H P (L ++ L') st1) ∨
     (∃ s1, live m0 H P L st1 s1 (o ++ all_failed) n ∧ of_client s s1 ∧ state s1 = SESSION_STATE_READY) ∨
     (∃ s1, live m0 H P (L ++ queries q (scatter_held s1)) st1 s1 o n ∧ waits_for_shards q d st s s1 ∧
        ∀ js rss st2, length js = length (scatter_held s1) → shards_answer m0 js rss st1 st2 →
          let out := scatter_wire true (concat rss) ++ scatter_end (existsb is_tuples (concat rss)) in
          ∃ H' P' L', (gone m0 H' P' L' st2 ∧ client_lost st2 s1) ∨
            ∃ s2, live m0 H' P' L' st2 s2 (o ++ out) n ∧ flushed st2 s2 (o ++ out) ∧ all_done s1 s2)).
Proof.
  intros Hpg Hm0 Hcol Hlv Hn Hi Hl Hst Hsm Hsh He Hin Hq Elx Hd Ht Hmax.
  destruct (query_arrives m0 pg Hpg Hm0 Hcol H P L events st s o (n + room * 64) l x q) as (st1 & E & Hs);
    [done|unfold room; lia|done..|]. exists st1. split; [done|].
  destruct (taken_scatter m0 pg H P L st s o (n + room * 64) q d st1)
    as [Hg|[(s1 & Hlv1 & Hr)|(s1 & Hlv1 & Hw & Hh & Hcnt)]]; [done..|by left| |].
  - right. left. exists s1. split; [|done]. eapply live_room; [exact Hlv1|unfold room; lia].
  - right. right. exists s1. split; [eapply live_room; [exact Hlv1|unfold room; lia]|]. split; [done|].
    intros js rss st2 Hjs Ha. destruct Hw as (_ & _ & _ & Hsub & Hne & _).
    assert (length js ≤ 64)%nat as Hle.
    { rewrite Hjs. apply sublist_length in Hsub. rewrite length_fmap in Hsub. unfold MAX_SCATTER_SHARDS in Hmax. lia. }
    pose proof (answers_complete m0 H P (L ++ queries q (scatter_held s1)) js rss st1 st2 s1 o n Ha) as HA. cbv zeta in HA. rewrite Hh in HA. cbn [negb orb] in HA. cbv zeta. apply HA.
    + eapply live_room; [exact Hlv1|unfold room; nia].
    + done.
    + intros ->. by destruct (scatter_held s1).
    + lia.
Qed.
(** Rows of a broadcast table come once per shard.  A statement on a broadcast table is
    sent to every shard of its rule that can be asked.  If these shards all answer with the
    same rows, because each has a copy of the table, the client gets the rows once for each
    of them, under one header. *)
Theorem broadcast_rows_repeated m0 raw_parser H P L events (st : St W) s o n l x q node t rule :
  let pg := query_tree raw_parser in
  well_built raw_parser → map_wf m0 → columns_set m0 →
  live m0 H P L st s o (n + room * 64 + 2 ^ 49) → 0 ≤ n → sinv s l → Z.of_nat (length l) ≤ 2 ^ 46 →
  state s = SESSION_STATE_READY → has_shard_map s = true → shards (st_map st) ≠ [] →
  has_error events = false → has_input (st_world st) s x → query_fits q → l ++ x = query_message q →
  parses raw_parser q node → simple_on t node → rule_of (st_map st) (esc t) = Some rule →
  broadcast rule = true → (length (rule_shards rule) ≤ MAX_SCATTER_SHARDS)%nat →
  ∃ st1, session_on_client_readable pg events st = Ret (tt, st1) ∧
    ((client_lost st1 s ∧ ∃ L', gone m0 H P (L ++ L') st1) ∨
     (∃ s1, live m0 H P L st1 s1 (o ++ all_failed) n ∧ of_client s s1 ∧ state s1 = SESSION_STATE_READY) ∨
     (∃ s1, live m0 H P (L ++ queries q (scatter_held s1)) st1 s1 o n ∧
        waits_for_shards q (Router.scatter rule) st s s1 ∧
        ∀ js r st2, length js = length (scatter_held s1) → is_tuples r = true → 0 < PQnfields r →
          shards_answer m0 js (replicate (length js) [r]) st1 st2 →
          let out := row_description r ++
            concat (replicate (length js) (concat (map (data_row r) (res_rows r)))) ++ scatter_end true in
          ∃ H' P' L', (gone m0 H' P' L' st2 ∧ client_lost st2 s1) ∨
            ∃ s2, live m0 H' P' L' st2 s2 (o ++ out) n ∧ flushed st2 s2 (o ++ out) ∧ all_done s1 s2)).
Proof.
  intros pg Hraw Hm0 Hcol Hlv Hn Hi Hl Hst Hsm Hsh He Hin Hq Elx Hp Hnode Hr Hb Hmax.
  assert (route_sql pg (st_map st) q = Ret (Some (Router.scatter rule))) as Er.
  { apply (route_broadcast raw_parser (st_map st) q node t rule); try done. eapply map_like_wf; [apply Hlv|done]. }
  destruct (scatter_trip m0 pg H P L events st s o n l x q (Router.scatter rule)) as (st1 & E & HQ);
    try done; [by apply query_tree_prints|]. exists st1. split; [exact E|].
  destruct HQ as [Hg|[Hr1|(s1 & Hlv1 & Hw & Ha)]]; [by left|by right; left|].
  right. right. exists s1. split; [exact Hlv1|]. split; [exact Hw|]. intros js r st2 Hjs Ht Hf Hans.
  assert (js ≠ []) as Hne by (intros ->; destruct Hw as (_ & _ & _ & _ & Hne & _); by destruct (scatter_held s1)).
  specialize (Ha js _ st2 Hjs Hans). rewrite (repeated_rows _ r Ht Hf), (repeated_tuples _ r Ht), <- app_assoc in Ha;
    [exact Ha|by destruct js..].
Qed.
(** A query may arrive in pieces.  As long as its message is not complete, the
    callback for the client's socket keeps the bytes and returns: no query is sent, nothing
    is said to the client, and the session waits as before. *)
Theorem partial_query_waits m0 pg H P L events (st : St W) s o n l x r q :
  prints_trees pg → map_wf m0 → columns_set m0 →
  live m0 H P L st s o (n + 2 ^ 49) → 0 ≤ n → sinv s l → Z.of_nat (length l) ≤ 2 ^ 46 →
  state s = SESSION_STATE_READY → has_error events = false → has_input (st_world st) s x → query_fits q →
  l ++ x ++ r = query_message q → r ≠ [] →
  ∃ st1, session_on_client_readable pg events st = Ret (tt, st1) ∧
    ((client_lost st1 s ∧ gone m0 H P L st1) ∨
     ∃ rb b pos ev, let s1 := sent_state b pos ev (set_recv_buf rb s) in
       live m0 H P L st1 s1 o n ∧ sinv s1 (l ++ x)).
Proof.
  intros Hpg Hm0 Hcol Hlv Hn Hi Hl Hst He Hin Hq Elx Hr.
  destruct (wp_Ret False (session_on_client_readable pg events) (λ _ st',
    (client_lost st' s ∧ gone m0 H P L st') ∨
    ∃ rb b pos ev, let s1 := sent_state b pos ev (set_recv_buf rb s) in
      live m0 H P L st' s1 o n ∧ sinv s1 (l ++ x)) st) as ([] & st1 & E & HQ); [|by intros []|by exists st1].
  eapply (wp_part_arrives m0 pg Hpg Hm0 Hcol); try done; [by left|].
  intros st' rb b pos ev s1 Hlv1 Hrb. right. exists rb, b, pos, ev. split; [done|]. by destruct Hi.
Qed.
End claims.

(** A query in two pieces: the first is in the buffer, the second is on its way.  A shard
    answers with one row. *)
Definition sample_piece : bytes := take 3 (query_message (bs "q")).
Definition sample_rest : bytes := drop 3 (query_message (bs "q")).
Definition sample_arriving (d : bytes) : SimWorld :=
  mkSimWorld ∅ true (λ _, [sample_result]) [Received d] false ∅ [].
Definition sample_waiting : ClientSession := sample_received SESSION_STATE_READY sample_piece.
Definition sample_waiting_st (d : bytes) : St SimWorld :=
  mkSt (sample_arriving d) sample_start (Some sample_waiting).
Lemma sample_waiting_live l d n :
  n ≤ 2 ^ 62 →
  live sample_start [] [] [] (mkSt (sample_arriving d) sample_start (Some (sample_received SESSION_STATE_READY l)))
    (sample_received SESSION_STATE_READY l) [] n.
Proof.
  intros Hn. eapply live_room; [|exact Hn].
  destruct (sample_received_live SESSION_STATE_READY l) as [_ Hwf Hm Hr Hg Ho].
  split; [done|done|done| |done|done]. by eapply resources_frame; [exact Hr|].
Qed.
Lemma sample_waiting_sinv : sinv sample_waiting sample_piece.
Proof. apply sample_received_sinv; [auto|by vm_compute]. Qed.
Lemma sample_has_input l d :
  d ≠ [] → (length d ≤ 4096)%nat →
  has_input (sample_arriving d) (sample_received SESSION_STATE_READY l) d.
Proof. intros Hd Hl. split; [done|]. intros k Hk. cbn. by rewrite take_ge by lia. Qed.
Lemma sample_query_fits : query_fits (bs "q").
Proof. split; [by apply (bool_decide_unpack (cstring (bs "q")))|vm_compute; discriminate]. Qed.
Lemma partial_query_waits_witness :
  ∃ st1, session_on_client_readable sample_pg 1 (sample_waiting_st (take 1 sample_rest)) = Ret (tt, st1) ∧
    ∃ s1, live sample_start [] [] [] st1 s1 [] 0 ∧ sinv s1 (take 4 (query_message (bs "q"))).
Proof.
  destruct (partial_query_waits sample_start sample_pg [] [] [] 1 (sample_waiting_st (take 1 sample_rest))
    sample_waiting [] 0 sample_piece (take 1 sample_rest) (drop 1 sample_rest) (bs "q"))
    as (st1 & E & HQ); [exact sample_pg_prints|exact sample_start_wf|exact sample_start_columns|
      apply sample_waiting_live; lia|done|exact sample_waiting_sinv|by vm_compute|done|done|
      apply sample_has_input; [discriminate|vm_compute; lia]|exact sample_query_fits|reflexivity|discriminate|].
  exists st1. split; [exact E|]. destruct HQ as [[Hl _]|(rb & b & pos & ev & Hlv & Hi)].
  - by apply sim_client_safe in Hl.
  - eexists. split; [exact Hlv|exact Hi].
Defined.

Definition sample_select_st : St SimWorld := sample_waiting_st sample_rest.
Definition sample_asked : St SimWorld :=
  match session_on_client_readable sample_pg 1 sample_select_st with Ret (_, st) => st | _ => sample_select_st end.
Lemma sample_asked_results :
  ∃ w', has_results (st_world sample_asked) 1%positive [sample_result] w' ∧
    PQtransactionStatus w' 1%positive = PQTRANS_IDLE.
Proof.
  eexists. split; [split; [vm_compute; reflexivity|split; [reflexivity|]]|].
  - eapply drain_more; [vm_compute; reflexivity|reflexivity|]. apply drain_null. vm_compute. reflexivity.
  - vm_compute. reflexivity.
Qed.
Definition sent_by (r : res (() * St SimWorld)) : option bytes :=
  match r with Ret (_, st) => Some (sock_sent (st_world st) 7) | _ => None end.
Lemma sample_answered :
  sent_by (session_on_backend_readable 1 sample_asked) =
  Some (results_wire true [sample_result] ++ ready_for_query TXN_IDLE).
Proof. vm_compute. reflexivity. Qed.
(** The row reaches the client. *)
Lemma sample_start_sharded : sharded sample_start (bs "orders") range_rule (bs "user_id").
Proof.
  split; [vm_compute; reflexivity|reflexivity|reflexivity|by apply (bool_decide_unpack (BSLASH ∉ bs "user_id"))|done].
Qed.
Lemma query_round_trip_witness :
  (∀ row j, accepts sample_holds (Some sample_eq) row → lives_on sample_start range_rule row j → j = 0%nat) ∧
  ∃ st1 st2, session_on_client_readable sample_pg 1 sample_select_st = Ret (tt, st1) ∧
    pq_log (st_world st1) = [(1%positive, bs "q")] ∧
    session_on_backend_readable 1 st1 = Ret (tt, st2) ∧
    sock_sent (st_world st2) 7 = results_wire true [sample_result] ++ ready_for_query TXN_IDLE.
Proof.
  destruct (query_round_trip sample_start sample_parser [] [] [] 1 sample_select_st sample_waiting [] 0
    sample_piece sample_rest (bs "q") (single range_rule 0) 0 (select_node (bs "orders") sample_eq) (bs "orders")
    (Some sample_eq) range_rule (bs "user_id")) as (Hhome & st1 & E & HQ);
    [exact sample_well_built|exact sample_start_wf|exact sample_start_columns|
     apply sample_waiting_live; unfold room; lia|done|exact sample_waiting_sinv|by vm_compute|done|done|done|
     apply sample_has_input; [discriminate|vm_compute; lia]|exact sample_query_fits|reflexivity|
     exists 0, 0, []; reflexivity|by eapply table_select|exact sample_start_sharded|
     vm_compute; reflexivity|done|done|].
  split; [intros row j; apply (Hhome sample_types sample_holds row j sample_conditions); by apply key_plain|].
  assert (pq_log (st_world sample_asked) = [(1%positive, bs "q")]) as Hlog by (vm_compute; reflexivity).
  assert (st1 = sample_asked) as -> by (unfold sample_asked, sample_pg; by rewrite E).
  destruct HQ as [[Hl _]|[(s1 & Hlv & _)|(c & s1 & Hlv & Hw & HQ)]]; [destruct (sim_client_safe _ _ Hl)| |].
  { rewrite (lv_log _ _ _ _ _ _ _ _ Hlv) in Hlog. discriminate Hlog. }
  pose proof (lv_log _ _ _ _ _ _ _ _ Hlv) as Hl. rewrite Hlog in Hl. injection Hl as <-.
  destruct sample_asked_results as (w' & Hrs & Ht).
  destruct (HQ sample_asked 1 [sample_result] w') as (H' & P' & st2 & E2 & _);
    [by eapply meanwhile_refl|done|exact Hrs|].
  exists sample_asked, st2. split_and!; [exact E|exact Hlog|exact E2|].
  pose proof sample_answered as Hsent. rewrite E2 in Hsent. injection Hsent as Hsent. exact Hsent.
Defined.
(** A SELECT for both shards, on the sharded table or on the broadcast table; each shard
    answers with one row. *)
Definition row_pg : bytes → option bytes := query_tree row_parser.
Definition sample_both_st (q : bytes) : St SimWorld :=
  mkSt (sample_arriving (drop 3 (query_message q))) sample_start
    (Some (sample_received SESSION_STATE_READY (take 3 (query_message q)))).
Definition sample_both_asked (q : bytes) : St SimWorld :=
  match session_on_client_readable row_pg 1 (sample_both_st q) with Ret (_, st) => st | _ => sample_both_st q end.
Definition for_both (q : bytes) : Prop := q = bs "all" ∨ q = bs "countries".
Lemma for_both_fits q : for_both q → query_fits q.
Proof. by intros [-> | ->]; (split; [apply (bool_decide_unpack (cstring _)); by vm_compute|vm_compute]). Qed.
Lemma for_both_sinv q :
  for_both q → sinv (sample_received SESSION_STATE_READY (take 3 (query_message q))) (take 3 (query_message q)).
Proof. by intros [-> | ->]; (apply sample_received_sinv; [auto|by vm_compute]). Qed.
Lemma for_both_input q :
  for_both q → has_input (st_world (sample_both_st q))
    (sample_received SESSION_STATE_READY (take 3 (query_message q))) (drop 3 (query_message q)).
Proof. by intros [-> | ->]; (apply sample_has_input; [discriminate|vm_compute; lia]). Qed.
Lemma for_both_conn q c :
  for_both q → c ∈ [1; 2]%positive →
  sim_conns (st_world (sample_both_asked q)) !! c = Some (mkSimConn CONNECTION_OK PQTRANS_IDLE [sample_result] []) ∧
  sim_conns (st_world (sample_after 0 (sample_both_asked q))) !! 2%positive =
    Some (mkSimConn CONNECTION_OK PQTRANS_IDLE [sample_result] []).
Proof.
  intros Hq Hc. rewrite !elem_of_cons, elem_of_nil in Hc.
  destruct Hq as [-> | ->], Hc as [->|[->|[]]]; split; vm_compute; reflexivity.
Qed.
Definition conn_of (st : St SimWorld) (i : nat) : option PGconn :=
  s ← st_session st; sc ← scatter s !! i; sc_conn sc.
Lemma conn_of_inv st i c :
  conn_of st i = Some c → ∃ s sc, st_session st = Some s ∧ scatter s !! i = Some sc ∧ sc_conn sc = Some c.
Proof.
  unfold conn_of. destruct (st_session st) as [s|]; [|done]. cbn [mbind option_bind].
  destruct (scatter s !! i) as [sc|] eqn:E; [|done]. intros Hc. by exists s, sc.
Qed.
(** Both shards answer. *)
Lemma for_both_answers q s1 L :
  for_both q → live sample_start [] [] L (sample_both_asked q) s1 [] room →
  ∃ st2, shards_answer sample_start [0; 1]%nat (replicate 2 [sample_result]) (sample_both_asked q) st2 ∧
    sock_sent (st_world st2) 7 = scatter_wire true [sample_result; sample_result] ++ scatter_end true.
Proof.
  intros Hq Hlv. set (st1 := sample_both_asked q) in *. exists (sample_after 1 (sample_after 0 st1)).
  assert (session_on_scatter_readable 0 1 st1 = Ret (tt, sample_after 0 st1) ∧
    session_on_scatter_readable 1 1 (sample_after 0 st1) = Ret (tt, sample_after 1 (sample_after 0 st1)) ∧
    conn_of st1 0 = Some 1%positive ∧ conn_of (sample_after 0 st1) 1 = Some 2%positive ∧
    sock_sent (st_world (sample_after 1 (sample_after 0 st1))) 7 =
      scatter_wire true [sample_result; sample_result] ++ scatter_end true) as (E1 & E2 & Es1 & Es2 & Hsent).
  { subst st1. by destruct Hq as [-> | ->]; split_and!; vm_compute. }
  split; [|exact Hsent]. destruct (for_both_conn q 1%positive Hq) as [C1 C2]; [left|].
  fold st1 in C1, C2. clearbody st1. set (st2 := sample_after 0 st1) in *. clearbody st2.
  destruct (conn_of_inv _ _ _ Es1) as (t1 & sc1 & Ht1 & Hsc1 & Hc1), (conn_of_inv _ _ _ Es2) as (t2 & sc2 & Ht2 & Hsc2 & Hc2).
  destruct (sample_drains 1%positive (st_world st1) sample_result ltac:(left) C1) as [w1 Hd1].
  destruct (sample_drains 2%positive (st_world st2) sample_result ltac:(left) C2) as [w2 Hd2].
  destruct (drained_no_copy _ _ _ _ C1 Hd1) as [Hy1 Hn1], (drained_no_copy _ _ _ _ C2 Hd2) as [Hy2 Hn2].
  pose proof (lv_session _ _ _ _ _ _ _ _ Hlv) as Hs. rewrite Hs in Ht1. injection Ht1 as <-.
  eapply answer_cons; [by eapply meanwhile_refl|exact Hs|exact Hsc1|exact Hc1|exact Hn1|exact Hy1|exact E1|].
  eapply answer_cons; [|exact Ht2|exact Hsc2|exact Hc2|exact Hn2|exact Hy2|exact E2|constructor].
  clear E2 Es2 Ht2 Hsc2 C2 Hd2 Hsent Hy2 Hn2. pattern st2.
  match goal with |- ?Q st2 => refine (wp_elim _ (λ _, Q) _ _ _ E1 _) end.
  eapply (wp_shard_answers sample_start [] [] L _ 0 1 st1 s1 sc1 1%positive [sample_result] [] 0); try done.
  - intros st' _ Hl. by apply sim_client_safe in Hl.
  - intros st' s' _ _ Hlv'. by eapply meanwhile_refl.
  - intros st' s' _ _ out Hlv' _. by eapply meanwhile_refl.
Qed.
Lemma for_both_log q : for_both q → pq_log (st_world (sample_both_asked q)) = [(1%positive, q); (2%positive, q)].
Proof. by intros [-> | ->]; vm_compute. Qed.
Lemma for_both_held q s1 :
  for_both q → live sample_start [] [] ([] ++ queries q (scatter_held s1)) (sample_both_asked q) s1 [] room →
  length (scatter_held s1) = 2%nat.
Proof.
  intros Hq Hlv. pose proof (lv_log _ _ _ _ _ _ _ _ Hlv) as El. rewrite (for_both_log q Hq) in El.
  apply (f_equal length) in El. unfold queries in El. by rewrite length_app, length_map in El.
Qed.
(** The row of the broadcast table reaches the client twice. *)
Lemma broadcast_rows_repeated_witness :
  ∃ st1 st2 s2, session_on_client_readable row_pg 1 (sample_both_st (bs "countries")) = Ret (tt, st1) ∧
    shards_answer sample_start [0; 1]%nat (replicate 2 [sample_result]) st1 st2 ∧
    flushed st2 s2 (row_description sample_result ++
      data_row sample_result [Some (bs "42")] ++ data_row sample_result [Some (bs "42")] ++ scatter_end true).
Proof.
  set (q := bs "countries"). assert (for_both q) as Hq by (by right).
  destruct (broadcast_rows_repeated sample_start row_parser [] [] [] 1 (sample_both_st q)
    (sample_received SESSION_STATE_READY (take 3 (query_message q))) [] room
    (take 3 (query_message q)) (drop 3 (query_message q)) q (row_select (bs "countries") None) (bs "countries") all_rule)
    as (st1 & E & HQ);
    [exact row_parser_well_built|exact sample_start_wf|exact sample_start_columns|
     apply sample_waiting_live; unfold room; lia|unfold room; lia|exact (for_both_sinv q Hq)|by vm_compute|
     done|done|done|done|exact (for_both_input q Hq)|exact (for_both_fits q Hq)|apply take_drop|
     apply single_parses, row_single; do 5 right; left|eapply simple_on_rows, row_select_simple|vm_compute; reflexivity|
     done|vm_compute; lia|].
  assert (st1 = sample_both_asked q) as -> by (unfold sample_both_asked, row_pg; by rewrite E).
  pose proof (for_both_log q Hq) as Hlog.
  destruct HQ as [[Hl _]|[(s1 & Hlv & _)|(s1 & Hlv & _ & HA)]]; [destruct (sim_client_safe _ _ Hl)| |].
  { rewrite (lv_log _ _ _ _ _ _ _ _ Hlv) in Hlog. discriminate Hlog. }
  destruct (for_both_answers q s1 _ Hq Hlv) as (st2 & Ha & _).
  pose proof (for_both_held q s1 Hq Hlv) as Hlen.
  destruct (HA [0; 1]%nat sample_result st2) as (H' & P' & L' & [[_ Hl]|(s2 & _ & Hfl & _)]);
    [by rewrite Hlen|reflexivity|reflexivity|exact Ha|destruct (sim_client_safe _ _ Hl)|].
  exists (sample_both_asked q), st2, s2. split_and!; [exact E|exact Ha|exact Hfl].
Defined.
