(* ===== verification/System.v ===== *)
(** * The proxy as a whole

    The sessions share the world and the shard map.  A step is a callback of one session,
    a new client, a health check, or a change of the world outside (input arrives, a
    backend answers).  [system_safe]: from a state without connections no callback ever
    has undefined behaviour or fails to return, and at every moment each open connection
    is idle in the pool of exactly one shard or belongs to exactly one session. *)
From S2P Require Import Prelude Memory LibPQ Pool ShardMap Resources Parser Router Keys Sql Message Event.
From S2P Require Import Session Wp SessionSpec Backend Wire BackendSpec ScatterSpec Frontend FrontendSpec.
From S2P Require Import Handlers QuerySpec Talk Input ProcessSpec.
#[local] Set Warnings "-clear-no-such-hyp".
#[local] Open Scope Z_scope.
#[local] Arguments be_encode : simpl never.

Section callbacks.
Context {W : Type} {PQ : LibPQ W} {Os : OS W} {Laws : LibPQLaws W} {OLaws : OSLaws W}.
Context (m0 : ShardMap) (fair : Prop).
Implicit Types (st : St W) (s : ClientSession) (o l : bytes) (n : Z) (ub : Prop)
  (H : list (nat * PGconn)) (P : list PGconn) (L : list (PGconn * bytes)).

(** ** A new session *)
Lemma quiet_nonblocking fd w : quiet w (set_nonblocking fd w).1.
Proof. unfold set_nonblocking. case_decide; [done|apply quiet_fcntl]. Qed.
Lemma wp_session_create ub (Q : () → St W → Prop) H P st fd addr ci hm :
  resources (st_world st) (shards (st_map st)) H P → map_like m0 (st_map st) →
  (∀ w' s, quiet (st_world st) w' →
     live m0 H P (pq_log w') (mkSt w' (st_map st) (Some s)) s (sock_sent w' fd) (2 ^ 62) →
     sinv s [] → state s = SESSION_STATE_INIT → client_fd s = fd →
     Q tt (mkSt w' (st_map st) (Some s))) →
  wp ub (session_create fd addr (Some ci) hm) Q st.
Proof.
  intros Hr Hm HQ. unfold session_create. apply wp_bind, wp_sys.
  pose proof (quiet_nonblocking fd (st_world st)) as Hq1. cbn [st_world st_map st_session].
  apply wp_bind, wp_sys. set (w1 := (set_nonblocking fd (st_world st)).1) in *. cbn [st_world st_map st_session].
  set (ev := mkEventHandler _ _ _). pose proof (quiet_add w1 ev EPOLLIN) as Hq2.
  destruct (event_loop_add w1 ev EPOLLIN) as [w2 [ev' rc]]. cbn [fst snd] in *.
  apply wp_bind, wp_sys. cbn [fst snd st_world st_map st_session].
  assert (quiet (st_world st) w2) as Hq by (by eapply quiet_trans).
  fold (fresh_session fd ev' (os_getpid w2) addr (Some ci) hm).
  set (s := fresh_session fd ev' (os_getpid w2) addr (Some ci) hm).
  apply (HQ w2 s Hq); [| |done|done].
  - apply fresh_live; [done|]. eapply resources_frame; [exact Hr|apply Hq].
  - split; [apply recvbuf_init_holds|by exists ci|intros _; apply fresh_free|done|done].
Qed.

(** ** The callbacks of backend connections *)
Lemma left_in_same H P L s s' o n l w' m' out :
  live m0 H P L (mkSt w' m' (Some s')) s' (o ++ out) n → sinv s' l → client_fd s' = client_fd s →
  (fair → talks (stage_at s) out (stage_at s')) → left_in m0 fair H P L s o n (mkSt w' m' (Some s')).
Proof. intros Hlv Hi Hfd Ht. right. exists [], out, s', l. by rewrite app_nil_r. Qed.
(** The states after a result of the session's own connection. *)
Definition open_state (x : SessionState) : Prop :=
  x ∈ [SESSION_STATE_READY; SESSION_STATE_QUERY; SESSION_STATE_COPY_IN; SESSION_STATE_COPY_OUT].
Lemma leaves_sinv c s x busy rel s' l :
  sinv s l → leaves c s x busy rel s' → state s ≠ SESSION_STATE_SCATTER → open_state x → sinv s' l.
Proof.
  intros [Hrb Hci Hfree _ _] ((Hr & _ & _ & _ & _ & _ & _ & Hc & _) & Hx & _ & _ & _ & Hsc & _) Hst Ho.
  unfold open_state in Ho. rewrite <- Hx in Ho.
  split; [by rewrite Hr|by rewrite Hc| |intros E; rewrite E in Ho; set_solver|split; intros E; rewrite E in Ho; set_solver].
  intros _. unfold scatter_free. rewrite Hsc. by apply Hfree.
Qed.
Lemma answers_open c (w : W) s out x busy rel : answers c w s out x busy rel → open_state x.
Proof. unfold open_state. destruct 1; set_solver. Qed.
(** Nothing complete arrives on the backend connection of a session that is waiting for
    a scatter query. *)
Definition no_unsolicited (w : W) s (events : Z) : Prop :=
  state s = SESSION_STATE_SCATTER → has_error events = false → ∀ c, backend_conn s = Some c →
  (PQconsumeInput w c).2 = true → (PQisBusy (PQconsumeInput w c).1 c).2 = true.
Lemma unsolicited (w : W) s events c :
  backend_conn s = Some c → ¬ no_unsolicited w s events →
  state s = SESSION_STATE_SCATTER ∧ has_error events = false ∧ (PQconsumeInput w c).2 = true ∧
  (PQisBusy (PQconsumeInput w c).1 c).2 = false.
Proof.
  intros Hc Hno. unfold no_unsolicited in Hno. rewrite Hc in Hno.
  destruct (state s), (has_error events), (PQconsumeInput w c).2 eqn:E1,
    (PQisBusy (PQconsumeInput w c).1 c).2 eqn:E2; try done;
    (destruct Hno; intros _ _ c' [= <-]; congruence) || (destruct Hno; by intros ?).
Qed.
(** What arrives complete has been asked for ([asked_for]). *)
Definition backend_fair (w : W) s (events : Z) : Prop :=
  has_error events = false → ∀ c, backend_conn s = Some c → (PQconsumeInput w c).2 = true →
  let w1 := (PQconsumeInput w c).1 in (PQisBusy w1 c).2 = false → asked_for c (PQisBusy w1 c).1 s.
Lemma wp_backend_left ub (Q : () → St W → Prop) H P L events st s o n l :
  live m0 H P L st s o (n + room) → 0 ≤ n → sinv s l → no_unsolicited (st_world st) s events →
  (fair → backend_fair (st_world st) s events) →
  (∀ st', left_in m0 fair H P L s o n st' → Q tt st') →
  wp ub (session_on_backend_readable events) Q st.
Proof.
  intros Hlv Hn Hi Hno Hfair HQ. eapply wp_backend_readable; [exact Hlv|done|..].
  - intros st' Hg _. apply HQ. left. exists []. by rewrite app_nil_r.
  - intros w' Hlv' _ _. apply HQ. eapply (left_in_same _ _ _ s s o n l w' _ []); [by rewrite app_nil_r|done|done|intros _; apply talks_nil].
  - intros c st' Hc He w1 Hok Hb (out & x & busy & rel & s' & Ha & Hlv' & Hfl & Hle). apply HQ.
    assert (state s ≠ SESSION_STATE_SCATTER) as Hs.
    { intros Hs. pose proof (Hno Hs He c Hc Hok) as Hb'. unfold w1 in Hb. by rewrite Hb' in Hb. }
    right. exists [], out, s', l. rewrite app_nil_r. split_and!; [done| |apply Hle|].
    + eapply leaves_sinv; [done|done|done|by eapply answers_open].
    + intros Hf. pose proof Hle as (_ & Hx & _). apply talks_one. unfold stage_at at 2. rewrite Hx.
      eapply answers_turn; [exact Ha|]. by apply (Hfair Hf He c Hc Hok Hb).
Qed.
Lemma wp_scatter_left ub (Q : () → St W → Prop) H P L i events st s o n l sc c :
  live m0 H P L st s o (n + room) → 0 ≤ n → sinv s l →
  scatter s !! i = Some sc → sc_conn sc = Some c → no_copy c (st_world st) →
  (fair → ∀ rs, shard_yields events c (st_world st) rs → has_columns rs) →
  (∀ st', left_in m0 fair H P L s o n st' → Q tt st') →
  wp ub (session_on_scatter_readable i events) Q st.
Proof.
  intros Hlv Hn [Hrb Hci Hfree Hini Hus] Hsc Hc Hnc Hfair HQ.
  assert (state s = SESSION_STATE_SCATTER) as Hst.
  { destruct (decide (state s = SESSION_STATE_SCATTER)) as [|Hs]; [done|].
    specialize (Hfree Hs). unfold scatter_free in Hfree. rewrite Forall_lookup in Hfree.
    by rewrite (Hfree _ _ Hsc) in Hc. }
  eapply wp_scatter_readable; [exact Hlv|done|exact Hsc|exact Hc|done|..].
  - intros st' Hg _. apply HQ. left. exists []. by rewrite app_nil_r.
  - intros w' _ Hlv' _. apply HQ. eapply (left_in_same _ _ _ s s o n l w' _ []); [by rewrite app_nil_r|by split|done|intros _; apply talks_nil].
  - intros rs st' s' Hy _ (Hu & Hsb & Hs' & _ & _ & _ & Hh & _) Hlv'. apply HQ. right. eexists [], _, s', l.
    rewrite app_nil_r. split_and!; [exact Hlv'| |apply Hu|].
    + destruct Hu as (Hr & _ & _ & _ & _ & _ & _ & Hci' & _).
      split; [by rewrite Hr|by rewrite Hci'| |by rewrite Hs', Hst|by rewrite Hs', Hst].
      intros Hns. by rewrite Hs' in Hns.
    + intros Hf. unfold stage_at. rewrite Hs', Hst, Hh. apply talks_one, scatter_rows_turn. by apply Hfair.
  - intros rs st' s' Hy _ (Hu & Hsb & Hs' & Hfr & _) out Hlv' _. apply HQ. right. exists [], out, s', l.
    rewrite app_nil_r. split_and!; [done| |apply Hu|].
    + destruct Hu as (Hr & _ & _ & _ & _ & _ & _ & Hci' & _).
      split; [by rewrite Hr|by rewrite Hci'|done|by rewrite Hs'|by rewrite Hs'].
    + intros Hf. unfold stage_at. rewrite Hs', Hst. apply talks_one, scatter_end_turn. by apply Hfair.
Qed.
End callbacks.

(** ** Steps *)
Section system.
Context {W : Type} {PQ : LibPQ W} {Os : OS W}.
Context (pg : bytes → option bytes).
Implicit Types (w : W) (m : ShardMap) (s : ClientSession) (ss : list ClientSession).

Inductive config : Type := Running (w : W) (m : ShardMap) (ss : list ClientSession) | Crashed.
(** The callback that the event loop calls. *)
Inductive callback_of : Type :=
| ClientReadable (events : Z)
| ClientWritable (events : Z)
| BackendReadable (events : Z)
| ScatterReadable (i : nat) (events : Z).
Definition run_callback (e : callback_of) : M W () :=
  match e with
  | ClientReadable events => session_on_client_readable pg events
  | ClientWritable events => session_on_client_writable events
  | BackendReadable events => session_on_backend_readable events
  | ScatterReadable i events => session_on_scatter_readable i events
  end.
(** The buffers of the session are far from the end of the address space. *)
Definition fits_memory s : Prop := buf_len (send_buf s) ≤ 2 ^ 58 ∧ rb_len (recv_buf s) ≤ 2 ^ 46.
(** The code does not defend itself against everything.  [allowed]: the client's input is
    not malformed; the handler of a scatter entry is registered, and its shard does not
    answer with a COPY; no complete result arrives unasked while a scatter query runs; the
    buffers fit into memory. *)
Definition allowed w s (e : callback_of) : Prop :=
  fits_memory s ∧
  match e with
  | ClientReadable _ => ∀ l k d, rb_holds (recv_buf s) l →
      (sock_recv w (client_fd s) k).2 = Received d →
      input_ok (length (l ++ d)) (state s) (l ++ d) = true
  | ClientWritable _ => True
  | BackendReadable events => no_unsolicited w s events
  | ScatterReadable i _ => ∃ sc c, scatter s !! i = Some sc ∧ sc_conn sc = Some c ∧ no_copy c w
  end.
(** [orderly]: in addition the backends answer what they have been asked, one result with rows
    at most, and rows have columns; and a COPY OUT is complete when its first data is read. *)
Definition orderly w s (e : callback_of) : Prop :=
  allowed w s e ∧
  match e with
  | BackendReadable events => backend_fair w s events
  | ScatterReadable i events => ∀ sc c rs, scatter s !! i = Some sc → sc_conn sc = Some c →
      shard_yields events c w rs → has_columns rs
  | _ => True
  end.

(** The result of a callback: the session is put back between the others. *)
Definition resume l1 l2 (r : res (() * St W)) : config :=
  match r with
  | Ret (_, st) => Running (st_world st) (st_map st) (l1 ++ option_list (st_session st) ++ l2)
  | _ => Crashed
  end.
(** The kernel gives a new client a descriptor that no open socket has.  The world outside
    neither opens connections nor sends queries, and it does not write to the clients.  The
    order of the sessions means nothing.  The callbacks are those that [ok] admits. *)
Inductive step (ok : W → ClientSession → callback_of → Prop) : config → config → Prop :=
| step_callback w m l1 s l2 e :
    ok w s e →
    step ok (Running w m (l1 ++ s :: l2)) (resume l1 l2 (run_callback e (mkSt w m (Some s))))
| step_accept w m ss fd addr conninfo with_map :
    fd ∉ client_fd <$> ss →
    step ok (Running w m ss)
      (resume ss [] (session_create fd addr (Some conninfo) with_map (mkSt w m None)))
| step_health w m ss :
    step ok (Running w m ss)
      match health_check_all w m with Ret (w', m') => Running w' m' ss | _ => Crashed end
| step_outside w m ss w' : quiet w w' → step ok (Running w m ss) (Running w' m ss)
| step_order w m ss ss' : ss ≡ₚ ss' → step ok (Running w m ss) (Running w m ss').

(** ** The invariant *)
Definition all_held ss : list (nat * PGconn) := concat (held <$> ss).
Definition all_priv ss : list PGconn := concat (priv <$> ss).
Record session_ok s : Prop := {
  so_wf : sess_wf s;
  so_out : ∃ l, holds (send_buf s) l ∧ 0 ≤ send_pos s ≤ Z.of_nat (length l);
  so_in : ∃ l, sinv s l;
}.
Definition sys_inv (m0 : ShardMap) (σ : config) : Prop :=
  match σ with
  | Running w m ss =>
    map_like m0 m ∧ resources w (shards m) (all_held ss) (all_priv ss) ∧ Forall session_ok ss
  | Crashed => False
  end.
End system.
Arguments config W : clear implicits.

Section safety.
Context {W : Type} {PQ : LibPQ W} {Os : OS W} {Laws : LibPQLaws W} {OLaws : OSLaws W}.
Context (m0 : ShardMap) (pg : bytes → option bytes).
Context (Hpg : prints_trees pg) (Hm0 : map_wf m0) (Hcol : columns_set m0).
Implicit Types (w : W) (m : ShardMap) (s : ClientSession) (ss : list ClientSession).

Lemma all_held_split l1 s l2 : all_held (l1 ++ s :: l2) ≡ₚ held s ++ all_held (l1 ++ l2).
Proof.
  unfold all_held. rewrite !fmap_app, !concat_app. simpl. solve_Permutation.
Qed.
Lemma all_priv_split l1 s l2 : all_priv (l1 ++ s :: l2) ≡ₚ priv s ++ all_priv (l1 ++ l2).
Proof.
  unfold all_priv. rewrite !fmap_app, !concat_app. simpl. solve_Permutation.
Qed.
(** The view of one session. *)
Lemma inv_live w m l1 s l2 lo :
  sys_inv m0 (Running w m (l1 ++ s :: l2)) → fits_memory s → holds (send_buf s) lo →
  ∃ l, live m0 (all_held (l1 ++ l2)) (all_priv (l1 ++ l2)) (pq_log w) (mkSt w m (Some s)) s
         (sock_sent w (client_fd s) ++ drop (Z.to_nat (send_pos s)) lo) 0 ∧ sinv s l.
Proof.
  intros (Hm & Hr & Hss) [Hq _] Hlo. apply Forall_app in Hss as [_ [[Hwf (lo' & Hlo' & Hpos) [l Hi]] _]%Forall_cons].
  exists l. split; [|done]. split; [done|done|done| |done|].
  - eapply resources_proper; [..|exact Hr]; symmetry; [apply all_held_split|apply all_priv_split].
  - exists lo. rewrite <- (holds_len _ _ Hlo') in Hpos. rewrite <- (holds_len _ _ Hlo). split_and!; [done|lia|lia|lia|done].
Qed.
Lemma inv_queue w m l1 s l2 :
  sys_inv m0 (Running w m (l1 ++ s :: l2)) → ∃ lo, holds (send_buf s) lo.
Proof. intros (_ & _ & Hss). apply Forall_app in Hss as [_ [[_ (lo & Hlo & _) _] _]%Forall_cons]. by exists lo. Qed.
Lemma live_fits H P L st s o n :
  live m0 H P L st s o n → fits_memory s → live m0 H P L st s o (2 ^ 61).
Proof.
  intros [Hs Hwf Hm Hr Hg (lo & Hl & Hp & _ & Ho)] [Hf _]. split; [done..|]. exists lo.
  split_and!; [done|lia|lia| |done]. rewrite <- (holds_len _ _ Hl). lia.
Qed.
(** A callback leaves the session as [left_in] says. *)
Lemma callback_left (fair : Prop) w m s e H P L o l :
  live m0 H P L (mkSt w m (Some s)) s o 0 → sinv s l → allowed w s e → (fair → orderly w s e) →
  ∃ st, run_callback pg e (mkSt w m (Some s)) = Ret (tt, st) ∧ left_in m0 fair H P L s o 0 st.
Proof.
  intros Hlv Hi [Hfit Ha] Hfair. apply live_fits in Hlv; [|done].
  assert (Z.of_nat (length l) ≤ 2 ^ 46) as Hl by (rewrite <- (rh_len _ _ (si_rb _ _ Hi)); apply Hfit).
  assert (wp False (run_callback pg e) (λ _ st, left_in m0 fair H P L s o 0 st) (mkSt w m (Some s))) as Hwp.
  { destruct e as [ev|ev|ev|i ev]; cbn [run_callback].
    - eapply (wp_client_readable m0 pg Hpg Hm0 Hcol) with (n := 0); [eapply live_room; [exact Hlv|lia]|done|exact Hi|done| |done].
      intros k d. apply Ha, Hi.
    - eapply wp_client_writable with (n := 0); [eapply live_room; [exact Hlv|lia]|exact Hi|done].
    - eapply wp_backend_left with (n := 0); [eapply live_room; [exact Hlv|unfold room; lia]|done|exact Hi|exact Ha| |done].
      intros Hf. apply (Hfair Hf).
    - destruct Ha as (sc & c & Hsc & Hc & Hnc).
      eapply wp_scatter_left with (n := 0);
        [eapply live_room; [exact Hlv|unfold room; lia]|done|exact Hi|exact Hsc|exact Hc|exact Hnc| |done].
      intros Hf rs. destruct (Hfair Hf) as [_ Ho]. by apply (Ho sc c rs). }
  destruct (wp_Ret _ _ _ _ Hwp) as ([] & st & E & Hleft); [by intros []|]. by exists st.
Qed.
Lemma live_ok w m l1 s l2 L o n l :
  Forall session_ok (l1 ++ l2) →
  live m0 (all_held (l1 ++ l2)) (all_priv (l1 ++ l2)) L (mkSt w m (Some s)) s o n → sinv s l →
  sys_inv m0 (Running w m (l1 ++ s :: l2)).
Proof.
  intros Hss [_ Hwf Hm Hr _ (lo & Hlo & Hpos & _)] Hi. split_and!; [done| |].
  - eapply resources_proper; [..|exact Hr]; [apply all_held_split|apply all_priv_split].
  - apply Forall_app in Hss as [H1 H2]. apply Forall_app. split; [done|]. constructor; [|done].
    split; [done|by exists lo|by exists l].
Qed.
Lemma left_in_ok fair l1 s l2 L o n st :
  Forall session_ok (l1 ++ l2) → left_in m0 fair (all_held (l1 ++ l2)) (all_priv (l1 ++ l2)) L s o n st →
  sys_inv m0 (resume l1 l2 (Ret (tt, st))).
Proof.
  intros Hss [[L' (Hs & Hm & Hr & _)]|(L' & out & s' & l' & Hlv & Hi & _)]; simpl.
  - rewrite Hs. by split_and!.
  - destruct st as [w m x]. pose proof (lv_session _ _ _ _ _ _ _ _ Hlv) as E. simpl in E. subst x.
    by eapply live_ok.
Qed.
Lemma callback_safe w m l1 s l2 e :
  sys_inv m0 (Running w m (l1 ++ s :: l2)) → allowed w s e →
  sys_inv m0 (resume l1 l2 (run_callback pg e (mkSt w m (Some s)))).
Proof.
  intros Hinv Ha. pose proof (proj1 Ha) as Hfit. destruct (inv_queue _ _ _ _ _ Hinv) as [lo Hlo].
  destruct (inv_live _ _ _ _ _ _ Hinv Hfit Hlo) as (l & Hlv & Hi).
  destruct (callback_left False _ _ _ _ _ _ _ _ _ Hlv Hi Ha) as (st & -> & Hleft); [done|].
  eapply left_in_ok; [|done]. destruct Hinv as (_ & _ & Hss).
  apply Forall_app in Hss as [? [_ ?]%Forall_cons]. by apply Forall_app.
Qed.
Lemma keeps_callback fd e : keeps fd (run_callback (W:=W) pg e).
Proof.
  destruct e; simpl; auto using keeps_client_readable, keeps_client_writable, keeps_backend_readable,
    keeps_scatter_readable.
Qed.
Lemma accept_safe w m ss fd addr ci hm :
  sys_inv m0 (Running w m ss) →
  sys_inv m0 (resume ss [] (session_create fd addr (Some ci) hm (mkSt w m None))).
Proof.
  intros (Hm & Hr & Hss).
  destruct (wp_Ret False (session_create fd addr (Some ci) hm)
    (λ _ st, sys_inv m0 (resume ss [] (Ret (tt, st)))) (mkSt w m None)) as (u & st & E & Hi).
  - eapply (wp_session_create m0); [exact Hr|done|]. intros w' s _ Hlv Hi _ _. simpl.
    eapply live_ok; [by rewrite app_nil_r|by rewrite app_nil_r|done].
  - by intros [].
  - rewrite E. by destruct u.
Qed.
Lemma health_safe w m ss :
  sys_inv m0 (Running w m ss) →
  sys_inv m0 match health_check_all w m with Ret (w', m') => Running w' m' ss | _ => Crashed end.
Proof.
  intros (Hm & Hr & Hss). destruct (resources_check_pools _ _ _ w [] Hr) as (w' & l' & E & Hr' & Hf).
  unfold health_check_all. rewrite E. cbn [mbind res_bind]. split_and!; [|done|done].
  etrans; [exact Hm|]. by split.
Qed.
Lemma sys_inv_perm w m ss ss' :
  ss ≡ₚ ss' → sys_inv m0 (Running w m ss) → sys_inv m0 (Running w m ss').
Proof.
  intros Hp (Hm & Hr & Hss). split_and!; [done| |by rewrite <- Hp].
  eapply resources_proper; [..|exact Hr]; unfold all_held, all_priv; by apply concat_Permutation, fmap_Permutation.
Qed.
Lemma sys_inv_world w w' m ss :
  pq_live w' = pq_live w → sys_inv m0 (Running w m ss) → sys_inv m0 (Running w' m ss).
Proof. intros Hl (Hm & Hr & Hss). split_and!; [done|by eapply resources_frame|done]. Qed.
Context (ok : W → ClientSession → callback_of → Prop) (Hok : ∀ w s e, ok w s e → allowed w s e).
Lemma step_safe σ σ' : sys_inv m0 σ → step pg ok σ σ' → sys_inv m0 σ'.
Proof.
  intros Hinv Hst. destruct Hst; eauto using callback_safe, accept_safe, health_safe, sys_inv_perm.
  match goal with Hq : quiet _ _ |- _ => by eapply sys_inv_world; [apply Hq|] end.
Qed.
Lemma init_safe w m :
  Forall (λ sh, is_Some (shard_conninfo sh)) (shards m0) → shard_map_init m0 = Ret m →
  pq_live w = ∅ → sys_inv m0 (Running w m []).
Proof.
  intros Hci Hi Hw. destruct (init_pools_spec w (shards m0) (pool_size m0) Hci) as (l & E & Hf & Hp).
  unfold shard_map_init in Hi. rewrite E in Hi. injection Hi as <-. split_and!; [| |done].
  - split; [done|done|]. eapply Forall2_impl; [exact Hf|]. by intros ? ? [? _].
  - apply resources_init; [done|]. simpl. by rewrite <- (Forall2_length _ _ _ Hf).
Qed.
Lemma reachable_safe w m σ :
  Forall (λ sh, is_Some (shard_conninfo sh)) (shards m0) → shard_map_init m0 = Ret m →
  pq_live w = ∅ → rtc (step pg ok) (Running w m []) σ → sys_inv m0 σ.
Proof.
  intros Hci Hi Hw Hr. pose proof (init_safe w m Hci Hi Hw) as H0. clear Hci Hi Hw.
  induction Hr as [|? ? ? Hs _ IH]; [done|]. apply IH. by eapply step_safe.
Qed.

End safety.

Section claims.
Context {W : Type} {PQ : LibPQ W} {Os : OS W} {Laws : LibPQLaws W} {OLaws : OSLaws W}.
Context (m0 : ShardMap) (pg : bytes → option bytes).
Implicit Types (w : W) (m : ShardMap).

(** C4: The proxy is safe, if the events are [allowed].  Start with the pools that
    [shard_map_init] makes and no session, and let callbacks of sessions, new clients, health
    checks and changes of the world outside follow each other in any order.  Suppose that
    every table that is not broadcast has a shard column, that no client message is malformed
    (a string without terminator, a length that wraps), that no shard answers a scatter query
    with a COPY, that no result arrives unasked during a scatter query, and that buffers
    fit into memory; C36, C37 and C38 show what happens otherwise.  Then no callback has
    undefined behaviour or fails to return, and at every moment the shard map is the
    configured one up to its pools, every session's buffers and entries are well formed, and
    each open connection is idle in the pool of exactly one shard or belongs to exactly one
    session; the counters of the pools agree with this and stay below their maximum. *)
Theorem system_safe w m σ :
  prints_trees pg → map_wf m0 → columns_set m0 →
  Forall (λ sh, is_Some (shard_conninfo sh)) (shards m0) → shard_map_init m0 = Ret m →
  pq_live w = ∅ → rtc (step pg allowed) (Running w m []) σ →
  ∃ w' m' ss, σ = Running w' m' ss ∧ map_like m0 m' ∧ Forall session_ok ss ∧
    resources w' (shards m') (all_held ss) (all_priv ss).
Proof.
  intros Hpg Hwf Hcol Hci Hi Hw Hr.
  pose proof (reachable_safe m0 pg Hpg Hwf Hcol allowed (λ _ _ _ Ha, Ha) _ _ _ Hci Hi Hw Hr) as Hinv.
  destruct σ as [w' m' ss|]; [|done]. destruct Hinv as (? & ? & ?). by exists w', m', ss.
Qed.

(** C12: No connection leaks, if the events are [allowed] (see C4): whatever else the clients
    did, once all sessions are gone every open connection is idle in the pool of a shard, no
    pool counts an active connection, and no pool holds more than its maximum.  The
    condition matters: after a result that nobody asked for, in the middle of a scatter
    query, the session holds connections that no query refers to (C38). *)
Theorem no_connection_leaks w m w' m' :
  prints_trees pg → map_wf m0 → columns_set m0 →
  Forall (λ sh, is_Some (shard_conninfo sh)) (shards m0) → shard_map_init m0 = Ret m →
  pq_live w = ∅ → rtc (step pg allowed) (Running w m []) (Running w' m' []) →
  ∃ idles, length idles = length (shards m') ∧ NoDup (concat idles) ∧
    pq_live w' = list_to_set (concat idles) ∧
    ∀ i sh idle, shards m' !! i = Some sh → idles !! i = Some idle →
      pool_rep (shard_pool sh) idle ∧ active_count (shard_pool sh) = 0 ∧
      (length idle ≤ Z.to_nat (max_size (shard_pool sh)))%nat.
Proof.
  intros Hpg Hwf Hcol Hci Hi Hw Hr.
  pose proof (reachable_safe m0 pg Hpg Hwf Hcol allowed (λ _ _ _ Ha, Ha) _ _ _ Hci Hi Hw Hr)
    as (_ & [idles [Hl Hp _ Hn Hlv]] & _).
  cbn [all_held all_priv fmap list_fmap concat app] in *. rewrite app_nil_r in Hn, Hlv.
  exists idles. split_and!; [done|done|done|]. intros i sh idle Hs Hidle.
  destruct (Hp i sh idle Hs Hidle) as [Hrep _ _ Hact Hb]. split_and!; [done|done|].
  etrans; [|exact Hb]. apply Nat.le_add_r.
Qed.

(** C38: A result that nobody asked for ends a scatter query.  A session waits for the shards
    of a scatter query and still has its own connection, on which complete results arrive,
    against [no_unsolicited].  The client gets them and ReadyForQuery as if they were the
    answer, and the session is ready for the next query, while the connections of the scatter
    query are still entered in it and their results have not been read. *)
Theorem unasked_result_ends_scatter H P L events (st : St W) s o n c rs w' :
  let w1 := (PQconsumeInput (st_world st) c).1 in
  live m0 H P L st s o (n + room) → 0 ≤ n → backend_conn s = Some c →
  ¬ no_unsolicited (st_world st) s events → drains c (PQisBusy w1 c).1 rs StopNull w' →
  state s = SESSION_STATE_SCATTER ∧
  ∃ st', session_on_backend_readable events st = Ret (tt, st') ∧
    ((client_lost st' s ∧ gone m0 H P L st') ∨
     ∃ s', let out := results_wire true rs ++ ready_for_query (txn_byte (PQtransactionStatus w' c)) in
       live m0 H P L st' s' (o ++ out) n ∧ flushed st' s' (o ++ out) ∧
       state s' = SESSION_STATE_READY ∧ scatter s' = scatter s ∧ scatter_count s' = scatter_count s).
Proof.
  intros w1 Hlv Hn Hc Hno Hd.
  destruct (unsolicited _ _ _ _ Hc Hno) as (Hst & He & Hok & Hb). split; [exact Hst|].
  destruct (wp_total (session_on_backend_readable events) (λ _ st',
     (client_lost st' s ∧ gone m0 H P L st') ∨
     ∃ s', let out := results_wire true rs ++ ready_for_query (txn_byte (PQtransactionStatus w' c)) in
       live m0 H P L st' s' (o ++ out) n ∧ flushed st' s' (o ++ out) ∧
       state s' = SESSION_STATE_READY ∧ scatter s' = scatter s ∧ scatter_count s' = scatter_count s) st)
    as ([] & st' & ? & ?); [|by exists st'].
  eapply (wp_backend_readable m0 H P L); [exact Hlv|exact Hn|..].
  - intros st' Hg [?|[(c' & Hc' & Hf)|Hl]]; [congruence| |by left].
    rewrite Hc in Hc'. injection Hc' as <-. congruence.
  - intros w2 _ _ [_ Hw]. specialize (Hw c Hc). subst w1. congruence.
  - intros c' st' Hc' _ w2 _ _ (out & x & busy & rel & s' & Ha & Hlv' & Hfl & Hle).
    rewrite Hc in Hc'. injection Hc' as <-. right. exists s'.
    destruct Ha as [rs' w3 Hd' t|rs' r w3 Hd'|rs' r w3 ds e w4 Hd'|rs' r w3 ds w4 Hd'];
      destruct (drains_det _ _ _ _ _ _ _ _ Hd Hd') as (<- & E & <-); try done.
    destruct Hle as (_ & Hx & _ & _ & _ & Hsc & Hcnt & _). by split_and!.
Qed.
End claims.

(** A client connects, logs in, sends a query and goes away. *)
Definition sample_config : ShardMap := mkShardMap (shards sample_map) [range_rule; all_rule] 2.
Definition sample_input : SimWorld :=
  mkSimWorld ∅ true (λ _, [])
    [Received sample_startup; Received (query_message (bs "select")); Received []] false ∅ [].
Definition sample_accept : config SimWorld :=
  resume [] [] (session_create 7 0 (Some (bs "host=d")) true (mkSt sample_input sample_start None)).
Definition sample_reads (σ : config SimWorld) : config SimWorld :=
  match σ with
  | Running w m [s] => resume [] [] (run_callback sample_pg (ClientReadable 1) (mkSt w m (Some s)))
  | _ => Crashed
  end.
(** What is to be checked before the client's next input: the buffers are empty. *)
Definition sample_ready (σ : config SimWorld) : bool :=
  match σ with
  | Running w m [s] => bool_decide (rb_len (recv_buf s) = 0) && bool_decide (buf_len (send_buf s) ≤ 4096)
  | _ => false
  end.
Definition sample_next (σ : config SimWorld) : option (SessionState * list recv_result) :=
  match σ with Running w m [s] => Some (state s, sim_input w) | _ => None end.
Lemma sample_step σ x d l :
  sample_ready σ = true → sample_next σ = Some (x, Received d :: l) →
  (∀ k, input_ok (length (take k d)) x (take k d) = true) →
  step sample_pg allowed σ (sample_reads σ).
Proof.
  destruct σ as [w m [|s [|]]|]; try done. cbn [sample_ready sample_next].
  intros [Hr Hs]%andb_prop [= Hx Hi] Hd. apply bool_decide_eq_true in Hr, Hs.
  apply (step_callback sample_pg allowed w m [] s [] (ClientReadable 1)).
  split; [split; lia|]. intros l' k d' Hrb. rewrite (rh_len _ _ Hrb) in Hr.
  assert (l' = []) as -> by (destruct l'; [done|simpl in Hr; lia]).
  cbn. rewrite Hi. intros [= <-]. rewrite Hx. apply Hd.
Qed.
Lemma prefixes_ok x d :
  input_ok (length d) x d = true →
  forallb (λ k, input_ok (length (take k d)) x (take k d)) (seq 0 (length d)) = true →
  ∀ k, input_ok (length (take k d)) x (take k d) = true.
Proof.
  intros Hd Hp k. destruct (decide (k < length d)%nat) as [Hk|Hk].
  - rewrite forallb_forall in Hp. apply Hp, in_seq. lia.
  - by rewrite take_ge by lia.
Qed.
Definition sample_trace (k : nat) : config SimWorld := Nat.iter k sample_reads sample_accept.
Lemma sample_steps j : (j < 3)%nat → step sample_pg allowed (sample_trace j) (sample_trace (S j)).
Proof.
  assert (∀ j x d l, sample_ready (sample_trace j) = true →
    sample_next (sample_trace j) = Some (x, Received d :: l) →
    input_ok (length d) x d &&
      forallb (λ k, input_ok (length (take k d)) x (take k d)) (seq 0 (length d)) = true →
    step sample_pg allowed (sample_trace j) (sample_trace (S j))) as Hstep.
  { intros i x d l Hr Hn [H1 H2]%andb_prop. by eapply sample_step, prefixes_ok. }
  intros Hj. destruct j as [|[|[|j]]]; [..|lia];
    (eapply Hstep; [vm_compute; reflexivity..|vm_compute; reflexivity]).
Qed.
Lemma sample_runs k : (k ≤ 3)%nat → rtc (step sample_pg allowed) (Running sample_input sample_start []) (sample_trace k).
Proof.
  induction k as [|k IH]; intros Hk; [|eapply rtc_r; [apply IH; lia|apply sample_steps; lia]].
  eapply rtc_l; [|apply rtc_refl]. apply (step_accept _ _ _ _ [] _ _ _ _). apply not_elem_of_nil.
Qed.
Lemma sample_config_ready :
  Forall (λ sh, is_Some (shard_conninfo sh)) (shards sample_config) ∧
  shard_map_init sample_config = Ret sample_start ∧ map_wf sample_config ∧ columns_set sample_config.
Proof.
  split_and!; [repeat constructor; by eexists|vm_compute; reflexivity|apply sample_start_wf|apply sample_start_columns].
Qed.
Lemma system_safe_witness :
  ∃ w' m' ss, sample_trace 2 = Running w' m' ss ∧ length ss = 1%nat ∧
    resources w' (shards m') (all_held ss) (all_priv ss).
Proof.
  destruct sample_config_ready as (Hci & Hi & Hwf & Hcol).
  assert (pq_live sample_input = ∅) as Hl by reflexivity.
  destruct (system_safe sample_config sample_pg sample_input sample_start
    (sample_trace 2) sample_pg_prints Hwf Hcol Hci Hi Hl (sample_runs 2 (le_S _ _ (le_n 2))))
    as (w' & m' & ss & E & _ & _ & Hr).
  exists w', m', ss. split; [exact E|]. split; [|exact Hr].
  assert (match sample_trace 2 with Running _ _ ss => length ss = 1%nat | _ => False end) as H
    by (vm_compute; reflexivity).
  by rewrite E in H.
Defined.
(** The client is gone, and its connection is idle in the pool. *)
Lemma no_connection_leaks_witness :
  ∃ w' m' idles, sample_trace 3 = Running w' m' [] ∧
    pq_live w' = list_to_set (concat idles) ∧ size (pq_live w') = 1%nat.
Proof.
  destruct sample_config_ready as (Hci & Hi & Hwf & Hcol).
  assert (pq_live sample_input = ∅) as Hl by reflexivity.
  assert (match sample_trace 3 with Running w' _ [] => size (pq_live w') = 1%nat | _ => False end) as Hone
    by (vm_compute; reflexivity).
  pose proof (sample_runs 3 (le_n 3)) as Hr.
  destruct (sample_trace 3) as [w' m' [|]|]; [|done..].
  destruct (no_connection_leaks sample_config sample_pg sample_input sample_start
    w' m' sample_pg_prints Hwf Hcol Hci Hi Hl Hr) as (idles & _ & _ & Hlive & _).
  by exists w', m', idles.
Defined.
(** A scatter query waits for both shards; the session's own connection is closed by the
    administrator, who says so. *)
Definition sample_unasked_world : SimWorld :=
  mkSimWorld (list_to_map [(1%positive, mkSimConn CONNECTION_OK PQTRANS_IDLE [] []);
                           (2%positive, mkSimConn CONNECTION_OK PQTRANS_IDLE [] []);
                           (3%positive, mkSimConn CONNECTION_OK PQTRANS_IDLE [sample_failure] [])])
    true (λ _, []) [] false ∅ [].
Definition sample_unasked : ClientSession := set_backend_conn (Some 3%positive) sample_scatter.
Definition sample_unasked_st : St SimWorld := mkSt sample_unasked_world sample_scatter_map (Some sample_unasked).
Lemma sample_unasked_live :
  live sample_scatter_map [] [] [] sample_unasked_st sample_unasked [] (2 ^ 61).
Proof.
  split; [done| |reflexivity| |done|].
  - split; [done|]. split; [done|cbn; unfold MAX_SCATTER_SHARDS; lia|].
    intros [|[|i]] sc c Hi Hc; [injection Hi as <-; by split_and!; [cbn; lia|eexists|]..|].
    exfalso. cbn [sample_unasked set_backend_conn sample_scatter scatter set_state set_scatter_count set_scatter app lookup list_lookup] in Hi.
    apply lookup_replicate in Hi as [-> _]. done.
  - assert (∀ c, c ∈ [1; 2]%positive → pool_inv sample_unasked_world sample_checked_out [] [c]) as Hp.
    { intros c Hc. split; simpl; [|repeat constructor; set_solver| |done|lia].
      - split_and!; simpl; [done|done|lia|]. by intros i c'.
      - intros c' ->%list_elem_of_singleton.
        rewrite !elem_of_cons, elem_of_nil in Hc. destruct Hc as [->|[->|[]]]; by vm_compute. }
    exists [[]; []]. split; [done| |repeat constructor; cbn; lia| |].
    + intros [|[|i]] s idle Hs Hi; [injection Hs as <-; injection Hi as <-..|done]; apply Hp; vm_compute; set_solver.
    + vm_compute. repeat constructor; set_solver.
    + vm_compute. reflexivity.
  - exists []. by split_and!.
Qed.
Lemma unasked_result_ends_scatter_witness :
  ∃ st' s', session_on_backend_readable 1 sample_unasked_st = Ret (tt, st') ∧
    flushed st' s' (error_result sample_failure ++ ready_for_query TXN_IDLE) ∧
    state s' = SESSION_STATE_READY ∧ scatter_held s' = [(0%nat, 1%positive); (1%nat, 2%positive)].
Proof.
  destruct (unasked_result_ends_scatter sample_scatter_map [] [] [] 1 sample_unasked_st sample_unasked [] 0
    3%positive [sample_failure]
    (PQgetResult (PQgetResult sample_unasked_world 3%positive).1 3%positive).1)
    as (_ & st' & E & [[Hl _]|(s' & _ & Hfl & Hst & Hsc & _)]);
    [eapply live_room; [apply sample_unasked_live|unfold room; lia]|done|reflexivity| | | |].
  - intros Hno. specialize (Hno eq_refl eq_refl _ eq_refl). vm_compute in Hno. by specialize (Hno eq_refl).
  - eapply drain_more; [vm_compute; reflexivity|reflexivity|]. apply drain_null. vm_compute. reflexivity.
  - destruct (sim_client_safe _ _ Hl).
  - exists st', s'. split; [exact E|]. split; [exact Hfl|]. split; [exact Hst|].
    unfold scatter_held. rewrite Hsc. reflexivity.
Defined.
