(* ===== verification/Lifetime.v ===== *)
(** * The life of a session

    What a client sees of the proxy, from the creation of its session on, while the other
    sessions, the health checks and the world outside do what they like: only its own
    session writes to its socket, and that session follows the automaton of [Talk]. *)
From S2P Require Import Prelude Memory LibPQ Pool ShardMap Resources Parser Router Keys Sql Message Event.
From S2P Require Import Session Wp SessionSpec Backend Wire BackendSpec ScatterSpec Frontend FrontendSpec.
From S2P Require Import Handlers QuerySpec Talk Input ProcessSpec System.
#[local] Set Warnings "-clear-no-such-hyp".
#[local] Open Scope Z_scope.
#[local] Arguments be_encode : simpl never.

Section life.
Context {W : Type} {PQ : LibPQ W} {Os : OS W} {Laws : LibPQLaws W} {OLaws : OSLaws W}.
Context (m0 : ShardMap) (pg : bytes → option bytes).
Implicit Types (w : W) (m : ShardMap) (s : ClientSession) (ss : list ClientSession) (σ : config W).

(** Everything that is sent or queued for the client of [s]. *)
Definition said w s (o : bytes) : Prop :=
  ∃ l, holds (send_buf s) l ∧ o = sock_sent w (client_fd s) ++ drop (Z.to_nat (send_pos s)) l.
Definition open_fds σ : list Z :=
  match σ with Running _ _ ss => client_fd <$> ss | Crashed => [] end.
(** A step after which the client on [fd] is still there. *)
Definition stays fd σ σ' : Prop := step pg orderly σ σ' ∧ fd ∈ open_fds σ'.

(** Every session has a socket of its own. *)
Definition apart σ : Prop :=
  sys_inv m0 σ ∧ NoDup (open_fds σ) ∧
  match σ with Running _ _ ss => Forall handlers_ok ss | Crashed => True end.
(** The client on [fd] has been told [base], and then a conversation that has come to the
    state of its session. *)
Definition speaks fd (base : bytes) σ : Prop :=
  match σ with
  | Running w _ ss => ∃ s out, s ∈ ss ∧ client_fd s = fd ∧ said w s (base ++ out) ∧
      talks Login out (stage_at s)
  | Crashed => False
  end.
Lemma said_world w w' s o :
  sock_sent w' (client_fd s) = sock_sent w (client_fd s) → said w s o → said w' s o.
Proof. intros E (l & Hl & ->). exists l. by rewrite E. Qed.
Lemma live_said H P L st s o n : live m0 H P L st s o n → said (st_world st) s o.
Proof. intros [_ _ _ _ _ (l & Hl & _ & _ & Ho)]. by exists l. Qed.
Lemma speaks_world fd base w w' m m' ss :
  unseen w w' → speaks fd base (Running w m ss) → speaks fd base (Running w' m' ss).
Proof.
  intros [_ Hu] (s & out & Hs & Hfd & Ho & Ht). exists s, out. split_and!; [done|done| |done].
  eapply said_world; [apply Hu|done].
Qed.
Lemma fds_insert l1 s l2 : client_fd <$> (l1 ++ s :: l2) ≡ₚ client_fd s :: (client_fd <$> (l1 ++ l2)).
Proof. rewrite <- Permutation_middle. done. Qed.
Lemma same_session l1 s l2 s' :
  NoDup (client_fd <$> (l1 ++ s :: l2)) → s' ∈ l1 ++ s :: l2 → client_fd s' = client_fd s → s' = s.
Proof.
  rewrite fds_insert. intros [Hn _]%NoDup_cons Hs E.
  rewrite <- Permutation_middle in Hs. apply elem_of_cons in Hs as [?|Hs]; [done|].
  exfalso. apply Hn. rewrite <- E. by apply list_elem_of_fmap_2.
Qed.

Lemma accept_apart w m ss fd addr ci hm :
  apart (Running w m ss) → fd ∉ client_fd <$> ss →
  apart (resume ss [] (session_create fd addr (Some ci) hm (mkSt w m None))).
Proof.
  intros (Hi & Hn & Hh) Hfd. pose proof (accept_safe m0 w m ss fd addr ci hm Hi) as Hi'.
  split; [done|]. destruct (session_create fd addr (Some ci) hm (mkSt w m None)) as [[u st]| |] eqn:E; [|done..].
  unfold resume, open_fds in *. destruct (st_session st) as [s|] eqn:Es; simpl; [|by rewrite app_nil_r].
  destruct (create_handlers fd _ _ _ _ _ _ _ _ E Es) as [Hs Hf].
  rewrite fds_insert, app_nil_r, Hf. split; [by constructor|]. apply Forall_app. by split; [|constructor].
Qed.
(** A new client has been told nothing yet. *)
Lemma born_speaks w m ss fd addr ci hm :
  sys_inv m0 (Running w m ss) →
  speaks fd (sock_sent w fd) (resume ss [] (session_create fd addr (Some ci) hm (mkSt w m None))).
Proof.
  intros (Hm & Hr & _).
  destruct (wp_Ret False (session_create fd addr (Some ci) hm)
    (λ _ st, speaks fd (sock_sent w fd) (resume ss [] (Ret (tt, st)))) (mkSt w m None)) as (u & st & -> & Hu);
    [|by intros []|by destruct u].
  eapply (wp_session_create m0); [exact Hr|exact Hm|]. intros w' s (_ & _ & Hsent) Hlv _ Hst Hfd.
  cbn [st_world] in Hsent. exists s, []. rewrite (app_nil_r (sock_sent w fd)), <- Hsent. unfold stage_at. rewrite Hst.
  split_and!; [simpl; set_solver|done|exact (live_said _ _ _ _ _ _ _ Hlv)|constructor].
Qed.

Context (Hpg : prints_trees pg) (Hm0 : map_wf m0) (Hcol : columns_set m0).

Lemma callback_keeps e w m s u st :
  handlers_ok s → run_callback pg e (mkSt w m (Some s)) = Ret (u, st) →
  hok (client_fd s) st ∧ writes_to (client_fd s) w (st_world st).
Proof. intros Hh. by apply (keeps_callback pg (client_fd s) e (mkSt w m (Some s))). Qed.
(** The sessions after a callback: the other ones, and this one if it is still there. *)
Lemma callback_apart w m l1 s l2 e :
  apart (Running w m (l1 ++ s :: l2)) → allowed w s e →
  apart (resume l1 l2 (run_callback pg e (mkSt w m (Some s)))).
Proof.
  intros (Hi & Hn & Hh) Ha.
  pose proof (callback_safe m0 pg Hpg Hm0 Hcol _ _ _ _ _ _ Hi Ha) as Hi'. split; [done|].
  destruct (run_callback pg e (mkSt w m (Some s))) as [[u st]| |] eqn:E; [|done..].
  cbn [open_fds] in Hn. rewrite fds_insert in Hn. apply NoDup_cons in Hn as [Hn1 Hn2].
  apply Forall_app in Hh as [Hh1 [Hh Hh2]%Forall_cons].
  destruct (callback_keeps _ _ _ _ _ _ Hh E) as [Hk _].
  unfold resume, open_fds, hok in *. destruct (st_session st) as [s'|]; simpl.
  - destruct Hk as [Hk Hfd]. split; [|apply Forall_app; by split; [|constructor]].
    rewrite fds_insert, Hfd. by constructor.
  - split; [done|]. apply Forall_app. by split.
Qed.
Lemma step_apart σ σ' : apart σ → step pg orderly σ σ' → apart σ'.
Proof.
  intros Ha Hst. destruct Hst as [w m l1 s l2 e Hal|w m ss fd addr ci hm Hfd|w m ss|w m ss w' Hq|w m ss ss' Hp].
  - by apply callback_apart, Hal.
  - by apply accept_apart.
  - destruct Ha as (Hi & Hn & Hh). pose proof (health_safe m0 _ _ _ Hi) as Hi'. split; [done|].
    by destruct (health_check_all w m) as [[w' m']| |].
  - destruct Ha as (Hi & Hn & Hh). split; [|done]. by eapply (step_safe m0 pg Hpg Hm0 Hcol orderly (λ _ _ _ Ho, proj1 Ho)); [|apply step_outside].
  - destruct Ha as (Hi & Hn & Hh). split_and!; [by eapply sys_inv_perm|unfold open_fds in *|]; by rewrite <- Hp.
Qed.

(** A callback of any session keeps the conversation with the client on [fd] going. *)
Lemma callback_speaks fd base w m l1 s l2 e :
  apart (Running w m (l1 ++ s :: l2)) → orderly w s e →
  speaks fd base (Running w m (l1 ++ s :: l2)) →
  fd ∈ open_fds (resume l1 l2 (run_callback pg e (mkSt w m (Some s)))) →
  speaks fd base (resume l1 l2 (run_callback pg e (mkSt w m (Some s)))).
Proof.
  intros (Hi & Hn & Hh) Ho2 (s1 & out & Hs1 & <- & (lo & Hlo & Ho) & Ht) Hin.
  pose proof (proj1 Ho2) as Ha. pose proof (proj1 Ha) as Hf. destruct (decide (client_fd s1 = client_fd s)) as [Efd|Hne].
  - apply (same_session l1 s l2 s1) in Efd as ->; [|done..].
    destruct (inv_live m0 _ _ _ _ _ _ Hi Hf Hlo) as (l & Hlv & Hsi). rewrite <- Ho in Hlv.
    destruct (callback_left m0 pg Hpg Hm0 Hcol True _ _ _ _ _ _ _ _ _ Hlv Hsi Ha) as (st & E & Hleft); [done|].
    rewrite E in *. cbn [open_fds resume] in *. rewrite fds_insert in Hn. apply NoDup_cons in Hn as [Hn _].
    destruct Hleft as [[L' (Es & _)]|(L' & out' & s' & l' & Hlv' & _ & Hfd' & Ht')].
    + rewrite Es in Hin. by destruct Hn.
    + rewrite (lv_session _ _ _ _ _ _ _ _ Hlv'). exists s', (out ++ out'). rewrite (app_assoc base).
      split_and!; [set_solver|done|by eapply live_said|eapply talks_app; [done|by apply Ht']].
  - pose proof (callback_safe m0 pg Hpg Hm0 Hcol _ _ _ _ _ _ Hi Ha) as Hi'.
    destruct (run_callback pg e (mkSt w m (Some s))) as [[u st]| |] eqn:E; [|done..].
    apply Forall_app in Hh as [Hh1 [Hh Hh2]%Forall_cons].
    destruct (callback_keeps _ _ _ _ _ _ Hh E) as [_ Hw].
    exists s1, out. split_and!; [set_solver|done| |done].
    eapply said_world; [by apply Hw|]. by exists lo.
Qed.
Lemma step_speaks fd base σ σ' : apart σ → speaks fd base σ → stays fd σ σ' → speaks fd base σ'.
Proof.
  intros Ha Hsp [Hst Hin]. destruct Hst as [w m l1 s l2 e Hal|w m ss fd' addr ci hm Hfd|w m ss|w m ss w' Hq|w m ss ss' Hp].
  - by apply callback_speaks.
  - destruct (wp_Ret False (session_create fd' addr (Some ci) hm)
      (λ _ st, unseen w (st_world st)) (mkSt w m None)) as (u & st & -> & Hu).
    + destruct Ha as ((Hm & Hr & _) & _). eapply (wp_session_create m0); [exact Hr|exact Hm|].
      intros w' s Hq _ _ _ _. by apply quiet_unseen.
    + by intros [].
    + apply (speaks_world _ _ _ (st_world st) _ (st_map st)) in Hsp as (s & out & Hs & Hsp); [|done].
      exists s, out. split; [|done]. apply elem_of_app. by left.
  - destruct (health_check_all w m) as [[w' m']| |] eqn:E; [|by apply not_elem_of_nil in Hin..].
    eapply speaks_world; [|done]. destruct (unseen_keeps w) as [_ Hc].
    by eapply (health_keeps (unseen w)); [exact Hc|exact E|].
  - eapply speaks_world; [by apply quiet_unseen|done].
  - destruct Hsp as (s & out & Hs & Hsp). exists s, out. by rewrite <- Hp.
Qed.
Lemma run_apart σ σ' : apart σ → rtc (step pg orderly) σ σ' → apart σ'.
Proof. intros Ha Hr. induction Hr as [|? ? ? Hst _ IH]; [done|]. apply IH. by eapply step_apart. Qed.
Lemma run_speaks fd base σ σ' : apart σ → speaks fd base σ → rtc (stays fd) σ σ' → apart σ' ∧ speaks fd base σ'.
Proof.
  intros Ha Hsp Hr. induction Hr as [|? ? ? Hst _ IH]; [done|].
  apply IH; [by eapply step_apart, Hst|by eapply step_speaks].
Qed.

(** [accepted σ0 fd base σ]: in the run from [σ0] to [σ] the client on [fd] has been
    accepted, when [base] had been sent on this descriptor to earlier clients, and has been
    there since. *)
Definition accepted σ0 fd (base : bytes) σ : Prop :=
  ∃ w m ss addr ci hm, rtc (step pg orderly) σ0 (Running w m ss) ∧ (fd ∉ client_fd <$> ss) ∧ base = sock_sent w fd ∧
    rtc (stays fd) (resume ss [] (session_create fd addr (Some ci) hm (mkSt w m None))) σ.
(** Only an accept brings a descriptor. *)
Lemma step_fds fd σ σ' :
  apart σ → step pg orderly σ σ' → fd ∈ open_fds σ' → fd ∈ open_fds σ ∨
  ∃ w m ss addr ci hm, σ = Running w m ss ∧ (fd ∉ client_fd <$> ss) ∧
    σ' = resume ss [] (session_create fd addr (Some ci) hm (mkSt w m None)).
Proof.
  intros (Hi & _ & Hh) Hst Hin.
  destruct Hst as [w m l1 s l2 e Hal|w m ss fd' addr ci hm Hfd|w m ss|w m ss w' Hq|w m ss ss' Hp].
  - left. destruct (run_callback pg e (mkSt w m (Some s))) as [[u st]| |] eqn:E; [|by apply not_elem_of_nil in Hin..].
    apply Forall_app in Hh as [_ [Hh _]%Forall_cons]. destruct (callback_keeps _ _ _ _ _ _ Hh E) as [Hk _].
    unfold resume, open_fds, hok in *. rewrite fds_insert. destruct (st_session st) as [s'|]; simpl in Hin.
    + rewrite fds_insert in Hin. destruct Hk as [_ Hk]. by rewrite Hk in Hin.
    + by right.
  - destruct (decide (fd ∈ client_fd <$> ss)) as [|Hn]; [by left|right]. exists w, m, ss, addr, ci, hm.
    destruct (decide (fd = fd')) as [->|Hne]; [done|exfalso].
    destruct (session_create fd' addr (Some ci) hm (mkSt w m None)) as [[u st]| |] eqn:E; [|by apply not_elem_of_nil in Hin..].
    unfold resume, open_fds in *. destruct (st_session st) as [s|] eqn:Es; simpl in Hin; [|by rewrite app_nil_r in Hin].
    destruct (create_handlers fd' _ _ _ _ _ _ _ _ E Es) as [_ Hf]. rewrite fds_insert, app_nil_r, Hf in Hin. set_solver.
  - left. by destruct (health_check_all w m) as [[w' m']| |]; [|apply not_elem_of_nil in Hin..].
  - by left.
  - left. unfold open_fds in *. by rewrite Hp.
Qed.
Lemma connected_since σ0 σ fd :
  apart σ0 → open_fds σ0 = [] → rtc (step pg orderly) σ0 σ → fd ∈ open_fds σ → ∃ base, accepted σ0 fd base σ.
Proof.
  intros Ha H0 Hr. revert σ Hr. apply (rtc_ind_r (λ σ, fd ∈ open_fds σ → ∃ base, accepted σ0 fd base σ)).
  { rewrite H0. by intros Hin%not_elem_of_nil. }
  intros σ σ' Hr Hst IH Hin. destruct (step_fds fd σ σ' (run_apart _ _ Ha Hr) Hst Hin)
    as [Hin0|(w & m & ss & addr & ci & hm & -> & Hn & ->)].
  - destruct (IH Hin0) as (base & w & m & ss & addr & ci & hm & Hr0 & Hn & Hb & Hs).
    exists base, w, m, ss, addr, ci, hm. split_and!; [done..|]. by eapply rtc_r.
  - exists (sock_sent w fd), w, m, ss, addr, ci, hm. by split_and!.
Qed.
Lemma accepted_speaks σ0 fd base σ : apart σ0 → accepted σ0 fd base σ → apart σ ∧ speaks fd base σ.
Proof.
  intros Ha (w & m & ss & addr & ci & hm & Hr & Hn & -> & Hs). pose proof (run_apart _ _ Ha Hr) as Ha1.
  eapply run_speaks; [by apply accept_apart|by apply born_speaks, Ha1|done].
Qed.
(** What a client has been sent, at any time of any run: since it was accepted, a
    conversation by the automaton that has come to the state of its session. *)
Theorem stream_well_formed σ0 w m ss s :
  apart σ0 → open_fds σ0 = [] → rtc (step pg orderly) σ0 (Running w m ss) → s ∈ ss →
  ∃ base out, accepted σ0 (client_fd s) base (Running w m ss) ∧ said w s (base ++ out) ∧
    talks Login out (stage_at s) ∧ well_said out (stage_at s).
Proof.
  intros Ha H0 Hr Hs.
  destruct (connected_since σ0 _ (client_fd s) Ha H0 Hr) as [base Hb]; [by apply list_elem_of_fmap_2|].
  destruct (accepted_speaks _ _ _ _ Ha Hb) as ((_ & Hn & _) & s1 & out & Hs1 & Hfd1 & Ho & Ht).
  apply list_elem_of_split in Hs as (l1 & l2 & ->).
  apply (same_session l1 s l2 s1) in Hfd1 as ->; [|done..].
  exists base, out. split_and!; [done|done|done|].
  apply (talks_well_said [] Login); [|done]. exists 0%nat, []. by split_and!.
Qed.
End life.
