(* ===== verification/Timer.v ===== *)
(** * Periodic timers ([src/src/event/timer.h], [timer.c])

    [Σ] is the state the callbacks run on, [clock_gettime] reads the monotonic clock
    and [fire] runs a callback on its data. *)
From S2P Require Import Prelude.
#[local] Set Warnings "-clear-no-such-hyp".
#[local] Open Scope Z_scope.

Record timespec : Type := mkTimespec { tv_sec : Z; tv_nsec : Z }.
Definition ns (t : timespec) : Z := tv_sec t * 1000000000 + tv_nsec t.

(** The carry loop; a round takes a second from [tv_nsec]. *)
Fixpoint carry (fuel : nat) (ts : timespec) : res timespec :=
  match fuel with
  | O => Hang
  | S fuel =>
    if decide (1000000000 ≤ tv_nsec ts) then
      carry fuel (mkTimespec (tv_sec ts + 1) (tv_nsec ts - 1000000000))
    else Ret ts
  end.
Definition timespec_add_ms (ts : timespec) (ms : Z) : res timespec :=
  let ts := mkTimespec (tv_sec ts) (tv_nsec ts + ms * 1000000) in
  carry (S (Z.to_nat (tv_nsec ts / 1000000000))) ts.
(** C division truncates towards zero.  With seconds of a monotonic clock the result is far
    from the limits of [int64_t]. *)
Definition timespec_diff_ms (a b : timespec) : Z :=
  (tv_sec a - tv_sec b) * 1000 + Z.quot (tv_nsec a - tv_nsec b) 1000000.

Definition MAX_TIMERS : nat := 32.

(** The callback and its data are one value. *)
Record Timer (C : Type) : Type := mkTimer {
  interval_ms : Z;
  timer_callback : C;
  next_fire : timespec;
  active : bool;
}.
Arguments mkTimer {C}.
Arguments interval_ms {C}.
Arguments timer_callback {C}.
Arguments next_fire {C}.
Arguments active {C}.

(** The entries of the array below [count]; the others are never read. *)
Definition TimerQueue (C : Type) : Type := list (Timer C).

Section timers.
Context {C Σ : Type} (clock_gettime : Σ → Σ * timespec) (fire : C → Σ → res Σ).

Definition timer_queue_init : TimerQueue C := [].
Definition timer_add (tq : TimerQueue C) (interval : Z) (cb : C) (st : Σ)
    : res (TimerQueue C * Σ * Z) :=
  if decide (MAX_TIMERS ≤ length tq)%nat then Ret (tq, st, -1)
  else
    let '(st, now) := clock_gettime st in
    next ← timespec_add_ms now interval;
    Ret (tq ++ [mkTimer interval cb next true], st, Z.of_nat (length tq)).
Definition deactivate (t : Timer C) : Timer C :=
  mkTimer (interval_ms t) (timer_callback t) (next_fire t) false.
Definition timer_remove (tq : TimerQueue C) (id : Z) : TimerQueue C :=
  if decide (0 ≤ id < Z.of_nat (length tq)) then alter deactivate (Z.to_nat id) tq else tq.

(** The loop of [timer_next_timeout_ms] with its early return. *)
Fixpoint next_timeout (now : timespec) (tq : TimerQueue C) (min_ms : Z) : Z :=
  match tq with
  | [] => min_ms
  | t :: tq =>
    if active t then
      let diff := timespec_diff_ms (next_fire t) now in
      if decide (diff ≤ 0) then 0
      else next_timeout now tq (if decide (diff < min_ms) then diff else min_ms)
    else next_timeout now tq min_ms
  end.
Definition timer_next_timeout_ms (tq : TimerQueue C) (st : Σ) : Σ * Z :=
  match tq with
  | [] => (st, 1000)
  | _ => let '(st, now) := clock_gettime st in (st, next_timeout now tq 1000)
  end.

Definition reschedule (t : Timer C) (next : timespec) : Timer C :=
  mkTimer (interval_ms t) (timer_callback t) next (active t).
(** [timer_process_expired]: [now] is read once, before the loop. *)
Fixpoint process_expired (now : timespec) (tq : TimerQueue C) (st : Σ)
    : res (TimerQueue C * Σ) :=
  match tq with
  | [] => Ret ([], st)
  | t :: tq =>
    '(t, st) ← (if active t && bool_decide (timespec_diff_ms (next_fire t) now ≤ 0) then
                  st ← fire (timer_callback t) st;
                  let '(st, now') := clock_gettime st in
                  next ← timespec_add_ms now' (interval_ms t);
                  Ret (reschedule t next, st)
                else Ret (t, st));
    '(tq, st) ← process_expired now tq st;
    Ret (t :: tq, st)
  end.
Definition timer_process_expired (tq : TimerQueue C) (st : Σ) : res (TimerQueue C * Σ) :=
  let '(st, now) := clock_gettime st in process_expired now tq st.

(** ** Facts *)
Definition normal (t : timespec) : Prop := 0 ≤ tv_nsec t < 1000000000.

Lemma carry_spec fuel ts :
  0 ≤ tv_nsec ts → (Z.to_nat (tv_nsec ts / 1000000000) < fuel)%nat →
  ∃ ts', carry fuel ts = Ret ts' ∧ ns ts' = ns ts ∧ normal ts'.
Proof.
  revert ts. induction fuel as [|fuel IH]; intros ts Hn Hf; [lia|]. simpl. case_decide as Hd.
  - destruct (IH (mkTimespec (tv_sec ts + 1) (tv_nsec ts - 1000000000))) as (ts' & -> & E & Hts');
      simpl; [lia| |].
    + replace (tv_nsec ts - 1000000000) with (tv_nsec ts + (-1) * 1000000000) by lia.
      rewrite Z.div_add by lia.
      assert (1 ≤ tv_nsec ts / 1000000000) by (apply Z.div_le_lower_bound; lia). lia.
    + exists ts'. split_and!; [done| |done]. unfold ns in *. simpl in *. lia.
  - exists ts. split_and!; [done|done|]. unfold normal. lia.
Qed.
(** [timespec_add_ms] adds exactly, and normalises, for intervals that are not
    negative. *)
Lemma add_ms_spec ts ms :
  normal ts → 0 ≤ ms →
  ∃ ts', timespec_add_ms ts ms = Ret ts' ∧ ns ts' = ns ts + ms * 1000000 ∧ normal ts'.
Proof.
  intros [H1 H2] Hms. unfold timespec_add_ms.
  destruct (carry_spec (S (Z.to_nat ((tv_nsec ts + ms * 1000000) / 1000000000)))
    (mkTimespec (tv_sec ts) (tv_nsec ts + ms * 1000000))) as (ts' & E & En & Hn'); simpl; [lia|lia|].
  exists ts'. split_and!; [exact E| |done]. rewrite En. unfold ns. simpl. lia.
Qed.
(** The difference is less than a millisecond off. *)
Lemma diff_ms_spec a b : Z.abs (timespec_diff_ms a b * 1000000 - (ns a - ns b)) < 1000000.
Proof.
  unfold timespec_diff_ms, ns.
  pose proof (Z.quot_rem' (tv_nsec a - tv_nsec b) 1000000).
  pose proof (Z.rem_bound_abs (tv_nsec a - tv_nsec b) 1000000 ltac:(lia)). lia.
Qed.

(** Due at [now]. *)
Definition due (now : timespec) (t : Timer C) : Prop :=
  active t = true ∧ timespec_diff_ms (next_fire t) now ≤ 0.
#[export] Instance due_dec now t : Decision (due now t).
Proof. unfold due. apply _. Defined.

Lemma next_timeout_spec now tq m :
  0 < m →
  0 ≤ next_timeout now tq m ≤ m ∧
  (next_timeout now tq m = 0 ↔ Exists (due now) tq) ∧
  (∀ t, t ∈ tq → active t = true →
    next_timeout now tq m ≤ Z.max 0 (timespec_diff_ms (next_fire t) now)) ∧
  (next_timeout now tq m = m ∨ next_timeout now tq m = 0 ∨
    ∃ t, t ∈ tq ∧ active t = true ∧ timespec_diff_ms (next_fire t) now = next_timeout now tq m).
Proof.
  revert m. induction tq as [|t tq IH]; intros m Hm; simpl.
  - split_and!; [lia|lia|split; [lia|by intros ?%Exists_nil]|set_solver|by left].
  - destruct (active t) eqn:Ha; [case_decide as Hd|].
    + split_and!; [lia|lia|split; [by left|done]|lia|by right; left].
    + set (m' := if decide (timespec_diff_ms (next_fire t) now < m) then _ else m).
      assert (0 < m' ≤ m ∧ m' ≤ timespec_diff_ms (next_fire t) now ∧
        (m' = m ∨ m' = timespec_diff_ms (next_fire t) now)) as (? & ? & Hm').
      { unfold m'. case_decide; lia. }
      destruct (IH m') as (Hb & Hz & Hl & He); [lia|]. split_and!; [lia|lia| | |].
      * rewrite Exists_cons. unfold due at 1. naive_solver lia.
      * intros t' [->|Ht']%elem_of_cons Hact; [lia|by apply Hl].
      * destruct He as [He|[He|(t' & ? & ? & ?)]]; [|by auto|set_solver].
        destruct Hm' as [->|Hm']; [by left|]. right; right. exists t.
        split_and!; [set_solver|done|lia].
    + destruct (IH m Hm) as (Hb & Hz & Hl & He). split_and!; [lia|lia| | |].
      * rewrite Exists_cons. unfold due at 1. naive_solver congruence.
      * intros t' [->|Ht']%elem_of_cons Hact; [congruence|by apply Hl].
      * destruct He as [He|[He|(t' & ? & ? & ?)]]; set_solver.
Qed.

(** What the callbacks and the clock do: a callback returns and is recorded in [log],
    [time] never goes back and is what the clock reads. *)
Context (log : Σ → list C) (time : Σ → Z).
Record timing : Prop := {
  fire_runs cb st : ∃ st', fire cb st = Ret st' ∧ log st' = log st ++ [cb] ∧ time st ≤ time st';
  clock_log st : log (clock_gettime st).1 = log st;
  clock_normal st : normal (clock_gettime st).2;
  clock_time st : time st ≤ ns (clock_gettime st).2 ∧ time (clock_gettime st).1 = ns (clock_gettime st).2;
}.

(** The queue entry after [timer_process_expired]. *)
Definition rescheduled (now : timespec) (t t' : Timer C) : Prop :=
  if decide (due now t) then
    t' = reschedule t (next_fire t') ∧ ns now + interval_ms t * 1000000 ≤ ns (next_fire t')
  else t' = t.

Lemma process_expired_spec now tq st :
  timing → ns now ≤ time st → Forall (λ t, 0 ≤ interval_ms t) tq →
  ∃ tq' st', process_expired now tq st = Ret (tq', st') ∧
    Forall2 (rescheduled now) tq tq' ∧
    log st' = log st ++ map timer_callback (filter (due now) tq) ∧ time st ≤ time st'.
Proof.
  intros Htm. revert st. induction tq as [|t tq IH]; intros st Hnow Hi; simpl.
  { exists [], st. rewrite app_nil_r. split_and!; [done|constructor|done|lia]. }
  apply Forall_cons in Hi as [Hi Hq]. destruct (decide (due now t)) as [Hd|Hd].
  - rewrite (bool_decide_true (_ ≤ 0)) by apply Hd. rewrite (proj1 Hd).
    destruct (fire_runs Htm (timer_callback t) st) as (st1 & -> & Hl1 & Ht1). simpl.
    pose proof (clock_log Htm st1) as Hl2. pose proof (clock_normal Htm st1) as Hn.
    pose proof (clock_time Htm st1) as [Ht2 Ht2'].
    destruct (clock_gettime st1) as [st2 now']. simpl in *.
    destruct (add_ms_spec now' (interval_ms t) Hn Hi) as (nx & -> & Hnx & _). simpl.
    destruct (IH st2) as (tq' & st3 & -> & Hf & Hl3 & Ht3); [lia|done|]. simpl.
    eexists _, _. split; [done|]. rewrite filter_cons_True by done.
    split_and!; [constructor; [|done]|rewrite Hl3, Hl2, Hl1; by rewrite <- app_assoc|lia].
    unfold rescheduled. rewrite decide_True by done. simpl. split; [done|lia].
  - destruct (IH st Hnow Hq) as (tq' & st' & E & Hf & Hl & Ht).
    assert (active t && bool_decide (timespec_diff_ms (next_fire t) now ≤ 0) = false) as ->.
    { apply andb_false_iff. destruct (active t) eqn:Ha; [right|by left].
      apply bool_decide_false. intros ?. by apply Hd. }
    simpl. rewrite E. simpl. eexists _, _. split; [done|]. rewrite filter_cons_False by done.
    split_and!; [constructor; [|done]|done|done].
    unfold rescheduled. by rewrite decide_False.
Qed.
End timers.

(** ** Properties *)

(** C30: [timer_next_timeout_ms] never lets the event loop sleep past a timer.  The
    timeout is between 0 and 1000 milliseconds; it is 0 exactly when an active timer is
    due; otherwise it is at most the time left to every active timer, and it is either
    1000 or the time left to one of them; and the millisecond arithmetic is less than a
    millisecond off the clock. *)
Theorem timeout_never_oversleeps {C Σ} (clock_gettime : Σ → Σ * timespec)
    (tq : TimerQueue C) (st : Σ) :
  let now := (clock_gettime st).2 in
  let ms := (timer_next_timeout_ms clock_gettime tq st).2 in
  0 ≤ ms ≤ 1000 ∧
  (ms = 0 ↔ Exists (due now) tq) ∧
  (∀ t, t ∈ tq → active t = true → ms ≤ Z.max 0 (timespec_diff_ms (next_fire t) now) ∧
     ms * 1000000 < Z.max 0 (ns (next_fire t) - ns now) + 1000000) ∧
  (0 < ms < 1000 → ∃ t, t ∈ tq ∧ active t = true ∧ timespec_diff_ms (next_fire t) now = ms).
Proof.
  intros now ms. destruct tq as [|t0 tq].
  { unfold ms. simpl. split_and!; [lia|lia| |set_solver|lia].
    split; [lia|by intros ?%Exists_nil]. }
  assert (ms = next_timeout now (t0 :: tq) 1000) as ->.
  { unfold ms, now, timer_next_timeout_ms. by destruct (clock_gettime st). }
  destruct (next_timeout_spec now (t0 :: tq) 1000) as (Hb & Hz & Hl & He); [lia|].
  split_and!; [lia|lia|done| |].
  - intros t Ht Ha. pose proof (Hl t Ht Ha). pose proof (diff_ms_spec (next_fire t) now). lia.
  - intros Hr. destruct He as [?|[?|He]]; [lia|lia|exact He].
Qed.

(** C31: [timer_process_expired] runs the callbacks of exactly the active timers that
    are due, each once and in the order of the queue.  Each of them is rescheduled at
    least its interval after the clock reading the decision was made with, so that a
    timer whose interval is positive is not due at that reading again; the other timers
    are unchanged. *)
Theorem expired_timers_fire_once {C Σ} (clock_gettime : Σ → Σ * timespec) (fire : C → Σ → res Σ)
    (log : Σ → list C) (time : Σ → Z) (tq : TimerQueue C) (st : Σ) :
  timing clock_gettime fire log time → Forall (λ t, 0 < interval_ms t) tq →
  let now := (clock_gettime st).2 in
  ∃ tq' st', timer_process_expired clock_gettime fire tq st = Ret (tq', st') ∧
    log st' = log st ++ map timer_callback (filter (due now) tq) ∧
    Forall2 (rescheduled now) tq tq' ∧ Forall (λ t, ¬ due now t) tq'.
Proof.
  intros Htm Hi now. unfold timer_process_expired.
  pose proof (clock_log _ _ _ _ Htm st) as Hl. pose proof (clock_time _ _ _ _ Htm st) as [Ht Ht'].
  subst now. destruct (clock_gettime st) as [st1 now] eqn:Ec. simpl in *.
  destruct (process_expired_spec clock_gettime fire log time now tq st1 Htm) as (tq' & st2 & E & Hf & Hl2 & _).
  { lia. }
  { eapply Forall_impl; [exact Hi|]. simpl. lia. }
  exists tq', st2. rewrite Hl2, Hl. split_and!; [done|done|done|].
  clear -Hf Hi. induction Hf as [|t t' tq tq' Ht Hf IH]; [constructor|].
  apply Forall_cons in Hi as [Hi Hq]. constructor; [|by apply IH].
  unfold rescheduled in Ht. case_decide as Hd; [|by subst].
  destruct Ht as [_ Hn]. intros [_ Hdue]. pose proof (diff_ms_spec (next_fire t') now). lia.
Qed.
(** A clock that ticks a millisecond whenever it is read. *)
Definition tick (st : Z * list nat) : (Z * list nat) * timespec :=
  ((st.1 + 1, st.2), mkTimespec ((st.1 + 1) / 1000) ((st.1 + 1) `mod` 1000 * 1000000)).
Definition note (n : nat) (st : Z * list nat) : res (Z * list nat) := Ret (st.1, st.2 ++ [n]).
Definition sample_timers : TimerQueue nat :=
  [mkTimer 50 7%nat (mkTimespec 1 0) true; mkTimer 30 8%nat (mkTimespec 9 0) true;
   mkTimer 20 9%nat (mkTimespec 0 0) false].
Lemma expired_timers_fire_once_witness :
  ∃ tq' st', timer_process_expired tick note sample_timers (2000, []) = Ret (tq', st') ∧
    st'.2 = [7%nat] ∧ Forall (λ t, ¬ due (tick (2000, [])).2 t) tq'.
Proof.
  destruct (expired_timers_fire_once tick note snd (λ st, st.1 * 1000000) sample_timers (2000, []))
    as (tq' & st' & E & Hl & _ & Hn).
  - split.
    + intros cb st. exists (st.1, st.2 ++ [cb]). split_and!; [reflexivity|reflexivity|simpl; lia].
    + intros st. reflexivity.
    + intros st. unfold normal, tick. simpl. pose proof (Z.mod_pos_bound (st.1 + 1) 1000). lia.
    + intros st. unfold ns, tick. simpl. pose proof (Z.div_mod (st.1 + 1) 1000). lia.
  - repeat constructor.
  - exists tq', st'. split_and!; [exact E|rewrite Hl; vm_compute; reflexivity|exact Hn].
Defined.
