(* ===== verification/Loop.v ===== *)
(** * The event loop and its callbacks
    ([src/src/event/event_loop.c], [src/src/main.c])

    The sessions live on a heap.  epoll gives back pointers to handlers; a handler is a
    member of the listener, of a session or of a scatter entry, and is read through that
    owner, so that a pointer to a freed session is undefined behaviour.  What the kernel
    does is the interface [Kernel].  The loop implements the step relation of [System]. *)
From S2P Require Import Prelude Memory LibPQ Pool ShardMap Resources Parser Router Keys Sql Message Event.
From S2P Require Import Session Wp SessionSpec Backend Wire BackendSpec ScatterSpec Frontend FrontendSpec.
From S2P Require Import Handlers QuerySpec Talk Input ProcessSpec System Timer.
#[local] Set Warnings "-clear-no-such-hyp".
#[local] Open Scope Z_scope.

(** ** The kernel *)

(** A pointer that was registered with epoll. *)
Inductive handler_ref : Type :=
| NullRef
| ListenerRef
| ClientRef (a : Z)
| BackendRef (a : Z)
| ScatterRef (a : Z) (i : nat).
Inductive wait_result : Type :=
| Events (l : list (handler_ref * Z))
| Interrupted
| WaitError.
Inductive accept_result : Type := Accepted (fd : Z) | AcceptAgain | AcceptError.
Class Kernel (W : Type) : Type := {
  epoll_create1 : W → W * Z;
  epoll_wait : W → Z → nat → Z → W * wait_result;
  accept4 : W → Z → gset Z → W * accept_result; (* the set: descriptors in use *)
  accept_queue : W → Z → nat;        (* clients that wait to be accepted *)
  set_nodelay : W → Z → W;
  calloc_session : W → gset Z → W * option Z; (* an address, or NULL *)
  clock_gettime : W → W * timespec;
  signalled : W → bool;              (* SIGINT or SIGTERM since the last round *)
}.
(** [calloc] returns an address and [accept4] a descriptor that is not in use; accepting
    takes a client from the queue; the clock is normalised; these calls touch neither libpq
    nor what has been sent to clients. *)
Class KernelLaws (W : Type) `{LibPQ W} `{OS W} `{Kernel W} : Prop := {
  create1_quiet w : quiet w (epoll_create1 w).1;
  wait_quiet w fd n t : quiet w (epoll_wait w fd n t).1;
  accept_quiet w fd x : quiet w (accept4 w fd x).1;
  nodelay_quiet w fd : quiet w (set_nodelay w fd);
  calloc_quiet w x : quiet w (calloc_session w x).1;
  clock_quiet w : quiet w (clock_gettime w).1;
  calloc_fresh w x a : (calloc_session w x).2 = Some a → a ∉ x;
  accept_fresh w fd x c : (accept4 w fd x).2 = Accepted c → c ∉ x;
  clock_normal w : normal (clock_gettime w).2;
  accept_taken w fd x c :
    (accept4 w fd x).2 = Accepted c → (accept_queue (accept4 w fd x).1 fd < accept_queue w fd)%nat;
  nodelay_queue w c fd : accept_queue (set_nodelay w c) fd = accept_queue w fd;
  calloc_queue w x fd : accept_queue (calloc_session w x).1 fd = accept_queue w fd;
  close_queue w c fd : accept_queue (sock_close w c) fd = accept_queue w fd;
  epoll_queue w op c ev fd : accept_queue (epoll_ctl w op c ev).1 fd = accept_queue w fd;
  fcntl_queue w c flags fd : accept_queue (fcntl_setfl w c flags).1 fd = accept_queue w fd;
}.

(** ** State *)

(** The timers' callbacks, with their data. *)
Inductive timer_cb : Type := on_health_check_cb.
Record EventLoop : Type := mkEventLoop {
  epfd : Z;
  running : bool;
  timers : TimerQueue timer_cb;
}.
Definition set_running (b : bool) (l : EventLoop) : EventLoop := mkEventLoop (epfd l) b (timers l).
Definition set_timers (tq : TimerQueue timer_cb) (l : EventLoop) : EventLoop :=
  mkEventLoop (epfd l) (running l) tq.
Definition set_epfd (fd : Z) (l : EventLoop) : EventLoop := mkEventLoop fd (running l) (timers l).
(** The loop and the shard map are the ones of the state. *)
Record ListenerCtx : Type := mkListenerCtx {
  lc_ev : EventHandler;
  lc_conninfo : bytes;
}.
(** [heap] has the sessions that are allocated. *)
Record Proxy (W : Type) : Type := mkProxy {
  px_world : W;
  px_map : ShardMap;
  heap : gmap Z ClientSession;
  loop : EventLoop;
  listener : ListenerCtx;
}.
Arguments mkProxy {W}.
Arguments px_world {W}.
Arguments px_map {W}.
Arguments heap {W}.
Arguments loop {W}.
Arguments listener {W}.

Definition sessions {W} (p : Proxy W) : list ClientSession := (map_to_list (heap p)).*2.
(** The sockets of the clients. *)
Definition client_fds {W} (p : Proxy W) : gset Z := list_to_set (client_fd <$> sessions p).

Definition MAX_EVENTS : nat := 256.

Section loop.
Context {W : Type} {PQ : LibPQ W} {Os : OS W} {K : Kernel W}.
Context (pg : bytes → option bytes).
Implicit Types (w : W) (p : Proxy W).

Definition set_world w p : Proxy W := mkProxy w (px_map p) (heap p) (loop p) (listener p).
Definition set_loop (l : EventLoop) p : Proxy W := mkProxy (px_world p) (px_map p) (heap p) l (listener p).

(** ** [event_loop_init], [event_loop_destroy], [event_loop_stop] *)
Definition event_loop_init w : W * (EventLoop * Z) :=
  let '(w, fd) := epoll_create1 w in
  if decide (fd < 0) then (w, (mkEventLoop fd false [], -1))
  else (w, (mkEventLoop fd false timer_queue_init, 0)).
Definition event_loop_destroy w (l : EventLoop) : W * EventLoop :=
  if decide (0 ≤ epfd l) then (sock_close w (epfd l), set_epfd (-1) l) else (w, l).
Definition event_loop_stop (l : EventLoop) : EventLoop := set_running false l.
Definition on_signal (l : EventLoop) : EventLoop := event_loop_stop l.

(** ** Callbacks *)

(** Runs the code of a session that is on the heap. *)
Definition on_session (a : Z) (m : M W ()) p : res (Proxy W) :=
  s ← deref_opt (heap p !! a);
  '(_, st) ← m (mkSt (px_world p) (px_map p) (Some s));
  Ret (mkProxy (st_world st) (st_map st)
    (match st_session st with Some s => <[a := s]> (heap p) | None => delete a (heap p) end)
    (loop p) (listener p)).

(** [on_accept]: the loop over the waiting clients. *)
Fixpoint accept_loop (fuel : nat) p : res (Proxy W) :=
  match fuel with
  | O => Hang
  | S fuel =>
    let '(w, r) := accept4 (px_world p) (ev_fd (lc_ev (listener p))) (client_fds p) in
    match r with
    | AcceptAgain | AcceptError => Ret (set_world w p)
    | Accepted fd =>
      let w := set_nodelay w fd in
      let '(w, addr) := calloc_session w (dom (heap p)) in
      match addr with
      | None => accept_loop fuel (set_world (sock_close w fd) p)
      | Some a =>
        '(_, st) ← session_create fd a (Some (lc_conninfo (listener p))) true (mkSt w (px_map p) None);
        accept_loop fuel (mkProxy (st_world st) (st_map st)
          (match st_session st with Some s => <[a := s]> (heap p) | None => heap p end)
          (loop p) (listener p))
      end
    end
  end.
(** Every round takes a client from the queue. *)
Definition on_accept p : res (Proxy W) :=
  accept_loop (S (accept_queue (px_world p) (ev_fd (lc_ev (listener p))))) p.
Definition on_health_check p : res (Proxy W) :=
  '(w, m) ← health_check_all (px_world p) (px_map p);
  Ret (mkProxy w m (heap p) (loop p) (listener p)).

(** The handler that a pointer leads to. *)
Definition handler_at (r : handler_ref) p : res (option EventHandler) :=
  match r with
  | NullRef => Ret None
  | ListenerRef => Ret (Some (lc_ev (listener p)))
  | ClientRef a => s ← deref_opt (heap p !! a); Ret (Some (ev_handler s))
  | BackendRef a => s ← deref_opt (heap p !! a); Ret (Some (backend_ev s))
  | ScatterRef a i =>
    s ← deref_opt (heap p !! a); sc ← deref_opt (scatter s !! i); Ret (Some (sc_ev sc))
  end.
(** [h->callback(h, events)]; [h->data] is the session, or the scatter entry. *)
Definition call (cb : callback) (r : handler_ref) (events : Z) p : res (Proxy W) :=
  match cb, r with
  | on_accept_cb, _ => on_accept p
  | session_on_client_readable_cb, (ClientRef a | BackendRef a) =>
    on_session a (session_on_client_readable pg events) p
  | session_on_client_writable_cb, (ClientRef a | BackendRef a) =>
    on_session a (session_on_client_writable events) p
  | session_on_backend_readable_cb, (ClientRef a | BackendRef a) =>
    on_session a (session_on_backend_readable events) p
  | session_on_scatter_readable_cb, ScatterRef a i =>
    on_session a (session_on_scatter_readable i events) p
  | _, _ => Ub
  end.
Definition dispatch (e : handler_ref * Z) p : res (Proxy W) :=
  h ← handler_at e.1 p;
  match h ≫= ev_callback with
  | Some cb => call cb e.1 e.2 p
  | None => Ret p
  end.
Fixpoint dispatch_all (l : list (handler_ref * Z)) p : res (Proxy W) :=
  match l with
  | [] => Ret p
  | e :: l => p ← dispatch e p; dispatch_all l p
  end.

(** ** [event_loop_run] *)
Definition run_timer (cb : timer_cb) p : res (Proxy W) :=
  match cb with on_health_check_cb => on_health_check p end.
Definition read_clock p : Proxy W * timespec :=
  let '(w, t) := clock_gettime (px_world p) in (set_world w p, t).
(** One round; the result tells whether the loop is left by [break]. *)
Definition loop_round p : res (bool * Proxy W) :=
  let '(p, timeout) := timer_next_timeout_ms read_clock (timers (loop p)) p in
  let '(w, r) := epoll_wait (px_world p) (epfd (loop p)) MAX_EVENTS timeout in
  let p := set_world w p in
  match r with
  | Interrupted => Ret (false, p)
  | WaitError => Ret (true, p)
  | Events l =>
    p ← dispatch_all l p;
    '(tq, p) ← timer_process_expired read_clock run_timer (timers (loop p)) p;
    Ret (false, set_loop (set_timers tq (loop p)) p)
  end.
(** A signal handler may have run since [running] was last read.  What it logs is left out,
    like the other log output of callbacks; the flag it clears is read only here. *)
Definition take_signal p : Proxy W :=
  if signalled (px_world p) then set_loop (on_signal (loop p)) p else p.
Fixpoint loop_while (fuel : nat) p : res (Proxy W) :=
  match fuel with
  | O => Hang
  | S fuel =>
    let p := take_signal p in
    if running (loop p) then
      '(stop, p) ← loop_round p;
      if stop : bool then Ret p else loop_while fuel p
    else Ret p
  end.
Definition event_loop_run (fuel : nat) p : res (Proxy W) :=
  loop_while fuel (set_loop (set_running true (loop p)) p).
End loop.

(** ** Safety and refinement

    Every operation of the loop returns, keeps the invariant, and is a sequence of steps of
    [System]. *)
Section safety.
Context {W : Type} {PQ : LibPQ W} {Os : OS W} {K : Kernel W}.
Context {Laws : LibPQLaws W} {OLaws : OSLaws W} {KLaws : KernelLaws W}.
Context (m0 : ShardMap) (pg : bytes → option bytes).
Context (Hpg : prints_trees pg) (Hm0 : map_wf m0) (Hcol : columns_set m0).
Context (ok : W → ClientSession → callback_of → Prop) (Hok : ∀ w s e, ok w s e → allowed w s e).
Implicit Types (w : W) (p : Proxy W).

Record loop_inv p : Prop := {
  li_sys : sys_inv m0 (Running (px_world p) (px_map p) (sessions p));
  li_handlers : map_Forall (λ _ s, handlers_ok s) (heap p);
  li_listener : ev_callback (lc_ev (listener p)) = Some on_accept_cb;
  li_timers : Forall (λ t, 0 ≤ interval_ms t) (timers (loop p));
}.

Lemma sessions_split (h : gmap Z ClientSession) a s :
  h !! a = Some s → (map_to_list h).*2 ≡ₚ s :: (map_to_list (delete a h)).*2.
Proof. intros Ha. by rewrite <- (map_to_list_delete h a s Ha). Qed.
Lemma sessions_insert (h : gmap Z ClientSession) a s :
  (map_to_list (<[a := s]> h)).*2 ≡ₚ s :: (map_to_list (delete a h)).*2.
Proof.
  rewrite (sessions_split (<[a := s]> h) a s) by apply lookup_insert_eq. by rewrite delete_insert_eq.
Qed.
Lemma loop_inv_world w p : pq_live w = pq_live (px_world p) → loop_inv p → loop_inv (set_world w p).
Proof. intros Hl [Hs Hh Hc Ht]. split; [by eapply sys_inv_world|done..]. Qed.

(** The abstract system that the loop implements. *)
Definition view p : config W := Running (px_world p) (px_map p) (sessions p).
Record moved p p' : Prop := {
  mv_inv : loop_inv p';
  mv_steps : rtc (step pg ok) (view p) (view p');
}.
Lemma moved_refl p : loop_inv p → moved p p.
Proof. intros Hi. by split. Qed.
Lemma moved_trans p p1 p2 : moved p p1 → moved p1 p2 → moved p p2.
Proof. intros [_ H1] [Hi H2]. split; [done|by etrans]. Qed.
Lemma moved_intro p p' :
  loop_inv p → rtc (step pg ok) (view p) (view p') → map_Forall (λ _ s, handlers_ok s) (heap p') →
  listener p' = listener p → Forall (λ t, 0 ≤ interval_ms t) (timers (loop p')) → moved p p'.
Proof.
  intros [Hs _ Hc _] Hst Hh El Ht. split; [|done]. split; [|done|by rewrite El|done].
  change (sys_inv m0 (view p')). change (sys_inv m0 (view p)) in Hs. revert Hs.
  induction Hst as [|? ? ? H1 _ IH]; [done|]. intros Hs. apply IH. by eapply step_safe.
Qed.
Lemma moved_world w p : quiet (px_world p) w → loop_inv p → moved p (set_world w p).
Proof.
  intros Hq Hi. apply moved_intro; [done| |apply Hi|done|apply Hi]. by apply rtc_once, step_outside.
Qed.

(** The callback of a session. *)
Lemma on_session_safe a s e p :
  loop_inv p → heap p !! a = Some s → ok (px_world p) s e →
  ∃ p', on_session a (run_callback pg e) p = Ret p' ∧ moved p p'.
Proof.
  intros Hi Ha Hal. pose proof Hi as [Hs Hh Hc Ht]. set (l := (map_to_list (delete a (heap p))).*2).
  assert (sessions p ≡ₚ [] ++ s :: l) as Hp by (by apply sessions_split).
  apply (sys_inv_perm m0 _ _ _ _ Hp) in Hs.
  pose proof (callback_safe m0 pg Hpg Hm0 Hcol _ _ [] s l e Hs (Hok _ _ _ Hal)) as Hsafe.
  pose proof (step_callback pg ok _ (px_map p) [] s l e Hal) as Hstep.
  pose proof (keeps_callback pg (client_fd s) e (mkSt (px_world p) (px_map p) (Some s))) as Hk.
  unfold on_session. rewrite Ha. cbn [deref_opt mbind res_bind].
  destruct (run_callback pg e _) as [[u st]| |]; [|done..]. specialize (Hk u st (conj (Hh a s Ha) eq_refl) eq_refl) as [Hk _].
  eexists. split; [reflexivity|]. unfold hok in Hk. apply moved_intro; [done| | |done|done].
  - eapply rtc_l; [by apply step_order|]. eapply rtc_l; [exact Hstep|]. apply rtc_once, step_order.
    unfold sessions. cbn [heap app]. destruct (st_session st) as [s'|]; simpl; [by rewrite sessions_insert|done].
  - cbn [heap]. destruct (st_session st) as [s'|]; [apply map_Forall_insert_2; [apply Hk|done]|by apply map_Forall_delete].
Qed.

(** ** New clients *)
Lemma create_queue (fd a : Z) ci hm (st st' : St W) u lfd :
  session_create fd a ci hm st = Ret (u, st') →
  accept_queue (st_world st') lfd = accept_queue (st_world st) lfd.
Proof.
  unfold session_create, mbind, M_bind, sys, new_session, set_nonblocking, event_loop_add.
  pose proof (fcntl_queue (st_world st) fd (Z.lor (fcntl_getfl (st_world st) fd) O_NONBLOCK) lfd) as Hf.
  case_decide; [|destruct (fcntl_setfl _ _ _) as [w1 rc1]]; cbn [st_world st_map st_session fst] in *;
    (match goal with |- context [epoll_ctl ?w ?op ?f ?e] =>
       pose proof (epoll_queue w op f e lfd) as He; destruct (epoll_ctl w op f e) as [w2 done_ok] end);
    intros [= <- <-]; cbn [st_world fst] in *; congruence.
Qed.
(** A client has been accepted and has its session at address [a]. *)
Lemma accepted_moves p w fd a u st :
  loop_inv p → quiet (px_world p) w → fd ∉ client_fds p → a ∉ dom (heap p) →
  session_create fd a (Some (lc_conninfo (listener p))) true (mkSt w (px_map p) None) = Ret (u, st) →
  moved p (mkProxy (st_world st) (st_map st)
    (match st_session st with Some s => <[a := s]> (heap p) | None => heap p end) (loop p) (listener p)).
Proof.
  intros Hi Hq Hfd Ha%not_elem_of_dom E. apply moved_intro; [done| | |done|apply Hi].
  - eapply rtc_l; [by apply (step_outside _ _ _ _ _ w)|].
    assert (fd ∉ client_fd <$> sessions p) as Hn by (intros Hin; apply Hfd; by apply elem_of_list_to_set).
    eapply rtc_l; [exact (step_accept pg ok w (px_map p) (sessions p) fd a (lc_conninfo (listener p)) true Hn)|]. rewrite E.
    apply rtc_once, step_order. unfold sessions. cbn [heap].
    destruct (st_session st) as [s|]; simpl; [|by rewrite app_nil_r].
    rewrite sessions_insert, (delete_id (heap p) a) by done. by rewrite Permutation_app_comm.
  - cbn [heap]. destruct (st_session st) as [s|] eqn:Es; [|apply Hi]. apply map_Forall_insert_2; [|apply Hi].
    by eapply (create_handlers fd).
Qed.
Lemma accept_loop_safe fuel p :
  loop_inv p → (accept_queue (px_world p) (ev_fd (lc_ev (listener p))) < fuel)%nat →
  ∃ p', accept_loop fuel p = Ret p' ∧ moved p p'.
Proof.
  revert p. induction fuel as [|fuel IH]; intros p Hi Hf; [lia|]. cbn [accept_loop].
  set (lfd := ev_fd (lc_ev (listener p))) in *.
  pose proof (accept_quiet (px_world p) lfd (client_fds p)) as Hl1.
  pose proof (accept_taken (px_world p) lfd (client_fds p)) as Hq1.
  pose proof (accept_fresh (px_world p) lfd (client_fds p)) as Hfd.
  destruct (accept4 (px_world p) lfd (client_fds p)) as [w1 r]. cbn [fst snd] in *.
  destruct r as [fd| |]; [|eexists; split; [reflexivity|by apply moved_world]..].
  specialize (Hq1 fd eq_refl). specialize (Hfd fd eq_refl).
  pose proof (calloc_quiet (set_nodelay w1 fd) (dom (heap p))) as Hl2.
  pose proof (calloc_queue (set_nodelay w1 fd) (dom (heap p)) lfd) as Hq2.
  pose proof (calloc_fresh (set_nodelay w1 fd) (dom (heap p))) as Hfresh.
  destruct (calloc_session (set_nodelay w1 fd) (dom (heap p))) as [w2 [a|]]; cbn [fst snd] in *;
    rewrite nodelay_queue in Hq2;
    assert (quiet (px_world p) w2) as Hq by (eapply quiet_trans; [exact Hl1|]; by eapply quiet_trans; [apply nodelay_quiet|]).
  2: { assert (moved p (set_world (sock_close w2 fd) p)) as Hmv.
       { apply moved_world; [|done]. eapply quiet_trans; [exact Hq|apply quiet_close]. }
       destruct (IH _ (mv_inv _ _ Hmv)) as (p' & E & Hmv'); [|by exists p'; split; [|by eapply moved_trans]].
       cbn [px_world set_world listener]. rewrite close_queue. fold lfd. lia. }
  pose proof (accept_safe m0 w2 (px_map p) (sessions p) fd a (lc_conninfo (listener p)) true
    (sys_inv_world m0 _ _ _ _ (proj1 Hq) (li_sys _ Hi))) as Hsafe.
  destruct (session_create fd a _ true (mkSt w2 (px_map p) None)) as [[u st]| |] eqn:E; [|done..].
  cbn [mbind res_bind]. pose proof (accepted_moves p w2 fd a u st Hi Hq Hfd (Hfresh a eq_refl) E) as Hmv.
  destruct (IH _ (mv_inv _ _ Hmv)) as (p' & E' & Hmv'); [|by exists p'; split; [|by eapply moved_trans]].
  cbn [px_world listener]. fold lfd. rewrite (create_queue _ _ _ _ _ _ _ lfd E). cbn [st_world]. lia.
Qed.

(** ** Events *)

(** What is assumed of an event: its session is still there, and [ok] admits its callback. *)
Definition event_ok (e : handler_ref * Z) p : Prop :=
  match e.1 with
  | NullRef | ListenerRef => True
  | ClientRef a => ∃ s, heap p !! a = Some s ∧
      ok (px_world p) s (ClientReadable e.2) ∧ ok (px_world p) s (ClientWritable e.2)
  | BackendRef a => ∃ s, heap p !! a = Some s ∧ ok (px_world p) s (BackendReadable e.2)
  | ScatterRef a i => ∃ s, heap p !! a = Some s ∧ ok (px_world p) s (ScatterReadable i e.2)
  end.
Lemma dispatch_safe e p :
  loop_inv p → event_ok e p → ∃ p', dispatch pg e p = Ret p' ∧ moved p p'.
Proof.
  intros Hi He. destruct e as [r ev]. unfold dispatch, event_ok in *. cbn [fst snd] in *.
  destruct r as [| |a|a|a i]; cbn [handler_at mbind res_bind].
  - by exists p; split; [|by apply moved_refl].
  - simpl. rewrite (li_listener _ Hi). simpl. apply accept_loop_safe; [done|lia].
  - destruct He as (s & Ha & Hr & Hw). rewrite Ha. simpl.
    destruct (ho_client _ (li_handlers _ Hi a s Ha)) as [-> | ->]; simpl.
    + by eapply (on_session_safe a s (ClientReadable ev)).
    + by eapply (on_session_safe a s (ClientWritable ev)).
  - destruct He as (s & Ha & Hal). rewrite Ha. simpl.
    destruct (ho_backend _ (li_handlers _ Hi a s Ha)) as [-> | ->]; simpl; [by exists p; split; [|apply moved_refl]|].
    by eapply (on_session_safe a s (BackendReadable ev)).
  - destruct He as (s & Ha & Hal). destruct (Hok _ _ _ Hal) as (_ & sc & c & Hsc & _). rewrite Ha. simpl. rewrite Hsc. simpl.
    pose proof (ho_scatter _ (li_handlers _ Hi a s Ha)) as Hsa. rewrite Forall_lookup in Hsa.
    destruct (Hsa i sc Hsc) as [-> | ->]; simpl; [by exists p; split; [|apply moved_refl]|].
    by eapply (on_session_safe a s (ScatterReadable i ev)).
Qed.
(** Each event of a batch is in order when its turn comes. *)
Fixpoint batch_ok (l : list (handler_ref * Z)) p : Prop :=
  match l with
  | [] => True
  | e :: l => event_ok e p ∧ ∀ p', dispatch pg e p = Ret p' → batch_ok l p'
  end.
Lemma dispatch_all_safe l p :
  loop_inv p → batch_ok l p → ∃ p', dispatch_all pg l p = Ret p' ∧ moved p p'.
Proof.
  revert p. induction l as [|e l IH]; intros p Hi Hb; [by exists p; split; [|apply moved_refl]|].
  destruct Hb as [He Hb]. destruct (dispatch_safe e p Hi He) as (p1 & E & Hmv). cbn [dispatch_all]. rewrite E. simpl.
  destruct (IH p1 (mv_inv _ _ Hmv) (Hb _ E)) as (p' & -> & Hmv'). exists p'. split; [done|by eapply moved_trans].
Qed.

(** ** Timers *)
Lemma read_clock_safe p : loop_inv p → moved p (read_clock p).1 ∧ normal (read_clock p).2.
Proof.
  intros Hi. unfold read_clock. pose proof (clock_quiet (px_world p)) as Hl.
  pose proof (clock_normal (px_world p)) as Hn. destruct (clock_gettime (px_world p)) as [w t].
  split; [by apply moved_world|done].
Qed.
Lemma health_check_safe p : loop_inv p → ∃ p', on_health_check p = Ret p' ∧ moved p p'.
Proof.
  intros Hi. pose proof (health_safe m0 _ _ _ (li_sys _ Hi)) as Hsafe.
  pose proof (step_health pg ok (px_world p) (px_map p) (sessions p)) as Hst. unfold on_health_check.
  destruct (health_check_all _ _) as [[w m]| |]; [|done..]. eexists. split; [reflexivity|].
  apply moved_intro; [done| |apply Hi|done|apply Hi]. by apply rtc_once.
Qed.
Lemma process_expired_safe now tq p :
  loop_inv p → Forall (λ t, 0 ≤ interval_ms t) tq →
  ∃ tq' p', process_expired read_clock run_timer now tq p = Ret (tq', p') ∧ moved p p' ∧
    Forall (λ t, 0 ≤ interval_ms t) tq'.
Proof.
  intros Hi Ht. revert p Hi. induction Ht as [|t tq Hint Ht IH]; intros p Hi.
  { exists [], p. split_and!; [done|by apply moved_refl|constructor]. }
  cbn [process_expired].
  assert (∃ t' p', (if active t && bool_decide (timespec_diff_ms (next_fire t) now ≤ 0) then
                  p ← run_timer (timer_callback t) p;
                  let '(p, now') := read_clock p in
                  next ← timespec_add_ms now' (interval_ms t);
                  Ret (reschedule t next, p)
                else Ret (t, p)) = Ret (t', p') ∧ moved p p' ∧ 0 ≤ interval_ms t') as (t' & p1 & E & Hm1 & Hint').
  { destruct (_ && _); [|by exists t, p; split_and!; [|apply moved_refl|]].
    destruct (timer_callback t). unfold run_timer.
    destruct (health_check_safe p Hi) as (p1 & -> & Hm1). cbn [mbind res_bind].
    destruct (read_clock_safe p1 (mv_inv _ _ Hm1)) as [Hm2 Hn]. destruct (read_clock p1) as [p2 now'].
    destruct (add_ms_spec now' (interval_ms t) Hn Hint) as (next & -> & _). exists (reschedule t next), p2.
    split_and!; [done|by eapply moved_trans|done]. }
  rewrite E. cbn [mbind res_bind]. destruct (IH p1 (mv_inv _ _ Hm1)) as (tq' & p2 & -> & Hm2 & Ht2).
  cbn [mbind res_bind]. eexists _, p2. split; [reflexivity|]. split; [by eapply moved_trans|by constructor].
Qed.

(** ** Rounds *)
(** Each event of the next batch is in order. *)
Definition round_ok p : Prop :=
  let p := (timer_next_timeout_ms read_clock (timers (loop p)) p).1 in
  ∀ t w l, epoll_wait (px_world p) (epfd (loop p)) MAX_EVENTS t = (w, Events l) → batch_ok l (set_world w p).
Lemma timeout_safe p :
  loop_inv p → moved p (timer_next_timeout_ms read_clock (timers (loop p)) p).1.
Proof.
  intros Hi. unfold timer_next_timeout_ms. destruct (timers (loop p)) as [|t tq]; [by apply moved_refl|].
  destruct (read_clock_safe p Hi) as [Hm _]. by destruct (read_clock p).
Qed.
Lemma round_safe p :
  loop_inv p → round_ok p → ∃ b p', loop_round pg p = Ret (b, p') ∧ moved p p'.
Proof.
  intros Hi Hr. unfold loop_round, round_ok in *. pose proof (timeout_safe p Hi) as Hm1.
  destruct (timer_next_timeout_ms _ _ p) as [p1 timeout]. cbn [fst] in *.
  pose proof (wait_quiet (px_world p1) (epfd (loop p1)) MAX_EVENTS timeout) as Hl.
  specialize (Hr timeout). destruct (epoll_wait _ _ _ timeout) as [w r]. cbn [fst] in Hl.
  assert (moved p (set_world w p1)) as Hm2 by (eapply moved_trans; [exact Hm1|apply moved_world; [done|apply Hm1]]).
  destruct r as [l| |]; [|by eexists _, _..]. specialize (Hr w l eq_refl).
  destruct (dispatch_all_safe l _ (mv_inv _ _ Hm2) Hr) as (p2 & -> & Hm3). cbn [mbind res_bind]. unfold timer_process_expired.
  destruct (read_clock_safe p2 (mv_inv _ _ Hm3)) as [Hm4 _]. pose proof (li_timers _ (mv_inv _ _ Hm3)) as Ht.
  destruct (read_clock p2) as [p3 now]. cbn [fst] in Hm4.
  destruct (process_expired_safe now (timers (loop p2)) p3 (mv_inv _ _ Hm4) Ht) as (tq & p4 & -> & Hm5 & Ht4).
  eexists _, _. split; [reflexivity|].
  destruct (moved_trans _ _ _ (moved_trans _ _ _ (moved_trans _ _ _ Hm2 Hm3) Hm4) Hm5) as [[? ? ? ?] Hst].
  by split; [split|].
Qed.
End safety.

(** ** Claims *)
Section claims.
Context {W : Type} {PQ : LibPQ W} {Os : OS W} {K : Kernel W}.
Context {Laws : LibPQLaws W} {OLaws : OSLaws W} {KLaws : KernelLaws W}.
Context (m0 : ShardMap) (pg : bytes → option bytes) (ok : W → ClientSession → callback_of → Prop).
Implicit Types (p : Proxy W).

Lemma signal_safe p : loop_inv m0 p → moved m0 pg ok p (take_signal p).
Proof. intros Hi. unfold take_signal. destruct (signalled _); [|by apply moved_refl]. by split; [destruct Hi|]. Qed.
(** A round after which the loop goes on, with events that [ok] admits. *)
Definition round_step p p' : Prop :=
  running (loop (take_signal p)) = true ∧ round_ok pg ok (take_signal p) ∧
  loop_round pg (take_signal p) = Ret (false, p').

Lemma rounds_safe p q :
  prints_trees pg → map_wf m0 → columns_set m0 → (∀ w s e, ok w s e → allowed w s e) →
  loop_inv m0 p → rtc round_step p q → moved m0 pg ok p q.
Proof.
  intros Hpg Hm Hcol Hok' Hi Hr. induction Hr as [p|p p1 q (_ & Hok & E) _ IH]; [by apply moved_refl|].
  pose proof (signal_safe p Hi) as Hm1.
  destruct (round_safe m0 pg Hpg Hm Hcol ok Hok' (take_signal p)) as (b' & p' & E' & Hm2); [apply Hm1|done|].
  rewrite E in E'. injection E' as <- <-. eapply moved_trans; [exact Hm1|].
  eapply moved_trans; [exact Hm2|apply IH, Hm2].
Qed.
(** C5: The event loop implements the abstract system, on the events that [ok] admits.  Take a
    round in which the session of each event is still there when its turn comes and [ok],
    which is at least as strict as [allowed] (see C4), admits its callback, and let every
    table that is not broadcast have a shard column.  The round, with its timers, its batch
    of events, the callbacks that the handlers name, the new clients and the health checks,
    returns, keeps the invariant of the loop, and is a sequence of steps of [System]: so
    what is proved of every run of that system holds of the loop.  C39 shows a batch in
    which a session is not there any more. *)
Theorem loop_refines_system p :
  prints_trees pg → map_wf m0 → columns_set m0 → (∀ w s e, ok w s e → allowed w s e) →
  loop_inv m0 p → round_ok pg ok (take_signal p) →
  ∃ b p', loop_round pg (take_signal p) = Ret (b, p') ∧ loop_inv m0 p' ∧ rtc (step pg ok) (view p) (view p').
Proof.
  intros Hpg Hm Hcol Hall Hi Hok. pose proof (signal_safe p Hi) as Hm1.
  destruct (round_safe m0 pg Hpg Hm Hcol ok Hall _ (mv_inv _ _ _ _ _ Hm1) Hok) as (b & p' & E & Hm2).
  exists b, p'. split; [done|]. by destruct (moved_trans _ _ _ _ _ _ Hm1 Hm2).
Qed.
(** What is [orderly] is [allowed]. *)
Lemma batch_allowed l p : batch_ok pg orderly l p → batch_ok pg allowed l p.
Proof.
  revert p. induction l as [|e l IH]; intros p; [done|]. intros [He Hl]. split; [|by intros p' E; apply IH, Hl].
  unfold event_ok in *. destruct e.1; try done.
  - destruct He as (s & Ha & [Hr _] & [Hw _]). by exists s.
  - destruct He as (s & Ha & [Hb _]). by exists s.
  - destruct He as (s & Ha & [Hs _]). by exists s.
Qed.
(** The loop runs through the rounds. *)
Lemma loop_while_rounds n k p q :
  nsteps round_step n p q → loop_while pg (n + k) p = loop_while pg k q.
Proof.
  induction 1 as [p|n p p1 q (Hr & _ & E) _ IH]; [done|]. simpl. by rewrite Hr, E.
Qed.

Lemma error_destroys s cb p a e :
  loop_inv m0 p → heap p !! a = Some s → has_error e = true → fits_memory s →
  cb = session_on_client_readable_cb ∨ cb = session_on_client_writable_cb →
  ∃ p', call pg cb (ClientRef a) e p = Ret p' ∧ heap p' = delete a (heap p).
Proof.
  intros [Hs _ _ _] Ha He Hfit Hcb. set (l := (map_to_list (delete a (heap p))).*2).
  apply (sys_inv_perm m0 _ _ _ (s :: l)) in Hs; [|by apply sessions_split].
  destruct (inv_queue m0 _ _ [] s l Hs) as [lo Hlo].
  destruct (inv_live m0 _ _ [] s l lo Hs Hfit Hlo) as (li & Hlv & _).
  destruct (wp_total session_destroy (λ _ st, st_session st = None)
    (mkSt (px_world p) (px_map p) (Some s))) as (u & st & E & Hn).
  { eapply wp_destroy_gone; [exact Hlv|]. by intros st' [? _]. }
  eexists (mkProxy (st_world st) (st_map st) (delete a (heap p)) (loop p) (listener p)).
  split; [|done].
  destruct Hcb as [-> | ->]; cbn [call]; unfold on_session; rewrite Ha; cbn [deref_opt mbind res_bind];
    [unfold session_on_client_readable|unfold session_on_client_writable];
    rewrite He, E; cbn [mbind res_bind]; by rewrite Hn.
Qed.
(** C39: A batch of events can use a freed session: if epoll reports an error or hangup on
    a client's socket together with an event on the backend connection of the same
    session, in this order, the first callback frees the session, and the loop then reads
    the second handler from the freed memory. *)
Theorem batch_uses_freed_session p a s e1 e2 l :
  loop_inv m0 p → heap p !! a = Some s → fits_memory s → has_error e1 = true →
  dispatch_all pg ((ClientRef a, e1) :: (BackendRef a, e2) :: l) p = Ub.
Proof.
  intros Hi Ha Hfit He. pose proof (ho_client _ (li_handlers _ _ Hi a s Ha)) as Hcb.
  assert (∃ cb, ev_callback (ev_handler s) = Some cb ∧
    (cb = session_on_client_readable_cb ∨ cb = session_on_client_writable_cb)) as (cb & E & Hcb').
  { destruct Hcb as [-> | ->]; eauto. }
  destruct (error_destroys s cb p a e1 Hi Ha He Hfit Hcb') as (p' & Ec & Hh).
  assert (dispatch pg (ClientRef a, e1) p = Ret p') as Ed.
  { unfold dispatch. cbn [fst snd handler_at]. rewrite Ha. simpl. by rewrite E, Ec. }
  cbn [dispatch_all]. rewrite Ed. cbn [mbind res_bind]. unfold dispatch. cbn [fst handler_at].
  by rewrite Hh, lookup_delete_eq.
Qed.
(** A signal ends the loop before its next round. *)
Lemma signal_stops fuel p :
  signalled (px_world p) = true → loop_while pg (S fuel) p = Ret (set_loop (event_loop_stop (loop p)) p).
Proof. intros Hs. cbn [loop_while]. unfold take_signal. by rewrite Hs. Qed.
End claims.

Lemma rounds_allowed {W} {PQ : LibPQ W} {Os : OS W} {K : Kernel W} pg n (p q : Proxy W) :
  nsteps (round_step pg orderly) n p q → nsteps (round_step pg allowed) n p q.
Proof.
  induction 1 as [p|n p p1 q (Hrun & Hok & E) _ IH]; [constructor|]. eapply nsteps_l; [|exact IH].
  split_and!; [done| |done]. intros t w l El. by apply batch_allowed, (Hok t w l).
Qed.

(** ** A simulated kernel *)

(** A [RecvError] in the input is a client that connects; before other input the client
    at address 100 is readable; the end of the input is a signal. *)
Fixpoint sim_waiting (l : list recv_result) : nat :=
  match l with RecvError :: l => S (sim_waiting l) | _ => 0 end.
Definition sim_set_input (w : SimWorld) (l : list recv_result) : SimWorld :=
  mkSimWorld (sim_conns w) (sim_up w) (sim_results_for w) l (sim_blocked w) (sim_sent w) (sim_log w).
#[export] Instance SimKernel : Kernel SimWorld := {|
  epoll_create1 w := (w, 3);
  epoll_wait w fd n t :=
    (w, match sim_input w with
        | [] => Interrupted
        | RecvError :: _ => Events [(ListenerRef, EPOLLIN)]
        | _ => Events [(ClientRef 100, EPOLLIN)]
        end);
  accept4 w fd x :=
    match sim_input w with
    | RecvError :: l => (sim_set_input w l, Accepted (if decide (7 ∈ x) then fresh x else 7))
    | _ => (w, AcceptAgain)
    end;
  accept_queue w fd := sim_waiting (sim_input w);
  set_nodelay w fd := w;
  calloc_session w x := (w, Some (if decide (100 ∈ x) then fresh x else 100));
  clock_gettime w := (w, mkTimespec 5 0);
  signalled w := match sim_input w with [] => true | _ => false end;
|}.
#[export] Instance SimKernel_laws : KernelLaws SimWorld.
Proof.
  split; try done.
  - intros w fd x. simpl. by destruct (sim_input w) as [|[] l].
  - intros w x a. cbn. intros [= <-]. destruct (decide (100 ∈ x)); [apply is_fresh|done].
  - intros w fd x c. cbn. destruct (sim_input w) as [|[] l]; cbn; try done. intros [= <-].
    destruct (decide (7 ∈ x)); [apply is_fresh|done].
  - intros w fd x c. simpl. destruct (sim_input w) as [|[] l]; simpl; [done..|]. lia.
Qed.
Definition sample_served : ClientSession :=
  fresh_session 7 (mkEventHandler 7 EPOLLIN (Some session_on_client_readable_cb)) 4242 0
    (Some (bs "host=d")) true.
Definition sample_proxy : Proxy SimWorld :=
  mkProxy sample_input sample_start {[100 := sample_served]} (mkEventLoop 3 true [])
    (mkListenerCtx (mkEventHandler 4 EPOLLIN (Some on_accept_cb)) (bs "host=d")).
Lemma sample_proxy_inv : loop_inv sample_start sample_proxy.
Proof.
  assert (resources sample_input (shards sample_start) [] []) as Hr by (by eapply resources_frame; [exact sample_start_resources|]).
  pose proof (fresh_live sample_start [] [] sample_input sample_start 7
    (mkEventHandler 7 EPOLLIN (Some session_on_client_readable_cb)) 4242 0 (Some (bs "host=d")) true
    (reflexivity _) Hr) as Hlv.
  split; [|..].
  - change (sessions sample_proxy) with [sample_served].
    eapply (live_ok sample_start sample_input sample_start [] sample_served []); [constructor|exact Hlv|].
    split; [apply recvbuf_init_holds|by eexists|intros _; apply fresh_free|done|done].
  - intros a s Ha. cbn [heap sample_proxy] in Ha. apply lookup_singleton_Some in Ha as [_ <-].
    split; [by left|by left|exact fresh_entries].
  - done.
  - constructor.
Qed.
Lemma batch_uses_freed_session_witness :
  dispatch_all sample_pg [(ClientRef 100, EPOLLHUP); (BackendRef 100, EPOLLIN)] sample_proxy = Ub.
Proof.
  apply (batch_uses_freed_session sample_start sample_pg sample_proxy 100 sample_served EPOLLHUP EPOLLIN []);
    [exact sample_proxy_inv|reflexivity|split; done|reflexivity].
Defined.

(** A round that goes on, and what is to be checked before it. *)
Definition sample_turn (p : Proxy SimWorld) : option (Proxy SimWorld) :=
  match loop_round sample_pg p with Ret (false, q) => Some q | _ => None end.
Definition sample_next_main (p : Proxy SimWorld) : Proxy SimWorld := default p (sample_turn p).
Definition sample_can (p : Proxy SimWorld) : bool :=
  running (loop p) && match sample_turn p with Some _ => true | None => false end &&
  match sim_input (px_world p), heap p !! 100 with
  | RecvError :: _, _ => true
  | Received d :: _, Some s =>
    bool_decide (rb_len (recv_buf s) = 0) && bool_decide (buf_len (send_buf s) ≤ 4096) &&
    (input_ok (length d) (state s) d &&
     forallb (λ k, input_ok (length (take k d)) (state s) (take k d)) (seq 0 (length d)))
  | _, _ => false
  end.
Lemma sample_world_input (p : Proxy SimWorld) (tq : TimerQueue timer_cb) :
  (timer_next_timeout_ms read_clock tq p).1 = p.
Proof. by destruct tq, p. Qed.
Lemma sample_round_step p : sample_can p = true → round_step sample_pg orderly p (sample_next_main p).
Proof.
  unfold sample_can, sample_next_main. intros [[Hrun Ht]%andb_prop Hin]%andb_prop.
  assert (take_signal p = p) as Hts.
  { unfold take_signal. simpl. by destruct (sim_input (px_world p)). }
  split; [by rewrite Hts|]. rewrite Hts. split.
  2: { unfold sample_turn in *. by destruct (loop_round sample_pg p) as [[[] q]| |]. }
  unfold round_ok. rewrite sample_world_input. intros t w l. simpl.
  destruct (sim_input (px_world p)) as [|[d| |] inp] eqn:Ei; try done; intros [= <- <-]; (split; [|done]).
  2: done.
  destruct (heap p !! 100) as [s|] eqn:Es; [|done].
  apply andb_prop in Hin as [[Hrb Hsb]%andb_prop [H1 H2]%andb_prop].
  apply bool_decide_eq_true in Hrb, Hsb. exists s. cbn [fst snd heap set_world px_world].
  assert (fits_memory s) as Hfit by (split; lia). split; [done|].
  split; (split; [split; [exact Hfit|]|]); try done. intros l' k d' Hh. rewrite (rh_len _ _ Hh) in Hrb.
  assert (l' = []) as -> by (destruct l'; [done|simpl in Hrb; lia]).
  cbn. rewrite Ei. intros [= <-]. by apply prefixes_ok.
Qed.
Lemma loop_refines_system_witness :
  ∃ b p', loop_round sample_pg (take_signal sample_proxy) = Ret (b, p') ∧
    rtc (step sample_pg orderly) (view sample_proxy) (view p') ∧ sock_sent (px_world p') 7 ≠ [].
Proof.
  destruct (sample_round_step sample_proxy) as (_ & Hok & _); [vm_compute; reflexivity|].
  assert (match loop_round sample_pg (take_signal sample_proxy) with
          | Ret (_, p') => sock_sent (px_world p') 7 ≠ [] | _ => False end) as Hs by (vm_compute; discriminate).
  destruct (loop_refines_system sample_start sample_pg orderly sample_proxy sample_pg_prints sample_start_wf
    sample_start_columns (λ _ _ _ Ho, proj1 Ho) sample_proxy_inv Hok) as (b & p' & E & _ & Hst).
  rewrite E in Hs. exists b, p'. split; [exact E|]. split; [exact Hst|exact Hs].
Defined.
