(* ===== verification/Main.v ===== *)
(** * The program ([src/src/main.c])

    The command line, the configuration, the listening socket, the event loop and the
    clean-up.  [getopt], [snprintf], [htons] and [inet_pton] are modelled; the calls that
    reach the system are the interface [Host].  [main_start] is [main] up to the call of
    [event_loop_run], [main_end] what follows it. *)
From S2P Require Import Prelude PgTree PgPrint PgQuery Memory LibPQ Pool ShardMap Resources Parser Router Keys Sql Log Config ConfigText.
From S2P Require Import Message Event Session Wp SessionSpec Backend Wire BackendSpec ScatterSpec Frontend.
From S2P Require Import FrontendSpec Handlers QuerySpec Talk Input ProcessSpec System Lifetime Timer Loop.
#[local] Set Warnings "-clear-no-such-hyp".
#[local] Open Scope Z_scope.

(** ** The command line *)

(** What [getopt(argc, argv, "c:d:l:b:Dh")] returns, in order: an option with its
    argument, an option without one, or ['?'] for an option that is not known or lacks
    its argument. *)
Inductive getopt_result : Type :=
| WithArg (c : byte) (optarg : bytes)
| Flag (c : byte)
| Unknown (c : byte)
| Missing (c : byte).
Definition takes_arg (c : byte) : bool := bool_decide (c ∈ bs "cdlb").
Definition is_flag (c : byte) : bool := bool_decide (c ∈ bs "Dh").
(** The letters after a dash; the second part is the option that takes the next argument. *)
Fixpoint cluster (s : bytes) : list getopt_result * option byte :=
  match s with
  | [] => ([], None)
  | c :: s =>
    if takes_arg c then match s with [] => ([], Some c) | _ => ([WithArg c s], None) end
    else
      let '(l, next) := cluster s in
      ((if is_flag c then Flag c else Unknown c) :: l, next)
  end.
(** Arguments that are not options are passed over; [--] ends the options. *)
Fixpoint getopt_all (args : list bytes) : list getopt_result :=
  match args with
  | [] => []
  | a :: args =>
    match a with
    | "-"%byte :: _ :: _ =>
      if decide (a = bs "--") then []
      else
        let '(l, next) := cluster (tail a) in
        match next, args with
        | None, _ => l ++ getopt_all args
        | Some c, v :: args => l ++ WithArg c v :: getopt_all args
        | Some c, [] => l ++ [Missing c]
        end
    | _ => getopt_all args
    end
  end.

(** The local variables of [main]. *)
Record options : Type := mkOptions {
  config_file : option bytes;
  basedir : option bytes;
  cli_backend : option bytes;
  cli_port : Z;
  debug : bool;
}.
Definition no_options : options := mkOptions None None None 0 false.
Definition with_arg (c : byte) (optarg : bytes) (o : options) : options :=
  if decide (c = "c"%byte) then mkOptions (Some optarg) (basedir o) (cli_backend o) (cli_port o) (debug o)
  else if decide (c = "d"%byte) then mkOptions (config_file o) (Some optarg) (cli_backend o) (cli_port o) (debug o)
  else if decide (c = "l"%byte) then mkOptions (config_file o) (basedir o) (cli_backend o) (atoi optarg) (debug o)
  else mkOptions (config_file o) (basedir o) (Some optarg) (cli_port o) (debug o).
Definition with_debug (o : options) : options :=
  mkOptions (config_file o) (basedir o) (cli_backend o) (cli_port o) true.

Definition line_of (s : bytes) : bytes := s ++ [NEWLINE].
Definition print_usage (prog : bytes) : bytes :=
  concat (line_of <$> [
    bs "Usage: " ++ prog ++ bs " [-d basedir] [-c config_file] [-l port] [-b conninfo]";
    [];
    bs "Options:";
    bs "  -d DIR     Base directory (loads DIR/sharegres.cnf)";
    bs "  -c FILE    Configuration file path (overrides -d)";
    bs "  -l PORT    Listen port (default: 15432)";
    bs "  -b CONN    Backend connection info";
    bs "  -D         Debug log level";
    bs "  -h         Show this help";
    [];
    bs "Examples:";
    bs "  " ++ prog ++ bs " -d ./conf";
    bs "  " ++ prog ++ bs " -c /etc/sharegres/sharegres.cnf";
    bs "  " ++ prog ++ bs " -l 15432 -b " ++ [QUOTE] ++ bs "host=127.0.0.1 port=5432 dbname=postgres" ++ [QUOTE]
  ]).
(** The [while] loop: the options, or what is written before [main] returns its code. *)
Fixpoint read_options (prog : bytes) (l : list getopt_result) (o : options) : bytes * Z + options :=
  match l with
  | [] => inr o
  | WithArg c v :: l => read_options prog l (with_arg c v o)
  | Flag c :: l =>
    if decide (c = "D"%byte) then read_options prog l (with_debug o) else inl (print_usage prog, 0)
  | Unknown c :: _ =>
    inl (line_of (prog ++ bs ": invalid option -- '" ++ [c] ++ bs "'") ++ print_usage prog, 1)
  | Missing c :: _ =>
    inl (line_of (prog ++ bs ": option requires an argument -- '" ++ [c] ++ bs "'") ++ print_usage prog, 1)
  end.

(** [snprintf] into [config_path] cuts what does not fit. *)
Definition config_path (o : options) : bytes :=
  take 1023 match config_file o, basedir o with
            | Some f, _ => f
            | None, Some d => d ++ bs "/sharegres.cnf"
            | None, None => []
            end.
Definition override (o : options) (c : ShagresCfg) : ShagresCfg :=
  mkCfg (listen_addr c)
    (if decide (0 < cli_port o) then cli_port o else listen_port c)
    (max_clients c)
    (if debug o then LOG_DEBUG else log_level c)
    (auth_method c) (default_pool_size c) (max_pool_size c) (idle_timeout c)
    (match cli_backend o with Some s => s | None => Config.backend_conninfo c end)
    (shard_map c).

(** ** Addresses *)
Definition htons (port : Z) : Z := uwrap 16 port.
(** [inet_pton(AF_INET, ...)]: [n] numbers have been started, [cur] is the current one,
    [acc] the address of those before it, [saw] whether a digit of [cur] was read. *)
Fixpoint inet_pton4 (s : bytes) (saw : bool) (n : nat) (cur acc : Z) : option Z :=
  match s with
  | [] => if decide (n < 4)%nat then None else Some (acc * 256 + cur)
  | c :: s =>
    if isdigit c then
      let new := cur * 10 + (byte_Z c - 48) in
      if saw && bool_decide (cur = 0) then None
      else if decide (255 < new) then None
      else if saw then inet_pton4 s true n new acc
      else if decide (4 < S n)%nat then None
      else inet_pton4 s true (S n) new acc
    else if bool_decide (c = "."%byte) && saw then
      if decide (n = 4)%nat then None else inet_pton4 s false n 0 (acc * 256 + cur)
    else None
  end.
Definition inet_pton (s : bytes) : option Z := inet_pton4 s false 0 0 0.
(** [sin_addr] is zero before the call, whose result is not looked at. *)
Definition sin_addr (addr : bytes) : Z := match inet_pton addr with Some a => a | None => 0 end.
(** A listen address that is not a dotted quad, such as a host name, means every address. *)
Lemma inet_pton4_bad s saw n cur acc :
  Exists (λ c, isdigit c = false ∧ c ≠ "."%byte) s → inet_pton4 s saw n cur acc = None.
Proof.
  revert saw n cur acc. induction s as [|c s IH]; intros saw n cur acc Hex; [by inversion Hex|].
  simpl. apply Exists_cons in Hex as [[Hc Hd]|Hex].
  - by rewrite Hc, bool_decide_false.
  - repeat case_match; auto.
Qed.
Lemma sin_addr_bad s : Exists (λ c, isdigit c = false ∧ c ≠ "."%byte) s → sin_addr s = 0.
Proof. intros Hs. unfold sin_addr, inet_pton. by rewrite inet_pton4_bad. Qed.

(** ** The system *)
Inductive signal_no : Type := SIGINT | SIGTERM | SIGPIPE.
Inductive disposition : Type := on_signal_handler | SIG_IGN.
Class Host (W : Type) : Type := {
  stderr_write : W → bytes → W;
  localtime : W → tm;
  strerror : W → bytes;                   (* of errno *)
  read_file : W → bytes → W * option bytes;
  socket : W → W * Z;
  set_reuse : W → Z → W;                  (* SO_REUSEADDR, SO_REUSEPORT *)
  bind : W → Z → Z → Z → W * bool;        (* address and port *)
  listen : W → Z → Z → W * bool;
  signal : W → signal_no → disposition → W;
}.
(** None of this touches libpq. *)
Class HostLaws (W : Type) `{LibPQ W} `{Host W} : Prop := {
  stderr_live w s : pq_live (stderr_write w s) = pq_live w;
  file_live w f : pq_live (read_file w f).1 = pq_live w;
  socket_live w : pq_live (socket w).1 = pq_live w;
  reuse_live w fd : pq_live (set_reuse w fd) = pq_live w;
  bind_live w fd a p : pq_live (bind w fd a p).1 = pq_live w;
  listen_live w fd n : pq_live (listen w fd n).1 = pq_live w;
  signal_live w s d : pq_live (signal w s d) = pq_live w;
}.

(** ** [main] *)
Inductive started (W : Type) : Type :=
| Exited (w : W) (code : Z)
| Serving (cfg : ShagresCfg) (p : Proxy W).
Arguments Exited {W}.
Arguments Serving {W}.

Section main.
Context {W : Type} {PQ : LibPQ W} {Os : OS W} {K : Kernel W} {Ho : Host W}.
Context (pg : bytes → option bytes).
Implicit Types (w : W) (p : Proxy W) (g : LogLevel).

Definition log_at w g level (line : Z) (msg : bytes) : W * bool :=
  let '(out, exits) := log_msg g (localtime w) level (bs "src/main.c") line msg in
  (stderr_write w out, exits).
Definition log_info w g (line : Z) (msg : bytes) : W := (log_at w g LOG_INFO line msg).1.

(** [inl]: the process has ended with this code. *)
Definition create_listener w g (addr : bytes) (port : Z) : W * (Z + Z) :=
  let '(w, fd) := socket w in
  if decide (fd < 0) then
    let '(w, exits) := log_at w g LOG_FATAL 46 (bs "socket() failed: " ++ strerror w) in
    (w, if exits : bool then inl 1 else inr (-1))
  else
    let w := set_reuse w fd in
    let '(w, ok) := bind w fd (sin_addr addr) (htons port) in
    if negb ok then
      let '(w, exits) := log_at w g LOG_FATAL 61
        (bs "bind(" ++ addr ++ bs ":" ++ dec port ++ bs ") failed: " ++ strerror w) in
      if exits : bool then (w, inl 1) else (sock_close w fd, inr (-1))
    else
      let '(w, ok) := listen w fd 128 in
      if negb ok then
        let '(w, exits) := log_at w g LOG_FATAL 67 (bs "listen() failed: " ++ strerror w) in
        if exits : bool then (w, inl 1) else (sock_close w fd, inr (-1))
      else (w, inr fd).

(** The command line and the configuration: [inl] is the exit code. *)
Definition main_config (prog : bytes) (args : list bytes) w : W * (Z + ShagresCfg) :=
  match read_options prog (getopt_all args) no_options with
  | inl (out, code) => (stderr_write w out, inl code)
  | inr o =>
    let path := config_path o in
    let '(w, cfg) :=
      if decide (path = []) then (w, Some config_default)
      else let '(w, file) := read_file w path in (w, config_load file) in
    match cfg with
    | None => (stderr_write w (line_of (bs "failed to load configuration")), inl 1)
    | Some cfg => (w, inr (override o cfg))
    end
  end.
Definition init_map w g (cfg : ShagresCfg) : res (W * ShardMap) :=
  let m := shard_map cfg in
  if decide (length (shards m) = 0%nat) then Ret (w, m)
  else
    m ← shard_map_init m;
    Ret (log_info w g 202 (bs "  shards: " ++ dec (Z.of_nat (length (shards m))) ++ bs ", table rules: " ++
           dec (Z.of_nat (length (table_rules m)))), m).
Definition install_signals w : W :=
  signal (signal (signal w SIGINT on_signal_handler) SIGTERM on_signal_handler) SIGPIPE SIG_IGN.
(** The listener and the timer; [g_cfg] is set, the loop is initialised. *)
Definition serve w g (cfg : ShagresCfg) (m : ShardMap) (l : EventLoop) (fd : Z) : res (started W) :=
  let ev := mkEventHandler fd 0 (Some on_accept_cb) in
  let '(w, (ev, _)) := event_loop_add w ev EPOLLIN in
  let w := log_info w g 230 (bs "Sharegres listening on " ++ listen_addr cfg ++ bs ":" ++ dec (listen_port cfg)) in
  let p := mkProxy w m ∅ l (mkListenerCtx ev (Config.backend_conninfo cfg)) in
  if decide (length (shards m) = 0%nat) then Ret (Serving cfg p)
  else
    '(tq, p, _) ← timer_add read_clock (timers l) 30000 on_health_check_cb p;
    let w := log_info (px_world p) g 236 (bs "health check timer registered (30s interval)") in
    Ret (Serving cfg (set_world w (set_loop (set_timers tq (loop p)) p))).
Definition main_start (prog : bytes) (args : list bytes) w : res (started W) :=
  let '(w, r) := main_config prog args w in
  match r with
  | inl code => Ret (Exited w code)
  | inr cfg =>
    let g := log_init (log_level cfg) in
    let w := log_info w g 195 (bs "Sharegres starting") in
    let w := log_info w g 196 (bs "  listen: " ++ listen_addr cfg ++ bs ":" ++ dec (listen_port cfg)) in
    let w := log_info w g 197 (bs "  backend: " ++ Config.backend_conninfo cfg) in
    '(w, m) ← init_map w g cfg;
    let w := install_signals w in
    let '(w, (l, rc)) := event_loop_init w in
    if decide (rc < 0) then Ret (Exited w 1)
    else
      let '(w, r) := create_listener w g (listen_addr cfg) (listen_port cfg) in
      match r with
      | inl code => Ret (Exited w code)
      | inr fd => if decide (fd < 0) then Ret (Exited w 1) else serve w g cfg m l fd
      end
  end.
(** What is left in memory belongs to the sessions, which are not freed. *)
Definition main_end (cfg : ShagresCfg) p : res W :=
  let w := sock_close (px_world p) (ev_fd (lc_ev (listener p))) in
  let '(w, _) := event_loop_destroy w (loop p) in
  w ← config_free w (Some (set_map (px_map p) cfg));
  Ret (log_info w (log_level cfg) 247 (bs "Sharegres stopped")).
Definition main (fuel : nat) (prog : bytes) (args : list bytes) w : res (W * Z) :=
  r ← main_start prog args w;
  match r with
  | Exited w code => Ret (w, code)
  | Serving cfg p =>
    p ← event_loop_run pg fuel p;
    w ← main_end cfg p;
    Ret (w, 0)
  end.
End main.

(** ** The start *)
Section start.
Context {W : Type} {PQ : LibPQ W} {Os : OS W} {K : Kernel W} {Ho : Host W}.
Context {Laws : LibPQLaws W} {OLaws : OSLaws W} {KLaws : KernelLaws W} {HLaws : HostLaws W}.
Implicit Types (w : W) (p : Proxy W) (g : LogLevel).

Lemma log_at_live w g level line msg : pq_live (log_at w g level line msg).1 = pq_live w.
Proof. unfold log_at. destruct (log_msg _ _ _ _ _ _). apply stderr_live. Qed.
Lemma log_at_fatal w g line msg :
  ∃ w', log_at w g LOG_FATAL line msg = (w', true) ∧ pq_live w' = pq_live w.
Proof.
  pose proof (log_at_live w g LOG_FATAL line msg) as Hl. unfold log_at in *.
  pose proof (log_fatal_exits g (localtime w) (bs "src/main.c") line msg) as He.
  destruct (log_msg _ _ _ _ _ _) as [out e]. simpl in He. subst e. by eexists.
Qed.
Lemma close_live w fd : pq_live (sock_close w fd) = pq_live w.
Proof. apply quiet_close. Qed.

(** The program does not go on without a listening socket. *)
Lemma create_listener_spec w g addr port :
  ∃ w' r, create_listener w g addr port = (w', r) ∧ pq_live w' = pq_live w ∧
    (r = inl 1 ∨ ∃ fd, r = inr fd ∧ 0 ≤ fd ∧
      ∃ w1 w2, bind w1 fd (sin_addr addr) (htons port) = (w2, true) ∧ listen w2 fd 128 = (w', true)).
Proof.
  unfold create_listener. pose proof (socket_live w) as H1. destruct (socket w) as [w1 fd]. cbn [fst] in H1.
  case_decide as Hfd.
  { destruct (log_at_fatal w1 g 46 (bs "socket() failed: " ++ strerror w1)) as (w2 & -> & Hl).
    eexists _, _. split; [reflexivity|]. split; [congruence|by left]. }
  pose proof (bind_live (set_reuse w1 fd) fd (sin_addr addr) (htons port)) as H2. rewrite reuse_live, H1 in H2.
  destruct (bind _ _ _ _) as [w2 ok] eqn:Eb. cbn [fst] in H2. destruct ok; cbn [negb].
  2: { match goal with |- context [log_at w2 g LOG_FATAL 61 ?m] =>
         destruct (log_at_fatal w2 g 61 m) as (w3 & -> & Hl) end.
       eexists _, _. split; [reflexivity|]. split; [congruence|by left]. }
  pose proof (listen_live w2 fd 128) as H3. rewrite H2 in H3.
  destruct (listen w2 fd 128) as [w3 ok] eqn:El. cbn [fst] in H3. destruct ok; cbn [negb].
  - eexists _, _. split; [reflexivity|]. split; [done|]. right. exists fd. split_and!; [done|lia|by eexists _, _].
  - match goal with |- context [log_at w3 g LOG_FATAL 67 ?m] =>
      destruct (log_at_fatal w3 g 67 m) as (w4 & -> & Hl) end.
    eexists _, _. split; [reflexivity|]. split; [congruence|by left].
Qed.

Lemma main_config_spec prog args w :
  ∃ w' r, main_config prog args w = (w', r) ∧ pq_live w' = pq_live w ∧
    match r with inl code => code = 0 ∨ code = 1 | inr cfg => map_wf (shard_map cfg) end.
Proof.
  unfold main_config. destruct (read_options _ _ _) as [[out code]|o] eqn:Eo.
  { eexists _, _. split; [reflexivity|]. split; [apply stderr_live|]. revert Eo. generalize no_options.
    induction (getopt_all args) as [|[c v|c|c|c] l IH]; intros o; simpl; [done|by apply IH| | |].
    - case_decide; [by apply IH|]. intros [= _ <-]. by left.
    - intros [= _ <-]. by right.
    - intros [= _ <-]. by right. }
  case_decide.
  { eexists _, _. split; [reflexivity|]. split; [done|]. constructor. }
  pose proof (file_live w (config_path o)) as Hl. destruct (read_file _ _) as [w1 file]. cbn [fst] in Hl.
  destruct file as [f|]; cbn [config_load mbind option_bind].
  - eexists _, _. split; [reflexivity|]. split; [done|]. apply (build_map_wf _ (tmp_shards (load_file f))).
    rewrite <- (length_fmap shard_name). apply (load_file_ok f).
  - eexists _, _. split; [reflexivity|]. split; [by rewrite stderr_live|by right].
Qed.

Lemma init_pools_conninfo l size l' :
  init_pools l size = Ret l' → Forall (λ s, is_Some (shard_conninfo s)) l.
Proof.
  revert l'. induction l as [|s l IH]; intros l' E; [constructor|]. simpl in E. unfold conn_pool_init in E.
  destruct (shard_conninfo s) as [ci|] eqn:Es; [|done]. cbn [deref_opt mbind res_bind] in E.
  destruct (init_pools l size) as [l1| |]; [|done..]. constructor; [by rewrite Es|by eapply IH].
Qed.
Lemma init_pools_fails l size :
  init_pools l size = Hang ∨ init_pools l size = Ub →
  init_pools l size = Ub ∧ Exists (λ s, shard_conninfo s = None) l.
Proof.
  induction l as [|s l IH]; intros E; [by destruct E|]. simpl in *. unfold conn_pool_init in *.
  destruct (shard_conninfo s) as [ci|] eqn:Es; [|by split; [|left]]. cbn [deref_opt mbind res_bind] in *.
  destruct (init_pools l size) as [l1| |]; [by destruct E|..]; (destruct IH as [? ?]; [auto|]);
    (split; [done|by right]).
Qed.
(** The map the loop starts with. *)
Lemma init_map_spec w g cfg :
  match init_map w g cfg with
  | Ret (w', m) => pq_live w' = pq_live w ∧ (pq_live w = ∅ → sys_inv (shard_map cfg) (Running w' m []))
  | Ub => Exists (λ s, shard_conninfo s = None) (shards (shard_map cfg))
  | Hang => False
  end.
Proof.
  unfold init_map. case_decide as Hn.
  - split; [done|]. intros Hw. apply init_safe; [..|done]; apply nil_length_inv in Hn; [by rewrite Hn|].
    unfold shard_map_init. rewrite Hn. simpl. rewrite <- Hn. by destruct (shard_map cfg).
  - destruct (shard_map_init (shard_map cfg)) as [m| |] eqn:E; cbn [mbind res_bind]; pose proof E as E';
      unfold shard_map_init in E';
      destruct (init_pools (shards (shard_map cfg)) (pool_size (shard_map cfg))) as [l| |] eqn:El; try done.
    + split; [apply log_at_live|]. intros Hw. apply init_safe; [by eapply init_pools_conninfo|done|].
      unfold log_info. by rewrite log_at_live.
    + apply (init_pools_fails _ (pool_size (shard_map cfg))). by right.
    + destruct (init_pools_fails (shards (shard_map cfg)) (pool_size (shard_map cfg))) as [Hu _]; [by left|].
      by rewrite El in Hu.
Qed.

Lemma serve_spec w g cfg m l fd :
  sys_inv (shard_map cfg) (Running w m []) → timers l = [] →
  ∃ p, serve w g cfg m l fd = Ret (Serving cfg p) ∧ loop_inv (shard_map cfg) p ∧ heap p = ∅ ∧
    pq_live (px_world p) = pq_live w.
Proof.
  intros Hs Ht. unfold serve, event_loop_add.
  pose proof (proj1 (quiet_epoll w EPOLL_CTL_ADD fd EPOLLIN)) as Hl.
  cbn [set_events ev_fd]. destruct (epoll_ctl w EPOLL_CTL_ADD fd EPOLLIN) as [w1 ok]. cbn [fst] in Hl.
  match goal with |- context [mkProxy ?w2 m ∅ l ?lc] => set (p := mkProxy w2 m ∅ l lc) end.
  assert (loop_inv (shard_map cfg) p) as Hi.
  { split; [|done|done|subst p; cbn [loop]; rewrite Ht; constructor].
    eapply sys_inv_world; [|exact Hs]. cbn [px_world p]. unfold log_info. by rewrite log_at_live. }
  assert (pq_live (px_world p) = pq_live w) as Hlp.
  { cbn [px_world p]. unfold log_info. by rewrite log_at_live. }
  case_decide; [by exists p|]. unfold timer_add. rewrite Ht. rewrite decide_False by (unfold MAX_TIMERS; simpl; lia).
  unfold read_clock. pose proof (clock_normal (px_world p)) as Hn.
  pose proof (loop_inv_world _ _ _ (proj1 (clock_quiet (px_world p))) Hi) as Hi1.
  pose proof (proj1 (clock_quiet (px_world p))) as Hlc. rewrite Hlp in Hlc. destruct (clock_gettime (px_world p)) as [w3 now]. cbn [fst snd] in *.
  destruct (add_ms_spec now 30000 Hn) as (next & -> & _); [lia|]. cbn [mbind res_bind].
  eexists. split; [reflexivity|]. split; [|split; [done|cbn [px_world set_world]; unfold log_info; by rewrite log_at_live]].
  destruct Hi1 as [Hs1 Hh1 Hc1 Ht1]. split; [|done|done|].
  - eapply sys_inv_world; [|exact Hs1]. cbn [px_world set_world]. unfold log_info. by rewrite log_at_live.
  - by repeat constructor.
Qed.

(** [main] up to the event loop. *)
Lemma main_start_spec prog args w :
  pq_live w = ∅ →
  match main_start prog args w with
  | Ret (Exited w' code) => pq_live w' = ∅ ∧ (code = 0 ∨ code = 1)
  | Ret (Serving cfg p) =>
    (main_config prog args w).2 = inr cfg ∧ map_wf (shard_map cfg) ∧ loop_inv (shard_map cfg) p ∧ heap p = ∅ ∧
    pq_live (px_world p) = ∅
  | Ub => ∃ cfg, (main_config prog args w).2 = inr cfg ∧
            Exists (λ s, shard_conninfo s = None) (shards (shard_map cfg))
  | Hang => False
  end.
Proof.
  intros Hw. unfold main_start.
  destruct (main_config_spec prog args w) as (w1 & r & -> & Hl & Hr). rewrite Hw in Hl.
  destruct r as [code|cfg]; [done|]. cbv zeta. cbn [snd].
  match goal with |- context [init_map ?w2 ?g cfg] =>
    assert (pq_live w2 = ∅) as Hl2 by (unfold log_info; by rewrite !log_at_live);
    pose proof (init_map_spec w2 g cfg) as Hm; destruct (init_map w2 g cfg) as [[w3 m]| |] end;
    cbn [mbind res_bind]; [|by exists cfg|done].
  destruct Hm as [Hl3 Hm]. specialize (Hm Hl2). rewrite Hl2 in Hl3. unfold event_loop_init.
  pose proof (proj1 (create1_quiet (install_signals w3))) as Hl4. unfold install_signals in *. rewrite !signal_live in Hl4.
  destruct (epoll_create1 _) as [w4 efd]. cbn [fst] in Hl4. case_decide; cbn [decide].
  { rewrite decide_True by done. split; [congruence|by right]. }
  rewrite decide_False by lia.
  destruct (create_listener_spec w4 (log_level cfg) (listen_addr cfg) (listen_port cfg)) as (w5 & r & E & Hl5 & Hr5).
  unfold log_init. rewrite E. destruct Hr5 as [-> |(fd & -> & Hfd & _)].
  { split; [congruence|by right]. }
  rewrite decide_False by lia.
  destruct (serve_spec w5 (log_level cfg) cfg m (mkEventLoop efd false timer_queue_init) fd) as (p & -> & Hi & Hh & Hlp);
    [|done|].
  { eapply sys_inv_world; [|exact Hm]. congruence. }
  split_and!; [done..|congruence].
Qed.

(** The clean-up closes the connections of the pools. *)
Lemma main_end_spec m0 cfg p :
  loop_inv m0 p →
  ∃ w', main_end cfg p = Ret w' ∧
    pq_live w' = list_to_set ((all_held (sessions p)).*2 ++ all_priv (sessions p)).
Proof.
  intros [(_ & Hr & _) _ _ _]. unfold main_end, config_free, shard_map_destroy, event_loop_destroy.
  assert (∃ w1 l1, (if decide (0 ≤ epfd (loop p)) then
      (sock_close (sock_close (px_world p) (ev_fd (lc_ev (listener p)))) (epfd (loop p)), set_epfd (-1) (loop p))
      else (sock_close (px_world p) (ev_fd (lc_ev (listener p))), loop p)) = (w1, l1) ∧
    pq_live w1 = pq_live (px_world p)) as (w1 & l1 & -> & Hl).
  { case_decide; eexists _, _; (split; [reflexivity|]); by rewrite ?close_live. }
  apply (resources_frame _ w1) in Hr; [|done].
  destruct (resources_destroy _ _ _ _ Hr) as (w2 & E & Hw2). cbn [shard_map set_map]. rewrite E.
  cbn [mbind res_bind]. eexists. split; [reflexivity|]. unfold log_info. by rewrite log_at_live.
Qed.
End start.

(** ** Claims *)
Section claims.
Context {W : Type} {PQ : LibPQ W} {Os : OS W} {K : Kernel W} {Ho : Host W}.
Context {Laws : LibPQLaws W} {OLaws : OSLaws W} {KLaws : KernelLaws W} {HLaws : HostLaws W}.
Context (raw_parser : RawParser).
#[local] Abbreviation pg := (query_tree raw_parser).
Implicit Types (w : W) (p : Proxy W).

(** The state in which [event_loop_run] starts its first round. *)
Definition in_loop p : Proxy W := set_loop (set_running true (loop p)) p.
Definition pools_empty p : Prop :=
  Forall (λ sh, pool_rep (shard_pool sh) [] ∧ active_count (shard_pool sh) = 0) (shards (px_map p)).
Lemma in_loop_inv m0 p : loop_inv m0 p → loop_inv m0 (in_loop p).
Proof. intros [? ? ? ?]. by split. Qed.

(** Without a session and without a connection the pools are empty. *)
Lemma no_sessions m0 p : loop_inv m0 p → heap p = ∅ → pq_live (px_world p) = ∅ → pools_empty p.
Proof.
  intros [(_ & [idles [Hlen Hp _ _ Hlv]] & _) _ _ _] Hh Hw. unfold pools_empty.
  assert (sessions p = []) as E by (unfold sessions; by rewrite Hh, map_to_list_empty). rewrite E in *.
  cbn [all_held all_priv fmap list_fmap concat app] in *. rewrite app_nil_r, Hw in Hlv.
  assert (concat idles = []) as Hnil.
  { destruct (concat idles) as [|c l]; [done|]. symmetry in Hlv. apply (f_equal (λ X : gset PGconn, c ∈ X)) in Hlv.
    assert (c ∈ (∅ : gset PGconn)) as Hin by (rewrite <- Hlv; set_solver). set_solver. }
  apply Forall_lookup. intros i sh Hi. destruct (lookup_lt_is_Some_2 idles i) as [idle Hidle].
  { rewrite Hlen. by eapply lookup_lt_Some. }
  destruct (Hp i sh idle Hi Hidle) as [Hrep _ _ Hact _]. assert (idle = []) as ->; [|by split].
  apply (list_elem_of_lookup_2 idles) in Hidle. clear -Hidle Hnil.
  induction Hidle as [|? ? ? _ IH]; cbn in Hnil; apply app_nil in Hnil as [? ?]; auto.
Qed.

(** C6: The program from its start.  Whatever the command line and the configuration
    file hold, [main] ends with code 0 or 1 without a connection, or reaches the event
    loop with a well-formed shard map, no open connection, empty pools and no session; or a
    shard of the configuration has no conninfo, and [strdup] reads NULL.  In the event loop,
    if every table that is not broadcast has a shard column, and as long as the session of
    each event is still there and the events are [allowed] (see C4), the invariant
    holds after any number of rounds, the next round returns, and leaving the loop there
    closes all connections but those of the sessions that are still there. *)
Theorem program_safe prog args w :
  well_built raw_parser → pq_live w = ∅ →
  match main_start prog args w with
  | Ret (Exited w' code) => pq_live w' = ∅ ∧ (code = 0 ∨ code = 1)
  | Ret (Serving cfg p) =>
    (main_config prog args w).2 = inr cfg ∧ map_wf (shard_map cfg) ∧ heap p = ∅ ∧
    pq_live (px_world p) = ∅ ∧ pools_empty p ∧
    (columns_set (shard_map cfg) →
     ∀ q, rtc (round_step pg allowed) (in_loop p) q →
      loop_inv (shard_map cfg) q ∧
      (round_ok pg allowed (take_signal q) → ∃ b q', loop_round pg (take_signal q) = Ret (b, q')) ∧
      ∃ w', main_end cfg q = Ret w' ∧
        pq_live w' = list_to_set ((all_held (sessions q)).*2 ++ all_priv (sessions q)))
  | Ub => ∃ cfg, (main_config prog args w).2 = inr cfg ∧
            Exists (λ s, shard_conninfo s = None) (shards (shard_map cfg))
  | Hang => False
  end.
Proof.
  intros Hpg%query_tree_prints Hw. pose proof (main_start_spec prog args w Hw) as Hs.
  destruct (main_start prog args w) as [[w' code|cfg p]| |]; [done| |done..].
  destruct Hs as (Hc & Hm & Hi & Hh & Hl). split_and!; [done..|by eapply no_sessions|]. intros Hcol q Hr.
  apply in_loop_inv in Hi. destruct (rounds_safe _ pg allowed _ _ Hpg Hm Hcol (λ _ _ _ Ha, Ha) Hi Hr) as [Hq _].
  split_and!; [done| |by eapply main_end_spec].
  intros Hok. destruct (round_safe _ pg Hpg Hm Hcol allowed (λ _ _ _ Ha, Ha) _ (mv_inv _ _ _ _ _ (signal_safe _ pg allowed _ Hq)) Hok)
    as (b & q' & E & _). by exists b, q'.
Qed.

(** C13: Shutdown.  A signal that arrives after [n] rounds of the event loop ends the
    program: [main] returns 0 without another round, and closes all connections of the
    pools, so that only connections of sessions that were not closed remain. *)
Theorem signal_shuts_down prog args w cfg p n q k :
  well_built raw_parser → pq_live w = ∅ → main_start prog args w = Ret (Serving cfg p) →
  columns_set (shard_map cfg) → nsteps (round_step pg allowed) n (in_loop p) q → signalled (px_world q) = true →
  ∃ w', main pg (n + S k) prog args w = Ret (w', 0) ∧
    pq_live w' = list_to_set ((all_held (sessions q)).*2 ++ all_priv (sessions q)).
Proof.
  intros Hpg%query_tree_prints Hw E Hcol Hr Hsig. pose proof (main_start_spec prog args w Hw) as Hs. rewrite E in Hs.
  destruct Hs as (_ & Hm & Hi & _). apply in_loop_inv in Hi.
  assert (loop_inv (shard_map cfg) q) as Hq.
  { eapply (rounds_safe _ pg allowed _ _ Hpg Hm Hcol (λ _ _ _ Ha, Ha) Hi). apply rtc_nsteps. by exists n. }
  unfold main, event_loop_run. rewrite E. cbn [mbind res_bind]. fold (in_loop p).
  rewrite (loop_while_rounds pg allowed n (S k) _ _ Hr), signal_stops by done. cbn [mbind res_bind].
  assert (loop_inv (shard_map cfg) (set_loop (event_loop_stop (loop q)) q)) as Hq' by (destruct Hq; by split).
  destruct (main_end_spec _ cfg _ Hq') as (w' & -> & Hw'). by exists w'.
Qed.

End claims.

(** ** A run of the program

    The configuration of two shards is loaded, a client connects, logs in, sends a query
    and goes away, and a signal ends the program. *)
Definition sample_file : bytes :=
  print_config sample_shards
    [mkTableDesc (bs "orders") (bs "user_id") SHARD_RANGE [bs "s0"; bs "s1"] false].
#[export] Instance SimHost : Host SimWorld := {|
  stderr_write w s := w;
  localtime w := mkTm 5 4 13 9 0 126;
  strerror w := bs "error";
  read_file w f := (w, if decide (f = bs "conf/sharegres.cnf") then Some sample_file else None);
  socket w := (w, 4);
  set_reuse w fd := w;
  bind w fd a p := (w, true);
  listen w fd n := (w, true);
  signal w s d := w;
|}.
#[export] Instance SimHost_laws : HostLaws SimWorld.
Proof. by split. Qed.
Definition sample_clients : SimWorld := sim_set_input sample_input (RecvError :: sim_input sample_input).
Definition sample_args : list bytes := [bs "-d"; bs "conf"; bs "-l15432"].
Definition sample_serving : option (ShagresCfg * Proxy SimWorld) :=
  match main_start (bs "sharegres") sample_args sample_clients with
  | Ret (Serving cfg p) => Some (cfg, p)
  | _ => None
  end.
Definition sample_cfg : ShagresCfg := match sample_serving with Some (c, _) => c | None => config_default end.
Definition sample_main : Proxy SimWorld := match sample_serving with Some (_, p) => p | None => sample_proxy end.
Lemma sample_main_start :
  main_start (bs "sharegres") sample_args sample_clients = Ret (Serving sample_cfg sample_main).
Proof. vm_compute. reflexivity. Qed.
Lemma sample_columns : columns_set (shard_map sample_cfg).
Proof.
  assert (table_rules (shard_map sample_cfg) = [range_rule]) as E by (vm_compute; reflexivity).
  unfold columns_set. rewrite E. repeat constructor. by eexists.
Qed.

Lemma sample_rounds n p :
  forallb (λ k, sample_can (Nat.iter k sample_next_main p)) (seq 0 n) = true →
  nsteps (round_step sample_pg orderly) n p (Nat.iter n sample_next_main p).
Proof.
  induction n as [|n IH]; [by constructor|]. rewrite seq_S, forallb_app. intros [Hn Hl]%andb_prop.
  apply nsteps_r with (Nat.iter n sample_next_main p); [by apply IH|].
  cbn [forallb] in Hl. apply andb_prop in Hl as [Hl _]. by apply sample_round_step.
Qed.
Lemma sample_three_rounds :
  nsteps (round_step sample_pg orderly) 3 (in_loop sample_main) (Nat.iter 3 sample_next_main (in_loop sample_main)).
Proof. apply sample_rounds. vm_compute. reflexivity. Qed.
Lemma sample_four_rounds :
  nsteps (round_step sample_pg orderly) 4 (in_loop sample_main) (Nat.iter 4 sample_next_main (in_loop sample_main)).
Proof. apply sample_rounds. vm_compute. reflexivity. Qed.

Lemma program_safe_witness :
  loop_inv (shard_map sample_cfg) (Nat.iter 4 sample_next_main (in_loop sample_main)) ∧
  size (pq_live (px_world (Nat.iter 4 sample_next_main (in_loop sample_main)))) = 1%nat.
Proof.
  split; [|vm_compute; reflexivity].
  assert (pq_live sample_clients = ∅) as Hw by reflexivity.
  pose proof (program_safe sample_parser (bs "sharegres") sample_args sample_clients sample_well_built Hw) as H.
  rewrite sample_main_start in H. destruct H as (_ & _ & _ & _ & _ & H).
  apply H; [exact sample_columns|]. apply rtc_nsteps. exists 4%nat. exact (rounds_allowed _ _ _ _ sample_four_rounds).
Defined.
(** The connection of the query is closed. *)
Lemma signal_shuts_down_witness :
  ∃ w', main sample_pg 5 (bs "sharegres") sample_args sample_clients = Ret (w', 0) ∧ pq_live w' = ∅.
Proof.
  assert (pq_live sample_clients = ∅) as Hw by reflexivity.
  assert (signalled (px_world (Nat.iter 4 sample_next_main (in_loop sample_main))) = true) as Hsig
    by (vm_compute; reflexivity).
  destruct (signal_shuts_down sample_parser (bs "sharegres") sample_args sample_clients sample_cfg sample_main 4 _ 0
    sample_well_built Hw sample_main_start sample_columns (rounds_allowed _ _ _ _ sample_four_rounds) Hsig) as (w' & E & Hl).
  exists w'. split; [exact E|]. rewrite Hl.
  assert (sessions (Nat.iter 4 sample_next_main (in_loop sample_main)) = []) as -> by (vm_compute; reflexivity).
  reflexivity.
Defined.
